(** * qr-pdf-compress: the chunked compression orchestrator

    A shallow embedding of the TypeScript sources

      - src/api/types.ts        (types, [CompressionError])
      - src/core/presets.ts     (preset catalog, fallback chain)
      - src/core/error-handler.ts (classification, graceful degradation)
      - src/core/progress.ts    (the [ProgressTracker] class)
      - src/utils/pdf-utils.ts  (validation, chunk size, pdf-lib wrappers)
      - src/utils/memory.ts     (buffer clean-up)
      - src/core/orchestrator.ts (the job driver)
      - src/api/compress.ts     (the public entry point)

    Conventions of the embedding.

      - JavaScript numbers that hold page counts, sizes and indices are [Z];
        progress percentages are exact rationals [Q]; the two divisions whose
        divisor can be zero go through [JsNum], which keeps [Infinity] and
        [NaN].  Rounding of IEEE doubles is not modelled.
      - An [ArrayBuffer] is either attached (a list of bytes) or detached;
        transferring it to a worker detaches the sender's handle.
      - A promise is one of [Resolved], [Rejected] or [Pending] (it never
        settles).  Effects on the outside world are logged as a list of
        [Action]s; the orchestrator wraps the actions of each pass in an
        [Attempt] node.
      - pdf-lib, the engine loader and the two workers are external: their
        answers are read from an environment [Env]. *)

From Stdlib Require Import ZArith QArith Qround String Ascii List Bool Lia Lqa.
From Stdlib Require Import DecimalString.
From Equations Require Import Equations.
From Equations.Prop Require Import Logic.
Import ListNotations.

Open Scope string_scope.
Open Scope list_scope.
Open Scope Z_scope.

(* ===================================================================== *)
(** * src/api/types.ts *)
(* ===================================================================== *)

Inductive CompressionPreset : Type := Lossless | Balanced | Max.

Inductive ProgressPhase : Type := Chunking | Compressing | Merging | ErrorRecovery.

Inductive MergeStrategy : Type := StrategyWorker | StrategyMain.

(** The string a preset is at run time. *)
Definition preset_name (p : CompressionPreset) : string :=
  match p with
  | Lossless => "lossless"
  | Balanced => "balanced"
  | Max => "max"
  end.

Definition preset_eqb (p q : CompressionPreset) : bool :=
  match p, q with
  | Lossless, Lossless | Balanced, Balanced | Max, Max => true
  | _, _ => false
  end.

Record ProgressEvent : Type := mkEvent {
  phase : ProgressPhase;
  progress : Q;
  currentChunk : option Z;
  totalChunks : option Z;
  estimatedTimeRemaining : option Z;
  message : option string
}.

(** Everything the code throws is an instance of [Error]: a plain [Error],
    a [TypeError], or the library's [CompressionError]. *)
#[warnings="-register-all"]
Inductive JsError : Type :=
| Error (msg : string)
| TypeError (msg : string)
| CompressionError (msg : string) (attemptedPreset : CompressionPreset)
    (originalSize : Z) (errPhase : option ProgressPhase)
    (underlyingError : option JsError).

Definition error_message (e : JsError) : string :=
  match e with
  | Error m | TypeError m | CompressionError m _ _ _ _ => m
  end.

Definition is_CompressionError (e : JsError) : bool :=
  match e with CompressionError _ _ _ _ _ => true | _ => false end.

(* ===================================================================== *)
(** * JavaScript values used by the code *)
(* ===================================================================== *)

(** A promise's fate. *)
Inductive Outcome (A : Type) : Type :=
| Resolved (a : A)
| Rejected (e : JsError)
| Pending.
Arguments Resolved {A} a.
Arguments Rejected {A} e.
Arguments Pending {A}.

(** An [ArrayBuffer]: attached with its bytes, or detached (neutered). *)
Inductive ArrayBuffer : Type :=
| Buf (bytes : list Z)
| Detached.

Definition byteLength (b : ArrayBuffer) : Z :=
  match b with
  | Buf bytes => Z.of_nat (List.length bytes)
  | Detached => 0
  end.

(** [buffer.slice(0)]: a fresh buffer with the same bytes. *)
Definition slice0 (b : ArrayBuffer) : ArrayBuffer :=
  match b with
  | Buf bytes => Buf bytes
  | Detached => Detached
  end.

(** The sender's handle after [postMessage(msg, [buffer])]. *)
Definition transfer (b : ArrayBuffer) : ArrayBuffer := Detached.

(** Results of [/] where the divisor may be zero. *)
Inductive JsNum : Type :=
| Fin (q : Q)
| PosInfinity
| NegInfinity
| NaN.

Definition js_div (a b : Z) : JsNum :=
  if b =? 0 then
    (if a =? 0 then NaN else if 0 <? a then PosInfinity else NegInfinity)
  else Fin (inject_Z a / inject_Z b).

Definition js_times100 (x : JsNum) : JsNum :=
  match x with
  | Fin q => Fin (q * 100)
  | other => other
  end.

(** [x || d] on an optional number: [undefined] and [0] are falsy. *)
Definition or_default_Z (x : option Z) (d : Z) : Z :=
  match x with
  | Some v => if v =? 0 then d else v
  | None => d
  end.

(** Truthiness of an optional boolean. *)
Definition truthy (b : option bool) : bool :=
  match b with Some true => true | _ => false end.

(** [x !== false]. *)
Definition not_false (b : option bool) : bool :=
  match b with Some false => false | _ => true end.

(** Template-literal rendering of an integer. *)
Definition show_Z (z : Z) : string := NilZero.string_of_int (Z.to_int z).

(** [String.prototype.toLowerCase], on the ASCII letters.  Characters
    outside ASCII are left as they are, also the few that JavaScript maps
    to an ASCII letter (the Kelvin sign to k). *)
Definition lower_ascii (c : ascii) : ascii :=
  let n := nat_of_ascii c in
  if (Nat.leb 65 n && Nat.leb n 90)%bool then ascii_of_nat (n + 32) else c.

Fixpoint toLowerCase (s : string) : string :=
  match s with
  | EmptyString => EmptyString
  | String c rest => String (lower_ascii c) (toLowerCase rest)
  end.

(** [s.includes(sub)]. *)
Fixpoint includes (s sub : string) : bool :=
  if String.prefix sub s then true
  else match s with
       | EmptyString => false
       | String _ rest => includes rest sub
       end.

(* ===================================================================== *)
(** * src/core/presets.ts *)
(* ===================================================================== *)

Record PresetConfig : Type := mkPresetConfig {
  cfg_preset : CompressionPreset;
  cfg_targetDPI : option Z;
  cfg_jpegQuality : option Q;
  (** [boolean] in the interface; [undefined] once an override carries it *)
  cfg_preserveMetadata : option bool;
  cfg_enableRasterization : option bool;
  cfg_description : string;
  cfg_expectedSavings : string
}.

Definition LOSSLESS_PRESET : PresetConfig := {|
  cfg_preset := Lossless;
  cfg_targetDPI := None;
  cfg_jpegQuality := None;
  cfg_preserveMetadata := Some true;
  cfg_enableRasterization := Some false;
  cfg_description :=
    "Optimize structure without quality loss. Best for documents with text and vectors.";
  cfg_expectedSavings := "5-30%"
|}.

Definition BALANCED_PRESET : PresetConfig := {|
  cfg_preset := Balanced;
  cfg_targetDPI := Some 150;
  cfg_jpegQuality := Some (65 # 100)%Q;
  cfg_preserveMetadata := Some true;
  cfg_enableRasterization := Some false;
  cfg_description :=
    "Smart compression with minimal quality impact. Recommended for most PDFs.";
  cfg_expectedSavings := "30-70%"
|}.

Definition MAX_PRESET : PresetConfig := {|
  cfg_preset := Max;
  cfg_targetDPI := Some 120;
  cfg_jpegQuality := Some (4 # 10)%Q;
  cfg_preserveMetadata := Some false;
  cfg_enableRasterization := Some false;
  cfg_description :=
    "Maximum compression. May reduce image quality. Best for scanned documents.";
  cfg_expectedSavings := "60-90%"
|}.

Definition PRESETS (p : CompressionPreset) : PresetConfig :=
  match p with
  | Lossless => LOSSLESS_PRESET
  | Balanced => BALANCED_PRESET
  | Max => MAX_PRESET
  end.

Definition getPresetConfig (preset : CompressionPreset) : PresetConfig :=
  PRESETS preset.

(** A [Partial<PresetConfig>]: [None] is an absent key, [Some v] a key that
    is present with value [v] (which may itself be [undefined]). *)
Record PresetOverrides : Type := mkOverrides {
  ov_preset : option CompressionPreset;
  ov_targetDPI : option (option Z);
  ov_jpegQuality : option (option Q);
  ov_preserveMetadata : option (option bool);
  ov_enableRasterization : option (option bool);
  ov_description : option string;
  ov_expectedSavings : option string
}.

Definition spread {A : Type} (base : A) (over : option A) : A :=
  match over with Some v => v | None => base end.

(** [{ ...baseConfig, ...overrides }]: a key that is present wins, whatever
    its value. *)
Definition getPresetConfigWithOverrides
    (preset : CompressionPreset) (overrides : PresetOverrides) : PresetConfig :=
  let baseConfig := getPresetConfig preset in
  {| cfg_preset := spread (cfg_preset baseConfig) (ov_preset overrides);
     cfg_targetDPI := spread (cfg_targetDPI baseConfig) (ov_targetDPI overrides);
     cfg_jpegQuality := spread (cfg_jpegQuality baseConfig) (ov_jpegQuality overrides);
     cfg_preserveMetadata :=
       spread (cfg_preserveMetadata baseConfig) (ov_preserveMetadata overrides);
     cfg_enableRasterization :=
       spread (cfg_enableRasterization baseConfig) (ov_enableRasterization overrides);
     cfg_description := spread (cfg_description baseConfig) (ov_description overrides);
     cfg_expectedSavings :=
       spread (cfg_expectedSavings baseConfig) (ov_expectedSavings overrides) |}.

Definition isValidPreset (preset : string) : bool :=
  (String.eqb preset "lossless" || String.eqb preset "balanced"
   || String.eqb preset "max")%bool.

Definition getFallbackPreset (preset : CompressionPreset) : option CompressionPreset :=
  match preset with
  | Max => Some Balanced
  | Balanced => Some Lossless
  | Lossless => None
  end.

(** Aggressiveness; every fallback step lowers it, which is why the
    [while (true)] loop of [getPresetFallbackChain] ends. *)
Definition preset_rank (p : CompressionPreset) : nat :=
  match p with Lossless => 0 | Balanced => 1 | Max => 2 end.

(** The body of the [while (true)] loop: [current] and [chain] are the two
    mutable locals. *)
Equations? fallbackLoop (current : CompressionPreset) (chain : list CompressionPreset)
  : list CompressionPreset by wf (preset_rank current) lt :=
  fallbackLoop current chain with inspect (getFallbackPreset current) => {
    | exist _ None _ => chain
    | exist _ (Some fallback) _ => fallbackLoop fallback (chain ++ [fallback]) }.
Proof. destruct current; inversion e; subst; simpl; lia. Qed.

Definition getPresetFallbackChain (preset : CompressionPreset) : list CompressionPreset :=
  fallbackLoop preset [preset].

(* ===================================================================== *)
(** * src/core/error-handler.ts *)
(* ===================================================================== *)

Inductive ErrorType : Type :=
| INVALID_PDF
| OUT_OF_MEMORY
| WASM_LOAD_FAILED
| WORKER_ERROR
| TIMEOUT
| VALIDATION_FAILED
| UNKNOWN.

(** The enum's string value, as a template literal prints it. *)
Definition errorType_name (t : ErrorType) : string :=
  match t with
  | INVALID_PDF => "INVALID_PDF"
  | OUT_OF_MEMORY => "OUT_OF_MEMORY"
  | WASM_LOAD_FAILED => "WASM_LOAD_FAILED"
  | WORKER_ERROR => "WORKER_ERROR"
  | TIMEOUT => "TIMEOUT"
  | VALIDATION_FAILED => "VALIDATION_FAILED"
  | UNKNOWN => "UNKNOWN"
  end.

Definition classifyError (error : JsError) : ErrorType :=
  let message := toLowerCase (error_message error) in
  if (includes message "invalid pdf" || includes message "not a valid pdf")%bool
  then INVALID_PDF
  else if (includes message "out of memory" || includes message "memory"
           || includes message "heap")%bool
  then OUT_OF_MEMORY
  else if (includes message "wasm" || includes message "webassembly")%bool
  then WASM_LOAD_FAILED
  else if includes message "worker"
  then WORKER_ERROR
  else if (includes message "timeout" || includes message "timed out")%bool
  then TIMEOUT
  else if (includes message "validation" || includes message "corrupt")%bool
  then VALIDATION_FAILED
  else UNKNOWN.

Definition isRecoverableError (errorType : ErrorType) : bool :=
  match errorType with
  | OUT_OF_MEMORY | TIMEOUT | WORKER_ERROR | UNKNOWN => true
  | INVALID_PDF | WASM_LOAD_FAILED | VALIDATION_FAILED => false
  end.

Definition getUserFriendlyErrorMessage
    (errorType : ErrorType) (preset : CompressionPreset) : string :=
  match errorType with
  | INVALID_PDF => "The provided file is not a valid PDF or is corrupted."
  | OUT_OF_MEMORY =>
      ("Compression with " ++ preset_name preset ++
       " preset exceeded available memory. Try using a lighter preset or smaller chunk size.")%string
  | WASM_LOAD_FAILED =>
      "Failed to load the compression engine. Please check your internet connection and try again."
  | WORKER_ERROR =>
      ("Worker failed during " ++ preset_name preset ++
       " compression. This may be due to browser limitations.")%string
  | TIMEOUT =>
      ("Compression with " ++ preset_name preset ++
       " preset timed out. Try using a lighter preset or smaller chunk size.")%string
  | VALIDATION_FAILED =>
      "The compressed PDF failed validation. The file may be corrupted."
  | UNKNOWN => "An unexpected error occurred during compression."
  end.

Record DegradationDecision : Type := mkDecision {
  shouldRetry : bool;
  nextPreset : option CompressionPreset;
  errorMessage : option string
}.

(** The events delivered to [onProgress] (none when it is not supplied) and
    the decision. *)
Definition handleErrorWithGracefulDegradation
    (error : JsError) (currentPreset : CompressionPreset)
    (gracefulDegradation : bool) (onProgress : bool)
  : list ProgressEvent * DegradationDecision :=
  let errorType := classifyError error in
  let isRecoverable := isRecoverableError errorType in
  if (negb isRecoverable || negb gracefulDegradation)%bool then
    ([], {| shouldRetry := false; nextPreset := None;
            errorMessage := Some (getUserFriendlyErrorMessage errorType currentPreset) |})
  else
    match getFallbackPreset currentPreset with
    | None =>
        ([], {| shouldRetry := false; nextPreset := None;
                errorMessage :=
                  Some ("All compression presets failed. " ++
                        getUserFriendlyErrorMessage errorType currentPreset)%string |})
    | Some fallbackPreset =>
        ((if onProgress then
            [ {| phase := ErrorRecovery; progress := 0%Q;
                 currentChunk := None; totalChunks := None;
                 estimatedTimeRemaining := None;
                 message :=
                   Some (preset_name currentPreset ++ " compression failed (" ++
                         errorType_name errorType ++ "). Trying " ++
                         preset_name fallbackPreset ++ " preset...")%string |} ]
          else []),
         {| shouldRetry := true; nextPreset := Some fallbackPreset;
            errorMessage := None |})
    end.

Definition createCompressionError
    (error : JsError) (preset : CompressionPreset) (originalSize : Z)
    (errPhase : option ProgressPhase) : JsError :=
  let errorType := classifyError error in
  let message := getUserFriendlyErrorMessage errorType preset in
  CompressionError message preset originalSize errPhase (Some error).

(** [new Uint8Array(buffer)] throws on a detached buffer. *)
Definition isValidBuffer (buffer : ArrayBuffer) : bool :=
  match buffer with Buf _ => true | Detached => false end.

(* ===================================================================== *)
(** * src/core/progress.ts *)
(* ===================================================================== *)

(** The tracker's fields.  [startTime] is only read by [getElapsedTime],
    which nothing calls; it is left out. *)
Record ProgressTracker : Type := mkTracker {
  pt_totalChunks : Z;
  pt_completedChunks : Z;
  pt_currentPhase : ProgressPhase;
  pt_chunkTimes : list Z;
  pt_onProgress : bool
}.

Definition newProgressTracker (onProgress : bool) : ProgressTracker :=
  {| pt_totalChunks := 0; pt_completedChunks := 0; pt_currentPhase := Chunking;
     pt_chunkTimes := []; pt_onProgress := onProgress |}.

Module Tracker.

(** Every method returns the tracker after the call and the events the
    callback received. *)
Definition Method : Type := ProgressTracker -> ProgressTracker * list ProgressEvent.

Definition emit (t : ProgressTracker) (event : ProgressEvent) : list ProgressEvent :=
  if pt_onProgress t then [event] else [].

Definition calculateProgress (t : ProgressTracker) : Q :=
  if pt_totalChunks t =? 0 then 0%Q
  else match pt_currentPhase t with
       | Chunking => 5%Q
       | Compressing =>
           let compressionProgress :=
             (inject_Z (pt_completedChunks t) / inject_Z (pt_totalChunks t))%Q in
           (10 + compressionProgress * 80)%Q
       | Merging => 95%Q
       | ErrorRecovery =>
           (inject_Z (pt_completedChunks t) / inject_Z (pt_totalChunks t) * 90)%Q
       end.

Definition sumTimes (chunkTimes : list Z) : Z := fold_left Z.add chunkTimes 0.

(** The average and the product are taken exactly, where the code computes
    them in doubles before [Math.ceil]. *)
Definition estimateTimeRemaining (t : ProgressTracker) : option Z :=
  if (Nat.eqb (List.length (pt_chunkTimes t)) 0
      || (pt_totalChunks t <=? pt_completedChunks t))%bool
  then None
  else
    let avgChunkTime :=
      (inject_Z (sumTimes (pt_chunkTimes t))
       / inject_Z (Z.of_nat (List.length (pt_chunkTimes t))))%Q in
    let remainingChunks := pt_totalChunks t - pt_completedChunks t in
    Some (Qceiling (avgChunkTime * inject_Z remainingChunks)).

Definition emitProgress (t : ProgressTracker) : list ProgressEvent :=
  emit t {| phase := pt_currentPhase t;
            progress := calculateProgress t;
            currentChunk := Some (pt_completedChunks t + 1);
            totalChunks := Some (pt_totalChunks t);
            estimatedTimeRemaining := estimateTimeRemaining t;
            message := None |}.

Definition setTotalChunks (total : Z) : Method := fun t =>
  ({| pt_totalChunks := total; pt_completedChunks := pt_completedChunks t;
      pt_currentPhase := pt_currentPhase t; pt_chunkTimes := pt_chunkTimes t;
      pt_onProgress := pt_onProgress t |}, []).

Definition withPhase (t : ProgressTracker) (p : ProgressPhase) : ProgressTracker :=
  {| pt_totalChunks := pt_totalChunks t; pt_completedChunks := pt_completedChunks t;
     pt_currentPhase := p; pt_chunkTimes := pt_chunkTimes t;
     pt_onProgress := pt_onProgress t |}.

Definition setPhase (p : ProgressPhase) : Method := fun t =>
  let t' := withPhase t p in (t', emitProgress t').

Definition reportChunkingProgress (progress : Q) : Method := fun t =>
  let t' := withPhase t Chunking in
  (t', emit t' {| phase := Chunking; progress := progress;
                  currentChunk := None; totalChunks := None;
                  estimatedTimeRemaining := None; message := None |}).

Definition startChunk (chunkIndex : Z) : Method := fun t =>
  let t' := withPhase t Compressing in
  (t', emit t' {| phase := Compressing; progress := calculateProgress t';
                  currentChunk := Some (chunkIndex + 1);
                  totalChunks := Some (pt_totalChunks t');
                  estimatedTimeRemaining := None; message := None |}).

Definition completeChunk (chunkIndex : Z) (processingTime : Z) : Method := fun t =>
  let t' := {| pt_totalChunks := pt_totalChunks t;
               pt_completedChunks := pt_completedChunks t + 1;
               pt_currentPhase := pt_currentPhase t;
               pt_chunkTimes := pt_chunkTimes t ++ [processingTime];
               pt_onProgress := pt_onProgress t |} in
  (t', emit t' {| phase := Compressing; progress := calculateProgress t';
                  currentChunk := Some (chunkIndex + 1);
                  totalChunks := Some (pt_totalChunks t');
                  estimatedTimeRemaining := estimateTimeRemaining t';
                  message := None |}).

(** [Math.min(95, 90 + progress * 0.1)]. *)
Definition reportMergingProgress (progress : Q) : Method := fun t =>
  let t' := withPhase t Merging in
  let scaled := (90 + progress * (1 # 10))%Q in
  (t', emit t' {| phase := Merging;
                  progress := if Qle_bool 95 scaled then 95%Q else scaled;
                  currentChunk := None; totalChunks := None;
                  estimatedTimeRemaining := None; message := None |}).

Definition reportComplete : Method := fun t =>
  (t, emit t {| phase := Merging; progress := 100%Q;
                currentChunk := None; totalChunks := None;
                estimatedTimeRemaining := None; message := None |}).

Definition reportErrorRecovery (msg : string) : Method := fun t =>
  (t, emit t {| phase := ErrorRecovery; progress := calculateProgress t;
                currentChunk := None; totalChunks := None;
                estimatedTimeRemaining := None; message := Some msg |}).

End Tracker.

(* ===================================================================== *)
(** * The outside world *)
(* ===================================================================== *)

(** A pdf-lib call either returns or throws; [LibThrows None] is a thrown
    value that is not an [Error]. *)
Inductive LibResult (A : Type) : Type :=
| LibOk (a : A)
| LibThrows (msg : option string).
Arguments LibOk {A} a.
Arguments LibThrows {A} msg.

(** [error instanceof Error ? error.message : 'Unknown error']. *)
Definition lib_message (m : option string) : string :=
  match m with Some s => s | None => "Unknown error" end.

Record Metadata : Type := mkMetadata {
  md_title : option string;
  md_author : option string;
  md_subject : option string;
  md_keywords : option string;
  md_creator : option string;
  md_producer : option string;
  md_creationDate : option Z;
  md_modificationDate : option Z
}.

(** The object [{}]. *)
Definition emptyMetadata : Metadata :=
  mkMetadata None None None None None None None None.

Record WorkerOptions : Type := mkWorkerOptions {
  wo_targetDPI : option Z;
  wo_jpegQuality : option Q;
  wo_preserveMetadata : option bool;
  wo_enableRasterization : option bool
}.

Record CompressChunkMessage : Type := mkCompressChunkMessage {
  ccm_chunkIndex : Z;
  ccm_pdfData : ArrayBuffer;
  ccm_preset : CompressionPreset;
  ccm_options : WorkerOptions
}.

Record ChunkCompleteMessage : Type := mkChunkComplete {
  cc_chunkIndex : Z;
  cc_compressedPdf : list Z;
  cc_originalSize : Z;
  cc_compressedSize : Z;
  cc_processingTime : Z
}.

(** What a compression worker does first: one of its two terminal
    messages, an [onerror] event, or nothing before the timer fires. *)
Inductive CompressWorkerRun : Type :=
| PostsChunkComplete (m : ChunkCompleteMessage)
| PostsError (error : string)
| FiresOnError (msg : string)
| StaysSilent.

Record MergeChunksMessage : Type := mkMergeChunksMessage {
  mcm_chunks : list ArrayBuffer;
  mcm_originalMetadata : option Metadata
}.

Inductive MergeTerminal : Type :=
| PostsMergeComplete (pdf : list Z)
| MergePostsError (error : string)
| MergeFiresOnError (msg : string)
| MergeStaysSilent.

(** A merge worker's [progress] messages, then its terminal event. *)
Record MergeWorkerRun : Type := mkMergeRun {
  mw_progress : list Q;
  mw_terminal : MergeTerminal
}.

(** How the promise of [loadWASM] ends: it resolves, it is rejected, or it
    never settles (the loader polls for the engine's functions without a
    limit). *)
Inductive WasmLoad : Type :=
| WasmLoaded
| WasmLoadThrows (thrown : option JsError)
| WasmNeverLoads.

Record Env : Type := mkEnv {
  (** [navigator.userAgent] matches a mobile device *)
  env_isMobile : bool;
  (** [Date.now()] when the orchestrator starts and when it builds its result *)
  env_startTime : Z;
  env_endTime : Z;
  (** [loadWASM(url)] *)
  env_loadWASM : option string -> WasmLoad;
  (** [PDFDocument.load(buffer)] followed by [getPageCount()] *)
  env_pageCount : ArrayBuffer -> LibResult Z;
  (** copying the pages with the given indices into a new document and saving it *)
  env_copyPages : ArrayBuffer -> list Z -> LibResult (list Z);
  (** reading the document information dictionary *)
  env_readMetadata : ArrayBuffer -> LibResult Metadata;
  (** building and saving the merged document *)
  env_mergeDocuments : list ArrayBuffer -> option Metadata -> LibResult (list Z);
  (** the worker spawned for a chunk *)
  env_compressWorker : CompressChunkMessage -> CompressWorkerRun;
  (** the worker spawned for the merge *)
  env_mergeWorker : MergeChunksMessage -> MergeWorkerRun
}.

(** What the code does to the outside world, in order. *)
Inductive Action : Type :=
| OnProgress (ev : ProgressEvent)
| CallLoadWASM (url : option string)
| CallCountPages
| CallExtractMetadata
| CallExtractPages (startPage endPage : Z)
| PostCompressChunk (m : CompressChunkMessage)
| CallMergePDFs (chunks : list ArrayBuffer)
| PostMergeChunks (m : MergeChunksMessage) (transferList : list ArrayBuffer).

(** The orchestrator's log: its own actions, and one node per call of
    [compressWithPreset] holding that pass's actions. *)
Inductive Step : Type :=
| Act (a : Action)
| Attempt (preset : CompressionPreset) (acts : list Action).

(* ===================================================================== *)
(** * A state-and-promise monad *)
(* ===================================================================== *)

Definition M (S A : Type) : Type := S -> S * Outcome A.

Definition ret {S A : Type} (a : A) : M S A := fun s => (s, Resolved a).

Definition bind {S A B : Type} (m : M S A) (k : A -> M S B) : M S B :=
  fun s =>
    match m s with
    | (s', Resolved a) => k a s'
    | (s', Rejected e) => (s', Rejected e)
    | (s', Pending) => (s', Pending)
    end.

Definition throw {S A : Type} (e : JsError) : M S A := fun s => (s, Rejected e).

(** [await] of a promise whose fate is known. *)
Definition await {S A : Type} (o : Outcome A) : M S A := fun s => (s, o).

Declare Scope js_scope.
Delimit Scope js_scope with js.
Notation "x <- m ;; k" := (bind m (fun x => k))
  (at level 61, m at next level, right associativity) : js_scope.
Notation "m ;;; k" := (bind m (fun _ => k))
  (at level 61, right associativity) : js_scope.
Notation "' pat <- m ;; k" := (bind m (fun x => match x with pat => k end))
  (at level 61, pat pattern, m at next level, right associativity) : js_scope.

(* ===================================================================== *)
(** * src/utils/memory.ts *)
(* ===================================================================== *)

(** [new Uint8Array(buffer)] builds a view or throws into the empty
    [catch]; the buffer is the same afterwards on both paths. *)
Definition clearBuffer (buffer : ArrayBuffer) : ArrayBuffer :=
  match buffer with
  | Buf bytes => Buf bytes
  | Detached => Detached
  end.

Definition clearBuffers (buffers : list ArrayBuffer) : list ArrayBuffer :=
  map clearBuffer buffers.

Definition createTransferable (buffer : ArrayBuffer) : ArrayBuffer := buffer.

(* ===================================================================== *)
(** * src/utils/pdf-utils.ts *)
(* ===================================================================== *)

Definition PDF_MAGIC_BYTES : list Z := [37; 80; 68; 70].

Definition isValidPDF (buffer : ArrayBuffer) : bool :=
  if byteLength buffer <? 4 then false
  else match buffer with
       | Buf bytes =>
           forallb (fun '(index, byte) =>
                      match nth_error bytes index with
                      | Some b => b =? byte
                      | None => false
                      end)
                   (combine (seq 0 4) PDF_MAGIC_BYTES)
       | Detached => false
       end.

Definition countPages (env : Env) (buffer : ArrayBuffer) : Outcome Z :=
  match env_pageCount env buffer with
  | LibOk n => Resolved n
  | LibThrows m => Rejected (Error ("Failed to count pages: " ++ lib_message m)%string)
  end.

(** [Array.from({ length }, (_, i) => f i)]; a negative length counts as 0. *)
Definition arrayFrom (len : Z) (f : Z -> Z) : list Z :=
  map (fun i => f (Z.of_nat i)) (seq 0 (Z.to_nat len)).

Definition extractPages (env : Env) (buffer : ArrayBuffer) (startPage endPage : Z)
  : Outcome ArrayBuffer :=
  let failure m :=
    Rejected (Error ("Failed to extract pages " ++ show_Z startPage ++ "-" ++
                     show_Z endPage ++ ": " ++ lib_message m)%string) in
  match env_pageCount env buffer with
  | LibThrows m => failure m
  | LibOk pageCount =>
      let actualEndPage := Z.min endPage pageCount in
      let pageIndices := arrayFrom (actualEndPage - startPage) (fun i => startPage + i) in
      match env_copyPages env buffer pageIndices with
      | LibThrows m => failure m
      | LibOk pdfBytes => Resolved (Buf pdfBytes)
      end
  end.

Definition mergePDFs (env : Env) (chunks : list ArrayBuffer) (metadata : option Metadata)
  : Outcome ArrayBuffer :=
  match env_mergeDocuments env chunks metadata with
  | LibOk pdfBytes => Resolved (Buf pdfBytes)
  | LibThrows m => Rejected (Error ("Failed to merge PDFs: " ++ lib_message m)%string)
  end.

Definition extractMetadata (env : Env) (buffer : ArrayBuffer) : Metadata :=
  match env_readMetadata env buffer with
  | LibOk md => md
  | LibThrows _ => emptyMetadata
  end.

(** [x > c] for a quotient [x]. *)
Definition js_gt (x : JsNum) (c : Z) : bool :=
  match x with
  | Fin q => negb (Qle_bool q (inject_Z c))
  | PosInfinity => true
  | NegInfinity | NaN => false
  end.

Definition calculateChunkSize
    (env : Env) (totalPages fileSizeBytes : Z) (defaultChunkSize : Z) : Z :=
  let isMobile := env_isMobile env in
  let avgPageSize := js_div fileSizeBytes totalPages in
  if (js_gt avgPageSize (5 * 1024 * 1024) || isMobile)%bool then Z.min 5 defaultChunkSize
  else if 500 <? totalPages then Z.min 5 defaultChunkSize
  else defaultChunkSize.

(* ===================================================================== *)
(** * src/core/orchestrator.ts *)
(* ===================================================================== *)

(** [CompressionOptions]; [opt_onProgress] tells whether a callback was
    supplied (what it receives is in the log). *)
Record CompressionOptions : Type := mkOptions {
  opt_preset : CompressionPreset;
  opt_chunkSize : option Z;
  opt_onProgress : bool;
  opt_wasmUrl : option string;
  opt_gracefulDegradation : option bool;
  opt_preserveMetadata : option bool;
  opt_targetDPI : option Z;
  opt_jpegQuality : option Q;
  opt_enableRasterization : option bool;
  opt_mergeStrategy : option MergeStrategy;
  opt_timeout : option Z
}.

(** [{ ...options, preset }]. *)
Definition withPreset (options : CompressionOptions) (preset : CompressionPreset)
  : CompressionOptions :=
  {| opt_preset := preset;
     opt_chunkSize := opt_chunkSize options;
     opt_onProgress := opt_onProgress options;
     opt_wasmUrl := opt_wasmUrl options;
     opt_gracefulDegradation := opt_gracefulDegradation options;
     opt_preserveMetadata := opt_preserveMetadata options;
     opt_targetDPI := opt_targetDPI options;
     opt_jpegQuality := opt_jpegQuality options;
     opt_enableRasterization := opt_enableRasterization options;
     opt_mergeStrategy := opt_mergeStrategy options;
     opt_timeout := opt_timeout options |}.

(** [Omit<CompressionStats, 'processingTime' | 'presetUsed'>]. *)
Record PassStats : Type := mkPassStats {
  ps_originalSize : Z;
  ps_compressedSize : Z;
  ps_ratio : JsNum;
  ps_bytesSaved : Z;
  ps_percentageSaved : JsNum;
  ps_chunksProcessed : Z
}.

Record PassResult : Type := mkPassResult {
  pr_pdf : ArrayBuffer;
  pr_stats : PassStats
}.

Record CompressionStats : Type := mkStats {
  originalSize : Z;
  compressedSize : Z;
  ratio : JsNum;
  bytesSaved : Z;
  percentageSaved : JsNum;
  presetUsed : CompressionPreset;
  processingTime : Z;
  chunksProcessed : Z
}.

Record CompressionResult : Type := mkResult {
  pdf : ArrayBuffer;
  stats : CompressionStats;
  warning : option string
}.

(** The two locals of one pass that change: the tracker and the log. *)
Record PassState : Type := mkPassState {
  st_progress : ProgressTracker;
  st_log : list Action
}.

Definition Pass (A : Type) : Type := M PassState A.

(** A call of a tracker method. *)
Definition track (method : Tracker.Method) : Pass unit := fun s =>
  let '(t', evs) := method (st_progress s) in
  ({| st_progress := t'; st_log := st_log s ++ map OnProgress evs |}, Resolved tt).

Definition perform (a : Action) : Pass unit := fun s =>
  ({| st_progress := st_progress s; st_log := st_log s ++ [a] |}, Resolved tt).

Record ChunkStat : Type := mkChunkStat {
  chunk_originalSize : Z;
  chunk_compressedSize : Z
}.

(** The [compress-chunk] task. *)
Definition compressChunkMessage
    (chunkPdf : ArrayBuffer) (options : CompressionOptions) (chunkIndex : Z)
  : CompressChunkMessage :=
  {| ccm_chunkIndex := chunkIndex;
     ccm_pdfData := chunkPdf;
     ccm_preset := opt_preset options;
     ccm_options :=
       {| wo_targetDPI := opt_targetDPI options;
          wo_jpegQuality := opt_jpegQuality options;
          wo_preserveMetadata := opt_preserveMetadata options;
          wo_enableRasterization := opt_enableRasterization options |} |}.

(** The promise of [compressChunk].  The executor posts the task with the
    chunk in the transfer list before anything can answer, so on every path
    the caller's [chunkPdf] is detached afterwards; on success the function
    hands back the worker's buffer together with that handle. *)
Definition compressChunk
    (env : Env) (chunkPdf : ArrayBuffer) (options : CompressionOptions) (chunkIndex : Z)
  : Pass (ArrayBuffer * ArrayBuffer) :=
  (let message := compressChunkMessage chunkPdf options chunkIndex in
   perform (PostCompressChunk message) ;;;
   let chunkPdf_after := transfer chunkPdf in
   let timeout := or_default_Z (opt_timeout options) 300000 in
   match env_compressWorker env message with
   | PostsChunkComplete result => ret (Buf (cc_compressedPdf result), chunkPdf_after)
   | PostsError error => throw (Error error)
   | FiresOnError msg => throw (Error ("Worker error: " ++ msg)%string)
   | StaysSilent =>
       throw (Error ("Chunk " ++ show_Z chunkIndex ++ " compression timed out after " ++
                     show_Z timeout ++ "ms")%string)
   end)%js.

Definition isMainStrategy (s : option MergeStrategy) : bool :=
  match s with Some StrategyMain => true | _ => false end.

Fixpoint reportAll (ps : list Q) : Pass unit :=
  match ps with
  | [] => ret tt
  | p :: rest => (track (Tracker.reportMergingProgress p) ;;; reportAll rest)%js
  end.

Definition mergeChunks
    (env : Env) (chunks : list ArrayBuffer) (metadata : option Metadata)
    (options : CompressionOptions) : Pass ArrayBuffer :=
  (if (isMainStrategy (opt_mergeStrategy options) || Nat.eqb (List.length chunks) 1)%bool
   then
     match chunks with
     | [only] => ret only
     | _ =>
         perform (CallMergePDFs chunks) ;;;
         await (mergePDFs env chunks metadata)
     end
   else
     let message := {| mcm_chunks := chunks; mcm_originalMetadata := metadata |} in
     let transferList := filter (fun c => 0 <? byteLength c) chunks in
     perform (PostMergeChunks message transferList) ;;;
     let run := env_mergeWorker env message in
     reportAll (mw_progress run) ;;;
     match mw_terminal run with
     | PostsMergeComplete result => ret (Buf result)
     | MergePostsError error => throw (Error error)
     | MergeFiresOnError msg => throw (Error ("Merge worker error: " ++ msg)%string)
     | MergeStaysSilent => await Pending
     end)%js.

(** [Math.ceil(a / b)] for [b <> 0]. *)
Definition ceilDiv (a b : Z) : Z := - ((- a) / b).

Definition chunkStart (chunkSize i : Z) : Z := i * chunkSize.
Definition chunkEnd (totalPages chunkSize i : Z) : Z :=
  Z.min ((i + 1) * chunkSize) totalPages.

(** The [for (let i = 0; i < numChunks; i++)] loop, entered with
    [remaining = numChunks - i] iterations to go. *)
Fixpoint chunkLoop
    (env : Env) (pdfBuffer : ArrayBuffer) (options : CompressionOptions)
    (totalPages chunkSize : Z) (remaining : nat) (i : Z)
    (compressedChunks : list ArrayBuffer) (chunkStats : list ChunkStat)
  : Pass (list ArrayBuffer * list ChunkStat) :=
  match remaining with
  | O => ret (compressedChunks, chunkStats)
  | S remaining' =>
      (let startPage := chunkStart chunkSize i in
       let endPage := chunkEnd totalPages chunkSize i in
       perform (CallExtractPages startPage endPage) ;;;
       chunkPdf <- await (extractPages env pdfBuffer startPage endPage) ;;
       track (Tracker.startChunk i) ;;;
       '(compressed, chunkPdf) <- compressChunk env chunkPdf options i ;;
       let chunkStats :=
         chunkStats ++ [ {| chunk_originalSize := byteLength chunkPdf;
                            chunk_compressedSize := byteLength compressed |} ] in
       let compressedChunks := compressedChunks ++ [compressed] in
       track (Tracker.completeChunk i (byteLength compressed)) ;;;
       chunkLoop env pdfBuffer options totalPages chunkSize remaining' (i + 1)
                 compressedChunks chunkStats)%js
  end.

Definition resolveChunkSize (env : Env) (options : CompressionOptions)
    (totalPages fileSizeBytes : Z) : Z :=
  match opt_chunkSize options with
  | Some c => if c =? 0 then calculateChunkSize env totalPages fileSizeBytes 10 else c
  | None => calculateChunkSize env totalPages fileSizeBytes 10
  end.

(** The optional metadata read between the two chunking reports. *)
Definition metadataIfPreserved
    (env : Env) (pdfBuffer : ArrayBuffer) (options : CompressionOptions)
  : Pass (option Metadata) :=
  (let presetConfig :=
     getPresetConfigWithOverrides (opt_preset options)
       {| ov_preset := None;
          ov_targetDPI := Some (opt_targetDPI options);
          ov_jpegQuality := Some (opt_jpegQuality options);
          ov_preserveMetadata := Some (opt_preserveMetadata options);
          ov_enableRasterization := Some (opt_enableRasterization options);
          ov_description := None;
          ov_expectedSavings := None |} in
   if truthy (cfg_preserveMetadata presetConfig)
   then perform CallExtractMetadata ;;; ret (Some (extractMetadata env pdfBuffer))
   else ret None)%js.

(** The statistics computed after the merge. *)
Definition passStats (chunkStats : list ChunkStat) (mergedPdf : ArrayBuffer) (numChunks : Z)
  : PassStats :=
  let totalOriginalSize :=
    fold_left (fun sum s => sum + chunk_originalSize s) chunkStats 0 in
  let totalCompressedSize := byteLength mergedPdf in
  let ratio := js_div totalCompressedSize totalOriginalSize in
  let bytesSaved := totalOriginalSize - totalCompressedSize in
  let percentageSaved := js_times100 (js_div bytesSaved totalOriginalSize) in
  {| ps_originalSize := totalOriginalSize;
     ps_compressedSize := totalCompressedSize;
     ps_ratio := ratio;
     ps_bytesSaved := bytesSaved;
     ps_percentageSaved := percentageSaved;
     ps_chunksProcessed := numChunks |}.

Definition compressWithPreset_body
    (env : Env) (pdfBuffer : ArrayBuffer) (options : CompressionOptions)
  : Pass PassResult :=
  (track (Tracker.setPhase Chunking) ;;;
   perform CallCountPages ;;;
   totalPages <- await (countPages env pdfBuffer) ;;
   let chunkSize := resolveChunkSize env options totalPages (byteLength pdfBuffer) in
   let numChunks := ceilDiv totalPages chunkSize in
   track (Tracker.setTotalChunks numChunks) ;;;
   track (Tracker.reportChunkingProgress 50) ;;;
   metadata <- metadataIfPreserved env pdfBuffer options ;;
   track (Tracker.reportChunkingProgress 100) ;;;
   '(compressedChunks, chunkStats) <-
     chunkLoop env pdfBuffer options totalPages chunkSize (Z.to_nat numChunks) 0 [] [] ;;
   track (Tracker.setPhase Merging) ;;;
   mergedPdf <- mergeChunks env compressedChunks metadata options ;;
   let stats := passStats chunkStats mergedPdf numChunks in
   track Tracker.reportComplete ;;;
   let _ := clearBuffers compressedChunks in
   ret {| pr_pdf := mergedPdf; pr_stats := stats |})%js.

(** One pass: a fresh tracker, and the actions it performed. *)
Definition compressWithPreset
    (env : Env) (pdfBuffer : ArrayBuffer) (options : CompressionOptions)
  : list Action * Outcome PassResult :=
  let '(s, r) :=
    compressWithPreset_body env pdfBuffer options
      {| st_progress := newProgressTracker (opt_onProgress options); st_log := [] |} in
  (st_log s, r).

Definition Orch (A : Type) : Type := M (list Step) A.

Definition record (steps : list Step) : Orch unit := fun s => (s ++ steps, Resolved tt).

(** [options.onProgress(ev)] under [if (options.onProgress)]. *)
Definition notify (options : CompressionOptions) (ev : ProgressEvent) : Orch unit :=
  if opt_onProgress options then record [Act (OnProgress ev)] else ret tt.

(** How the [for ... of] loop over the chain is left. *)
Inductive LoopExit : Type :=
| Returned (result : CompressionResult)
| LoopEnded (lastError : option JsError).

(** [preset === presetChain[presetChain.length - 1]]. *)
Definition isLastOf (presetChain : list CompressionPreset) (preset : CompressionPreset) : bool :=
  match nth_error presetChain (List.length presetChain - 1)%nat with
  | Some l => preset_eqb preset l
  | None => false
  end.

(** What the loop returns when a pass resolved: the pass's statistics with
    the elapsed time and the preset that was used, and a warning when that
    preset is not the requested one. *)
Definition passResult
    (env : Env) (options : CompressionOptions) (preset : CompressionPreset)
    (result : PassResult) : CompressionResult :=
  let processingTime := env_endTime env - env_startTime env in
  {| pdf := pr_pdf result;
     stats :=
       {| originalSize := ps_originalSize (pr_stats result);
          compressedSize := ps_compressedSize (pr_stats result);
          ratio := ps_ratio (pr_stats result);
          bytesSaved := ps_bytesSaved (pr_stats result);
          percentageSaved := ps_percentageSaved (pr_stats result);
          presetUsed := preset;
          processingTime := processingTime;
          chunksProcessed := ps_chunksProcessed (pr_stats result) |};
     warning :=
       if negb (preset_eqb preset (opt_preset options))
       then Some ("Original preset '" ++ preset_name (opt_preset options) ++
                  "' failed, used '" ++ preset_name preset ++ "' instead.")%string
       else None |}.

(** What is returned after the loop when degradation is enabled: a copy of
    the input. *)
Definition originalPdfResult
    (env : Env) (pdfBuffer : ArrayBuffer) (options : CompressionOptions)
  : CompressionResult :=
  let originalSize := byteLength pdfBuffer in
  {| pdf := slice0 pdfBuffer;
     stats :=
       {| originalSize := originalSize;
          compressedSize := originalSize;
          ratio := Fin 1;
          bytesSaved := 0;
          percentageSaved := Fin 0;
          presetUsed := opt_preset options;
          processingTime := env_endTime env - env_startTime env;
          chunksProcessed := 0 |};
     warning := Some "Compression failed. Returning original PDF." |}.

(** The loop over [presetChain]; [rest] is what is still to be visited. *)
Fixpoint presetLoop
    (env : Env) (pdfBuffer : ArrayBuffer) (options : CompressionOptions)
    (presetChain rest : list CompressionPreset) (lastError : option JsError)
  : Orch LoopExit :=
  match rest with
  | [] => ret (LoopEnded lastError)
  | preset :: rest' =>
      let '(acts, attempt) := compressWithPreset env pdfBuffer (withPreset options preset) in
      (record [Attempt preset acts] ;;;
       match attempt with
       | Resolved result =>
           ret (Returned (passResult env options preset result))
       | Pending => await Pending
       | Rejected error =>
           let lastError := Some error in
           if isLastOf presetChain preset then ret (LoopEnded lastError)
           else if opt_onProgress options then
             let '(evs, fallbackResult) :=
               handleErrorWithGracefulDegradation error preset true true in
             record (map (fun ev => Act (OnProgress ev)) evs) ;;;
             if negb (shouldRetry fallbackResult) then ret (LoopEnded lastError)
             else presetLoop env pdfBuffer options presetChain rest' lastError
           else presetLoop env pdfBuffer options presetChain rest' lastError
       end)%js
  end.

Definition orchestrateCompression_body
    (env : Env) (pdfBuffer : ArrayBuffer) (options : CompressionOptions)
  : Orch CompressionResult :=
  (let originalSize := byteLength pdfBuffer in
   if negb (isValidPDF pdfBuffer) then
     throw (CompressionError "Invalid PDF file" (opt_preset options) originalSize None None)
   else
     let presetChain :=
       if not_false (opt_gracefulDegradation options)
       then getPresetFallbackChain (opt_preset options)
       else [opt_preset options] in
     exit <- presetLoop env pdfBuffer options presetChain presetChain None ;;
     match exit with
     | Returned result => ret result
     | LoopEnded lastError =>
         if not_false (opt_gracefulDegradation options) then
           notify options
             {| phase := ErrorRecovery; progress := 100%Q;
                currentChunk := None; totalChunks := None;
                estimatedTimeRemaining := None;
                message := Some "All compression attempts failed. Returning original PDF." |} ;;;
           ret (originalPdfResult env pdfBuffer options)
         else
           match lastError with
           | Some e => throw e
           | None =>
               throw (CompressionError "Compression failed" (opt_preset options)
                                       originalSize None None)
           end
     end)%js.

Definition orchestrateCompression
    (env : Env) (pdfBuffer : ArrayBuffer) (options : CompressionOptions)
  : list Step * Outcome CompressionResult :=
  orchestrateCompression_body env pdfBuffer options [].

(* ===================================================================== *)
(** * src/api/compress.ts *)
(* ===================================================================== *)

(** The first argument as a caller may pass it. *)
Inductive Input : Type :=
| AnArrayBuffer (buffer : ArrayBuffer)
| NotAnArrayBuffer.

(** [Partial<CompressionOptions>]; the preset is whatever string came in. *)
Record PartialOptions : Type := mkPartial {
  in_preset : option string;
  in_chunkSize : option Z;
  in_onProgress : bool;
  in_wasmUrl : option string;
  in_gracefulDegradation : option bool;
  in_preserveMetadata : option bool;
  in_targetDPI : option Z;
  in_jpegQuality : option Q;
  in_enableRasterization : option bool;
  in_mergeStrategy : option MergeStrategy;
  in_timeout : option Z
}.

(** [options.preset || 'balanced']. *)
Definition presetOrDefault (p : option string) : string :=
  match p with
  | Some EmptyString | None => "balanced"
  | Some s => s
  end.

(** [['lossless', 'balanced', 'max'].includes(preset)], with the value it
    names. *)
Definition parsePreset (s : string) : option CompressionPreset :=
  if String.eqb s "lossless" then Some Lossless
  else if String.eqb s "balanced" then Some Balanced
  else if String.eqb s "max" then Some Max
  else None.

Definition fullOptions (options : PartialOptions) (preset : CompressionPreset)
  : CompressionOptions :=
  {| opt_preset := preset;
     opt_chunkSize := in_chunkSize options;
     opt_onProgress := in_onProgress options;
     opt_wasmUrl := in_wasmUrl options;
     opt_gracefulDegradation := Some (not_false (in_gracefulDegradation options));
     opt_preserveMetadata := in_preserveMetadata options;
     opt_targetDPI := in_targetDPI options;
     opt_jpegQuality := in_jpegQuality options;
     opt_enableRasterization := in_enableRasterization options;
     opt_mergeStrategy :=
       Some match in_mergeStrategy options with Some s => s | None => StrategyWorker end;
     opt_timeout := Some (or_default_Z (in_timeout options) 300000) |}.

Definition compress_body (env : Env) (input : Input) (options : PartialOptions)
  : Orch CompressionResult :=
  (match input with
   | NotAnArrayBuffer => throw (TypeError "pdfBuffer must be an ArrayBuffer")
   | AnArrayBuffer pdfBuffer =>
       if byteLength pdfBuffer =? 0 then
         throw (CompressionError "Empty PDF buffer" Lossless 0 None None)
       else
         let presetString := presetOrDefault (in_preset options) in
         match parsePreset presetString with
         | None =>
             throw (TypeError ("Invalid preset: " ++ presetString ++
                               ". Must be 'lossless', 'balanced', or 'max'.")%string)
         | Some preset =>
             let fullOptions := fullOptions options preset in
             notify fullOptions
               {| phase := Chunking; progress := 0%Q;
                  currentChunk := None; totalChunks := None;
                  estimatedTimeRemaining := None;
                  message := Some "Initializing compression engine..." |} ;;;
             record [Act (CallLoadWASM (opt_wasmUrl fullOptions))] ;;;
             match env_loadWASM env (opt_wasmUrl fullOptions) with
             | WasmLoadThrows error =>
                 throw (CompressionError "Failed to load compression engine" preset
                                         (byteLength pdfBuffer) (Some Chunking) error)
             | WasmLoaded => orchestrateCompression_body env pdfBuffer fullOptions
             | WasmNeverLoads => await Pending
             end
         end
   end)%js.

Definition compress (env : Env) (input : Input) (options : PartialOptions)
  : list Step * Outcome CompressionResult :=
  compress_body env input options [].

(* ===================================================================== *)
(** * Observations on a log *)
(* ===================================================================== *)

(** The presets [compressWithPreset] was called with, in order. *)
Definition attemptedPresets (log : list Step) : list CompressionPreset :=
  flat_map (fun st => match st with Attempt p _ => [p] | Act _ => [] end) log.

Definition actionEvents (acts : list Action) : list ProgressEvent :=
  flat_map (fun a => match a with OnProgress ev => [ev] | _ => [] end) acts.

(** Everything the caller's [onProgress] received, in order. *)
Definition emittedEvents (log : list Step) : list ProgressEvent :=
  flat_map (fun st => match st with
                      | Act a => actionEvents [a]
                      | Attempt _ acts => actionEvents acts
                      end) log.

(** The page ranges handed to [extractPages], in order. *)
Definition extractCalls (acts : list Action) : list (Z * Z) :=
  flat_map (fun a => match a with CallExtractPages s e => [(s, e)] | _ => [] end) acts.

(** The ranges the chunk loop walks through: one per index below
    [numChunks]. *)
Definition chunkRangesFrom (totalPages chunkSize : Z) (first count : nat) : list (Z * Z) :=
  map (fun i => (chunkStart chunkSize (Z.of_nat i), chunkEnd totalPages chunkSize (Z.of_nat i)))
      (seq first count).

Definition chunkPlan (totalPages chunkSize : Z) : list (Z * Z) :=
  chunkRangesFrom totalPages chunkSize 0 (Z.to_nat (ceilDiv totalPages chunkSize)).

Definition rangeSize (r : Z * Z) : Z := snd r - fst r.



(** What [compress] logs before it hands over to the orchestrator. *)
Definition preamble (options : CompressionOptions) : list Step :=
  (if opt_onProgress options
   then [Act (OnProgress {| phase := Chunking; progress := 0%Q;
                            currentChunk := None; totalChunks := None;
                            estimatedTimeRemaining := None;
                            message := Some "Initializing compression engine..." |})]
   else [])
  ++ [Act (CallLoadWASM (opt_wasmUrl options))].

(** The thrown value is a plain [Error]. *)
Definition isPlainError (e : JsError) : Prop := exists msg, e = Error msg.

(** The values reported under the phase [compressing]. *)
Definition compressingValues (acts : list Action) : list Q :=
  flat_map (fun ev => match phase ev with Compressing => [progress ev] | _ => [] end)
           (actionEvents acts).

Definition inCompressingBand (q : Q) : Prop := (10 <= q <= 90)%Q.

(** [s'] extends the log of [s] by actions whose compressing values all lie
    in the band. *)
Definition extendsInBand (s s' : PassState) : Prop :=
  exists added,
    st_log s' = st_log s ++ added /\ Forall inCompressingBand (compressingValues added).


(* ===================================================================== *)
(** * Further observations *)
(* ===================================================================== *)

(** How a run of the orchestrator on a document with the magic bytes can
    end, in terms of the presets it tried. *)
Definition orchestratorEnding
    (env : Env) (pdfBuffer : ArrayBuffer) (options : CompressionOptions)
    (tried : list CompressionPreset) (out : Outcome CompressionResult) : Prop :=
  exists earlier p acts,
    tried = earlier ++ [p] /\
    match out with
    | Resolved r =>
        (exists result,
            compressWithPreset env pdfBuffer (withPreset options p) = (acts, Resolved result) /\
            r = passResult env options p result) \/
        (exists e,
            compressWithPreset env pdfBuffer (withPreset options p) = (acts, Rejected e) /\
            not_false (opt_gracefulDegradation options) = true /\
            r = originalPdfResult env pdfBuffer options)
    | Rejected e =>
        compressWithPreset env pdfBuffer (withPreset options p) = (acts, Rejected e) /\
        not_false (opt_gracefulDegradation options) = false
    | Pending =>
        compressWithPreset env pdfBuffer (withPreset options p) = (acts, Pending)
    end.


(* ===================================================================== *)
(** * A logic for the steps of a pass *)
(* ===================================================================== *)

(** [triple P m Q]: run from a state that satisfies [P], the step [m] ends,
    resolved or not, in a state and with an outcome that satisfy [Q]. *)
Definition triple {A : Type} (P : PassState -> Prop) (m : Pass A)
    (Q : PassState -> Outcome A -> Prop) : Prop :=
  forall s s' o, P s -> m s = (s', o) -> Q s' o.

(** The step leaves [I] in place however it ends. *)
Definition preserves {A : Type} (I : PassState -> Prop) (m : Pass A) : Prop :=
  triple I m (fun s' _ => I s').

(** The promise of the step settles. *)
Definition settles {A : Type} (m : Pass A) : Prop :=
  triple (fun _ => True) m (fun _ o => o <> Pending).

(** Every action logged so far satisfies [good]. *)
Definition logged (good : Action -> Prop) (s : PassState) : Prop :=
  Forall good (st_log s).

(** The tasks posted to compression workers, in order. *)
Definition postedChunks (acts : list Action) : list CompressChunkMessage :=
  flat_map (fun a => match a with PostCompressChunk m => [m] | _ => [] end) acts.

(** The messages posted to merge workers. *)
Definition postedMerges (acts : list Action) : list MergeChunksMessage :=
  flat_map (fun a => match a with PostMergeChunks m _ => [m] | _ => [] end) acts.

(* ===================================================================== *)
(** * The worker sources of the repository *)
(* ===================================================================== *)

(** The script [getCompressionWorkerCode] returns, as what a worker started
    from it does: it posts one error message as soon as it is loaded. *)
Definition getCompressionWorkerCode (_ : CompressChunkMessage) : CompressWorkerRun :=
  PostsError "Worker not implemented yet".

(** The script [getMergeWorkerCode] returns. *)
Definition getMergeWorkerCode (_ : MergeChunksMessage) : MergeWorkerRun :=
  {| mw_progress := []; mw_terminal := MergePostsError "Worker not implemented yet" |}.

(** src/workers/merge.worker.ts, [handleMergeChunks]: progress 10 and 30,
    the merge with pdf-lib, then progress 90 and 100 and [merge-complete],
    or the message of what [mergePDFs] threw.  ([mergePDFs] resolves with an
    attached buffer or is rejected; the other two cases are never taken.) *)
Definition handleMergeChunks (env : Env) (message : MergeChunksMessage) : MergeWorkerRun :=
  match mergePDFs env (mcm_chunks message) (mcm_originalMetadata message) with
  | Resolved (Buf mergedPdf) =>
      {| mw_progress := [10; 30; 90; 100]%Q; mw_terminal := PostsMergeComplete mergedPdf |}
  | Resolved Detached =>
      {| mw_progress := [10; 30; 90; 100]%Q; mw_terminal := MergeFiresOnError "DataCloneError" |}
  | Rejected error =>
      {| mw_progress := [10; 30]%Q; mw_terminal := MergePostsError (error_message error) |}
  | Pending =>
      {| mw_progress := [10; 30]%Q; mw_terminal := MergeStaysSilent |}
  end.

(** [{ ...options, mergeStrategy }]. *)
Definition withMergeStrategy (options : CompressionOptions) (strategy : option MergeStrategy)
  : CompressionOptions :=
  {| opt_preset := opt_preset options;
     opt_chunkSize := opt_chunkSize options;
     opt_onProgress := opt_onProgress options;
     opt_wasmUrl := opt_wasmUrl options;
     opt_gracefulDegradation := opt_gracefulDegradation options;
     opt_preserveMetadata := opt_preserveMetadata options;
     opt_targetDPI := opt_targetDPI options;
     opt_jpegQuality := opt_jpegQuality options;
     opt_enableRasterization := opt_enableRasterization options;
     opt_mergeStrategy := strategy;
     opt_timeout := opt_timeout options |}.

(** The step only appends to the log. *)
Definition growsLog {A : Type} (m : Pass A) : Prop :=
  forall s s' o, m s = (s', o) -> exists added, st_log s' = st_log s ++ added.

(** The [options] object inside a [compress-chunk] task. *)
Definition workerOptions (options : CompressionOptions) : WorkerOptions :=
  {| wo_targetDPI := opt_targetDPI options;
     wo_jpegQuality := opt_jpegQuality options;
     wo_preserveMetadata := opt_preserveMetadata options;
     wo_enableRasterization := opt_enableRasterization options |}.

(** The chunk indices [0, 1, ..., n - 1]. *)
Definition indicesBelow (n : nat) : list Z := map Z.of_nat (seq 0 n).

(** The tasks posted so far carry the indices [0 .. k - 1], in order. *)
Definition postedIndices (k : nat) (s : PassState) : Prop :=
  map ccm_chunkIndex (postedChunks (st_log s)) = indicesBelow k.

(** [{ ...options, mergeStrategy }] on the caller's options. *)
Definition setMergeStrategy (options : PartialOptions) (strategy : option MergeStrategy)
  : PartialOptions :=
  {| in_preset := in_preset options;
     in_chunkSize := in_chunkSize options;
     in_onProgress := in_onProgress options;
     in_wasmUrl := in_wasmUrl options;
     in_gracefulDegradation := in_gracefulDegradation options;
     in_preserveMetadata := in_preserveMetadata options;
     in_targetDPI := in_targetDPI options;
     in_jpegQuality := in_jpegQuality options;
     in_enableRasterization := in_enableRasterization options;
     in_mergeStrategy := strategy;
     in_timeout := in_timeout options |}.

(* ===================================================================== *)
(** * Strings *)
(* ===================================================================== *)

(** The characters a rendered integer is made of: the ten digits and the
    minus sign. *)
Definition isNumeral (c : ascii) : bool :=
  let n := nat_of_ascii c in
  ((Nat.leb 48 n && Nat.leb n 57) || Nat.eqb n 45)%bool.

Fixpoint allChars (p : ascii -> bool) (s : string) : bool :=
  match s with
  | EmptyString => true
  | String c rest => (p c && allChars p rest)%bool
  end.

(** A pattern that holds no numeral and is not empty. *)
Definition wordPattern (pat : string) : Prop :=
  allChars (fun c => negb (isNumeral c)) pat = true /\ pat <> EmptyString.

(** A rendered number: numerals only, at least one. *)
Definition numeralString (s : string) : Prop :=
  allChars isNumeral s = true /\ s <> EmptyString.

(* ===================================================================== *)
(** * The tracker as an object: any sequence of calls *)
(* ===================================================================== *)

(** A call of one of the nine public methods of [ProgressTracker].
    [getElapsedTime] reads the clock and the private [startTime] and hands
    back their difference: it changes nothing and reports nothing. *)
Inductive TrackerCall : Type :=
| SetTotalChunks (total : Z)
| SetPhase (p : ProgressPhase)
| ReportChunkingProgress (value : Q)
| StartChunk (chunkIndex : Z)
| CompleteChunk (chunkIndex processingTime : Z)
| ReportMergingProgress (value : Q)
| ReportComplete
| ReportErrorRecovery (msg : string)
| GetElapsedTime.

Definition callMethod (c : TrackerCall) : Tracker.Method :=
  match c with
  | SetTotalChunks total => Tracker.setTotalChunks total
  | SetPhase p => Tracker.setPhase p
  | ReportChunkingProgress value => Tracker.reportChunkingProgress value
  | StartChunk chunkIndex => Tracker.startChunk chunkIndex
  | CompleteChunk chunkIndex processingTime => Tracker.completeChunk chunkIndex processingTime
  | ReportMergingProgress value => Tracker.reportMergingProgress value
  | ReportComplete => Tracker.reportComplete
  | ReportErrorRecovery msg => Tracker.reportErrorRecovery msg
  | GetElapsedTime => fun t => (t, [])
  end.

(** The calls made one after the other on the same object: the object
    afterwards, and everything the callback received. *)
Fixpoint runCalls (calls : list TrackerCall) (t : ProgressTracker)
  : ProgressTracker * list ProgressEvent :=
  match calls with
  | [] => (t, [])
  | c :: rest =>
      let '(t1, evs1) := callMethod c t in
      let '(t2, evs2) := runCalls rest t1 in
      (t2, evs1 ++ evs2)
  end.

(** The second arguments of the calls of [completeChunk], in order. *)
Definition completionTimes (calls : list TrackerCall) : list Z :=
  flat_map (fun c => match c with CompleteChunk _ time => [time] | _ => [] end) calls.

(** The calls that report: all but [setTotalChunks] and [getElapsedTime]. *)
Definition reportingCalls (calls : list TrackerCall) : list TrackerCall :=
  filter (fun c => match c with
                   | SetTotalChunks _ | GetElapsedTime => false
                   | _ => true
                   end) calls.

(** The value of the last [setTotalChunks], 0 if there is none. *)
Definition lastTotal (calls : list TrackerCall) : Z :=
  fold_left (fun total c => match c with SetTotalChunks n => n | _ => total end) calls 0.

(* ===================================================================== *)
(** * src/wasm/pdfcpu-adapter.ts: the buffer check of the engine adapter *)
(* ===================================================================== *)

(** [new Uint8Array(buffer, 0, 4)]. *)
Definition headerOf (bytes : list Z) : list Z := firstn 4 bytes.

Definition validatePDFBuffer (buffer : ArrayBuffer) : bool :=
  if byteLength buffer <? 4 then false
  else match buffer with
       | Buf bytes =>
           let header := headerOf bytes in
           let pdfMagic := [37; 80; 68; 70] in
           forallb (fun '(byte, i) =>
                      match nth_error header i with
                      | Some b => b =? byte
                      | None => false
                      end)
                   (combine pdfMagic (seq 0 4))
       | Detached => false
       end.

(* ===================================================================== *)
(** * Pages asked of pdf-lib *)
(* ===================================================================== *)

(** The [pageIndices] that [extractPages] hands to [copyPages] for a
    document of [pageCount] pages. *)
Definition pageIndices (pageCount startPage endPage : Z) : list Z :=
  arrayFrom (Z.min endPage pageCount - startPage) (fun i => startPage + i).

(* ===================================================================== *)
(** * Events of a pass *)
(* ===================================================================== *)

(** No callback, and nothing delivered so far. *)
Definition quiet (s : PassState) : Prop :=
  pt_onProgress (st_progress s) = false /\ actionEvents (st_log s) = [].

(** The order in which a pass goes through the phases. *)
Definition phaseRank (p : ProgressPhase) : nat :=
  match p with
  | Chunking => 0
  | Compressing => 1
  | Merging => 2
  | ErrorRecovery => 3
  end.

(** The phase under which a call of the tracker reports (the first one for
    the two calls that report nothing). *)
Definition callPhase (c : TrackerCall) : ProgressPhase :=
  match c with
  | SetPhase p => p
  | SetTotalChunks _ | ReportChunkingProgress _ | GetElapsedTime => Chunking
  | StartChunk _ | CompleteChunk _ _ => Compressing
  | ReportMergingProgress _ | ReportComplete => Merging
  | ReportErrorRecovery _ => ErrorRecovery
  end.

Fixpoint nondecreasing (l : list nat) : Prop :=
  match l with
  | [] => True
  | x :: rest => Forall (fun y => (x <= y)%nat) rest /\ nondecreasing rest
  end.

(** The phases of the events delivered so far, as ranks. *)
Definition phaseRanks (acts : list Action) : list nat :=
  map (fun ev => phaseRank (phase ev)) (actionEvents acts).

(** The events so far went through the phases in order, and none is past
    the phase of rank [n]. *)
Definition staged (n : nat) (s : PassState) : Prop :=
  nondecreasing (phaseRanks (st_log s)) /\ Forall (fun r => (r <= n)%nat) (phaseRanks (st_log s)).

(** The event that [reportComplete] emits is a merging event of value 100;
    no other merging event reaches 100. *)
Definition isCompletion (ev : ProgressEvent) : Prop :=
  phase ev = Merging /\ (progress ev == 100)%Q.

(** No completion event so far, and there is a callback. *)
Definition unfinished (s : PassState) : Prop :=
  pt_onProgress (st_progress s) = true /\
  Forall (fun ev => ~ isCompletion ev) (actionEvents (st_log s)).

(* ===================================================================== *)
(** * Omitted options *)
(* ===================================================================== *)

(** The caller's options with every default written out, and every falsy
    value that [||] replaces taken as absent: an empty preset name, a chunk
    size of 0, a timeout of 0. *)
Definition withDefaults (options : PartialOptions) : PartialOptions :=
  {| in_preset := Some (presetOrDefault (in_preset options));
     in_chunkSize :=
       match in_chunkSize options with
       | Some c => if c =? 0 then None else Some c
       | None => None
       end;
     in_onProgress := in_onProgress options;
     in_wasmUrl := in_wasmUrl options;
     in_gracefulDegradation := Some (not_false (in_gracefulDegradation options));
     in_preserveMetadata := in_preserveMetadata options;
     in_targetDPI := in_targetDPI options;
     in_jpegQuality := in_jpegQuality options;
     in_enableRasterization := in_enableRasterization options;
     in_mergeStrategy :=
       Some match in_mergeStrategy options with Some s => s | None => StrategyWorker end;
     in_timeout := Some (or_default_Z (in_timeout options) 300000) |}.

(* ===================================================================== *)
(** * src/core/pdf-lib-compressor.ts *)
(* ===================================================================== *)

(** The second pipeline of the repository: one pass over the whole
    document on the main thread, a lossless re-save first, then (for
    'balanced' and 'max') every page rendered to a JPEG, and the smallest
    of the results returned.  pdf-lib, pdf.js and the canvas are external;
    their answers are read from a [CompressorWorld], and they are taken to
    settle.  Numbers are the rationals that the code's literals and
    quotients denote. *)

Definition getCompressionQuality (preset : CompressionPreset) : Q :=
  match preset with
  | Lossless => 1
  | Balanced => 7 # 10
  | Max => 5 # 10
  end.

(** [Math.min] on two finite numbers. *)
Definition js_minQ (a b : Q) : Q := if Qle_bool a b then a else b.

(** [Math.min] on two quotients. *)
Definition js_min (a b : JsNum) : JsNum :=
  match a, b with
  | NaN, _ | _, NaN => NaN
  | NegInfinity, _ | _, NegInfinity => NegInfinity
  | PosInfinity, x => x
  | x, PosInfinity => x
  | Fin p, Fin q => Fin (js_minQ p q)
  end.

(** [Math.round]: the nearest integer, halves upwards. *)
Definition js_round (q : Q) : Z := Qfloor (q + (1 # 2)).

(** What the code settles on before it renders: lines 113 to 137. *)
Record ImageSettings : Type := mkImageSettings {
  TARGET_DPI : Z;
  imageQuality : Q;
  isLargeFile : bool;
  isVeryLargeFile : bool
}.

Definition imageSettings (originalSize : Z) (preset : CompressionPreset) : ImageSettings :=
  let quality := getCompressionQuality preset in
  let isLargeFile := 20 * 1024 * 1024 <? originalSize in
  let isVeryLargeFile := 50 * 1024 * 1024 <? originalSize in
  let isMax := preset_eqb preset Max in
  if isVeryLargeFile then
    {| TARGET_DPI := if isMax then 50 else 75;
       imageQuality := if isMax then js_minQ quality (35 # 100) else js_minQ quality (50 # 100);
       isLargeFile := isLargeFile; isVeryLargeFile := isVeryLargeFile |}
  else if isLargeFile then
    {| TARGET_DPI := if isMax then 72 else 120;
       imageQuality := if isMax then (quality * (75 # 100))%Q else quality;
       isLargeFile := isLargeFile; isVeryLargeFile := isVeryLargeFile |}
  else if 10 * 1024 * 1024 <? originalSize then
    {| TARGET_DPI := if isMax then 100 else 150;
       imageQuality := quality;
       isLargeFile := isLargeFile; isVeryLargeFile := isVeryLargeFile |}
  else
    {| TARGET_DPI := if isMax then 120 else 150;
       imageQuality := quality;
       isLargeFile := isLargeFile; isVeryLargeFile := isVeryLargeFile |}.

Definition MAX_DIMENSION (settings : ImageSettings) : Z :=
  if isVeryLargeFile settings then 1536
  else if isLargeFile settings then 2560
  else 4096.

Record Canvas : Type := mkCanvas {
  canvasWidth : Z;
  canvasHeight : Z;
  canvasScale : Q
}.

(** The canvas for a page whose viewport at scale 1 is [width] by
    [height]: lines 176 to 193.  In the limiting branch one of the two
    dimensions exceeds the limit, so its quotient is finite and so is the
    minimum; the last arm is never taken. *)
Definition canvasFor (settings : ImageSettings) (width height : Q) : Canvas :=
  let baseDPI := 72 in
  let scale := js_minQ (inject_Z (TARGET_DPI settings) / inject_Z baseDPI) (25 # 10) in
  let canvasWidth := Qfloor (width * scale) in
  let canvasHeight := Qfloor (height * scale) in
  let limit := MAX_DIMENSION settings in
  if ((limit <? canvasWidth) || (limit <? canvasHeight))%bool then
    let widthScale := js_div limit canvasWidth in
    let heightScale := js_div limit canvasHeight in
    match js_min widthScale heightScale with
    | Fin limitScale =>
        let scale := (scale * limitScale)%Q in
        {| canvasWidth := Qfloor (width * scale);
           canvasHeight := Qfloor (height * scale);
           canvasScale := scale |}
    | _ => {| canvasWidth := canvasWidth; canvasHeight := canvasHeight; canvasScale := scale |}
    end
  else {| canvasWidth := canvasWidth; canvasHeight := canvasHeight; canvasScale := scale |}.

(** Which of the three candidates is returned: lines 270 to 285. *)
Inductive FinalChoice : Type := ImageCompressed | LosslessOptimized | OriginalKept.

Definition chooseFinal (originalSize optimizedSize imageCompressedSize : Z) : FinalChoice :=
  if ((imageCompressedSize <? optimizedSize) && (imageCompressedSize <? originalSize))%bool
  then ImageCompressed
  else if optimizedSize <? originalSize then LosslessOptimized
  else OriginalKept.

Record CompressorWorld : Type := mkCompressorWorld {
  cw_startTime : Z;
  cw_endTime : Z;
  (** [Number.prototype.toFixed(1)] *)
  cw_toFixed1 : JsNum -> string;
  (** [PDFDocument.load] and [getPageCount] *)
  cw_load : ArrayBuffer -> LibResult Z;
  (** [originalPdf.save] with object streams *)
  cw_saveOptimized : ArrayBuffer -> LibResult (list Z);
  (** [PDFDocument.create], the import of pdf.js, [getDocument] *)
  cw_openForRendering : ArrayBuffer -> LibResult unit;
  (** [getPage] and [getViewport] at scale 1: width and height *)
  cw_viewport : ArrayBuffer -> Z -> LibResult (Q * Q);
  (** [typeof document !== 'undefined'] *)
  cw_hasDocument : bool;
  (** the canvas and its context, the rendering, the JPEG, the new page *)
  cw_render : ArrayBuffer -> Z -> Canvas -> Q -> LibResult unit;
  (** [compressedPdf.save] *)
  cw_saveImages : ArrayBuffer -> ImageSettings -> LibResult (list Z);
  (** the message of the engine's [TypeError] for a view on a detached buffer *)
  cw_detachedMessage : string
}.

(** The steps of [compressPDF]: the state is what the callback received. *)
Definition Run (A : Type) : Type := M (list ProgressEvent) A.

Definition emitProgress (onProgress : bool) (ev : ProgressEvent) : Run unit :=
  fun delivered => (if onProgress then delivered ++ [ev] else delivered, Resolved tt).

(** A call into a library, inside the [try]. *)
Definition lib {A : Type} (r : LibResult A) : Run A :=
  match r with
  | LibOk a => ret a
  | LibThrows m => throw (Error (lib_message m))
  end.

Definition compressingEvent (value : Q) (msg : string) : ProgressEvent :=
  {| phase := Compressing; progress := value;
     currentChunk := None; totalChunks := None;
     estimatedTimeRemaining := None; message := Some msg |}.

(** [((1 - size / originalSize) * 100).toFixed(1)]. *)
Definition reductionText (w : CompressorWorld) (size originalSize : Z) : string :=
  cw_toFixed1 w
    (js_times100
       match js_div size originalSize with
       | Fin q => Fin (1 - q)
       | PosInfinity => NegInfinity
       | NegInfinity => PosInfinity
       | NaN => NaN
       end).

(** The value reported before page [pageNum] of [numPages]. *)
Definition pageProgress (pageNum numPages : Z) : Q :=
  inject_Z (js_round (45 + (inject_Z pageNum / inject_Z numPages) * 45)).

(** The [for (let pageNum = 1; pageNum <= numPages; pageNum++)] loop, with
    [remaining] pages to go. *)
Fixpoint pageLoop (w : CompressorWorld) (pdfBuffer : ArrayBuffer) (onProgress : bool)
    (settings : ImageSettings) (numPages : Z) (remaining : nat) (pageNum : Z) : Run unit :=
  match remaining with
  | O => ret tt
  | S remaining' =>
      (emitProgress onProgress
         (compressingEvent (pageProgress pageNum numPages)
            ("Compressing page " ++ show_Z pageNum ++ "/" ++ show_Z numPages ++ "...")) ;;;
       '(width, height) <- lib (cw_viewport w pdfBuffer pageNum) ;;
       let canvas := canvasFor settings width height in
       (if cw_hasDocument w then ret tt
        else throw (Error "Image compression requires a browser environment")) ;;;
       lib (cw_render w pdfBuffer pageNum canvas (imageQuality settings)) ;;;
       pageLoop w pdfBuffer onProgress settings numPages remaining' (pageNum + 1))%js
  end.

(** [new Uint8Array(pdfBuffer).buffer]: the buffer itself, or a [TypeError]
    when it is detached. *)
Definition sameBuffer (w : CompressorWorld) (pdfBuffer : ArrayBuffer) : LibResult ArrayBuffer :=
  match pdfBuffer with
  | Buf bytes => LibOk (Buf bytes)
  | Detached => LibThrows (Some (cw_detachedMessage w))
  end.

Definition compressorStats (w : CompressorWorld) (preset : CompressionPreset)
    (originalSize finalSize : Z) : CompressionStats :=
  let bytesSaved := originalSize - finalSize in
  {| originalSize := originalSize;
     compressedSize := finalSize;
     ratio := js_div finalSize originalSize;
     bytesSaved := bytesSaved;
     percentageSaved := js_times100 (js_div bytesSaved originalSize);
     presetUsed := preset;
     processingTime := cw_endTime w - cw_startTime w;
     chunksProcessed := 1 |}.

(** The body of the [try].  [getDocument] hands the data it is given over
    to the worker of pdf.js: once its promise has resolved, [pdfBuffer] is
    detached, and the view the code takes of it when neither candidate is
    smaller than the input cannot be built. *)
Definition compressPDF_try (w : CompressorWorld) (pdfBuffer : ArrayBuffer)
    (options : CompressionOptions) : Run CompressionResult :=
  (let originalSize := byteLength pdfBuffer in
   let preset := opt_preset options in
   let onProgress := opt_onProgress options in
   numPages <- lib (cw_load w pdfBuffer) ;;
   emitProgress onProgress (compressingEvent 20 "Optimizing PDF structure...") ;;;
   optimizedPdfBytes <- lib (cw_saveOptimized w pdfBuffer) ;;
   let optimizedSize := Z.of_nat (List.length optimizedPdfBytes) in
   emitProgress onProgress
     (compressingEvent 40
        ("Lossless optimization: " ++ reductionText w optimizedSize originalSize ++
         "% reduction")) ;;;
   if preset_eqb preset Lossless then
     emitProgress onProgress (compressingEvent 100 "Lossless compression complete") ;;;
     ret {| pdf := Buf optimizedPdfBytes;
            stats := compressorStats w preset originalSize optimizedSize;
            warning := None |}
   else
     emitProgress onProgress (compressingEvent 45 "Starting image compression...") ;;;
     let settings := imageSettings originalSize preset in
     lib (cw_openForRendering w pdfBuffer) ;;;
     let pdfBuffer_after := transfer pdfBuffer in
     pageLoop w pdfBuffer onProgress settings numPages (Z.to_nat numPages) 1 ;;;
     emitProgress onProgress (compressingEvent 90 "Finalizing compression...") ;;;
     imageCompressedBytes <- lib (cw_saveImages w pdfBuffer settings) ;;
     let imageCompressedSize := Z.of_nat (List.length imageCompressedBytes) in
     emitProgress onProgress
       (compressingEvent 95
          ("Image compression: " ++ reductionText w imageCompressedSize originalSize ++
           "% reduction")) ;;;
     finalBuffer <-
       match chooseFinal originalSize optimizedSize imageCompressedSize with
       | ImageCompressed => ret (Buf imageCompressedBytes)
       | LosslessOptimized => ret (Buf optimizedPdfBytes)
       | OriginalKept => lib (sameBuffer w pdfBuffer_after)
       end ;;
     let finalSize :=
       match chooseFinal originalSize optimizedSize imageCompressedSize with
       | ImageCompressed => imageCompressedSize
       | LosslessOptimized => optimizedSize
       | OriginalKept => originalSize
       end in
     emitProgress onProgress (compressingEvent 100 "Compression complete") ;;;
     ret {| pdf := finalBuffer;
            stats := compressorStats w preset originalSize finalSize;
            warning := None |})%js.

(** [compressPDF]: the first event, the [try], and the [catch] that wraps
    whatever was thrown. *)
Definition compressPDF (w : CompressorWorld) (pdfBuffer : ArrayBuffer)
    (options : CompressionOptions) : list ProgressEvent * Outcome CompressionResult :=
  let '(delivered, out) :=
    (emitProgress (opt_onProgress options) (compressingEvent 0 "Loading PDF...") ;;;
     compressPDF_try w pdfBuffer options)%js [] in
  (delivered,
   match out with
   | Rejected error =>
       Rejected (Error ("PDF compression failed: " ++ error_message error)%string)
   | settled => settled
   end).

(** The values of the events, in order. *)
Definition valuesOf (events : list ProgressEvent) : list Q := map progress events.

Fixpoint ascending (values : list Q) : Prop :=
  match values with
  | [] => True
  | v :: rest => Forall (fun v' => (v <= v')%Q) rest /\ ascending rest
  end.

(** Everything delivered so far is a compressing event, at most [bound]
    and in ascending order. *)
Definition climbsTo (bound : Q) (delivered : list ProgressEvent) : Prop :=
  ascending (valuesOf delivered) /\
  Forall (fun v => (0 <= v <= bound)%Q) (valuesOf delivered) /\
  Forall (fun ev => phase ev = Compressing) delivered.

(** A step of [compressPDF] started with [P] ends with [Q]. *)
Definition runs {A : Type} (P : list ProgressEvent -> Prop) (m : Run A)
    (Q : list ProgressEvent -> Outcome A -> Prop) : Prop :=
  forall delivered delivered' o, P delivered -> m delivered = (delivered', o) -> Q delivered' o.

(** With a callback, the last value delivered is [v]. *)
Definition endsAt (onProgress : bool) (v : Q) (delivered : list ProgressEvent) : Prop :=
  onProgress = true -> last (valuesOf delivered) 0%Q = v.

(** The values reported for the pages [1 .. numPages]. *)
Definition pageValues (numPages : Z) : list Q :=
  map (fun p => pageProgress (Z.of_nat p) numPages) (seq 1 (Z.to_nat numPages)).

(** The values a complete run reports, in order. *)
Definition schedule (preset : CompressionPreset) (numPages : Z) : list Q :=
  if preset_eqb preset Lossless then [0; 20; 40; 100]%Q
  else ([0; 20; 40; 45] ++ pageValues numPages ++ [90; 95; 100])%Q.

Definition expectedValues (w : CompressorWorld) (pdfBuffer : ArrayBuffer)
    (options : CompressionOptions) : list Q :=
  match cw_load w pdfBuffer with
  | LibOk numPages => schedule (opt_preset options) numPages
  | LibThrows _ => [0%Q]
  end.

(** What was delivered so far is the part of [expected] before [rest]. *)
Definition leaves (expected rest : list Q) (delivered : list ProgressEvent) : Prop :=
  expected = valuesOf delivered ++ rest.

(** A step that resolves leaves [rest] to be delivered; one that does not
    stops somewhere on the way. *)
Definition advances {A : Type} (expected rest : list Q)
    (delivered : list ProgressEvent) (o : Outcome A) : Prop :=
  match o with
  | Resolved _ => leaves expected rest delivered
  | _ => exists rest', leaves expected rest' delivered
  end.

(** How a run of [compressPDF] leaves the callback: at 100 when it
    resolves, at 95 or below when it does not. *)
Definition settledAt {A : Type} (onProgress : bool)
    (delivered : list ProgressEvent) (o : Outcome A) : Prop :=
  match o with
  | Resolved _ => climbsTo 100 delivered /\ endsAt onProgress 100 delivered
  | _ => climbsTo 95 delivered
  end.

(* ===================================================================== *)
(** * src/workers/compression.worker.ts, src/wasm/loader.ts and
      src/wasm/pdfcpu-adapter.ts *)
(* ===================================================================== *)

(** What calling [window.pdfcpuCompress] and reading its result gives:
    [{ success: true, data }], [{ success: false, error }], or an
    exception. *)
Inductive EngineResult : Type :=
| EngineData (data : list Z)
| EngineFails (error : option string)
| EngineThrows (thrown : option string).

(** The function the engine installs as [window.pdfcpuCompress]: it is
    given the bytes, the preset, [targetDPI] and [jpegQuality]. *)
Definition Engine : Type :=
  list Z -> CompressionPreset -> option Z -> option Q -> EngineResult.

(** What the expression [window.pdfcpuCompress] evaluates to: a
    [ReferenceError] where there is no [window], [undefined], or the
    function. *)
Inductive EngineLookup : Type :=
| WindowUndefined (referenceError : string)
| EngineMissing
| EnginePresent (pdfcpuCompress : Engine).

(** How [loadWASM] goes where there is a [window], on its first call: its
    promise resolves, which it does only once its poll has seen the
    engine's functions on [window]; or its [catch] is reached, with what
    was thrown; or the poll never ends. *)
Inductive LoaderRun : Type :=
| LoaderReady (pdfcpuCompress : Engine)
| LoaderFails (thrown : option string)
| LoaderNeverSettles.

(** The global scope the worker's code runs in.  A dedicated worker has no
    [window]: every mention of it throws a [ReferenceError], with the
    message of the JavaScript engine. *)
Inductive WorkerScope : Type :=
| NoWindow (referenceError : string)
| WithWindow (loader : LoaderRun).

Record WorkerWorld : Type := mkWorkerWorld {
  ww_startTime : Z;
  ww_endTime : Z;
  ww_scope : WorkerScope;
  (** the worker's terminal message arrives before the timer of
      [compressChunk] fires *)
  ww_inTime : bool
}.

(** How the promise of [loadWASM] ends in a worker. *)
Inductive Loaded : Type :=
| EngineLoaded (pdfcpuCompress : Engine)
| LoadRejected (error : string)
| LoadPending.

(** [loadWASM] of loader.ts in a freshly started worker (nothing is cached,
    no load is under way).  The first statement of its [try] reads
    [window.Go]; whatever is thrown inside the [try] is wrapped by the
    [catch]. *)
Definition loadWASM (scope : WorkerScope) : Loaded :=
  match scope with
  | NoWindow referenceError =>
      LoadRejected ("Failed to load WASM: " ++ referenceError)
  | WithWindow (LoaderReady pdfcpuCompress) => EngineLoaded pdfcpuCompress
  | WithWindow (LoaderFails thrown) =>
      LoadRejected ("Failed to load WASM: " ++ lib_message thrown)
  | WithWindow LoaderNeverSettles => LoadPending
  end.

(** [x || d] on an optional string: [undefined] and [''] are falsy. *)
Definition or_default_string (x : option string) (d : string) : string :=
  match x with
  | Some EmptyString => d
  | Some s => s
  | None => d
  end.

(** [compressPDFWithWASM]; what it throws is kept as the message of the
    error, or [None] for a value that is no [Error]. *)
Definition compressPDFWithWASM (lookup : EngineLookup) (pdfBuffer : ArrayBuffer)
    (preset : CompressionPreset) (params : WorkerOptions) : LibResult (list Z) :=
  match lookup with
  | WindowUndefined referenceError => LibThrows (Some referenceError)
  | EngineMissing => LibThrows (Some "WASM not loaded. Call loadWASM() first.")
  | EnginePresent pdfcpuCompress =>
      if negb (validatePDFBuffer pdfBuffer) then LibThrows (Some "Invalid PDF buffer")
      else
        match pdfBuffer with
        | Detached => LibThrows (Some "Invalid PDF buffer")
        | Buf pdfData =>
            match pdfcpuCompress pdfData preset (wo_targetDPI params) (wo_jpegQuality params) with
            | EngineData compressedData => LibOk compressedData
            | EngineFails error => LibThrows (Some (or_default_string error "Compression failed"))
            | EngineThrows thrown => LibThrows thrown
            end
        end
  end.

(** [error instanceof Error ? error.message : 'Unknown compression error']. *)
Definition workerErrorText (thrown : option string) : string :=
  match thrown with Some m => m | None => "Unknown compression error" end.

(** [handleCompressChunk]: the terminal message of the worker, if any.  Its
    [progress] messages (10, 30, 100) are not listened to by
    [compressChunk] and are left out.  The adapter is reached only after
    [loadWASM] resolved, so with the engine on [window]. *)
Definition handleCompressChunk (ww : WorkerWorld) (message : CompressChunkMessage)
  : CompressWorkerRun :=
  match loadWASM (ww_scope ww) with
  | LoadPending => StaysSilent
  | LoadRejected error => PostsError error
  | EngineLoaded pdfcpuCompress =>
      match compressPDFWithWASM (EnginePresent pdfcpuCompress) (ccm_pdfData message)
                                (ccm_preset message) (ccm_options message) with
      | LibOk compressedPdf =>
          PostsChunkComplete
            {| cc_chunkIndex := ccm_chunkIndex message;
               cc_compressedPdf := compressedPdf;
               cc_originalSize := byteLength (ccm_pdfData message);
               cc_compressedSize := Z.of_nat (List.length compressedPdf);
               cc_processingTime := ww_endTime ww - ww_startTime ww |}
      | LibThrows thrown => PostsError (workerErrorText thrown)
      end
  end.

(** What [compressChunk] gets to see of the worker: its terminal message
    when that arrives before the timer fires, nothing otherwise. *)
Definition compressionWorker (ww : WorkerWorld) (message : CompressChunkMessage)
  : CompressWorkerRun :=
  if ww_inTime ww then handleCompressChunk ww message else StaysSilent.

(* ===================================================================== *)
(** * The chunk plan of a pass *)
(* ===================================================================== *)





(* ===================================================================== *)
(** * Concrete jobs *)
(* ===================================================================== *)

Module Scenario.

(** The eight bytes of "%PDF-1.4". *)
Definition samplePdf : ArrayBuffer := Buf [37; 80; 68; 70; 45; 49; 46; 52].

Definition bytesOf (b : ArrayBuffer) : list Z :=
  match b with Buf bytes => bytes | Detached => [] end.

(** An engine that halves every chunk in 40 ms. *)
Definition halvingWorker (m : CompressChunkMessage) : CompressWorkerRun :=
  let input := bytesOf (ccm_pdfData m) in
  let output := firstn (Nat.div2 (List.length input)) input in
  PostsChunkComplete
    {| cc_chunkIndex := ccm_chunkIndex m;
       cc_compressedPdf := output;
       cc_originalSize := Z.of_nat (List.length input);
       cc_compressedSize := Z.of_nat (List.length output);
       cc_processingTime := 40 |}.

(** The worker source that [getCompressionWorkerCode] returns. *)
Definition placeholderWorker (_ : CompressChunkMessage) : CompressWorkerRun :=
  PostsError "Worker not implemented yet".

(** An engine that rejects the document under "max" only. *)
Definition pickyWorker (m : CompressChunkMessage) : CompressWorkerRun :=
  match ccm_preset m with
  | Max => PostsError "Invalid PDF structure"
  | _ => halvingWorker m
  end.

(** A document of [pages] pages, 100 bytes a page once extracted. *)
Definition world (pages : Z) (worker : CompressChunkMessage -> CompressWorkerRun) : Env :=
  {| env_isMobile := false;
     env_startTime := 1000;
     env_endTime := 1900;
     env_loadWASM := fun _ => WasmLoaded;
     env_pageCount := fun _ => LibOk pages;
     env_copyPages := fun _ pageIndices => LibOk (repeat 7 (100 * List.length pageIndices));
     env_readMetadata := fun _ => LibOk emptyMetadata;
     env_mergeDocuments := fun chunks _ => LibOk (flat_map bytesOf chunks);
     env_compressWorker := worker;
     env_mergeWorker := fun m =>
       {| mw_progress := [10%Q; 30%Q; 90%Q; 100%Q];
          mw_terminal := PostsMergeComplete (flat_map bytesOf (mcm_chunks m)) |} |}.

(** A library that cannot open the document. *)
Definition unreadable : Env :=
  {| env_isMobile := false;
     env_startTime := 1000;
     env_endTime := 1900;
     env_loadWASM := fun _ => WasmLoaded;
     env_pageCount := fun _ => LibThrows (Some "No PDF header found");
     env_copyPages := fun _ _ => LibThrows (Some "No PDF header found");
     env_readMetadata := fun _ => LibThrows (Some "No PDF header found");
     env_mergeDocuments := fun _ _ => LibThrows (Some "No PDF header found");
     env_compressWorker := halvingWorker;
     env_mergeWorker := fun _ => {| mw_progress := []; mw_terminal := MergeStaysSilent |} |}.

Definition job (preset : string) (callback : bool) (chunkSize : option Z)
           (degrade : option bool) : PartialOptions :=
  {| in_preset := Some preset;
     in_chunkSize := chunkSize;
     in_onProgress := callback;
     in_wasmUrl := None;
     in_gracefulDegradation := degrade;
     in_preserveMetadata := None;
     in_targetDPI := None;
     in_jpegQuality := None;
     in_enableRasterization := None;
     in_mergeStrategy := None;
     in_timeout := None |}.

Definition fullJob (preset : CompressionPreset) (callback : bool) (chunkSize : option Z)
           (degrade : option bool) : CompressionOptions :=
  fullOptions (job (preset_name preset) callback chunkSize degrade) preset.

(** Phase and value of every event, in order. *)
Definition progressValues (log : list Step) : list (ProgressPhase * Q) :=
  map (fun ev => (phase ev, Qred (progress ev))) (emittedEvents log).

(** The ETA carried by the events of chunk completion. *)
Definition reportedETAs (log : list Step) : list (option Z) :=
  flat_map (fun ev => match phase ev, estimatedTimeRemaining ev with
                      | Compressing, Some eta => [Some eta]
                      | _, _ => []
                      end) (emittedEvents log).

End Scenario.


(* ===================================================================== *)
(** * More concrete jobs *)
(* ===================================================================== *)

Module Example.

(** A document of [pages] pages, 100 bytes a page once extracted, with the
    given workers. *)
Definition worldWith (pages : Z) (worker : CompressChunkMessage -> CompressWorkerRun)
           (mergeWorker : MergeChunksMessage -> MergeWorkerRun) : Env :=
  {| env_isMobile := false;
     env_startTime := 1000;
     env_endTime := 1900;
     env_loadWASM := fun _ => WasmLoaded;
     env_pageCount := fun _ => LibOk pages;
     env_copyPages := fun _ pageIndices => LibOk (repeat 7 (100 * List.length pageIndices));
     env_readMetadata := fun _ => LibOk emptyMetadata;
     env_mergeDocuments := fun chunks _ => LibOk (flat_map Scenario.bytesOf chunks);
     env_compressWorker := worker;
     env_mergeWorker := mergeWorker |}.

(** The two worker scripts the orchestrator ships. *)
Definition shipped (pages : Z) : Env :=
  worldWith pages getCompressionWorkerCode getMergeWorkerCode.

(** A merge worker that reports once and then never answers. *)
Definition silentMerge (pages : Z) : Env :=
  worldWith pages Scenario.halvingWorker
            (fun _ => {| mw_progress := [10%Q]; mw_terminal := MergeStaysSilent |}).

(** Compression workers that never answer. *)
Definition silentChunks (pages : Z) : Env :=
  worldWith pages (fun _ => StaysSilent) getMergeWorkerCode.

(** Compression workers that crash. *)
Definition crashing (pages : Z) : Env :=
  worldWith pages (fun _ => FiresOnError "Script error.") getMergeWorkerCode.

(** The state a pass starts from, without a callback. *)
Definition freshPass : PassState :=
  {| st_progress := newProgressTracker false; st_log := [] |}.

(** A tracker half way through four chunks, which took 50 and 70. *)
Definition midway : ProgressTracker :=
  {| pt_totalChunks := 4; pt_completedChunks := 2; pt_currentPhase := Compressing;
     pt_chunkTimes := [50; 70]; pt_onProgress := true |}.

(** What a settled call resolved with (the fallback result otherwise). *)
Definition resultOf (env : Env) (o : Outcome CompressionResult) : CompressionResult :=
  match o with
  | Resolved r => r
  | _ => originalPdfResult env Detached (Scenario.fullJob Balanced false None None)
  end.

(** A job that asks for the metadata. *)
Definition keepingMetadata (preset : string) (chunkSize : option Z) : PartialOptions :=
  {| in_preset := Some preset;
     in_chunkSize := chunkSize;
     in_onProgress := false;
     in_wasmUrl := None;
     in_gracefulDegradation := None;
     in_preserveMetadata := Some true;
     in_targetDPI := None;
     in_jpegQuality := None;
     in_enableRasterization := None;
     in_mergeStrategy := None;
     in_timeout := None |}.

(** [toFixed(1)], good enough for whole percentages. *)
Definition wholePercent (x : JsNum) : string :=
  match x with
  | Fin q => show_Z (Qfloor q) ++ ".0"
  | PosInfinity => "Infinity"
  | NegInfinity => "-Infinity"
  | NaN => "NaN"
  end.

(** A browser in which every library call succeeds: the re-save keeps the
    size, the rendered copy has [imageBytes] bytes, every page is A4 at 72
    dots per inch. *)
Definition browser (pages : Z) (imageBytes : nat) : CompressorWorld :=
  {| cw_startTime := 1000;
     cw_endTime := 1450;
     cw_toFixed1 := wholePercent;
     cw_load := fun _ => LibOk pages;
     cw_saveOptimized := fun b => LibOk (Scenario.bytesOf b);
     cw_openForRendering := fun _ => LibOk tt;
     cw_viewport := fun _ _ => LibOk (595 # 1, 842 # 1)%Q;
     cw_hasDocument := true;
     cw_render := fun _ _ _ _ => LibOk tt;
     cw_saveImages := fun _ _ => LibOk (repeat 0 imageBytes);
     cw_detachedMessage := "Cannot perform Construct on a detached ArrayBuffer" |}.

(** The same libraries where there is no [document]. *)
Definition headless (pages : Z) : CompressorWorld :=
  {| cw_startTime := 1000;
     cw_endTime := 1450;
     cw_toFixed1 := wholePercent;
     cw_load := fun _ => LibOk pages;
     cw_saveOptimized := fun b => LibOk (Scenario.bytesOf b);
     cw_openForRendering := fun _ => LibOk tt;
     cw_viewport := fun _ _ => LibOk (595 # 1, 842 # 1)%Q;
     cw_hasDocument := false;
     cw_render := fun _ _ _ _ => LibThrows (Some "document is not defined");
     cw_saveImages := fun _ _ => LibThrows None;
     cw_detachedMessage := "Cannot perform Construct on a detached ArrayBuffer" |}.

(** A 'balanced' job with a callback, run in a browser whose rendered
    copy of the two pages has 4 bytes, and what it resolves with. *)
Definition balancedJob : CompressionOptions := Scenario.fullJob Balanced true None None.

Definition balancedRun : list ProgressEvent * Outcome CompressionResult :=
  compressPDF (browser 2 4) Scenario.samplePdf balancedJob.

Definition rendered : CompressionResult :=
  {| pdf := Buf (repeat 0 4);
     stats := compressorStats (browser 2 4) Balanced 8 4;
     warning := None |}.

(** A dedicated worker under V8: no [window], and an answer well before
    the timer. *)
Definition dedicated : WorkerWorld :=
  {| ww_startTime := 0; ww_endTime := 5;
     ww_scope := NoWindow "window is not defined";
     ww_inTime := true |}.

(** A document of three pages handed to the repository's compression
    worker, run as a dedicated worker. *)
Definition workerJob : Env :=
  worldWith 3 (compressionWorker dedicated) getMergeWorkerCode.




End Example.
(* ===================================================================== *)
(** * Preset catalog *)
(* ===================================================================== *)

Lemma getPresetFallbackChain_eq (p : CompressionPreset) :
  getPresetFallbackChain p =
  match p with
  | Max => [Max; Balanced; Lossless]
  | Balanced => [Balanced; Lossless]
  | Lossless => [Lossless]
  end.
Proof.
  unfold getPresetFallbackChain.
  destruct p; simp fallbackLoop; simpl; simp fallbackLoop; reflexivity.
Qed.

(** C4: the degradation chain of "max" is [max, balanced, lossless], that
    of "balanced" is [balanced, lossless], that of "lossless" is
    [lossless]. *)
Theorem fallback_chain_exact :
  getPresetFallbackChain Max = [Max; Balanced; Lossless] /\
  getPresetFallbackChain Balanced = [Balanced; Lossless] /\
  getPresetFallbackChain Lossless = [Lossless].
Proof. repeat split; apply getPresetFallbackChain_eq. Qed.

(* ===================================================================== *)
(** * Input validation in [compress] *)
(* ===================================================================== *)

(** C9: a buffer of byte length zero makes [compress] reject with a
    [CompressionError] whose original size is 0 (not a [TypeError]), whatever
    the options are (an invalid preset name included), before the engine is
    loaded, the document validated or any chunk processed: the log is empty. *)
Theorem empty_buffer_rejected_first :
  forall (env : Env) (buffer : ArrayBuffer) (options : PartialOptions),
    byteLength buffer = 0 ->
    compress env (AnArrayBuffer buffer) options =
    ([], Rejected (CompressionError "Empty PDF buffer" Lossless 0 None None)).
Proof.
  intros env buffer options Hlen.
  unfold compress, compress_body.
  rewrite Hlen. reflexivity.
Qed.

Lemma empty_buffer_rejected_first_witness :
  byteLength (Buf []) = 0 /\
  compress Scenario.unreadable (AnArrayBuffer (Buf []))
           (Scenario.job "no-such-preset" true None None) =
  ([], Rejected (CompressionError "Empty PDF buffer" Lossless 0 None None)).
Proof.
  split; [reflexivity |].
  apply (empty_buffer_rejected_first Scenario.unreadable (Buf [])
           (Scenario.job "no-such-preset" true None None)).
  reflexivity.
Defined.

(* ===================================================================== *)
(** * Chunk planning *)
(* ===================================================================== *)

Section ChunkPlan.

Variables totalPages chunkSize : Z.
Hypothesis chunkSize_pos : 0 < chunkSize.

(** [ceilDiv] is the ceiling of the quotient: the least [n] with
    [totalPages <= n * chunkSize]. *)
Lemma ceilDiv_bounds :
  (ceilDiv totalPages chunkSize - 1) * chunkSize < totalPages
  <= ceilDiv totalPages chunkSize * chunkSize.
Proof.
  unfold ceilDiv.
  pose proof (Z.div_mod (- totalPages) chunkSize ltac:(lia)) as Hdm.
  pose proof (Z.mod_pos_bound (- totalPages) chunkSize chunkSize_pos) as Hr.
  nia.
Qed.

Lemma ceilDiv_pos : 0 < totalPages -> 0 < ceilDiv totalPages chunkSize.
Proof. pose proof ceilDiv_bounds. nia. Qed.

Lemma ceilDiv_one : 0 < totalPages <= chunkSize -> ceilDiv totalPages chunkSize = 1.
Proof. pose proof ceilDiv_bounds. nia. Qed.


Lemma chunkRangesFrom_S (first count : nat) :
  chunkRangesFrom totalPages chunkSize first (S count) =
  (chunkStart chunkSize (Z.of_nat first), chunkEnd totalPages chunkSize (Z.of_nat first))
    :: chunkRangesFrom totalPages chunkSize (S first) count.
Proof. reflexivity. Qed.



End ChunkPlan.



(* ===================================================================== *)
(** * The tracker's arithmetic *)
(* ===================================================================== *)

Lemma fraction_bounds (c t : Z) :
  0 < t -> 0 <= c <= t -> (0 <= inject_Z c / inject_Z t <= 1)%Q.
Proof.
  intros Ht Hc.
  assert (Htq : (0 < inject_Z t)%Q)
    by (change 0%Q with (inject_Z 0); rewrite <- Zlt_Qlt; exact Ht).
  split.
  - apply Qle_shift_div_l; [exact Htq |]. rewrite Qmult_0_l.
    change 0%Q with (inject_Z 0). rewrite <- Zle_Qle. lia.
  - apply Qle_shift_div_r; [exact Htq |]. rewrite Qmult_1_l.
    rewrite <- Zle_Qle. lia.
Qed.

(** In the compressing phase, with between 0 and [totalChunks] chunks
    completed, the computed progress is [10 + 80 * completed / total] and
    stays within [10, 90]. *)
Lemma compressing_band (t : ProgressTracker) :
  pt_currentPhase t = Compressing ->
  0 < pt_totalChunks t ->
  0 <= pt_completedChunks t <= pt_totalChunks t ->
  (Tracker.calculateProgress t ==
   10 + 80 * (inject_Z (pt_completedChunks t) / inject_Z (pt_totalChunks t)))%Q /\
  (10 <= Tracker.calculateProgress t <= 90)%Q.
Proof.
  intros Hphase Htotal Hdone. unfold Tracker.calculateProgress.
  destruct (pt_totalChunks t =? 0) eqn:E; [lia |]. rewrite Hphase.
  pose proof (fraction_bounds _ _ Htotal Hdone) as [Hlo Hhi].
  split; [ring | split; lra].
Qed.

(** Completing a chunk never lowers the computed progress. *)
Lemma completeChunk_monotone (t : ProgressTracker) (chunkIndex processingTime : Z) :
  pt_currentPhase t = Compressing ->
  0 < pt_totalChunks t ->
  (Tracker.calculateProgress t
   <= Tracker.calculateProgress (fst (Tracker.completeChunk chunkIndex processingTime t)))%Q.
Proof.
  intros Hphase Htotal. unfold Tracker.calculateProgress, Tracker.completeChunk.
  cbn [fst pt_totalChunks pt_completedChunks pt_currentPhase].
  destruct (pt_totalChunks t =? 0) eqn:E; [lia |]. rewrite Hphase.
  assert (Htq : (0 < inject_Z (pt_totalChunks t))%Q)
    by (change 0%Q with (inject_Z 0); rewrite <- Zlt_Qlt; exact Htotal).
  assert (Hstep : (inject_Z (pt_completedChunks t) / inject_Z (pt_totalChunks t)
                   <= inject_Z (pt_completedChunks t + 1) / inject_Z (pt_totalChunks t))%Q).
  { apply Qmult_le_compat_r.
    - rewrite <- Zle_Qle. lia.
    - apply Qlt_le_weak, Qinv_lt_0_compat. exact Htq. }
  lra.
Qed.

(** The estimate after [k] of [n] chunks: none when no time was recorded
    or all chunks are done, otherwise the ceiling of the mean of the recorded
    values times the chunks that remain. *)
Lemma estimateTimeRemaining_formula (t : ProgressTracker) :
  Tracker.estimateTimeRemaining t =
  if (Nat.eqb (List.length (pt_chunkTimes t)) 0
      || (pt_totalChunks t <=? pt_completedChunks t))%bool
  then None
  else Some (Qceiling (inject_Z (fold_left Z.add (pt_chunkTimes t) 0)
                       / inject_Z (Z.of_nat (List.length (pt_chunkTimes t)))
                       * inject_Z (pt_totalChunks t - pt_completedChunks t))).
Proof. reflexivity. Qed.

(* ===================================================================== *)
(** * Stepping through a pass *)
(* ===================================================================== *)

Lemma bind_resolved {S A B : Type} (m : M S A) (k : A -> M S B) (s s' : S) (a : A) :
  m s = (s', Resolved a) -> bind m k s = k a s'.
Proof. intros H. unfold bind. rewrite H. reflexivity. Qed.

Lemma bind_rejected {S A B : Type} (m : M S A) (k : A -> M S B) (s s' : S) (e : JsError) :
  m s = (s', Rejected e) -> bind m k s = (s', Rejected e).
Proof. intros H. unfold bind. rewrite H. reflexivity. Qed.

(** A tracker method or a logged action never throws; it leaves the log
    extended and, for an action, the tracker untouched. *)
Lemma track_resolved (method : Tracker.Method) (s : PassState) :
  exists s', track method s = (s', Resolved tt).
Proof. unfold track. destruct (method (st_progress s)). eexists; reflexivity. Qed.

Lemma perform_resolved (a : Action) (s : PassState) :
  exists s', perform a s = (s', Resolved tt).
Proof. eexists; reflexivity. Qed.

Lemma metadataIfPreserved_resolved env pdfBuffer options (s : PassState) :
  exists s' md, metadataIfPreserved env pdfBuffer options s = (s', Resolved md).
Proof.
  unfold metadataIfPreserved.
  destruct (truthy _); do 2 eexists; reflexivity.
Qed.

Ltac step :=
  match goal with
  | |- context [bind (track ?f) ?k ?s] =>
      let s' := fresh "s" in let E := fresh "E" in
      destruct (track_resolved f s) as [s' E];
      rewrite (bind_resolved (track f) k s s' tt E); clear E
  | |- context [bind (perform ?a) ?k ?s] =>
      let s' := fresh "s" in let E := fresh "E" in
      destruct (perform_resolved a s) as [s' E];
      rewrite (bind_resolved (perform a) k s s' tt E); clear E
  | |- context [bind (metadataIfPreserved ?env ?b ?o) ?k ?s] =>
      let s' := fresh "s" in let md := fresh "md" in let E := fresh "E" in
      destruct (metadataIfPreserved_resolved env b o s) as (s' & md & E);
      rewrite (bind_resolved _ k s s' md E); clear E
  | |- context [bind (await (Resolved ?a)) ?k ?s] =>
      rewrite (bind_resolved (await (Resolved a)) k s s a eq_refl)
  | |- context [bind (ret ?a) ?k ?s] =>
      rewrite (bind_resolved (ret a) k s s a eq_refl)
  end.

(* ===================================================================== *)
(** * Merging a single chunk *)
(* ===================================================================== *)

(** With one chunk [mergeChunks] hands that chunk back, under either
    strategy, without an action or an event. *)
Lemma mergeChunks_single env (chunk : ArrayBuffer) metadata options (s : PassState) :
  mergeChunks env [chunk] metadata options s = (s, Resolved chunk).
Proof.
  unfold mergeChunks. cbn [List.length Nat.eqb].
  rewrite orb_true_r. reflexivity.
Qed.

Lemma withPreset_same (options : CompressionOptions) :
  withPreset options (opt_preset options) = options.
Proof. destruct options; reflexivity. Qed.

Lemma preset_eqb_refl (p : CompressionPreset) : preset_eqb p p = true.
Proof. destruct p; reflexivity. Qed.

Lemma chain_head (options : CompressionOptions) :
  exists rest,
    (if not_false (opt_gracefulDegradation options)
     then getPresetFallbackChain (opt_preset options)
     else [opt_preset options]) = opt_preset options :: rest.
Proof.
  destruct (not_false _); [| eexists; reflexivity].
  rewrite getPresetFallbackChain_eq. destruct (opt_preset options); eexists; reflexivity.
Qed.

(** A worker that answers [chunk-complete] resolves the promise with its
    buffer; the chunk that was sent is detached by then. *)
Lemma compressChunk_complete env chunkPdf options chunkIndex reply (s : PassState) :
  env_compressWorker env (compressChunkMessage chunkPdf options chunkIndex)
  = PostsChunkComplete reply ->
  exists s',
    compressChunk env chunkPdf options chunkIndex s =
    (s', Resolved (Buf (cc_compressedPdf reply), transfer chunkPdf)).
Proof.
  intros Hworker. unfold compressChunk. cbv zeta.
  step. rewrite Hworker. eexists. reflexivity.
Qed.

(** The chunk loop over a document of one chunk: the statistics entry is
    read from the handle that was transferred. *)
Lemma chunkLoop_single env pdfBuffer options totalPages chunkSize chunkPdf reply
      (s : PassState) :
  0 < totalPages <= chunkSize ->
  extractPages env pdfBuffer 0 totalPages = Resolved chunkPdf ->
  env_compressWorker env (compressChunkMessage chunkPdf options 0) = PostsChunkComplete reply ->
  exists s',
    chunkLoop env pdfBuffer options totalPages chunkSize 1 0 [] [] s =
    (s', Resolved ([Buf (cc_compressedPdf reply)],
                   [ {| chunk_originalSize := byteLength (transfer chunkPdf);
                        chunk_compressedSize := byteLength (Buf (cc_compressedPdf reply)) |} ])).
Proof.
  intros Hone Hextract Hworker.
  cbn [chunkLoop].
  replace (chunkStart _ 0) with 0 by reflexivity.
  replace (chunkEnd totalPages _ 0) with totalPages by (unfold chunkEnd; lia).
  step. rewrite Hextract. do 2 step.
  match goal with
  | |- context [bind (compressChunk ?e ?c ?o ?i) ?k ?s] =>
      destruct (compressChunk_complete e c o i reply s Hworker) as [s' Hc];
      rewrite (bind_resolved _ k s s' _ Hc); clear Hc
  end.
  step. cbn [app]. eexists. reflexivity.
Qed.

(** A pass over a document of one chunk. *)
Lemma single_chunk_pass env pdfBuffer options totalPages chunkPdf reply :
  env_pageCount env pdfBuffer = LibOk totalPages ->
  0 < totalPages <= resolveChunkSize env options totalPages (byteLength pdfBuffer) ->
  extractPages env pdfBuffer 0 totalPages = Resolved chunkPdf ->
  env_compressWorker env (compressChunkMessage chunkPdf options 0) = PostsChunkComplete reply ->
  exists acts stats,
    compressWithPreset env pdfBuffer options =
    (acts, Resolved {| pr_pdf := Buf (cc_compressedPdf reply); pr_stats := stats |}) /\
    ps_chunksProcessed stats = 1.
Proof.
  intros Hcount Hone Hextract Hworker.
  assert (Hsize : 0 < resolveChunkSize env options totalPages (byteLength pdfBuffer)) by lia.
  pose proof (ceilDiv_one totalPages _ Hsize Hone) as Hnum.
  unfold compressWithPreset, compressWithPreset_body.
  do 2 step. unfold countPages. rewrite Hcount. step. cbv zeta.
  rewrite Hnum. do 4 step.
  change (Z.to_nat 1) with 1%nat.
  match goal with
  | |- context [bind (chunkLoop _ _ _ _ _ _ _ _ _) ?k ?s] =>
      destruct (chunkLoop_single env pdfBuffer options totalPages _ chunkPdf reply s
                  Hone Hextract Hworker) as [s' Hloop];
      rewrite (bind_resolved _ k s s' _ Hloop); clear Hloop
  end.
  step.
  match goal with
  | |- context [bind (mergeChunks ?e ?c ?m ?o) ?k ?s] =>
      rewrite (bind_resolved _ k s s _ (mergeChunks_single e _ m o s))
  end.
  cbv zeta. step. cbn.
  do 2 eexists. split; reflexivity.
Qed.

(* ===================================================================== *)
(** * What every resolved pass has done *)
(* ===================================================================== *)

Lemma bind_resolved_inv {S A B : Type} (m : M S A) (k : A -> M S B) (s s' : S) (b : B) :
  bind m k s = (s', Resolved b) ->
  exists s1 a, m s = (s1, Resolved a) /\ k a s1 = (s', Resolved b).
Proof.
  unfold bind. destruct (m s) as [s1 [a | e |]]; intros H; try discriminate.
  exists s1, a. split; [reflexivity | exact H].
Qed.

Lemma extractCalls_app (l1 l2 : list Action) :
  extractCalls (l1 ++ l2) = extractCalls l1 ++ extractCalls l2.
Proof. unfold extractCalls. apply flat_map_app. Qed.

Lemma extractCalls_events (evs : list ProgressEvent) :
  extractCalls (map OnProgress evs) = [].
Proof. induction evs as [| ev evs IH]; [reflexivity | exact IH]. Qed.

(** A tracker call adds events only. *)
Lemma track_extractCalls (method : Tracker.Method) (s s' : PassState) (o : Outcome unit) :
  track method s = (s', o) -> extractCalls (st_log s') = extractCalls (st_log s).
Proof.
  unfold track. destruct (method (st_progress s)) as [t' evs]. intros H. inversion H; subst.
  cbn [st_log]. rewrite extractCalls_app, extractCalls_events. apply app_nil_r.
Qed.

Lemma perform_log (a : Action) (s s' : PassState) (o : Outcome unit) :
  perform a s = (s', o) -> st_log s' = st_log s ++ [a].
Proof. unfold perform. intros H. inversion H; subst. reflexivity. Qed.

Lemma await_state {A : Type} (p : Outcome A) (s s' : PassState) (o : Outcome A) :
  await p s = (s', o) -> s' = s /\ o = p.
Proof. unfold await. intros H. inversion H; subst. split; reflexivity. Qed.

(** The promise of [compressChunk] resolves only after the chunk has been
    transferred: the handle that comes back is detached. *)
Lemma compressChunk_resolved_inv env chunkPdf options chunkIndex
      (s s' : PassState) compressed after :
  compressChunk env chunkPdf options chunkIndex s = (s', Resolved (compressed, after)) ->
  after = Detached /\ extractCalls (st_log s') = extractCalls (st_log s).
Proof.
  unfold compressChunk. cbv zeta. intros H.
  apply bind_resolved_inv in H. destruct H as (s1 & [] & Hpost & Hrest).
  apply perform_log in Hpost.
  destruct (env_compressWorker env _); unfold ret, throw in Hrest; inversion Hrest; subst.
  split; [reflexivity |].
  rewrite Hpost, extractCalls_app. apply app_nil_r.
Qed.

Lemma reportAll_extractCalls (ps : list Q) :
  forall (s s' : PassState) (o : Outcome unit),
    reportAll ps s = (s', o) -> extractCalls (st_log s') = extractCalls (st_log s).
Proof.
  induction ps as [| p ps IH]; intros s s' o H.
  - inversion H; subst. reflexivity.
  - cbn [reportAll] in H. unfold bind in H.
    destruct (track (Tracker.reportMergingProgress p) s) as [s1 [[] | e |]] eqn:Ht.
    + apply IH in H. rewrite H. apply (track_extractCalls _ _ _ _ Ht).
    + inversion H; subst. apply (track_extractCalls _ _ _ _ Ht).
    + inversion H; subst. apply (track_extractCalls _ _ _ _ Ht).
Qed.

Lemma mergeChunks_extractCalls env chunks metadata options (s s' : PassState) o :
  mergeChunks env chunks metadata options s = (s', o) ->
  extractCalls (st_log s') = extractCalls (st_log s).
Proof.
  unfold mergeChunks. cbv zeta.
  destruct (isMainStrategy (opt_mergeStrategy options) || Nat.eqb (List.length chunks) 1)%bool.
  - destruct chunks as [| c [| c' rest]]; unfold bind, perform, await, ret;
      intros H; inversion H; subst; cbn [st_log];
      rewrite ?extractCalls_app; cbn; rewrite ?app_nil_r; reflexivity.
  - unfold bind at 1. unfold perform at 1. unfold bind at 1.
    destruct (reportAll _ _) as [s1 [[] | e |]] eqn:Hreports; intros H.
    + apply reportAll_extractCalls in Hreports. cbn [st_log] in Hreports.
      rewrite extractCalls_app in Hreports. cbn in Hreports. rewrite app_nil_r in Hreports.
      destruct (mw_terminal _); unfold ret, throw, await in H; inversion H; subst;
        exact Hreports.
    + apply reportAll_extractCalls in Hreports. cbn [st_log] in Hreports.
      rewrite extractCalls_app in Hreports. cbn in Hreports. rewrite app_nil_r in Hreports.
      inversion H; subst. exact Hreports.
    + apply reportAll_extractCalls in Hreports. cbn [st_log] in Hreports.
      rewrite extractCalls_app in Hreports. cbn in Hreports. rewrite app_nil_r in Hreports.
      inversion H; subst. exact Hreports.
Qed.

(** The chunk loop, once it has run to its end: it asked for exactly the
    ranges of the plan, and every statistics entry it added carries an
    original size of 0, read from a detached buffer. *)
Lemma chunkLoop_resolved_inv env pdfBuffer options totalPages chunkSize :
  forall (remaining k : nat) compressedChunks chunkStats (s s' : PassState)
         compressedChunks' chunkStats',
    chunkLoop env pdfBuffer options totalPages chunkSize remaining (Z.of_nat k)
              compressedChunks chunkStats s
    = (s', Resolved (compressedChunks', chunkStats')) ->
    extractCalls (st_log s') =
    extractCalls (st_log s) ++ chunkRangesFrom totalPages chunkSize k remaining /\
    exists added,
      chunkStats' = chunkStats ++ added /\
      Forall (fun st => chunk_originalSize st = 0) added.
Proof.
  induction remaining as [| remaining IH];
    intros k compressedChunks chunkStats s s' compressedChunks' chunkStats' H.
  - cbn in H. inversion H; subst. split; [now rewrite app_nil_r |].
    exists []. split; [now rewrite app_nil_r | constructor].
  - cbn [chunkLoop] in H. cbv zeta in H.
    apply bind_resolved_inv in H. destruct H as (s1 & [] & Hask & H).
    apply perform_log in Hask.
    apply bind_resolved_inv in H. destruct H as (s2 & chunkPdf & Hextract & H).
    apply await_state in Hextract. destruct Hextract as [-> _].
    apply bind_resolved_inv in H. destruct H as (s3 & [] & Hstart & H).
    apply track_extractCalls in Hstart.
    apply bind_resolved_inv in H. destruct H as (s4 & [compressed after] & Hchunk & H).
    apply compressChunk_resolved_inv in Hchunk. destruct Hchunk as [-> Hlog4].
    apply bind_resolved_inv in H. destruct H as (s5 & [] & Hdone & H).
    apply track_extractCalls in Hdone.
    replace (Z.of_nat k + 1) with (Z.of_nat (S k)) in H by lia.
    apply IH in H. destruct H as (Hcalls & added & -> & Hzero).
    split.
    + rewrite Hcalls, Hdone, Hlog4, Hstart, Hask, extractCalls_app.
      rewrite chunkRangesFrom_S. cbn [extractCalls flat_map app].
      rewrite <- app_assoc. reflexivity.
    + eexists. split; [rewrite <- app_assoc; reflexivity |].
      constructor; [reflexivity | exact Hzero].
Qed.

Lemma sum_of_zero_sizes (added : list ChunkStat) :
  Forall (fun st => chunk_originalSize st = 0) added ->
  forall start, fold_left (fun sum st => sum + chunk_originalSize st) added start = start.
Proof.
  induction 1 as [| st rest Hst _ IH]; intros start; cbn [fold_left].
  - reflexivity.
  - rewrite Hst, Z.add_0_r. apply IH.
Qed.

(** Every pass that resolves: the page count was read, the ranges handed to
    [extractPages] are those of the plan, the artifact's length is the
    compressed size, the derived figures follow from the two sizes, and
    the original size is 0 whatever was extracted. *)
Lemma resolved_pass_inv env pdfBuffer options acts result :
  compressWithPreset env pdfBuffer options = (acts, Resolved result) ->
  exists totalPages,
    env_pageCount env pdfBuffer = LibOk totalPages /\
    let chunkSize := resolveChunkSize env options totalPages (byteLength pdfBuffer) in
    extractCalls acts = chunkPlan totalPages chunkSize /\
    ps_chunksProcessed (pr_stats result) = ceilDiv totalPages chunkSize /\
    ps_compressedSize (pr_stats result) = byteLength (pr_pdf result) /\
    ps_bytesSaved (pr_stats result)
    = ps_originalSize (pr_stats result) - ps_compressedSize (pr_stats result) /\
    ps_ratio (pr_stats result)
    = js_div (ps_compressedSize (pr_stats result)) (ps_originalSize (pr_stats result)) /\
    ps_percentageSaved (pr_stats result)
    = js_times100 (js_div (ps_bytesSaved (pr_stats result))
                          (ps_originalSize (pr_stats result))) /\
    ps_originalSize (pr_stats result) = 0.
Proof.
  unfold compressWithPreset, compressWithPreset_body.
  destruct (bind _ _ _) as [s' out] eqn:H. intros Hres. inversion Hres; subst. clear Hres.
  apply bind_resolved_inv in H. destruct H as (s1 & [] & H1 & H).
  apply track_extractCalls in H1. cbn [st_log extractCalls flat_map] in H1.
  apply bind_resolved_inv in H. destruct H as (s2 & [] & H2 & H).
  apply perform_log in H2.
  apply bind_resolved_inv in H. destruct H as (s3 & totalPages & H3 & H).
  apply await_state in H3. destruct H3 as [-> Hcount].
  unfold countPages in Hcount.
  destruct (env_pageCount env pdfBuffer) as [n | m] eqn:Hpages; inversion Hcount; subst n.
  exists totalPages. split; [reflexivity |]. cbv zeta in H |- *.
  apply bind_resolved_inv in H. destruct H as (s4 & [] & H4 & H).
  apply track_extractCalls in H4.
  apply bind_resolved_inv in H. destruct H as (s5 & [] & H5 & H).
  apply track_extractCalls in H5.
  apply bind_resolved_inv in H. destruct H as (s6 & metadata & H6 & H).
  assert (Hlog6 : extractCalls (st_log s6) = extractCalls (st_log s5)).
  { unfold metadataIfPreserved in H6. cbv zeta in H6.
    destruct (truthy _); unfold bind, perform, ret in H6; inversion H6; subst; cbn [st_log];
      rewrite ?extractCalls_app; cbn; rewrite ?app_nil_r; reflexivity. }
  apply bind_resolved_inv in H. destruct H as (s7 & [] & H7 & H).
  apply track_extractCalls in H7.
  apply bind_resolved_inv in H. destruct H as (s8 & [compressedChunks chunkStats] & H8 & H).
  apply (chunkLoop_resolved_inv env pdfBuffer options totalPages _ _ 0%nat) in H8.
  destruct H8 as (Hcalls & added & Hstats & Hzero). cbn [app] in Hstats. subst chunkStats.
  apply bind_resolved_inv in H. destruct H as (s9 & [] & H9 & H).
  apply track_extractCalls in H9.
  apply bind_resolved_inv in H. destruct H as (s10 & mergedPdf & H10 & H).
  apply mergeChunks_extractCalls in H10.
  apply bind_resolved_inv in H. destruct H as (s11 & [] & H11 & H).
  apply track_extractCalls in H11.
  unfold ret in H. inversion H; subst. cbn [pr_stats pr_pdf].
  unfold passStats. cbn.
  rewrite (sum_of_zero_sizes added Hzero 0).
  repeat split; try reflexivity.
  rewrite H11, H10, H9, Hcalls, H7, Hlog6, H5, H4, H2, extractCalls_app, H1.
  reflexivity.
Qed.

(* ===================================================================== *)
(** * What every rejected pass throws *)
(* ===================================================================== *)

Lemma bind_rejected_inv {S A B : Type} (m : M S A) (k : A -> M S B) (s s' : S) (e : JsError) :
  bind m k s = (s', Rejected e) ->
  m s = (s', Rejected e) \/
  exists s1 a, m s = (s1, Resolved a) /\ k a s1 = (s', Rejected e).
Proof.
  unfold bind. destruct (m s) as [s1 [a | e1 |]]; intros H; try discriminate.
  - right. exists s1, a. split; [reflexivity | exact H].
  - left. inversion H; reflexivity.
Qed.

Lemma track_never_rejects (method : Tracker.Method) (s s' : PassState) (e : JsError) :
  track method s <> (s', Rejected e).
Proof. unfold track. destruct (method (st_progress s)). discriminate. Qed.

Lemma perform_never_rejects (a : Action) (s s' : PassState) (e : JsError) :
  perform a s <> (s', Rejected e).
Proof. unfold perform. discriminate. Qed.

Lemma reportAll_never_rejects (ps : list Q) :
  forall (s s' : PassState) (e : JsError), reportAll ps s <> (s', Rejected e).
Proof.
  induction ps as [| p ps IH]; intros s s' e H.
  - discriminate.
  - cbn [reportAll] in H. apply bind_rejected_inv in H.
    destruct H as [H | (s1 & [] & _ & H)].
    + exact (track_never_rejects _ _ _ _ H).
    + exact (IH _ _ _ H).
Qed.

Lemma countPages_throws_plain env buffer e :
  countPages env buffer = Rejected e -> isPlainError e.
Proof.
  unfold countPages. destruct (env_pageCount env buffer); intros H; inversion H.
  eexists; reflexivity.
Qed.

Lemma extractPages_throws_plain env buffer startPage endPage e :
  extractPages env buffer startPage endPage = Rejected e -> isPlainError e.
Proof.
  unfold extractPages. destruct (env_pageCount env buffer); [| intros H; inversion H; eexists; reflexivity].
  destruct (env_copyPages env buffer _); intros H; inversion H. eexists; reflexivity.
Qed.

Lemma compressChunk_throws_plain env chunkPdf options chunkIndex (s s' : PassState) e :
  compressChunk env chunkPdf options chunkIndex s = (s', Rejected e) -> isPlainError e.
Proof.
  unfold compressChunk. cbv zeta. intros H. apply bind_rejected_inv in H.
  destruct H as [H | (s1 & [] & _ & H)]; [exfalso; exact (perform_never_rejects _ _ _ _ H) |].
  destruct (env_compressWorker env _); unfold ret, throw in H; inversion H;
    eexists; reflexivity.
Qed.

Lemma mergeChunks_throws_plain env chunks metadata options (s s' : PassState) e :
  mergeChunks env chunks metadata options s = (s', Rejected e) -> isPlainError e.
Proof.
  unfold mergeChunks. cbv zeta.
  destruct (isMainStrategy (opt_mergeStrategy options) || Nat.eqb (List.length chunks) 1)%bool.
  - assert (Hmerge : forall cs (t t' : PassState),
               bind (perform (CallMergePDFs cs)) (fun _ => await (mergePDFs env cs metadata)) t
               = (t', Rejected e) -> isPlainError e).
    { intros cs t t' H. apply bind_rejected_inv in H.
      destruct H as [H | (s1 & [] & _ & H)];
        [exfalso; exact (perform_never_rejects _ _ _ _ H) |].
      apply await_state in H. destruct H as [_ H]. symmetry in H.
      unfold mergePDFs in H. destruct (env_mergeDocuments env cs metadata); inversion H.
      eexists; reflexivity. }
    destruct chunks as [| c [| c' rest]]; intros H.
    + exact (Hmerge _ _ _ H).
    + discriminate.
    + exact (Hmerge _ _ _ H).
  - intros H. apply bind_rejected_inv in H.
    destruct H as [H | (s1 & [] & _ & H)];
      [exfalso; exact (perform_never_rejects _ _ _ _ H) |].
    apply bind_rejected_inv in H.
    destruct H as [H | (s2 & [] & _ & H)];
      [exfalso; exact (reportAll_never_rejects _ _ _ _ H) |].
    destruct (mw_terminal _); unfold ret, throw, await in H; inversion H;
      eexists; reflexivity.
Qed.

Lemma chunkLoop_throws_plain env pdfBuffer options totalPages chunkSize :
  forall (remaining : nat) i compressedChunks chunkStats (s s' : PassState) e,
    chunkLoop env pdfBuffer options totalPages chunkSize remaining i
              compressedChunks chunkStats s = (s', Rejected e) ->
    isPlainError e.
Proof.
  induction remaining as [| remaining IH]; intros i cc cs s s' e H.
  - discriminate.
  - cbn [chunkLoop] in H. cbv zeta in H.
    apply bind_rejected_inv in H.
    destruct H as [H | (s1 & [] & _ & H)];
      [exfalso; exact (perform_never_rejects _ _ _ _ H) |].
    apply bind_rejected_inv in H.
    destruct H as [H | (s2 & chunkPdf & _ & H)].
    { apply await_state in H. destruct H as [_ H]. symmetry in H.
      exact (extractPages_throws_plain _ _ _ _ _ H). }
    apply bind_rejected_inv in H.
    destruct H as [H | (s3 & [] & _ & H)];
      [exfalso; exact (track_never_rejects _ _ _ _ H) |].
    apply bind_rejected_inv in H.
    destruct H as [H | (s4 & [compressed after] & _ & H)].
    { exact (compressChunk_throws_plain _ _ _ _ _ _ _ H). }
    apply bind_rejected_inv in H.
    destruct H as [H | (s5 & [] & _ & H)];
      [exfalso; exact (track_never_rejects _ _ _ _ H) |].
    exact (IH _ _ _ _ _ _ H).
Qed.

(** No pass is ever rejected with a [CompressionError]: whatever goes
    wrong inside it surfaces as a plain [Error]. *)
Lemma rejected_pass_throws_plain env pdfBuffer options acts e :
  compressWithPreset env pdfBuffer options = (acts, Rejected e) -> isPlainError e.
Proof.
  unfold compressWithPreset, compressWithPreset_body.
  destruct (bind _ _ _) as [s' out] eqn:H. intros Hres. inversion Hres; subst. clear Hres.
  apply bind_rejected_inv in H.
  destruct H as [H | (s1 & [] & _ & H)];
    [exfalso; exact (track_never_rejects _ _ _ _ H) |].
  apply bind_rejected_inv in H.
  destruct H as [H | (s2 & [] & _ & H)];
    [exfalso; exact (perform_never_rejects _ _ _ _ H) |].
  apply bind_rejected_inv in H.
  destruct H as [H | (s3 & totalPages & _ & H)].
  { apply await_state in H. destruct H as [_ H]. symmetry in H.
    exact (countPages_throws_plain _ _ _ H). }
  cbv zeta in H.
  apply bind_rejected_inv in H.
  destruct H as [H | (s4 & [] & _ & H)];
    [exfalso; exact (track_never_rejects _ _ _ _ H) |].
  apply bind_rejected_inv in H.
  destruct H as [H | (s5 & [] & _ & H)];
    [exfalso; exact (track_never_rejects _ _ _ _ H) |].
  apply bind_rejected_inv in H.
  destruct H as [H | (s6 & metadata & _ & H)].
  { destruct (metadataIfPreserved_resolved env pdfBuffer options s5) as (t & md & Hmd).
    rewrite Hmd in H. discriminate. }
  apply bind_rejected_inv in H.
  destruct H as [H | (s7 & [] & _ & H)];
    [exfalso; exact (track_never_rejects _ _ _ _ H) |].
  apply bind_rejected_inv in H.
  destruct H as [H | (s8 & [compressedChunks chunkStats] & _ & H)].
  { exact (chunkLoop_throws_plain _ _ _ _ _ _ _ _ _ _ _ _ H). }
  apply bind_rejected_inv in H.
  destruct H as [H | (s9 & [] & _ & H)];
    [exfalso; exact (track_never_rejects _ _ _ _ H) |].
  apply bind_rejected_inv in H.
  destruct H as [H | (s10 & mergedPdf & _ & H)].
  { exact (mergeChunks_throws_plain _ _ _ _ _ _ _ H). }
  cbv zeta in H.
  apply bind_rejected_inv in H.
  destruct H as [H | (s11 & [] & _ & H)];
    [exfalso; exact (track_never_rejects _ _ _ _ H) |].
  discriminate.
Qed.

(* ===================================================================== *)
(** * The compressing band, for every pass *)
(* ===================================================================== *)

Lemma bind_inv {S A B : Type} (m : M S A) (k : A -> M S B) (s s' : S) (o : Outcome B) :
  bind m k s = (s', o) ->
  (exists s1 a, m s = (s1, Resolved a) /\ k a s1 = (s', o)) \/
  (exists o', m s = (s', o') /\ forall a, o' <> Resolved a).
Proof.
  unfold bind. destruct (m s) as [s1 [a | e |]]; intros H.
  - left. exists s1, a. split; [reflexivity | exact H].
  - right. inversion H; subst. eexists. split; [reflexivity | discriminate].
  - right. inversion H; subst. eexists. split; [reflexivity | discriminate].
Qed.

Lemma compressingValues_app (l1 l2 : list Action) :
  compressingValues (l1 ++ l2) = compressingValues l1 ++ compressingValues l2.
Proof.
  unfold compressingValues, actionEvents. rewrite !flat_map_app. reflexivity.
Qed.

Lemma extendsInBand_refl (s : PassState) : extendsInBand s s.
Proof. exists []. split; [now rewrite app_nil_r | constructor]. Qed.

Lemma extendsInBand_trans (s1 s2 s3 : PassState) :
  extendsInBand s1 s2 -> extendsInBand s2 s3 -> extendsInBand s1 s3.
Proof.
  intros (a1 & H1 & B1) (a2 & H2 & B2). exists (a1 ++ a2). split.
  - rewrite H2, H1, app_assoc. reflexivity.
  - rewrite compressingValues_app. apply Forall_app. split; assumption.
Qed.

(** A tracker call whose events, if any, are not of the compressing phase
    or lie in the band. *)
Lemma track_extends (method : Tracker.Method) (s s' : PassState) (o : Outcome unit) :
  Forall inCompressingBand
         (compressingValues (map OnProgress (snd (method (st_progress s))))) ->
  track method s = (s', o) ->
  extendsInBand s s' /\ st_progress s' = fst (method (st_progress s)).
Proof.
  unfold track. destruct (method (st_progress s)) as [t' evs]. cbn [fst snd].
  intros Hband H. inversion H; subst. split; [| reflexivity].
  eexists. split; [reflexivity | exact Hband].
Qed.

Lemma perform_extends (a : Action) (s s' : PassState) (o : Outcome unit) :
  (forall ev, a <> OnProgress ev) ->
  perform a s = (s', o) ->
  extendsInBand s s' /\ st_progress s' = st_progress s.
Proof.
  unfold perform. intros Hnot H. inversion H; subst. split; [| reflexivity].
  exists [a]. split; [reflexivity |].
  destruct a; try constructor. exfalso. exact (Hnot ev eq_refl).
Qed.

Lemma emit_other_phase (t : ProgressTracker) (ev : ProgressEvent) :
  phase ev <> Compressing ->
  Forall inCompressingBand (compressingValues (map OnProgress (Tracker.emit t ev))).
Proof.
  intros Hphase. unfold Tracker.emit. destruct (pt_onProgress t); [| constructor].
  unfold compressingValues. cbn. destruct (phase ev); try solve [constructor]. congruence.
Qed.

Lemma emit_in_band (t : ProgressTracker) (ev : ProgressEvent) :
  inCompressingBand (progress ev) ->
  Forall inCompressingBand (compressingValues (map OnProgress (Tracker.emit t ev))).
Proof.
  intros Hband. unfold Tracker.emit. destruct (pt_onProgress t); [| constructor].
  unfold compressingValues. cbn.
  destruct (phase ev); try solve [constructor].
  constructor; [exact Hband | constructor].
Qed.

Lemma compressChunk_extends env chunkPdf options chunkIndex (s s' : PassState) o :
  compressChunk env chunkPdf options chunkIndex s = (s', o) ->
  extendsInBand s s' /\ st_progress s' = st_progress s.
Proof.
  unfold compressChunk. cbv zeta. intros H. apply bind_inv in H.
  destruct H as [(s1 & [] & Hpost & H) | (o' & Hpost & _)].
  - apply perform_extends in Hpost; [| discriminate].
    destruct (env_compressWorker env _); unfold ret, throw in H; inversion H; subst;
      exact Hpost.
  - apply perform_extends in Hpost; [exact Hpost | discriminate].
Qed.

Lemma reportAll_extends (ps : list Q) :
  forall (s s' : PassState) (o : Outcome unit),
    reportAll ps s = (s', o) -> extendsInBand s s'.
Proof.
  induction ps as [| p ps IH]; intros s s' o H.
  - inversion H; subst. apply extendsInBand_refl.
  - cbn [reportAll] in H. apply bind_inv in H.
    destruct H as [(s1 & [] & Ht & H) | (o' & Ht & _)].
    + apply track_extends in Ht; [| apply emit_other_phase; discriminate].
      eapply extendsInBand_trans; [exact (proj1 Ht) | exact (IH _ _ _ H)].
    + apply track_extends in Ht; [exact (proj1 Ht) | apply emit_other_phase; discriminate].
Qed.

Lemma mergeChunks_extends env chunks metadata options (s s' : PassState) o :
  mergeChunks env chunks metadata options s = (s', o) -> extendsInBand s s'.
Proof.
  unfold mergeChunks. cbv zeta.
  destruct (isMainStrategy (opt_mergeStrategy options) || Nat.eqb (List.length chunks) 1)%bool.
  - assert (Hmerge : forall cs (t t' : PassState) o',
               bind (perform (CallMergePDFs cs)) (fun _ => await (mergePDFs env cs metadata)) t
               = (t', o') -> extendsInBand t t').
    { intros cs t t' o' H. apply bind_inv in H.
      destruct H as [(s1 & [] & Hp & H) | (o1 & Hp & _)];
        apply perform_extends in Hp; try discriminate; try exact (proj1 Hp).
      apply await_state in H. destruct H as [-> _]. exact (proj1 Hp). }
    destruct chunks as [| c [| c' rest]]; intros H.
    + exact (Hmerge _ _ _ _ H).
    + inversion H; subst. apply extendsInBand_refl.
    + exact (Hmerge _ _ _ _ H).
  - intros H. apply bind_inv in H.
    destruct H as [(s1 & [] & Hp & H) | (o1 & Hp & _)];
      apply perform_extends in Hp; try discriminate; try exact (proj1 Hp).
    eapply extendsInBand_trans; [exact (proj1 Hp) |].
    apply bind_inv in H.
    destruct H as [(s2 & [] & Hr & H) | (o2 & Hr & _)];
      apply reportAll_extends in Hr; [| exact Hr].
    destruct (mw_terminal _); unfold ret, throw, await in H; inversion H; subst; exact Hr.
Qed.

(** The chunk loop, however it ends: with [k] chunks completed out of
    [k + remaining], every compressing value it reports lies in [10, 90]. *)
Lemma chunkLoop_extends env pdfBuffer options totalPages chunkSize :
  forall (remaining k : nat) compressedChunks chunkStats (s s' : PassState) o,
    pt_totalChunks (st_progress s) = Z.of_nat (k + remaining) ->
    pt_completedChunks (st_progress s) = Z.of_nat k ->
    chunkLoop env pdfBuffer options totalPages chunkSize remaining (Z.of_nat k)
              compressedChunks chunkStats s = (s', o) ->
    extendsInBand s s'.
Proof.
  induction remaining as [| remaining IH]; intros k cc cs s s' o Htotal Hdone H.
  - inversion H; subst. apply extendsInBand_refl.
  - cbn [chunkLoop] in H. cbv zeta in H.
    apply bind_inv in H.
    destruct H as [(s1 & [] & Hask & H) | (o1 & Hask & _)];
      apply perform_extends in Hask; try discriminate; try exact (proj1 Hask).
    destruct Hask as [Hask Ht1].
    eapply extendsInBand_trans; [exact Hask |].
    apply bind_inv in H.
    destruct H as [(s2 & chunkPdf & Hextract & H) | (o2 & Hextract & _)];
      apply await_state in Hextract; destruct Hextract as [-> _];
      [| apply extendsInBand_refl].
    apply bind_inv in H.
    assert (Hstart_band :
              Forall inCompressingBand
                (compressingValues
                   (map OnProgress
                      (snd (Tracker.startChunk (Z.of_nat k) (st_progress s1)))))).
    { unfold Tracker.startChunk. cbn [snd]. apply emit_in_band. cbn [progress].
      apply compressing_band; cbn; rewrite ?Ht1, ?Htotal, ?Hdone; try reflexivity; lia. }
    destruct H as [(s3 & [] & Hstart & H) | (o3 & Hstart & _)];
      apply (track_extends _ _ _ _ Hstart_band) in Hstart; [| exact (proj1 Hstart)].
    destruct Hstart as [Hstart Ht3].
    eapply extendsInBand_trans; [exact Hstart |].
    apply bind_inv in H.
    destruct H as [(s4 & [compressed after] & Hchunk & H) | (o4 & Hchunk & _)];
      apply compressChunk_extends in Hchunk; [| exact (proj1 Hchunk)].
    destruct Hchunk as [Hchunk Ht4].
    eapply extendsInBand_trans; [exact Hchunk |].
    apply bind_inv in H.
    assert (Hdone_band :
              Forall inCompressingBand
                (compressingValues
                   (map OnProgress
                      (snd (Tracker.completeChunk (Z.of_nat k) (byteLength compressed)
                                                  (st_progress s4)))))).
    { unfold Tracker.completeChunk. cbn [snd]. apply emit_in_band. cbn [progress].
      apply compressing_band; cbn; rewrite ?Ht4, ?Ht3; cbn;
        rewrite ?Ht1, ?Htotal, ?Hdone; try reflexivity; lia. }
    destruct H as [(s5 & [] & Hcomplete & H) | (o5 & Hcomplete & _)];
      apply (track_extends _ _ _ _ Hdone_band) in Hcomplete; [| exact (proj1 Hcomplete)].
    destruct Hcomplete as [Hcomplete Ht5].
    eapply extendsInBand_trans; [exact Hcomplete |].
    replace (Z.of_nat k + 1) with (Z.of_nat (S k)) in H by lia.
    apply IH in H; [exact H | |].
    + rewrite Ht5. cbn. rewrite Ht4, Ht3. cbn. rewrite Ht1, Htotal. lia.
    + rewrite Ht5. cbn. rewrite Ht4, Ht3. cbn. rewrite Ht1, Hdone. lia.
Qed.

(** Of every pass, whatever its outcome: each value reported under the
    phase [compressing] lies in [10, 90]. *)
Lemma compressing_values_stay_in_band env pdfBuffer options acts o :
  compressWithPreset env pdfBuffer options = (acts, o) ->
  Forall inCompressingBand (compressingValues acts).
Proof.
  unfold compressWithPreset, compressWithPreset_body.
  destruct (bind _ _ _) as [s' out] eqn:H. intros Hres. inversion Hres; subst. clear Hres.
  enough (Hext : extendsInBand
                   {| st_progress := newProgressTracker (opt_onProgress options);
                      st_log := [] |} s').
  { destruct Hext as (added & Hlog & Hband). cbn [st_log app] in Hlog.
    rewrite Hlog. exact Hband. }
  apply bind_inv in H.
  destruct H as [(s1 & [] & H1 & H) | (o1 & H1 & _)];
    (apply track_extends in H1;
     [| unfold Tracker.setPhase, Tracker.emitProgress; cbn [snd];
        apply emit_other_phase; discriminate]);
    [| exact (proj1 H1)].
  destruct H1 as [H1 Ht1]. cbn [fst Tracker.setPhase] in Ht1.
  eapply extendsInBand_trans; [exact H1 |]. clear H1.
  apply bind_inv in H.
  destruct H as [(s2 & [] & H2 & H) | (o2 & H2 & _)];
    apply perform_extends in H2; try discriminate; try exact (proj1 H2).
  destruct H2 as [H2 Ht2].
  eapply extendsInBand_trans; [exact H2 |]. clear H2.
  apply bind_inv in H.
  destruct H as [(s3 & totalPages & H3 & H) | (o3 & H3 & _)];
    apply await_state in H3; destruct H3 as [-> _]; [| apply extendsInBand_refl].
  cbv zeta in H.
  apply bind_inv in H.
  destruct H as [(s4 & [] & H4 & H) | (o4 & H4 & _)];
    (apply track_extends in H4; [| constructor]);
    [| exact (proj1 H4)].
  destruct H4 as [H4 Ht4]. cbn [fst Tracker.setTotalChunks] in Ht4.
  eapply extendsInBand_trans; [exact H4 |]. clear H4.
  apply bind_inv in H.
  destruct H as [(s5 & [] & H5 & H) | (o5 & H5 & _)];
    (apply track_extends in H5;
     [| unfold Tracker.reportChunkingProgress; cbn [snd];
        apply emit_other_phase; discriminate]);
    [| exact (proj1 H5)].
  destruct H5 as [H5 Ht5]. cbn [fst Tracker.reportChunkingProgress] in Ht5.
  eapply extendsInBand_trans; [exact H5 |]. clear H5.
  apply bind_inv in H.
  assert (Hmd : forall (t t' : PassState) om,
             metadataIfPreserved env pdfBuffer options t = (t', om) ->
             extendsInBand t t' /\ st_progress t' = st_progress t).
  { intros t t' om Hm. unfold metadataIfPreserved in Hm. cbv zeta in Hm.
    destruct (truthy _).
    - apply bind_inv in Hm.
      destruct Hm as [(t1 & [] & Hp & Hm) | (o' & Hp & _)];
        apply perform_extends in Hp; try discriminate; try exact Hp.
      unfold ret in Hm. inversion Hm; subst. exact Hp.
    - unfold ret in Hm. inversion Hm; subst. split; [apply extendsInBand_refl | reflexivity]. }
  destruct H as [(s6 & metadata & H6 & H) | (o6 & H6 & _)];
    apply Hmd in H6; [| exact (proj1 H6)].
  destruct H6 as [H6 Ht6].
  eapply extendsInBand_trans; [exact H6 |]. clear H6 Hmd.
  apply bind_inv in H.
  destruct H as [(s7 & [] & H7 & H) | (o7 & H7 & _)];
    (apply track_extends in H7;
     [| unfold Tracker.reportChunkingProgress; cbn [snd];
        apply emit_other_phase; discriminate]);
    [| exact (proj1 H7)].
  destruct H7 as [H7 Ht7]. cbn [fst Tracker.reportChunkingProgress] in Ht7.
  eapply extendsInBand_trans; [exact H7 |]. clear H7.
  apply bind_inv in H.
  assert (Hloop : forall (t' : PassState) ol,
             chunkLoop env pdfBuffer options totalPages
               (resolveChunkSize env options totalPages (byteLength pdfBuffer))
               (Z.to_nat (ceilDiv totalPages
                            (resolveChunkSize env options totalPages (byteLength pdfBuffer))))
               0 [] [] s7 = (t', ol) ->
             extendsInBand s7 t').
  { intros t' ol Hl.
    destruct (Z.le_gt_cases 0
                (ceilDiv totalPages
                   (resolveChunkSize env options totalPages (byteLength pdfBuffer))))
      as [Hsome | Hnone].
    - apply (chunkLoop_extends env pdfBuffer options totalPages _ _ 0%nat) in Hl;
        [exact Hl | |].
      + rewrite Ht7. cbn. rewrite Ht6, Ht5. cbn. rewrite Ht4. cbn.
        rewrite Z2Nat.id; [reflexivity | exact Hsome].
      + rewrite Ht7. cbn. rewrite Ht6, Ht5. cbn. rewrite Ht4. cbn.
        rewrite Ht2, Ht1. reflexivity.
    - replace (Z.to_nat (ceilDiv totalPages _)) with 0%nat in Hl by lia.
      inversion Hl; subst. apply extendsInBand_refl. }
  destruct H as [(s8 & [compressedChunks chunkStats] & H8 & H) | (o8 & H8 & _)];
    apply Hloop in H8; [| exact H8].
  eapply extendsInBand_trans; [exact H8 |]. clear H8 Hloop.
  apply bind_inv in H.
  destruct H as [(s9 & [] & H9 & H) | (o9 & H9 & _)];
    (apply track_extends in H9;
     [| unfold Tracker.setPhase, Tracker.emitProgress; cbn [snd];
        apply emit_other_phase; discriminate]);
    [| exact (proj1 H9)].
  eapply extendsInBand_trans; [exact (proj1 H9) |]. clear H9.
  apply bind_inv in H.
  destruct H as [(s10 & mergedPdf & H10 & H) | (o10 & H10 & _)];
    apply mergeChunks_extends in H10; [| exact H10].
  eapply extendsInBand_trans; [exact H10 |]. clear H10.
  cbv zeta in H.
  apply bind_inv in H.
  destruct H as [(s11 & [] & H11 & H) | (o11 & H11 & _)];
    (apply track_extends in H11;
     [| unfold Tracker.reportComplete; cbn [snd]; apply emit_other_phase; discriminate]);
    [| exact (proj1 H11)].
  unfold ret in H. inversion H; subst. exact (proj1 H11).
Qed.

(* ===================================================================== *)
(** * The degradation loop *)
(* ===================================================================== *)

Lemma attemptedPresets_app (l1 l2 : list Step) :
  attemptedPresets (l1 ++ l2) = attemptedPresets l1 ++ attemptedPresets l2.
Proof. unfold attemptedPresets. apply flat_map_app. Qed.

Lemma attemptedPresets_acts (evs : list ProgressEvent) :
  attemptedPresets (map (fun ev => Act (OnProgress ev)) evs) = [].
Proof. induction evs as [| ev evs IH]; [reflexivity | exact IH]. Qed.

(** An error that is not recoverable is never retried by the handler. *)
Lemma handler_refuses_nonrecoverable error preset degrade callback :
  isRecoverableError (classifyError error) = false ->
  shouldRetry (snd (handleErrorWithGracefulDegradation error preset degrade callback)) = false.
Proof.
  intros Hnon. unfold handleErrorWithGracefulDegradation. rewrite Hnon. reflexivity.
Qed.

Section Degradation.

Variable env : Env.
Variable pdfBuffer : ArrayBuffer.
Variable options : CompressionOptions.

(** The pass the loop runs for a preset. *)
Let passOf (p : CompressionPreset) : list Action * Outcome PassResult :=
  compressWithPreset env pdfBuffer (withPreset options p).

Lemma presetLoop_first_resolves chain p rest lastError (s : list Step) acts result :
  passOf p = (acts, Resolved result) ->
  presetLoop env pdfBuffer options chain (p :: rest) lastError s =
  (s ++ [Attempt p acts], Resolved (Returned (passResult env options p result))).
Proof.
  intros Hpass. unfold passOf in Hpass. cbn [presetLoop]. rewrite Hpass. reflexivity.
Qed.

(** When every pass of the remaining presets is rejected the loop falls
    through to the code after it, with some error. *)
Lemma presetLoop_all_rejected chain :
  forall rest lastError (s : list Step),
    (forall p, In p rest -> exists acts e, passOf p = (acts, Rejected e)) ->
    exists s' last,
      presetLoop env pdfBuffer options chain rest lastError s =
      (s', Resolved (LoopEnded last)).
Proof.
  induction rest as [| p rest IH]; intros lastError s Hall.
  - do 2 eexists. reflexivity.
  - destruct (Hall p (or_introl eq_refl)) as (acts & e & Hpass).
    unfold passOf in Hpass. cbn [presetLoop]. rewrite Hpass.
    unfold bind, record at 1.
    assert (Hrest : forall q, In q rest -> exists acts e, passOf q = (acts, Rejected e))
      by (intros q Hq; apply Hall; right; exact Hq).
    destruct (isLastOf chain p); [do 2 eexists; reflexivity |].
    destruct (opt_onProgress options).
    + destruct (handleErrorWithGracefulDegradation e p true true) as [evs decision].
      unfold record at 1.
      destruct (negb (shouldRetry decision)); [do 2 eexists; reflexivity |].
      apply IH; exact Hrest.
    + apply IH; exact Hrest.
Qed.

(** Where the loop stops on an error that is not recoverable: at once, if
    a callback was supplied or the preset is the last of the chain. *)
Lemma presetLoop_stops chain :
  forall rest lastError (s s' : list Step) out,
    opt_onProgress options = true \/ (forall p, In p rest -> isLastOf chain p = true) ->
    presetLoop env pdfBuffer options chain rest lastError s = (s', out) ->
    exists steps,
      s' = s ++ steps /\
      forall p acts e,
        In p (attemptedPresets steps) ->
        passOf p = (acts, Rejected e) ->
        isRecoverableError (classifyError e) = false ->
        (exists earlier, attemptedPresets steps = earlier ++ [p]) /\
        out = Resolved (LoopEnded (Some e)).
Proof.
  induction rest as [| p0 rest IH]; intros lastError s s' out Hgate Hrun.
  - cbn in Hrun. inversion Hrun; subst. exists []. split; [now rewrite app_nil_r |].
    intros p acts e Hin. destruct Hin.
  - cbn [presetLoop] in Hrun.
    destruct (compressWithPreset env pdfBuffer (withPreset options p0))
      as [acts0 attempt0] eqn:Hpass0.
    unfold bind, record at 1 in Hrun.
    assert (Hsame : forall p acts e,
               In p [p0] -> passOf p = (acts, Rejected e) -> attempt0 = Rejected e).
    { intros p acts e [<- | []] Hp. unfold passOf in Hp. congruence. }
    destruct attempt0 as [result | e0 |].
    + inversion Hrun; subst. exists [Attempt p0 acts0]. split; [reflexivity |].
      intros p acts e Hin Hp _. specialize (Hsame p acts e Hin Hp). discriminate.
    + destruct (isLastOf chain p0) eqn:Hlast.
      * inversion Hrun; subst. exists [Attempt p0 acts0]. split; [reflexivity |].
        intros p acts e Hin Hp _. pose proof (Hsame p acts e Hin Hp) as He.
        inversion He; subst. destruct Hin as [<- | []].
        split; [exists []; reflexivity | reflexivity].
      * destruct (opt_onProgress options) eqn:Hcb.
        -- pose proof (handler_refuses_nonrecoverable e0 p0 true true) as Hrefuse.
           destruct (handleErrorWithGracefulDegradation e0 p0 true true)
             as [evs decision].
           cbn [snd] in Hrefuse. unfold record at 1 in Hrun.
           destruct (shouldRetry decision) eqn:Hretry; cbn [negb] in Hrun.
           ++ apply IH in Hrun; [| left; reflexivity].
              destruct Hrun as (steps & -> & Hsteps).
              exists ([Attempt p0 acts0] ++ map (fun ev => Act (OnProgress ev)) evs ++ steps).
              split; [now rewrite <- !app_assoc |].
              intros p acts e Hin Hp Hnon.
              rewrite !attemptedPresets_app, attemptedPresets_acts in *.
              cbn [attemptedPresets flat_map app] in *.
              destruct Hin as [<- | Hin].
              ** unfold passOf in Hp. rewrite Hpass0 in Hp. inversion Hp; subst.
                 specialize (Hrefuse Hnon). congruence.
              ** destruct (Hsteps p acts e Hin Hp Hnon) as ((earlier & ->) & ->).
                 split; [exists (p0 :: earlier); reflexivity | reflexivity].
           ++ inversion Hrun; subst.
              exists ([Attempt p0 acts0] ++ map (fun ev => Act (OnProgress ev)) evs).
              split; [now rewrite <- !app_assoc |].
              intros p acts e Hin Hp _.
              rewrite !attemptedPresets_app, attemptedPresets_acts in *.
              cbn [attemptedPresets flat_map app] in *.
              pose proof (Hsame p acts e Hin Hp) as He. inversion He; subst.
              destruct Hin as [<- | []].
              split; [exists []; reflexivity | reflexivity].
        -- destruct Hgate as [Hgate | Hgate]; [discriminate |].
           rewrite (Hgate p0 (or_introl eq_refl)) in Hlast. discriminate.
    + inversion Hrun; subst. exists [Attempt p0 acts0]. split; [reflexivity |].
      intros p acts e Hin Hp _. specialize (Hsame p acts e Hin Hp). discriminate.
Qed.

End Degradation.

(* ===================================================================== *)
(** * From [compress] to the loop *)
(* ===================================================================== *)

Lemma slice0_same (b : ArrayBuffer) : slice0 b = b.
Proof. destruct b; reflexivity. Qed.

Lemma isValidPDF_nonempty (b : ArrayBuffer) : isValidPDF b = true -> byteLength b <> 0.
Proof.
  unfold isValidPDF. destruct (byteLength b <? 4) eqn:E; [discriminate | lia].
Qed.

Lemma preamble_no_attempt (options : CompressionOptions) :
  attemptedPresets (preamble options) = [].
Proof. unfold preamble. destruct (opt_onProgress options); reflexivity. Qed.

Lemma compress_reaches_orchestrator env pdfBuffer options preset :
  byteLength pdfBuffer <> 0 ->
  parsePreset (presetOrDefault (in_preset options)) = Some preset ->
  env_loadWASM env (in_wasmUrl options) = WasmLoaded ->
  compress env (AnArrayBuffer pdfBuffer) options =
  orchestrateCompression_body env pdfBuffer (fullOptions options preset)
                              (preamble (fullOptions options preset)).
Proof.
  intros Hlen Hpreset Hload.
  unfold compress, compress_body.
  destruct (byteLength pdfBuffer =? 0) eqn:E; [lia |].
  rewrite Hpreset. unfold bind, notify, record, preamble. cbn [opt_onProgress opt_wasmUrl fullOptions].
  rewrite Hload.
  destruct (in_onProgress options); reflexivity.
Qed.

(** Every way out of [compress] before the orchestrator leaves a log
    without an attempt. *)
Lemma compress_log env input options log out :
  compress env input options = (log, out) ->
  attemptedPresets log = [] \/
  exists pdfBuffer preset,
    input = AnArrayBuffer pdfBuffer /\
    parsePreset (presetOrDefault (in_preset options)) = Some preset /\
    (log, out) = orchestrateCompression_body env pdfBuffer (fullOptions options preset)
                                             (preamble (fullOptions options preset)).
Proof.
  intros Hrun. unfold compress, compress_body in Hrun.
  destruct input as [pdfBuffer |]; [| inversion Hrun; left; reflexivity].
  destruct (byteLength pdfBuffer =? 0) eqn:Hlen; [inversion Hrun; left; reflexivity |].
  destruct (parsePreset _) as [preset |] eqn:Hpreset; [| inversion Hrun; left; reflexivity].
  destruct (env_loadWASM env (in_wasmUrl options)) eqn:Hload.
  - right. exists pdfBuffer, preset. repeat split; try assumption.
    rewrite <- Hrun. symmetry.
    pose proof (compress_reaches_orchestrator env pdfBuffer options preset
                  ltac:(lia) Hpreset Hload) as Hc.
    unfold compress, compress_body in Hc.
    rewrite Hlen, Hpreset in Hc. rewrite <- Hc. reflexivity.
  - left. unfold bind, notify, record in Hrun.
    cbn [opt_onProgress opt_wasmUrl fullOptions] in Hrun. rewrite Hload in Hrun.
    destruct (in_onProgress options); inversion Hrun; reflexivity.
  - left. unfold bind, notify, record in Hrun.
    cbn [opt_onProgress opt_wasmUrl fullOptions] in Hrun. rewrite Hload in Hrun.
    destruct (in_onProgress options); inversion Hrun; reflexivity.
Qed.

Section Orchestrator.

Variable env : Env.
Variable pdfBuffer : ArrayBuffer.
Variable options : CompressionOptions.

Let chainOf : list CompressionPreset :=
  if not_false (opt_gracefulDegradation options)
  then getPresetFallbackChain (opt_preset options)
  else [opt_preset options].

(** The first pass resolves: its result is the job's result. *)
Lemma orchestrate_first_resolves (s : list Step) acts result :
  isValidPDF pdfBuffer = true ->
  compressWithPreset env pdfBuffer options = (acts, Resolved result) ->
  orchestrateCompression_body env pdfBuffer options s =
  (s ++ [Attempt (opt_preset options) acts],
   Resolved (passResult env options (opt_preset options) result)).
Proof.
  intros Hvalid Hpass. unfold orchestrateCompression_body. rewrite Hvalid. cbn [negb].
  destruct (chain_head options) as [rest Hchain]. rewrite Hchain.
  rewrite <- (withPreset_same options) in Hpass.
  erewrite bind_resolved
    by (apply presetLoop_first_resolves; exact Hpass).
  reflexivity.
Qed.

(** Degradation enabled and every pass of the chain rejected: the
    original document comes back. *)
Lemma orchestrate_exhausted (s : list Step) :
  isValidPDF pdfBuffer = true ->
  not_false (opt_gracefulDegradation options) = true ->
  (forall p, In p (getPresetFallbackChain (opt_preset options)) ->
             exists acts e,
               compressWithPreset env pdfBuffer (withPreset options p) = (acts, Rejected e)) ->
  exists s',
    orchestrateCompression_body env pdfBuffer options s =
    (s', Resolved (originalPdfResult env pdfBuffer options)).
Proof.
  intros Hvalid Hdegrade Hall.
  unfold orchestrateCompression_body. rewrite Hvalid, Hdegrade. cbn [negb].
  destruct (presetLoop_all_rejected env pdfBuffer options
              (getPresetFallbackChain (opt_preset options))
              (getPresetFallbackChain (opt_preset options)) None s Hall)
    as (s1 & last & Hloop).
  rewrite (bind_resolved _ _ _ _ _ Hloop).
  unfold bind, notify, record, ret.
  destruct (opt_onProgress options); eexists; reflexivity.
Qed.

(** Where an error that is not recoverable leads, when a callback was
    supplied or degradation is disabled. *)
Lemma orchestrate_stops (s s' : list Step) out :
  opt_onProgress options = true \/ not_false (opt_gracefulDegradation options) = false ->
  orchestrateCompression_body env pdfBuffer options s = (s', out) ->
  exists steps,
    s' = s ++ steps /\
    forall p acts e,
      In p (attemptedPresets steps) ->
      compressWithPreset env pdfBuffer (withPreset options p) = (acts, Rejected e) ->
      isRecoverableError (classifyError e) = false ->
      (exists earlier, attemptedPresets steps = earlier ++ [p]) /\
      out = if not_false (opt_gracefulDegradation options)
            then Resolved (originalPdfResult env pdfBuffer options)
            else Rejected e.
Proof.
  intros Hgate Hrun. unfold orchestrateCompression_body in Hrun.
  destruct (isValidPDF pdfBuffer); cbn [negb] in Hrun.
  2:{ inversion Hrun; subst. exists []. split; [now rewrite app_nil_r |].
      intros p acts e []. }
  fold chainOf in Hrun.
  unfold bind in Hrun.
  destruct (presetLoop env pdfBuffer options chainOf chainOf None s)
    as [s1 exit] eqn:Hloop.
  apply presetLoop_stops in Hloop.
  2:{ destruct Hgate as [Hcb | Hoff]; [left; exact Hcb | right].
      subst chainOf. rewrite Hoff. intros p [<- | []].
      unfold isLastOf. cbn. apply preset_eqb_refl. }
  destruct Hloop as (steps & -> & Hsteps).
  destruct exit as [exit | e1 |].
  - destruct exit as [result | last].
    + inversion Hrun; subst. exists steps. split; [reflexivity |].
      intros p acts e Hin Hp Hnon.
      destruct (Hsteps p acts e Hin Hp Hnon) as (_ & Habs). discriminate.
    + destruct (not_false (opt_gracefulDegradation options)) eqn:Hdegrade.
      * unfold notify, record, ret in Hrun.
        destruct (opt_onProgress options); inversion Hrun; subst.
        -- eexists. split; [rewrite <- app_assoc; reflexivity |].
           intros p acts e Hin Hp Hnon.
           rewrite attemptedPresets_app in *. cbn [attemptedPresets flat_map app] in *.
           rewrite app_nil_r in *.
           destruct (Hsteps p acts e Hin Hp Hnon) as (Hlast & _).
           split; [exact Hlast | reflexivity].
        -- exists steps. split; [reflexivity |].
           intros p acts e Hin Hp Hnon.
           destruct (Hsteps p acts e Hin Hp Hnon) as (Hlast & _).
           split; [exact Hlast | reflexivity].
      * exists steps.
        assert (Hs : s' = s ++ steps) by (destruct last; inversion Hrun; reflexivity).
        split; [exact Hs |].
        intros p acts e Hin Hp Hnon.
        destruct (Hsteps p acts e Hin Hp Hnon) as (Hlast & Hexit).
        inversion Hexit; subst. inversion Hrun; subst.
        split; [exact Hlast | reflexivity].
  - inversion Hrun; subst. exists steps. split; [reflexivity |].
    intros p acts e Hin Hp Hnon.
    destruct (Hsteps p acts e Hin Hp Hnon) as (_ & Habs). discriminate.
  - inversion Hrun; subst. exists steps. split; [reflexivity |].
    intros p acts e Hin Hp Hnon.
    destruct (Hsteps p acts e Hin Hp Hnon) as (_ & Habs). discriminate.
Qed.

(** Degradation disabled: the error of the failed pass is thrown again as
    it is. *)
Lemma degradation_disabled_rethrows (s : list Step) acts e :
  isValidPDF pdfBuffer = true ->
  not_false (opt_gracefulDegradation options) = false ->
  compressWithPreset env pdfBuffer options = (acts, Rejected e) ->
  orchestrateCompression_body env pdfBuffer options s =
  (s ++ [Attempt (opt_preset options) acts], Rejected e).
Proof.
  intros Hvalid Hoff Hpass. unfold orchestrateCompression_body.
  rewrite Hvalid, Hoff. cbn [negb presetLoop].
  rewrite withPreset_same, Hpass.
  unfold bind, record, ret, throw, isLastOf. cbn.
  rewrite preset_eqb_refl. reflexivity.
Qed.

End Orchestrator.

(* ===================================================================== *)
(** * Claims about whole jobs *)
(* ===================================================================== *)

(** C8: a document that yields exactly one chunk ([0 < totalPages <=
    chunkSize]).  Whatever the options, hence under either merge strategy,
    [mergeChunks] returns the single compressed chunk as it is, touching
    neither the log nor the tracker; the pass resolves with that chunk as its
    artifact, and the job's statistics report [chunksProcessed = 1]. *)
Theorem single_chunk_is_passed_through :
  forall env pdfBuffer options totalPages chunkPdf reply,
    isValidPDF pdfBuffer = true ->
    env_pageCount env pdfBuffer = LibOk totalPages ->
    0 < totalPages <= resolveChunkSize env options totalPages (byteLength pdfBuffer) ->
    extractPages env pdfBuffer 0 totalPages = Resolved chunkPdf ->
    env_compressWorker env (compressChunkMessage chunkPdf options 0)
    = PostsChunkComplete reply ->
    ceilDiv totalPages (resolveChunkSize env options totalPages (byteLength pdfBuffer)) = 1 /\
    (forall metadata (s : PassState),
        mergeChunks env [Buf (cc_compressedPdf reply)] metadata options s
        = (s, Resolved (Buf (cc_compressedPdf reply)))) /\
    (exists acts stats,
        compressWithPreset env pdfBuffer options =
        (acts, Resolved {| pr_pdf := Buf (cc_compressedPdf reply); pr_stats := stats |}) /\
        ps_chunksProcessed stats = 1) /\
    (exists log result,
        orchestrateCompression env pdfBuffer options = (log, Resolved result) /\
        pdf result = Buf (cc_compressedPdf reply) /\
        chunksProcessed (stats result) = 1).
Proof.
  intros env pdfBuffer options totalPages chunkPdf reply Hvalid Hcount Hone Hextract Hworker.
  destruct (single_chunk_pass env pdfBuffer options totalPages chunkPdf reply
              Hcount Hone Hextract Hworker) as (acts & st & Hpass & Hone_chunk).
  repeat split.
  - apply ceilDiv_one; lia.
  - intros metadata s. apply mergeChunks_single.
  - exists acts, st. split; assumption.
  - unfold orchestrateCompression.
    rewrite (orchestrate_first_resolves env pdfBuffer options [] _ _ Hvalid Hpass).
    do 2 eexists. split; [reflexivity |]. split; [reflexivity | exact Hone_chunk].
Qed.

(** C2: degradation is enabled and the pass of every preset of the chain
    is rejected with a recoverable error (which presupposes an engine that
    loaded and a document that starts with the PDF magic bytes).  Then
    [compress] resolves; the artifact holds the bytes of the input; the
    statistics have [compressedSize = originalSize], the size of the input,
    [ratio = 1] and [bytesSaved = 0]; and a warning is present. *)
Theorem exhausted_chain_returns_original :
  forall env pdfBuffer options preset,
    parsePreset (presetOrDefault (in_preset options)) = Some preset ->
    env_loadWASM env (in_wasmUrl options) = WasmLoaded ->
    isValidPDF pdfBuffer = true ->
    not_false (in_gracefulDegradation options) = true ->
    (forall p, In p (getPresetFallbackChain preset) ->
               exists acts e,
                 compressWithPreset env pdfBuffer (withPreset (fullOptions options preset) p)
                 = (acts, Rejected e) /\
                 isRecoverableError (classifyError e) = true) ->
    exists log result,
      compress env (AnArrayBuffer pdfBuffer) options = (log, Resolved result) /\
      pdf result = pdfBuffer /\
      originalSize (stats result) = byteLength pdfBuffer /\
      compressedSize (stats result) = originalSize (stats result) /\
      ratio (stats result) = Fin 1 /\
      bytesSaved (stats result) = 0 /\
      warning result = Some "Compression failed. Returning original PDF.".
Proof.
  intros env pdfBuffer options preset Hpreset Hload Hvalid Hdegrade Hall.
  rewrite (compress_reaches_orchestrator env pdfBuffer options preset
             (isValidPDF_nonempty _ Hvalid) Hpreset Hload).
  destruct (orchestrate_exhausted env pdfBuffer (fullOptions options preset)
              (preamble (fullOptions options preset)) Hvalid) as (log & Hrun).
  - cbn [opt_gracefulDegradation fullOptions]. rewrite Hdegrade. reflexivity.
  - intros p Hp. destruct (Hall p Hp) as (acts & e & Hpass & _). eauto.
  - exists log, (originalPdfResult env pdfBuffer (fullOptions options preset)).
    split; [exact Hrun |]. cbn. rewrite slice0_same. repeat split; reflexivity.
Qed.

(** C1, as the code has it: when the pass of an attempted preset is
    rejected with an error classified as not recoverable, and an [onProgress]
    callback was supplied or graceful degradation is disabled, that preset is
    the last one attempted; the call is then rejected with that very error if
    degradation is disabled, and resolves with a copy of the input and the
    warning of the fallback result if it is enabled. *)
Theorem nonrecoverable_error_ends_attempts :
  forall env pdfBuffer options preset log out p acts e,
    parsePreset (presetOrDefault (in_preset options)) = Some preset ->
    in_onProgress options = true \/ in_gracefulDegradation options = Some false ->
    compress env (AnArrayBuffer pdfBuffer) options = (log, out) ->
    In p (attemptedPresets log) ->
    compressWithPreset env pdfBuffer (withPreset (fullOptions options preset) p)
    = (acts, Rejected e) ->
    isRecoverableError (classifyError e) = false ->
    (exists earlier, attemptedPresets log = earlier ++ [p]) /\
    out = if not_false (in_gracefulDegradation options)
          then Resolved (originalPdfResult env pdfBuffer (fullOptions options preset))
          else Rejected e.
Proof.
  intros env pdfBuffer options preset log out p acts e Hpreset Hgate Hrun Hin Hpass Hnon.
  destruct (compress_log env _ options log out Hrun) as [Hnone | Hreach].
  - rewrite Hnone in Hin. destruct Hin.
  - destruct Hreach as (pdfBuffer' & preset' & Hinput & Hpreset' & Horch).
    inversion Hinput; subst pdfBuffer'.
    rewrite Hpreset in Hpreset'. inversion Hpreset'; subst preset'.
    symmetry in Horch.
    apply orchestrate_stops in Horch.
    2:{ cbn [opt_onProgress opt_gracefulDegradation fullOptions].
        destruct Hgate as [Hcb | Hoff]; [left; exact Hcb | right; rewrite Hoff; reflexivity]. }
    destruct Horch as (steps & -> & Hsteps).
    rewrite attemptedPresets_app, preamble_no_attempt in *. cbn [app] in *.
    destruct (Hsteps p acts e Hin Hpass Hnon) as (Hlast & Hout).
    split; [exact Hlast |].
    rewrite Hout. cbn [opt_gracefulDegradation fullOptions].
    destruct (in_gracefulDegradation options) as [[|] |]; reflexivity.
Qed.

Lemma single_chunk_is_passed_through_witness :
  ceilDiv 1 (resolveChunkSize (Scenario.world 1 Scenario.halvingWorker)
                              (Scenario.fullJob Balanced true None None) 1
                              (byteLength Scenario.samplePdf)) = 1 /\
  (forall metadata (s : PassState),
      mergeChunks (Scenario.world 1 Scenario.halvingWorker) [Buf (repeat 7 50)] metadata
                  (Scenario.fullJob Balanced true None None) s
      = (s, Resolved (Buf (repeat 7 50)))) /\
  (exists acts stats,
      compressWithPreset (Scenario.world 1 Scenario.halvingWorker) Scenario.samplePdf
                         (Scenario.fullJob Balanced true None None) =
      (acts, Resolved {| pr_pdf := Buf (repeat 7 50); pr_stats := stats |}) /\
      ps_chunksProcessed stats = 1) /\
  (exists log result,
      orchestrateCompression (Scenario.world 1 Scenario.halvingWorker) Scenario.samplePdf
                             (Scenario.fullJob Balanced true None None)
      = (log, Resolved result) /\
      pdf result = Buf (repeat 7 50) /\
      chunksProcessed (stats result) = 1).
Proof.
  apply (single_chunk_is_passed_through
           (Scenario.world 1 Scenario.halvingWorker) Scenario.samplePdf
           (Scenario.fullJob Balanced true None None) 1
           (Buf (repeat 7 100))
           {| cc_chunkIndex := 0; cc_compressedPdf := repeat 7 50;
              cc_originalSize := 100; cc_compressedSize := 50; cc_processingTime := 40 |}).
  - reflexivity.
  - reflexivity.
  - vm_compute. split; [reflexivity | discriminate].
  - reflexivity.
  - reflexivity.
Defined.

Lemma exhausted_chain_returns_original_witness :
  exists log result,
    compress (Scenario.world 3 Scenario.placeholderWorker)
             (AnArrayBuffer Scenario.samplePdf)
             (Scenario.job "max" true None None) = (log, Resolved result) /\
    pdf result = Scenario.samplePdf /\
    originalSize (stats result) = byteLength Scenario.samplePdf /\
    compressedSize (stats result) = originalSize (stats result) /\
    ratio (stats result) = Fin 1 /\
    bytesSaved (stats result) = 0 /\
    warning result = Some "Compression failed. Returning original PDF.".
Proof.
  apply (exhausted_chain_returns_original
           (Scenario.world 3 Scenario.placeholderWorker) Scenario.samplePdf
           (Scenario.job "max" true None None) Max).
  - reflexivity.
  - reflexivity.
  - reflexivity.
  - reflexivity.
  - intros p Hp. rewrite getPresetFallbackChain_eq in Hp.
    destruct Hp as [<- | [<- | [<- | []]]];
      (do 2 eexists; split; [vm_compute; reflexivity | vm_compute; reflexivity]).
Defined.

Lemma nonrecoverable_error_ends_attempts_witness :
  (exists earlier,
      attemptedPresets
        (fst (compress (Scenario.world 3 Scenario.pickyWorker)
                       (AnArrayBuffer Scenario.samplePdf)
                       (Scenario.job "max" true None None))) = earlier ++ [Max]) /\
  snd (compress (Scenario.world 3 Scenario.pickyWorker)
                (AnArrayBuffer Scenario.samplePdf)
                (Scenario.job "max" true None None)) =
  Resolved (originalPdfResult (Scenario.world 3 Scenario.pickyWorker) Scenario.samplePdf
                              (Scenario.fullJob Max true None None)).
Proof.
  apply (nonrecoverable_error_ends_attempts
           (Scenario.world 3 Scenario.pickyWorker) Scenario.samplePdf
           (Scenario.job "max" true None None) Max
           (fst (compress (Scenario.world 3 Scenario.pickyWorker)
                          (AnArrayBuffer Scenario.samplePdf)
                          (Scenario.job "max" true None None)))
           (snd (compress (Scenario.world 3 Scenario.pickyWorker)
                          (AnArrayBuffer Scenario.samplePdf)
                          (Scenario.job "max" true None None)))
           Max
           (fst (compressWithPreset (Scenario.world 3 Scenario.pickyWorker) Scenario.samplePdf
                   (withPreset (Scenario.fullJob Max true None None) Max)))
           (Error "Invalid PDF structure")).
  - reflexivity.
  - left. reflexivity.
  - vm_compute. reflexivity.
  - vm_compute. left. reflexivity.
  - vm_compute. reflexivity.
  - vm_compute. reflexivity.
Defined.

(** C1 as stated fails twice.  With a callback and degradation enabled, the
    pass under "max" is rejected with an error classified INVALID_PDF and the
    call resolves with the original document instead of being rejected.
    Without a callback the same failure is followed by an attempt under
    "balanced", whose result is returned. *)
Lemma nonrecoverable_error_counterexample :
  classifyError (Error "Invalid PDF structure") = INVALID_PDF /\
  snd (compressWithPreset (Scenario.world 3 Scenario.pickyWorker) Scenario.samplePdf
         (Scenario.fullJob Max true None None))
  = Rejected (Error "Invalid PDF structure") /\
  snd (compress (Scenario.world 3 Scenario.pickyWorker) (AnArrayBuffer Scenario.samplePdf)
                (Scenario.job "max" true None None))
  = Resolved (originalPdfResult (Scenario.world 3 Scenario.pickyWorker) Scenario.samplePdf
                                (Scenario.fullJob Max true None None)) /\
  snd (compressWithPreset (Scenario.world 3 Scenario.pickyWorker) Scenario.samplePdf
         (Scenario.fullJob Max false None None))
  = Rejected (Error "Invalid PDF structure") /\
  attemptedPresets
    (fst (compress (Scenario.world 3 Scenario.pickyWorker) (AnArrayBuffer Scenario.samplePdf)
                   (Scenario.job "max" false None None)))
  = [Max; Balanced] /\
  (exists result,
      snd (compress (Scenario.world 3 Scenario.pickyWorker)
                    (AnArrayBuffer Scenario.samplePdf)
                    (Scenario.job "max" false None None)) = Resolved result /\
      presetUsed (stats result) = Balanced) /\
  ~ (forall env pdfBuffer options preset log out p acts e,
        parsePreset (presetOrDefault (in_preset options)) = Some preset ->
        compress env (AnArrayBuffer pdfBuffer) options = (log, out) ->
        In p (attemptedPresets log) ->
        compressWithPreset env pdfBuffer (withPreset (fullOptions options preset) p)
        = (acts, Rejected e) ->
        isRecoverableError (classifyError e) = false ->
        (exists earlier, attemptedPresets log = earlier ++ [p]) /\
        (exists e', out = Rejected e')).
Proof.
  split; [vm_compute; reflexivity |].
  split; [vm_compute; reflexivity |].
  split; [vm_compute; reflexivity |].
  split; [vm_compute; reflexivity |].
  split; [vm_compute; reflexivity |].
  split; [eexists; split; vm_compute; reflexivity |].
  intros Hclaim.
  destruct (Hclaim (Scenario.world 3 Scenario.pickyWorker) Scenario.samplePdf
                (Scenario.job "max" true None None) Max
                (fst (compress (Scenario.world 3 Scenario.pickyWorker)
                               (AnArrayBuffer Scenario.samplePdf)
                               (Scenario.job "max" true None None)))
                (snd (compress (Scenario.world 3 Scenario.pickyWorker)
                               (AnArrayBuffer Scenario.samplePdf)
                               (Scenario.job "max" true None None)))
                Max
                (fst (compressWithPreset (Scenario.world 3 Scenario.pickyWorker)
                        Scenario.samplePdf
                        (withPreset (Scenario.fullJob Max true None None) Max)))
                (Error "Invalid PDF structure"))
      as (_ & e' & Hrejected).
  - reflexivity.
  - vm_compute. reflexivity.
  - vm_compute. left. reflexivity.
  - vm_compute. reflexivity.
  - vm_compute. reflexivity.
  - vm_compute in Hrejected. discriminate Hrejected.
Qed.

(* ===================================================================== *)
(** * Where the code departs from its own description *)
(* ===================================================================== *)

(** C5 at a three-page document with a callback.  With workers that
    answer, one page a chunk: the chunking phase reports 50 and 100, outside
    [0, 10], and the merging phase reports 95 and then 91.  With the worker
    source the orchestrator carries, which only posts an error, the chunking
    phase reports 50 and 100 all the same, in both passes of the chain. *)
Theorem progress_leaves_its_bands :
  Scenario.progressValues
    (fst (compress (Scenario.world 3 Scenario.halvingWorker)
                   (AnArrayBuffer Scenario.samplePdf)
                   (Scenario.job "balanced" true (Some 1) None)))
  = [ (Chunking, 0%Q); (Chunking, 0%Q); (Chunking, 50%Q); (Chunking, 100%Q);
      (Compressing, 10%Q); (Compressing, (110 # 3)%Q);
      (Compressing, (110 # 3)%Q); (Compressing, (190 # 3)%Q);
      (Compressing, (190 # 3)%Q); (Compressing, 90%Q);
      (Merging, 95%Q); (Merging, 91%Q); (Merging, 93%Q); (Merging, 95%Q);
      (Merging, 95%Q); (Merging, 100%Q) ] /\
  Scenario.progressValues
    (fst (compress (Scenario.world 3 Scenario.placeholderWorker)
                   (AnArrayBuffer Scenario.samplePdf)
                   (Scenario.job "balanced" true None None)))
  = [ (Chunking, 0%Q); (Chunking, 0%Q); (Chunking, 50%Q); (Chunking, 100%Q);
      (Compressing, 10%Q); (ErrorRecovery, 0%Q);
      (Chunking, 0%Q); (Chunking, 50%Q); (Chunking, 100%Q);
      (Compressing, 10%Q); (ErrorRecovery, 100%Q) ] /\
  ~ (forall ev,
        In ev (emittedEvents
                 (fst (compress (Scenario.world 3 Scenario.halvingWorker)
                                (AnArrayBuffer Scenario.samplePdf)
                                (Scenario.job "balanced" true (Some 1) None)))) ->
        phase ev = Chunking -> (0 <= progress ev <= 10)%Q).
Proof.
  split; [vm_compute; reflexivity |].
  split; [vm_compute; reflexivity |].
  intros Hband.
  specialize (Hband {| phase := Chunking; progress := 50%Q; currentChunk := None;
                       totalChunks := None; estimatedTimeRemaining := None;
                       message := None |}).
  destruct Hband as [_ Hle].
  - vm_compute. do 2 right. left. reflexivity.
  - reflexivity.
  - vm_compute in Hle. apply Hle. reflexivity.
Qed.

(** C6 at a document pdf-lib cannot open, with degradation disabled: the
    call is rejected with the plain [Error] of [countPages]; no preset, size,
    phase or cause is attached. *)
Theorem failed_pass_rejects_with_plain_error :
  compress Scenario.unreadable (AnArrayBuffer Scenario.samplePdf)
           (Scenario.job "balanced" false None (Some false))
  = ([Act (CallLoadWASM None); Attempt Balanced [CallCountPages]],
     Rejected (Error "Failed to count pages: No PDF header found")) /\
  is_CompressionError (Error "Failed to count pages: No PDF header found") = false.
Proof. split; vm_compute; reflexivity. Qed.

(** C7 at a two-page document compressed one page a chunk: the first
    chunk took 40 ms and came back 50 bytes long; the estimate reported after
    it is 50, where one chunk of 40 ms on average would give 40. *)
Theorem eta_is_computed_from_byte_lengths :
  Scenario.reportedETAs
    (fst (compress (Scenario.world 2 Scenario.halvingWorker)
                   (AnArrayBuffer Scenario.samplePdf)
                   (Scenario.job "balanced" true (Some 1) None)))
  = [Some 50] /\
  Tracker.estimateTimeRemaining
    {| pt_totalChunks := 2; pt_completedChunks := 1; pt_currentPhase := Compressing;
       pt_chunkTimes := [40]; pt_onProgress := true |}
  = Some 40.
Proof. split; vm_compute; reflexivity. Qed.

(** C10 at a one-page document: the extracted chunk is 100 bytes long, the
    artifact 50, and the statistics say [originalSize = 0], an infinite
    ratio and a negative saving. *)
Theorem original_size_is_read_after_transfer :
  extractPages (Scenario.world 1 Scenario.halvingWorker) Scenario.samplePdf 0 1
  = Resolved (Buf (repeat 7 100)) /\
  exists log result,
    compress (Scenario.world 1 Scenario.halvingWorker) (AnArrayBuffer Scenario.samplePdf)
             (Scenario.job "balanced" false None None) = (log, Resolved result) /\
    byteLength (pdf result) = 50 /\
    stats result =
    {| originalSize := 0; compressedSize := 50; ratio := PosInfinity;
       bytesSaved := -50; percentageSaved := NegInfinity;
       presetUsed := Balanced; processingTime := 900; chunksProcessed := 1 |}.
Proof.
  split; [reflexivity |].
  do 2 eexists. split; [vm_compute; reflexivity |].
  split; vm_compute; reflexivity.
Qed.

(** With degradation disabled, whatever makes the pass fail, [compress] is
    rejected with the pass's own plain [Error]; a [CompressionError] never
    comes out of a failed pass. *)
Lemma failed_pass_is_never_wrapped env pdfBuffer options preset acts e :
  parsePreset (presetOrDefault (in_preset options)) = Some preset ->
  env_loadWASM env (in_wasmUrl options) = WasmLoaded ->
  isValidPDF pdfBuffer = true ->
  in_gracefulDegradation options = Some false ->
  compressWithPreset env pdfBuffer (fullOptions options preset) = (acts, Rejected e) ->
  compress env (AnArrayBuffer pdfBuffer) options
  = (preamble (fullOptions options preset) ++ [Attempt preset acts], Rejected e) /\
  is_CompressionError e = false.
Proof.
  intros Hpreset Hload Hvalid Hoff Hpass.
  rewrite (compress_reaches_orchestrator env pdfBuffer options preset
             (isValidPDF_nonempty _ Hvalid) Hpreset Hload).
  split.
  - apply (degradation_disabled_rethrows env pdfBuffer (fullOptions options preset));
      [exact Hvalid | | exact Hpass].
    cbn [opt_gracefulDegradation fullOptions]. rewrite Hoff. reflexivity.
  - destruct (rejected_pass_throws_plain _ _ _ _ _ Hpass) as [msg ->]. reflexivity.
Qed.

(** A pass that resolves reports an original size of 0, whatever the sizes
    of the chunks it extracted. *)
Lemma resolved_pass_reports_no_original_size env pdfBuffer options acts result :
  compressWithPreset env pdfBuffer options = (acts, Resolved result) ->
  ps_originalSize (pr_stats result) = 0.
Proof.
  intros Hpass. destruct (resolved_pass_inv _ _ _ _ _ Hpass) as (totalPages & _ & H).
  cbv zeta in H. tauto.
Qed.

(* ===================================================================== *)
(** * The shape of every run of the degradation loop *)
(* ===================================================================== *)

Ltac conjs := repeat match goal with |- _ /\ _ => split end.

Section LoopShape.

Variable env : Env.
Variable pdfBuffer : ArrayBuffer.
Variable options : CompressionOptions.

Let passOf (p : CompressionPreset) : list Action * Outcome PassResult :=
  compressWithPreset env pdfBuffer (withPreset options p).

(** How the loop can end, in terms of the presets it tried. *)
Let ending (lastError : option JsError) (tried : list CompressionPreset)
    (out : Outcome LoopExit) : Prop :=
  match out with
  | Resolved (Returned r) =>
      exists earlier p acts result,
        tried = earlier ++ [p] /\
        passOf p = (acts, Resolved result) /\
        r = passResult env options p result
  | Resolved (LoopEnded last) =>
      (tried = [] /\ last = lastError) \/
      exists earlier p acts e,
        tried = earlier ++ [p] /\ passOf p = (acts, Rejected e) /\ last = Some e
  | Pending =>
      exists earlier p acts, tried = earlier ++ [p] /\ passOf p = (acts, Pending)
  | Rejected _ => False
  end.

Lemma ending_cons lastError lastError' p0 tried out :
  tried <> [] -> ending lastError' tried out -> ending lastError (p0 :: tried) out.
Proof.
  intros Hne. unfold ending. destruct out as [[r | last] | e |].
  - intros (earlier & p & acts & result & -> & Hp & Hr).
    exists (p0 :: earlier), p, acts, result. conjs; try reflexivity; assumption.
  - intros [[Habs _] | (earlier & p & acts & e & -> & Hp & Hl)]; [contradiction |].
    right. exists (p0 :: earlier), p, acts, e. conjs; try reflexivity; assumption.
  - exact (fun H => H).
  - intros (earlier & p & acts & -> & Hp).
    exists (p0 :: earlier), p, acts. conjs; try reflexivity; assumption.
Qed.

(** Every run of the loop: it tries a prefix of the presets it was given, in
    order; each attempt in the log holds the actions of that preset's pass;
    every attempt but the last was rejected; and the loop itself never
    throws. *)
Lemma presetLoop_shape chain :
  forall rest lastError (s s' : list Step) out,
    presetLoop env pdfBuffer options chain rest lastError s = (s', out) ->
    exists steps untried,
      s' = s ++ steps /\
      rest = attemptedPresets steps ++ untried /\
      (rest <> [] -> attemptedPresets steps <> []) /\
      (forall p acts, In (Attempt p acts) steps -> fst (passOf p) = acts) /\
      (forall p, In p (removelast (attemptedPresets steps)) ->
                 exists acts e, passOf p = (acts, Rejected e)) /\
      ending lastError (attemptedPresets steps) out.
Proof.
  induction rest as [| p0 rest IH]; intros lastError s s' out Hrun.
  - cbn in Hrun. inversion Hrun; subst. exists [], [].
    rewrite app_nil_r. conjs; try reflexivity.
    + intros H; exact H.
    + intros p acts [].
    + intros p [].
    + left. split; reflexivity.
  - cbn [presetLoop] in Hrun.
    destruct (compressWithPreset env pdfBuffer (withPreset options p0))
      as [acts0 attempt0] eqn:Hpass0.
    unfold bind, record at 1 in Hrun.
    assert (Hsingle : forall evs,
               attemptedPresets ([Attempt p0 acts0] ++ map (fun ev => Act (OnProgress ev)) evs)
               = [p0]).
    { intros evs. rewrite attemptedPresets_app, attemptedPresets_acts. reflexivity. }
    assert (Hmine : forall evs p acts,
               In (Attempt p acts) ([Attempt p0 acts0] ++ map (fun ev => Act (OnProgress ev)) evs) ->
               fst (passOf p) = acts).
    { intros evs p acts Hin. apply in_app_or in Hin. destruct Hin as [[Heq | []] | Hin].
      - inversion Heq; subst. unfold passOf. rewrite Hpass0. reflexivity.
      - apply in_map_iff in Hin. destruct Hin as (ev & Habs & _). discriminate. }
    assert (Hstop : forall evs o,
               ending lastError [p0] o ->
               exists steps untried,
                 (s ++ [Attempt p0 acts0]) ++ map (fun ev => Act (OnProgress ev)) evs
                 = s ++ steps /\
                 p0 :: rest = attemptedPresets steps ++ untried /\
                 (p0 :: rest <> [] -> attemptedPresets steps <> []) /\
                 (forall p acts, In (Attempt p acts) steps -> fst (passOf p) = acts) /\
                 (forall p, In p (removelast (attemptedPresets steps)) ->
                            exists acts e, passOf p = (acts, Rejected e)) /\
                 ending lastError (attemptedPresets steps) o).
    { intros evs o Hend.
      exists ([Attempt p0 acts0] ++ map (fun ev => Act (OnProgress ev)) evs), rest.
      rewrite Hsingle. conjs.
      - now rewrite app_assoc.
      - reflexivity.
      - discriminate.
      - apply Hmine.
      - intros p [].
      - exact Hend. }
    destruct attempt0 as [result | e0 |].
    + inversion Hrun; subst.
      assert (Hend : ending lastError [p0]
                       (Resolved (Returned (passResult env options p0 result)))).
      { exists [], p0, acts0, result. conjs; try reflexivity. exact Hpass0. }
      destruct (Hstop [] _ Hend) as (steps & untried & Hs & Hrest).
      cbn [map] in Hs. rewrite app_nil_r in Hs.
      exists steps, untried. split; [exact Hs | exact Hrest].
    + assert (Hfail : ending lastError [p0] (Resolved (LoopEnded (Some e0)))).
      { right. exists [], p0, acts0, e0. conjs; try reflexivity. exact Hpass0. }
      assert (Hgo : forall evs (t t' : list Step) o,
                 t = (s ++ [Attempt p0 acts0]) ++ map (fun ev => Act (OnProgress ev)) evs ->
                 presetLoop env pdfBuffer options chain rest (Some e0) t = (t', o) ->
                 exists steps untried,
                   t' = s ++ steps /\
                   p0 :: rest = attemptedPresets steps ++ untried /\
                   (p0 :: rest <> [] -> attemptedPresets steps <> []) /\
                   (forall p acts, In (Attempt p acts) steps -> fst (passOf p) = acts) /\
                   (forall p, In p (removelast (attemptedPresets steps)) ->
                              exists acts e, passOf p = (acts, Rejected e)) /\
                   ending lastError (attemptedPresets steps) o).
      { intros evs t t' o -> Hloop.
        destruct rest as [| p1 rest'].
        - cbn in Hloop. inversion Hloop; subst. apply Hstop. exact Hfail.
        - apply IH in Hloop.
          destruct Hloop as (steps & untried & -> & Hrest & Hne & Hpasses & Hfailed & Hend).
          specialize (Hne ltac:(discriminate)).
          exists (([Attempt p0 acts0] ++ map (fun ev => Act (OnProgress ev)) evs) ++ steps),
            untried.
          rewrite attemptedPresets_app, Hsingle. cbn [app].
          conjs.
          + now rewrite <- !app_assoc.
          + rewrite Hrest. reflexivity.
          + discriminate.
          + intros p acts Hin. cbn [app] in Hin. destruct Hin as [Heq | Hin].
            * apply (Hmine evs p acts). left. exact Heq.
            * apply in_app_or in Hin. destruct Hin as [Hin | Hin].
              -- apply (Hmine evs p acts). right. exact Hin.
              -- exact (Hpasses p acts Hin).
          + intros p Hin.
            destruct (attemptedPresets steps) as [| q qs] eqn:Hq; [contradiction |].
            cbn [removelast] in Hin. destruct Hin as [<- | Hin].
            * exists acts0, e0. exact Hpass0.
            * apply Hfailed. exact Hin.
          + eapply ending_cons; [exact Hne | exact Hend]. }
      destruct (isLastOf chain p0).
      * inversion Hrun; subst.
        destruct (Hstop [] _ Hfail) as (steps & untried & Hs & Hrest).
        cbn [map] in Hs. rewrite app_nil_r in Hs.
        exists steps, untried. split; [exact Hs | exact Hrest].
      * destruct (opt_onProgress options).
        -- destruct (handleErrorWithGracefulDegradation e0 p0 true true) as [evs decision].
           unfold record at 1 in Hrun.
           destruct (negb (shouldRetry decision)).
           ++ inversion Hrun; subst. apply Hstop. exact Hfail.
           ++ exact (Hgo evs _ _ _ eq_refl Hrun).
        -- refine (Hgo [] _ _ _ _ Hrun). cbn [map]. now rewrite app_nil_r.
    + inversion Hrun; subst.
      assert (Hend : ending lastError [p0] (@Pending LoopExit)).
      { exists [], p0, acts0. conjs; try reflexivity. exact Hpass0. }
      destruct (Hstop [] _ Hend) as (steps & untried & Hs & Hrest).
      cbn [map] in Hs. rewrite app_nil_r in Hs.
      exists steps, untried. split; [exact Hs | exact Hrest].
Qed.

End LoopShape.

(* ===================================================================== *)
(** * The shape of every run of the orchestrator and of [compress] *)
(* ===================================================================== *)

Lemma chain_NoDup (options : CompressionOptions) :
  NoDup (if not_false (opt_gracefulDegradation options)
         then getPresetFallbackChain (opt_preset options)
         else [opt_preset options]).
Proof.
  destruct (not_false _).
  - rewrite getPresetFallbackChain_eq.
    destruct (opt_preset options); repeat constructor; cbn; intuition discriminate.
  - repeat constructor. intros [].
Qed.

Lemma orchestrate_shape env pdfBuffer options (s s' : list Step) out :
  orchestrateCompression_body env pdfBuffer options s = (s', out) ->
  (isValidPDF pdfBuffer = false /\ s' = s /\
   out = Rejected (CompressionError "Invalid PDF file" (opt_preset options)
                                    (byteLength pdfBuffer) None None)) \/
  (isValidPDF pdfBuffer = true /\
   exists steps untried,
     s' = s ++ steps /\
     (if not_false (opt_gracefulDegradation options)
      then getPresetFallbackChain (opt_preset options)
      else [opt_preset options]) = attemptedPresets steps ++ untried /\
     (forall p acts, In (Attempt p acts) steps ->
                     fst (compressWithPreset env pdfBuffer (withPreset options p)) = acts) /\
     (forall p, In p (removelast (attemptedPresets steps)) ->
                exists acts e,
                  compressWithPreset env pdfBuffer (withPreset options p) = (acts, Rejected e)) /\
     orchestratorEnding env pdfBuffer options (attemptedPresets steps) out).
Proof.
  intros Hrun. unfold orchestrateCompression_body in Hrun.
  destruct (isValidPDF pdfBuffer); cbn [negb] in Hrun.
  2:{ left. unfold throw in Hrun. inversion Hrun; subst. conjs; reflexivity. }
  right. split; [reflexivity |].
  set (chain := if not_false (opt_gracefulDegradation options)
                then getPresetFallbackChain (opt_preset options)
                else [opt_preset options]) in *.
  unfold bind in Hrun.
  destruct (presetLoop env pdfBuffer options chain chain None s) as [s1 exit] eqn:Hloop.
  apply presetLoop_shape in Hloop. cbv zeta in Hloop.
  destruct Hloop as (steps & untried & -> & Hchain & Hne & Hpasses & Hfailed & Hend).
  assert (Hsome : attemptedPresets steps <> []).
  { apply Hne. subst chain. destruct (chain_head options) as [rest ->]. discriminate. }
  destruct exit as [[result | last] | e |].
  - inversion Hrun; subst. exists steps, untried. conjs; try reflexivity; try assumption.
    destruct Hend as (earlier & p & acts & res & Htried & Hp & ->).
    exists earlier, p, acts. split; [exact Htried |]. left. exists res. split; [exact Hp | reflexivity].
  - destruct Hend as [[Habs _] | (earlier & p & acts & e & Htried & Hp & ->)];
      [contradiction |].
    destruct (not_false (opt_gracefulDegradation options)) eqn:Hdegrade.
    + unfold notify, record, ret in Hrun.
      destruct (opt_onProgress options); inversion Hrun; subst.
      * eexists (steps ++ [_]), untried.
        split; [now rewrite app_assoc |].
        rewrite attemptedPresets_app. cbn [attemptedPresets flat_map app].
        rewrite !app_nil_r.
        split; [exact Hchain |].
        split.
        { intros q acts' Hin. apply in_app_or in Hin. destruct Hin as [Hin | [Habs | []]];
            [exact (Hpasses q acts' Hin) | discriminate]. }
        split; [exact Hfailed |].
        exists earlier, p, acts. split; [exact Htried |]. right. exists e.
        conjs; try reflexivity; assumption.
      * exists steps, untried. conjs; try reflexivity; try assumption.
        exists earlier, p, acts. split; [exact Htried |]. right. exists e.
        conjs; try reflexivity; assumption.
    + unfold throw in Hrun. inversion Hrun; subst.
      exists steps, untried. conjs; try reflexivity; try assumption.
      exists earlier, p, acts. split; [exact Htried |]. split; [exact Hp | exact Hdegrade].
  - contradiction.
  - inversion Hrun; subst. exists steps, untried. conjs; try reflexivity; assumption.
Qed.

(** The six ways through [compress]. *)
Lemma compress_cases env input options log out :
  compress env input options = (log, out) ->
  (input = NotAnArrayBuffer /\ log = [] /\
   out = Rejected (TypeError "pdfBuffer must be an ArrayBuffer")) \/
  (exists pdfBuffer,
      input = AnArrayBuffer pdfBuffer /\ byteLength pdfBuffer = 0 /\ log = [] /\
      out = Rejected (CompressionError "Empty PDF buffer" Lossless 0 None None)) \/
  (exists pdfBuffer,
      input = AnArrayBuffer pdfBuffer /\ byteLength pdfBuffer <> 0 /\
      parsePreset (presetOrDefault (in_preset options)) = None /\ log = [] /\
      out = Rejected (TypeError ("Invalid preset: " ++ presetOrDefault (in_preset options) ++
                                 ". Must be 'lossless', 'balanced', or 'max'.")%string)) \/
  (exists pdfBuffer preset thrown,
      input = AnArrayBuffer pdfBuffer /\ byteLength pdfBuffer <> 0 /\
      parsePreset (presetOrDefault (in_preset options)) = Some preset /\
      env_loadWASM env (in_wasmUrl options) = WasmLoadThrows thrown /\
      log = preamble (fullOptions options preset) /\
      out = Rejected (CompressionError "Failed to load compression engine" preset
                                       (byteLength pdfBuffer) (Some Chunking) thrown)) \/
  (exists pdfBuffer preset,
      input = AnArrayBuffer pdfBuffer /\ byteLength pdfBuffer <> 0 /\
      parsePreset (presetOrDefault (in_preset options)) = Some preset /\
      env_loadWASM env (in_wasmUrl options) = WasmLoaded /\
      orchestrateCompression_body env pdfBuffer (fullOptions options preset)
                                  (preamble (fullOptions options preset)) = (log, out)) \/
  (exists pdfBuffer preset,
      input = AnArrayBuffer pdfBuffer /\ byteLength pdfBuffer <> 0 /\
      parsePreset (presetOrDefault (in_preset options)) = Some preset /\
      env_loadWASM env (in_wasmUrl options) = WasmNeverLoads /\
      log = preamble (fullOptions options preset) /\
      out = Pending).
Proof.
  intros Hrun. unfold compress, compress_body in Hrun.
  destruct input as [pdfBuffer |].
  2:{ left. inversion Hrun; subst. conjs; reflexivity. }
  right. destruct (byteLength pdfBuffer =? 0) eqn:Hlen.
  { left. exists pdfBuffer. inversion Hrun; subst. conjs; try reflexivity. lia. }
  right. destruct (parsePreset _) as [preset |] eqn:Hpreset.
  2:{ left. exists pdfBuffer. inversion Hrun; subst. conjs; try reflexivity. lia. }
  right. destruct (env_loadWASM env (in_wasmUrl options)) eqn:Hload.
  - right. left. exists pdfBuffer, preset. conjs; try reflexivity; try assumption; [lia |].
    rewrite <- Hrun.
    pose proof (compress_reaches_orchestrator env pdfBuffer options preset
                  ltac:(lia) Hpreset Hload) as Hc.
    unfold compress, compress_body in Hc. rewrite Hlen, Hpreset in Hc.
    symmetry. exact Hc.
  - left. exists pdfBuffer, preset, thrown.
    unfold bind, notify, record, throw in Hrun.
    cbn [opt_onProgress opt_wasmUrl fullOptions] in Hrun. rewrite Hload in Hrun.
    unfold preamble. cbn [opt_onProgress opt_wasmUrl fullOptions].
    destruct (in_onProgress options); inversion Hrun; subst;
      conjs; try reflexivity; try assumption; lia.
  - right. right. exists pdfBuffer, preset.
    unfold bind, notify, record, await in Hrun.
    cbn [opt_onProgress opt_wasmUrl fullOptions] in Hrun. rewrite Hload in Hrun.
    unfold preamble. cbn [opt_onProgress opt_wasmUrl fullOptions].
    destruct (in_onProgress options); inversion Hrun; subst;
      conjs; try reflexivity; try assumption; lia.
Qed.

(** A job that gets past the door: the engine loaded and the document
    starts with the magic bytes.  The passes it ran are those of a
    non-empty prefix of the chain. *)
Lemma compress_ran env pdfBuffer options preset log out :
  parsePreset (presetOrDefault (in_preset options)) = Some preset ->
  env_loadWASM env (in_wasmUrl options) = WasmLoaded ->
  isValidPDF pdfBuffer = true ->
  compress env (AnArrayBuffer pdfBuffer) options = (log, out) ->
  exists steps untried,
    log = preamble (fullOptions options preset) ++ steps /\
    (if not_false (in_gracefulDegradation options)
     then getPresetFallbackChain preset
     else [preset]) = attemptedPresets log ++ untried /\
    (forall p acts,
        In (Attempt p acts) steps ->
        fst (compressWithPreset env pdfBuffer (withPreset (fullOptions options preset) p))
        = acts) /\
    (forall p, In p (removelast (attemptedPresets log)) ->
               exists acts e,
                 compressWithPreset env pdfBuffer (withPreset (fullOptions options preset) p)
                 = (acts, Rejected e)) /\
    orchestratorEnding env pdfBuffer (fullOptions options preset) (attemptedPresets log) out.
Proof.
  intros Hpreset Hload Hvalid Hrun.
  rewrite (compress_reaches_orchestrator env pdfBuffer options preset
             (isValidPDF_nonempty _ Hvalid) Hpreset Hload) in Hrun.
  apply orchestrate_shape in Hrun.
  destruct Hrun as [(Hbad & _) | (_ & steps & untried & -> & Hchain & Hpasses & Hfailed & Hend)];
    [congruence |].
  exists steps, untried.
  rewrite attemptedPresets_app, preamble_no_attempt. cbn [app].
  cbn [opt_gracefulDegradation opt_preset fullOptions] in Hchain.
  replace (not_false (Some (not_false (in_gracefulDegradation options))))
    with (not_false (in_gracefulDegradation options)) in Hchain
    by (destruct (in_gracefulDegradation options) as [[|] |]; reflexivity).
  conjs; try reflexivity; assumption.
Qed.

(** A job that is stopped at the door: no pass is run, the rejection is one
    of four, or the loader never settles. *)
Lemma compress_refused env pdfBuffer options log out :
  compress env (AnArrayBuffer pdfBuffer) options = (log, out) ->
  (exists preset,
      parsePreset (presetOrDefault (in_preset options)) = Some preset /\
      env_loadWASM env (in_wasmUrl options) = WasmLoaded /\
      isValidPDF pdfBuffer = true) \/
  (attemptedPresets log = [] /\
   ((byteLength pdfBuffer = 0 /\ log = [] /\
     out = Rejected (CompressionError "Empty PDF buffer" Lossless 0 None None)) \/
    (byteLength pdfBuffer <> 0 /\
     parsePreset (presetOrDefault (in_preset options)) = None /\ log = [] /\
     out = Rejected (TypeError ("Invalid preset: " ++ presetOrDefault (in_preset options) ++
                                ". Must be 'lossless', 'balanced', or 'max'.")%string)) \/
    (exists preset thrown,
        byteLength pdfBuffer <> 0 /\
        parsePreset (presetOrDefault (in_preset options)) = Some preset /\
        env_loadWASM env (in_wasmUrl options) = WasmLoadThrows thrown /\
        out = Rejected (CompressionError "Failed to load compression engine" preset
                                         (byteLength pdfBuffer) (Some Chunking) thrown)) \/
    (exists preset,
        byteLength pdfBuffer <> 0 /\
        parsePreset (presetOrDefault (in_preset options)) = Some preset /\
        env_loadWASM env (in_wasmUrl options) = WasmLoaded /\
        isValidPDF pdfBuffer = false /\
        out = Rejected (CompressionError "Invalid PDF file" preset
                                         (byteLength pdfBuffer) None None)) \/
    (exists preset,
        byteLength pdfBuffer <> 0 /\
        parsePreset (presetOrDefault (in_preset options)) = Some preset /\
        env_loadWASM env (in_wasmUrl options) = WasmNeverLoads /\
        log = preamble (fullOptions options preset) /\
        out = Pending))).
Proof.
  intros Hrun. apply compress_cases in Hrun.
  destruct Hrun as [(Habs & _) | [Hempty | [Hname | [Hengine | [Hpasses | Hnever]]]]].
  - discriminate.
  - destruct Hempty as (b & Hb & Hlen & -> & ->). inversion Hb; subst b.
    right. split; [reflexivity |]. left. conjs; try reflexivity. exact Hlen.
  - destruct Hname as (b & Hb & Hlen & Hparse & -> & ->). inversion Hb; subst b.
    right. split; [reflexivity |]. right. left. conjs; try reflexivity; assumption.
  - destruct Hengine as (b & preset & thrown & Hb & Hlen & Hparse & Hload & -> & ->).
    inversion Hb; subst b.
    right. split; [apply preamble_no_attempt |]. right. right. left.
    exists preset, thrown. conjs; try reflexivity; assumption.
  - destruct Hpasses as (b & preset & Hb & Hlen & Hparse & Hload & Hrun).
    inversion Hb; subst b.
    destruct (isValidPDF pdfBuffer) eqn:Hvalid.
    + left. exists preset. conjs; try reflexivity; assumption.
    + right. apply orchestrate_shape in Hrun.
      destruct Hrun as [(_ & -> & ->) | (Hgood & _)]; [| congruence].
      split; [apply preamble_no_attempt |]. right. right. right. left.
      exists preset. conjs; try reflexivity; assumption.
  - destruct Hnever as (b & preset & Hb & Hlen & Hparse & Hload & -> & ->).
    inversion Hb; subst b.
    right. split; [apply preamble_no_attempt |]. right. right. right. right.
    exists preset. conjs; try reflexivity; assumption.
Qed.

(* ===================================================================== *)
(** * Whole jobs: order of attempts, what comes back, what is thrown *)
(* ===================================================================== *)

(** X1: the presets [compress] hands to [compressWithPreset], in the order
    of the calls, are an initial segment of the fallback chain of the
    requested preset (of the requested preset alone when degradation is
    disabled): no preset is tried twice, none out of order, and a preset is
    tried only after the pass of every preset before it was rejected. *)
Theorem attempts_follow_the_chain :
  forall env pdfBuffer options preset log out,
    parsePreset (presetOrDefault (in_preset options)) = Some preset ->
    compress env (AnArrayBuffer pdfBuffer) options = (log, out) ->
    (exists untried,
        (if not_false (in_gracefulDegradation options)
         then getPresetFallbackChain preset
         else [preset]) = attemptedPresets log ++ untried) /\
    NoDup (attemptedPresets log) /\
    (forall p, In p (removelast (attemptedPresets log)) ->
               exists acts e,
                 compressWithPreset env pdfBuffer (withPreset (fullOptions options preset) p)
                 = (acts, Rejected e)).
Proof.
  intros env pdfBuffer options preset log out Hpreset Hrun.
  destruct (compress_refused _ _ _ _ _ Hrun) as [(preset' & Hpreset' & Hload & Hvalid) | (Hnone & _)].
  - rewrite Hpreset in Hpreset'. inversion Hpreset'; subst preset'.
    destruct (compress_ran _ _ _ _ _ _ Hpreset Hload Hvalid Hrun)
      as (steps & untried & _ & Hchain & _ & Hfailed & _).
    split; [exists untried; exact Hchain |]. split; [| exact Hfailed].
    pose proof (chain_NoDup (fullOptions options preset)) as Hnodup.
    cbn [opt_gracefulDegradation opt_preset fullOptions] in Hnodup.
    replace (not_false (Some (not_false (in_gracefulDegradation options))))
      with (not_false (in_gracefulDegradation options)) in Hnodup
      by (destruct (in_gracefulDegradation options) as [[|] |]; reflexivity).
    rewrite Hchain in Hnodup. exact (NoDup_app_remove_r _ _ Hnodup).
  - rewrite Hnone. split; [eexists; reflexivity |]. split; [constructor |].
    intros p [].
Qed.

(** X2: with graceful degradation enabled (the default), once the engine
    has loaded and the document starts with the PDF magic bytes, [compress]
    is never rejected, whatever pdf-lib and the workers do: it resolves or,
    if a worker never answers, stays pending. *)
Theorem degradation_never_rejects :
  forall env pdfBuffer options preset log out,
    parsePreset (presetOrDefault (in_preset options)) = Some preset ->
    env_loadWASM env (in_wasmUrl options) = WasmLoaded ->
    isValidPDF pdfBuffer = true ->
    not_false (in_gracefulDegradation options) = true ->
    compress env (AnArrayBuffer pdfBuffer) options = (log, out) ->
    (exists result, out = Resolved result) \/ out = Pending.
Proof.
  intros env pdfBuffer options preset log out Hpreset Hload Hvalid Hdegrade Hrun.
  destruct (compress_ran _ _ _ _ _ _ Hpreset Hload Hvalid Hrun)
    as (steps & untried & _ & _ & _ & _ & Hend).
  destruct out as [result | e |].
  - left. exists result. reflexivity.
  - destruct Hend as (earlier & p & acts & _ & _ & Hoff).
    cbn [opt_gracefulDegradation fullOptions] in Hoff. rewrite Hdegrade in Hoff. discriminate.
  - right. reflexivity.
Qed.

(** X3: what a resolved [compress] returned can be read off its warning.
    No warning: the pass of the requested preset, the only one attempted,
    produced the result.  The warning that names two presets: the pass of
    the last attempted preset, which is not the requested one, produced it.
    The warning 'Compression failed. Returning original PDF.': the last
    attempted pass was rejected and the result is the fallback built from
    the input. *)
Theorem warning_tells_what_was_returned :
  forall env pdfBuffer options preset log r,
    parsePreset (presetOrDefault (in_preset options)) = Some preset ->
    compress env (AnArrayBuffer pdfBuffer) options = (log, Resolved r) ->
    exists earlier used acts,
      attemptedPresets log = earlier ++ [used] /\
      match warning r with
      | None =>
          earlier = [] /\ used = preset /\
          exists result,
            compressWithPreset env pdfBuffer (fullOptions options preset)
            = (acts, Resolved result) /\
            r = passResult env (fullOptions options preset) preset result
      | Some w =>
          (w = ("Original preset '" ++ preset_name preset ++ "' failed, used '" ++
                preset_name used ++ "' instead.")%string /\
           used <> preset /\
           exists result,
             compressWithPreset env pdfBuffer (withPreset (fullOptions options preset) used)
             = (acts, Resolved result) /\
             r = passResult env (fullOptions options preset) used result) \/
          (w = "Compression failed. Returning original PDF." /\
           r = originalPdfResult env pdfBuffer (fullOptions options preset) /\
           exists e,
             compressWithPreset env pdfBuffer (withPreset (fullOptions options preset) used)
             = (acts, Rejected e))
      end.
Proof.
  intros env pdfBuffer options preset log r Hpreset Hrun.
  destruct (compress_refused _ _ _ _ _ Hrun) as [(preset' & Hpreset' & Hload & Hvalid) | (_ & Hout)].
  2:{ destruct Hout as [(_ & _ & Habs) | [(_ & _ & _ & Habs) | [(q & t & _ & _ & _ & Habs)
                       | [(q & _ & _ & _ & _ & Habs) | (q & _ & _ & _ & _ & Habs)]]]];
        discriminate. }
  rewrite Hpreset in Hpreset'. inversion Hpreset'; subst preset'.
  destruct (compress_ran _ _ _ _ _ _ Hpreset Hload Hvalid Hrun)
    as (steps & untried & _ & Hchain & _ & _ & Hend).
  destruct Hend as (earlier & used & acts & Htried & [(result & Hpass & ->) | (e & Hpass & _ & ->)]).
  - exists earlier, used, acts. split; [exact Htried |].
    cbn [warning passResult opt_preset fullOptions].
    destruct (preset_eqb used preset) eqn:Hsame; cbn [negb].
    + assert (used = preset) by (destruct used, preset; congruence || discriminate). subst used.
      assert (Hhead : earlier = []).
      { rewrite Htried in Hchain.
        destruct (chain_head (fullOptions options preset)) as [rest Hrest].
        cbn [opt_gracefulDegradation opt_preset fullOptions] in Hrest.
        replace (not_false (Some (not_false (in_gracefulDegradation options))))
          with (not_false (in_gracefulDegradation options)) in Hrest
          by (destruct (in_gracefulDegradation options) as [[|] |]; reflexivity).
        pose proof (chain_NoDup (fullOptions options preset)) as Hnodup.
        cbn [opt_gracefulDegradation opt_preset fullOptions] in Hnodup.
        replace (not_false (Some (not_false (in_gracefulDegradation options))))
          with (not_false (in_gracefulDegradation options)) in Hnodup
          by (destruct (in_gracefulDegradation options) as [[|] |]; reflexivity).
        rewrite Hchain in Hrest, Hnodup.
        destruct earlier as [| q earlier']; [reflexivity |].
        cbn [app] in Hrest, Hnodup. inversion Hrest; subst q.
        inversion Hnodup as [| ? ? Hnotin _]. exfalso. apply Hnotin.
        rewrite <- app_assoc. apply in_or_app. right. left. reflexivity. }
      conjs; try reflexivity; [exact Hhead |].
      exists result. split; [| reflexivity].
      rewrite <- Hpass. reflexivity.
    + left. conjs; try reflexivity.
      * intros ->. rewrite preset_eqb_refl in Hsame. discriminate.
      * exists result. split; [exact Hpass | reflexivity].
  - exists earlier, used, acts. split; [exact Htried |].
    cbn [warning originalPdfResult]. right. conjs; try reflexivity.
    exists e. exact Hpass.
Qed.

(** X4: the statistics of every result [compress] resolves with, from a pass
    or from the fallback to the original, agree with each other and with
    the artifact: [compressedSize] is the byte length of the returned
    buffer, [bytesSaved] is [originalSize - compressedSize], and
    [processingTime] is the time between the two readings of the clock. *)
Theorem returned_statistics_are_consistent :
  forall env input options log r,
    compress env input options = (log, Resolved r) ->
    compressedSize (stats r) = byteLength (pdf r) /\
    bytesSaved (stats r) = originalSize (stats r) - compressedSize (stats r) /\
    processingTime (stats r) = env_endTime env - env_startTime env.
Proof.
  intros env input options log r Hrun.
  destruct input as [pdfBuffer |]; [| discriminate].
  destruct (compress_refused _ _ _ _ _ Hrun) as [(preset & Hpreset & Hload & Hvalid) | (_ & Hout)].
  2:{ destruct Hout as [(_ & _ & Habs) | [(_ & _ & _ & Habs) | [(q & t & _ & _ & _ & Habs)
                       | [(q & _ & _ & _ & _ & Habs) | (q & _ & _ & _ & _ & Habs)]]]];
        discriminate. }
  destruct (compress_ran _ _ _ _ _ _ Hpreset Hload Hvalid Hrun)
    as (steps & untried & _ & _ & _ & _ & Hend).
  destruct Hend as (earlier & used & acts & _ & [(result & Hpass & ->) | (e & _ & _ & ->)]).
  - destruct (resolved_pass_inv _ _ _ _ _ Hpass) as (totalPages & _ & Hinv).
    cbv zeta in Hinv. destruct Hinv as (_ & _ & Hsize & Hsaved & _).
    cbn [stats pdf passResult compressedSize bytesSaved originalSize processingTime].
    conjs; [exact Hsize | exact Hsaved | reflexivity].
  - cbn [stats pdf originalPdfResult compressedSize bytesSaved originalSize processingTime].
    rewrite slice0_same. conjs; [reflexivity | lia | reflexivity].
Qed.

(** X5: the rejections of [compress], by the class of what is thrown.  A
    [TypeError] means the arguments were refused, before anything was done.
    A [CompressionError] means the job was refused before any pass: an empty
    buffer, an engine that did not load (then with phase 'chunking' and the
    loader's error as cause), or missing magic bytes.  A plain [Error] means
    that graceful degradation was disabled and the one pass that ran was
    rejected with exactly that error. *)
Theorem rejections_of_compress :
  forall env input options log e,
    compress env input options = (log, Rejected e) ->
    match e with
    | TypeError msg =>
        log = [] /\
        (input = NotAnArrayBuffer \/
         parsePreset (presetOrDefault (in_preset options)) = None)
    | CompressionError msg attempted size errPhase cause =>
        attemptedPresets log = [] /\
        exists pdfBuffer,
          input = AnArrayBuffer pdfBuffer /\
          ((msg = "Empty PDF buffer" /\ byteLength pdfBuffer = 0 /\ log = [] /\
            attempted = Lossless /\ size = 0 /\ errPhase = None /\ cause = None) \/
           (msg = "Failed to load compression engine" /\
            env_loadWASM env (in_wasmUrl options) = WasmLoadThrows cause /\
            parsePreset (presetOrDefault (in_preset options)) = Some attempted /\
            size = byteLength pdfBuffer /\ errPhase = Some Chunking) \/
           (msg = "Invalid PDF file" /\ isValidPDF pdfBuffer = false /\
            parsePreset (presetOrDefault (in_preset options)) = Some attempted /\
            size = byteLength pdfBuffer /\ errPhase = None /\ cause = None))
    | Error msg =>
        in_gracefulDegradation options = Some false /\
        exists pdfBuffer preset acts,
          input = AnArrayBuffer pdfBuffer /\
          parsePreset (presetOrDefault (in_preset options)) = Some preset /\
          attemptedPresets log = [preset] /\
          compressWithPreset env pdfBuffer (fullOptions options preset)
          = (acts, Rejected (Error msg))
    end.
Proof.
  intros env input options log e Hrun.
  destruct input as [pdfBuffer |].
  2:{ inversion Hrun; subst. split; [reflexivity | left; reflexivity]. }
  destruct (compress_refused _ _ _ _ _ Hrun) as [(preset & Hpreset & Hload & Hvalid) | (Hnone & Hout)].
  - destruct (compress_ran _ _ _ _ _ _ Hpreset Hload Hvalid Hrun)
      as (steps & untried & _ & Hchain & _ & _ & Hend).
    destruct Hend as (earlier & used & acts & Htried & Hpass & Hoff).
    cbn [opt_gracefulDegradation fullOptions] in Hoff.
    assert (Hdisabled : in_gracefulDegradation options = Some false)
      by (destruct (in_gracefulDegradation options) as [[|] |]; try discriminate; reflexivity).
    rewrite Hdisabled in Hchain. cbn [not_false] in Hchain.
    assert (Hone : earlier = [] /\ used = preset).
    { rewrite Htried in Hchain. destruct earlier as [| q [| q' earlier']];
        cbn [app] in Hchain; inversion Hchain; subst; split; reflexivity. }
    destruct Hone as [-> ->]. cbn [app] in Htried.
    change (withPreset (fullOptions options preset) preset)
      with (fullOptions options preset) in Hpass.
    destruct (rejected_pass_throws_plain _ _ _ _ _ Hpass) as [msg ->].
    split; [exact Hdisabled |].
    exists pdfBuffer, preset, acts. conjs; try reflexivity; assumption.
  - destruct Hout as [(Hlen & -> & Hout) | [(_ & Hparse & -> & Hout)
                     | [(preset & thrown & _ & Hparse & Hload & Hout)
                       | [(preset & _ & Hparse & _ & Hinvalid & Hout)
                         | (preset & _ & _ & _ & _ & Hout)]]]];
      inversion Hout; subst.
    + split; [reflexivity |]. exists pdfBuffer. split; [reflexivity |].
      left. conjs; try reflexivity. exact Hlen.
    + split; [reflexivity |]. right. exact Hparse.
    + split; [exact Hnone |]. exists pdfBuffer. split; [reflexivity |].
      right. left. conjs; try reflexivity; assumption.
    + split; [exact Hnone |]. exists pdfBuffer. split; [reflexivity |].
      right. right. conjs; try reflexivity; assumption.
Qed.

(* ===================================================================== *)
(** * Rules of the pass logic *)
(* ===================================================================== *)

Lemma triple_bind {A B : Type} (P : PassState -> Prop) (m : Pass A) (k : A -> Pass B)
      (R : PassState -> Outcome A -> Prop) (Q : PassState -> Outcome B -> Prop) :
  triple P m R ->
  (forall a, triple (fun s => R s (Resolved a)) (k a) Q) ->
  (forall s e, R s (Rejected e) -> Q s (Rejected e)) ->
  (forall s, R s Pending -> Q s Pending) ->
  triple P (bind m k) Q.
Proof.
  intros Hm Hk Hrej Hpend s s' o HP Hrun. unfold bind in Hrun.
  destruct (m s) as [s1 [a | e |]] eqn:Hms.
  - exact (Hk a s1 s' o (Hm _ _ _ HP Hms) Hrun).
  - inversion Hrun; subst. apply Hrej. exact (Hm _ _ _ HP Hms).
  - inversion Hrun; subst. apply Hpend. exact (Hm _ _ _ HP Hms).
Qed.

Lemma triple_weaken {A : Type} (P P' : PassState -> Prop) (m : Pass A)
      (Q Q' : PassState -> Outcome A -> Prop) :
  (forall s, P' s -> P s) -> (forall s o, Q s o -> Q' s o) ->
  triple P m Q -> triple P' m Q'.
Proof. intros HP HQ Hm s s' o Hs Hrun. apply HQ. exact (Hm _ _ _ (HP _ Hs) Hrun). Qed.

(** Two steps in a row, with an invariant for each that only grows. *)
Lemma triple_seq {A B : Type} (I J K : PassState -> Prop) (m : Pass A) (k : A -> Pass B) :
  triple I m (fun s _ => J s) ->
  (forall a, triple J (k a) (fun s _ => K s)) ->
  (forall s, J s -> K s) ->
  triple I (bind m k) (fun s _ => K s).
Proof.
  intros Hm Hk Hmono. eapply triple_bind; [exact Hm | exact Hk | |]; intros; apply Hmono; assumption.
Qed.

Lemma preserves_bind {A B : Type} (I : PassState -> Prop) (m : Pass A) (k : A -> Pass B) :
  preserves I m -> (forall a, preserves I (k a)) -> preserves I (bind m k).
Proof. intros Hm Hk. apply (triple_seq I I I); [exact Hm | exact Hk | auto]. Qed.

Lemma triple_ret {A : Type} (P : PassState -> Prop) (a : A)
      (Q : PassState -> Outcome A -> Prop) :
  (forall s, P s -> Q s (Resolved a)) -> triple P (ret a) Q.
Proof. intros H s s' o HP Hrun. inversion Hrun; subst. exact (H _ HP). Qed.

Lemma triple_throw {A : Type} (P : PassState -> Prop) (e : JsError)
      (Q : PassState -> Outcome A -> Prop) :
  (forall s, P s -> Q s (Rejected e)) -> triple P (throw e) Q.
Proof. intros H s s' o HP Hrun. inversion Hrun; subst. exact (H _ HP). Qed.

Lemma triple_await {A : Type} (P : PassState -> Prop) (p : Outcome A)
      (Q : PassState -> Outcome A -> Prop) :
  (forall s, P s -> Q s p) -> triple P (await p) Q.
Proof. intros H s s' o HP Hrun. inversion Hrun; subst. exact (H _ HP). Qed.

Lemma triple_perform (P : PassState -> Prop) (a : Action)
      (Q : PassState -> Outcome unit -> Prop) :
  (forall s, P s ->
             Q {| st_progress := st_progress s; st_log := st_log s ++ [a] |} (Resolved tt)) ->
  triple P (perform a) Q.
Proof. intros H s s' o HP Hrun. inversion Hrun; subst. exact (H _ HP). Qed.

Lemma triple_track (P : PassState -> Prop) (method : Tracker.Method)
      (Q : PassState -> Outcome unit -> Prop) :
  (forall s, P s ->
             Q {| st_progress := fst (method (st_progress s));
                  st_log := st_log s ++ map OnProgress (snd (method (st_progress s))) |}
               (Resolved tt)) ->
  triple P (track method) Q.
Proof.
  intros H s s' o HP Hrun. unfold track in Hrun. specialize (H _ HP).
  destruct (method (st_progress s)) as [t' evs]. inversion Hrun; subst. exact H.
Qed.

(** The log of a pass only grows. *)
Lemma logged_app (good : Action -> Prop) (t : ProgressTracker) (log added : list Action) :
  Forall good log -> Forall good added ->
  logged good {| st_progress := t; st_log := log ++ added |}.
Proof. intros H1 H2. unfold logged. cbn [st_log]. apply Forall_app. split; assumption. Qed.

Lemma preserves_perform (good : Action -> Prop) (a : Action) :
  good a -> preserves (logged good) (perform a).
Proof.
  intros Ha. apply triple_perform. intros s Hs.
  apply logged_app; [exact Hs | constructor; [exact Ha | constructor]].
Qed.

Lemma preserves_track (good : Action -> Prop) (method : Tracker.Method) :
  (forall t ev, In ev (snd (method t)) -> good (OnProgress ev)) ->
  preserves (logged good) (track method).
Proof.
  intros Hev. apply triple_track. intros s Hs.
  apply logged_app; [exact Hs |].
  apply Forall_forall. intros a Ha. apply in_map_iff in Ha.
  destruct Ha as (ev & <- & Hin). exact (Hev _ _ Hin).
Qed.

Lemma preserves_pure {A : Type} (I : PassState -> Prop) (p : Outcome A) :
  preserves I (await p).
Proof. apply triple_await. auto. Qed.

(* ===================================================================== *)
(** * Which promises settle *)
(* ===================================================================== *)

Lemma settles_then {A B : Type} (P : PassState -> Prop) (m : Pass A) (k : A -> Pass B)
      (Q : PassState -> Outcome B -> Prop) :
  settles m ->
  (forall a, triple (fun _ => True) (k a) Q) ->
  (forall s e, Q s (Rejected e)) ->
  triple P (bind m k) Q.
Proof.
  intros Hm Hk Hrej.
  apply (triple_bind _ m k (fun _ o => o <> Pending)).
  - intros s s' o _ Hrun. exact (Hm s s' o I Hrun).
  - intros a s s' o _ Hrun. exact (Hk a s s' o I Hrun).
  - intros s e _. apply Hrej.
  - intros s Habs. exfalso. apply Habs. reflexivity.
Qed.

Lemma settles_bind {A B : Type} (m : Pass A) (k : A -> Pass B) :
  settles m -> (forall a, settles (k a)) -> settles (bind m k).
Proof. intros Hm Hk. apply settles_then; [exact Hm | exact Hk | discriminate]. Qed.

Lemma settles_track (method : Tracker.Method) : settles (track method).
Proof. apply triple_track. discriminate. Qed.

Lemma settles_perform (a : Action) : settles (perform a).
Proof. apply triple_perform. discriminate. Qed.

Lemma settles_ret {A : Type} (a : A) : settles (@ret PassState A a).
Proof. apply triple_ret. discriminate. Qed.

Lemma settles_throw {A : Type} (e : JsError) : settles (@throw PassState A e).
Proof. apply triple_throw. discriminate. Qed.

Lemma settles_countPages env buffer : settles (await (countPages env buffer)).
Proof.
  apply triple_await. intros _ _. unfold countPages.
  destruct (env_pageCount env buffer); discriminate.
Qed.

Lemma settles_extractPages env buffer startPage endPage :
  settles (await (extractPages env buffer startPage endPage)).
Proof.
  apply triple_await. intros _ _. unfold extractPages.
  destruct (env_pageCount env buffer); [| discriminate].
  destruct (env_copyPages env buffer _); discriminate.
Qed.

Lemma settles_mergePDFs env chunks metadata :
  settles (await (mergePDFs env chunks metadata)).
Proof.
  apply triple_await. intros _ _. unfold mergePDFs.
  destruct (env_mergeDocuments env chunks metadata); discriminate.
Qed.

(** The timer of [compressChunk] settles its promise even when the worker
    never answers. *)
Lemma settles_compressChunk env chunkPdf options chunkIndex :
  settles (compressChunk env chunkPdf options chunkIndex).
Proof.
  unfold compressChunk. cbv zeta. apply settles_bind; [apply settles_perform |].
  intros _. destruct (env_compressWorker env _);
    [apply settles_ret | apply settles_throw | apply settles_throw | apply settles_throw].
Qed.

Lemma settles_metadataIfPreserved env pdfBuffer options :
  settles (metadataIfPreserved env pdfBuffer options).
Proof.
  unfold metadataIfPreserved. cbv zeta. destruct (truthy _).
  - apply settles_bind; [apply settles_perform | intros _; apply settles_ret].
  - apply settles_ret.
Qed.

Lemma settles_chunkLoop env pdfBuffer options totalPages chunkSize :
  forall (remaining : nat) i compressedChunks chunkStats,
    settles (chunkLoop env pdfBuffer options totalPages chunkSize remaining i
                       compressedChunks chunkStats).
Proof.
  induction remaining as [| remaining IH]; intros i cc cs.
  - apply settles_ret.
  - cbn [chunkLoop]. cbv zeta.
    apply settles_bind; [apply settles_perform | intros _].
    apply settles_bind; [apply settles_extractPages | intros chunkPdf].
    apply settles_bind; [apply settles_track | intros _].
    apply settles_bind; [apply settles_compressChunk | intros [compressed after]].
    apply settles_bind; [apply settles_track | intros _].
    apply IH.
Qed.

Lemma settles_reportAll (ps : list Q) : settles (reportAll ps).
Proof.
  induction ps as [| p ps IH].
  - apply settles_ret.
  - cbn [reportAll]. apply settles_bind; [apply settles_track | intros _; exact IH].
Qed.

(** What [reportAll] does to the log. *)
Lemma reportAll_log (ps : list Q) :
  forall (s s' : PassState) (o : Outcome unit),
    reportAll ps s = (s', o) ->
    o = Resolved tt /\ exists evs, st_log s' = st_log s ++ map OnProgress evs.
Proof.
  induction ps as [| p ps IH]; intros s s' o H.
  - inversion H; subst. split; [reflexivity |]. exists []. now rewrite app_nil_r.
  - cbn [reportAll] in H. unfold bind, track in H.
    destruct (Tracker.reportMergingProgress p (st_progress s)) as [t' evs].
    apply IH in H. destruct H as (-> & evs' & ->). split; [reflexivity |].
    exists (evs ++ evs'). cbn [st_log]. now rewrite map_app, app_assoc.
Qed.

(** Merging has no timer: it stays pending exactly when a merge worker was
    started and never answers. *)
Lemma mergeChunks_pending env chunks metadata options :
  triple (fun _ => True) (mergeChunks env chunks metadata options)
         (fun s o =>
            o = Pending ->
            isMainStrategy (opt_mergeStrategy options) = false /\
            exists m transferList,
              In (PostMergeChunks m transferList) (st_log s) /\
              mw_terminal (env_mergeWorker env m) = MergeStaysSilent).
Proof.
  intros s s' o _ Hrun Hpending. subst o.
  unfold mergeChunks in Hrun. cbv zeta in Hrun.
  destruct (isMainStrategy (opt_mergeStrategy options)) eqn:Hmain; cbn [orb] in Hrun.
  - exfalso.
    assert (Hsettles : settles (bind (perform (CallMergePDFs chunks))
                                     (fun _ => await (mergePDFs env chunks metadata)))).
    { apply settles_bind; [apply settles_perform | intros _; apply settles_mergePDFs]. }
    destruct chunks as [| c [| c' rest]].
    + exact (Hsettles _ _ _ I Hrun eq_refl).
    + discriminate.
    + exact (Hsettles _ _ _ I Hrun eq_refl).
  - split; [reflexivity |].
    destruct (Nat.eqb (List.length chunks) 1) eqn:Hone.
    + exfalso. destruct chunks as [| c [| c' rest]]; try discriminate.
    + unfold bind at 1 in Hrun. unfold perform at 1 in Hrun.
      unfold bind at 1 in Hrun.
      destruct (reportAll _ _) as [s1 o1] eqn:Hreports.
      apply reportAll_log in Hreports. destruct Hreports as (-> & evs & Hlog).
      cbn [st_log] in Hlog.
      destruct (mw_terminal _) eqn:Hterminal; unfold ret, throw, await in Hrun;
        inversion Hrun; subst.
      do 2 eexists. split; [| exact Hterminal].
      rewrite Hlog. apply in_or_app. left. apply in_or_app. right. left. reflexivity.
Qed.

(** A pass stays pending only in its merge. *)
Lemma pass_pending env pdfBuffer options acts :
  compressWithPreset env pdfBuffer options = (acts, Pending) ->
  isMainStrategy (opt_mergeStrategy options) = false /\
  exists m transferList,
    In (PostMergeChunks m transferList) acts /\
    mw_terminal (env_mergeWorker env m) = MergeStaysSilent.
Proof.
  unfold compressWithPreset.
  destruct (compressWithPreset_body _ _ _ _) as [s' out] eqn:H.
  intros Hres. inversion Hres; subst. clear Hres.
  revert H.
  generalize {| st_progress := newProgressTracker (opt_onProgress options); st_log := [] |}.
  intros s0 H.
  refine ((_ : triple (fun _ => True) (compressWithPreset_body env pdfBuffer options)
                      (fun s o => o = Pending -> _)) s0 s' Pending I H eq_refl).
  unfold compressWithPreset_body.
  apply settles_then; [apply settles_track | intros _ | discriminate].
  apply settles_then; [apply settles_perform | intros _ | discriminate].
  apply settles_then; [apply settles_countPages | intros totalPages | discriminate].
  cbv zeta.
  apply settles_then; [apply settles_track | intros _ | discriminate].
  apply settles_then; [apply settles_track | intros _ | discriminate].
  apply settles_then; [apply settles_metadataIfPreserved | intros metadata | discriminate].
  apply settles_then; [apply settles_track | intros _ | discriminate].
  apply settles_then; [apply settles_chunkLoop | intros [compressedChunks chunkStats]
                      | discriminate].
  apply settles_then; [apply settles_track | intros _ | discriminate].
  eapply triple_bind; [apply mergeChunks_pending | | discriminate | auto].
  intros mergedPdf.
  apply settles_then; [apply settles_track | intros _ | discriminate].
  apply triple_ret. discriminate.
Qed.

Lemma attempted_in_log (log : list Step) (p : CompressionPreset) :
  In p (attemptedPresets log) -> exists acts, In (Attempt p acts) log.
Proof.
  induction log as [| [a | q acts] log IH]; cbn.
  - intros [].
  - intros H. destruct (IH H) as [acts' Hin]. exists acts'. right. exact Hin.
  - intros [-> | H].
    + exists acts. left. reflexivity.
    + destruct (IH H) as [acts' Hin]. exists acts'. right. exact Hin.
Qed.

Lemma preamble_holds_no_attempt (options : CompressionOptions) p acts :
  ~ In (Attempt p acts) (preamble options).
Proof.
  unfold preamble. destruct (opt_onProgress options); cbn; intuition discriminate.
Qed.

(** The attempts in the log of a job that ran passes hold the actions of
    those passes. *)
Lemma compress_attempts env pdfBuffer options preset log out p acts :
  parsePreset (presetOrDefault (in_preset options)) = Some preset ->
  compress env (AnArrayBuffer pdfBuffer) options = (log, out) ->
  In (Attempt p acts) log ->
  fst (compressWithPreset env pdfBuffer (withPreset (fullOptions options preset) p)) = acts.
Proof.
  intros Hpreset Hrun Hin.
  destruct (compress_refused _ _ _ _ _ Hrun) as [(preset' & Hpreset' & Hload & Hvalid) | (Hnone & _)].
  - rewrite Hpreset in Hpreset'. inversion Hpreset'; subst preset'.
    destruct (compress_ran _ _ _ _ _ _ Hpreset Hload Hvalid Hrun)
      as (steps & untried & -> & _ & Hpasses & _).
    apply in_app_or in Hin. destruct Hin as [Hin | Hin].
    + exfalso. exact (preamble_holds_no_attempt _ _ _ Hin).
    + exact (Hpasses _ _ Hin).
  - exfalso.
    assert (Hp : In p (attemptedPresets log)).
    { clear -Hin. induction log as [| [a | q acts'] log IH]; cbn.
      - destruct Hin.
      - destruct Hin as [Habs | Hin]; [discriminate | exact (IH Hin)].
      - destruct Hin as [Heq | Hin]; [inversion Heq; left; reflexivity | right; exact (IH Hin)]. }
    rewrite Hnone in Hp. destruct Hp.
Qed.

(** X6: the two ways in which [compress] stays pending.  Either [loadWASM]
    never settles, and then nothing was attempted; or the engine loaded, a
    merge worker was started in the last attempt (so the merge strategy is
    not 'main') and never answered.  Chunks have a timer, the merge has
    none: a compression worker that never answers cannot leave [compress]
    pending.  (The promises of pdf-lib are taken to settle.) *)
Theorem compress_stays_pending_for_two_reasons :
  forall env input options log,
    compress env input options = (log, Pending) ->
    (env_loadWASM env (in_wasmUrl options) = WasmNeverLoads /\
     attemptedPresets log = []) \/
    (env_loadWASM env (in_wasmUrl options) = WasmLoaded /\
     in_mergeStrategy options <> Some StrategyMain /\
     exists earlier p acts m transferList,
       attemptedPresets log = earlier ++ [p] /\
       In (Attempt p acts) log /\
       In (PostMergeChunks m transferList) acts /\
       mw_terminal (env_mergeWorker env m) = MergeStaysSilent).
Proof.
  intros env input options log Hrun.
  destruct input as [pdfBuffer |]; [| discriminate].
  destruct (compress_refused _ _ _ _ _ Hrun)
    as [(preset & Hpreset & Hload & Hvalid) | (Hnone & Hout)].
  2:{ left.
      destruct Hout as [(_ & _ & Habs) | [(_ & _ & _ & Habs) | [(q & t & _ & _ & _ & Habs)
                       | [(q & _ & _ & _ & _ & Habs) | (q & _ & _ & Hnever & _ & _)]]]];
        try discriminate.
      split; [exact Hnever | exact Hnone]. }
  right. split; [exact Hload |].
  destruct (compress_ran _ _ _ _ _ _ Hpreset Hload Hvalid Hrun)
    as (steps & untried & Hlog & _ & Hpasses & _ & Hend).
  destruct Hend as (earlier & p & acts & Htried & Hpass).
  destruct (pass_pending _ _ _ _ Hpass) as (Hworker & m & transferList & Hposted & Hsilent).
  split.
  - cbn [opt_mergeStrategy withPreset fullOptions isMainStrategy] in Hworker.
    intros Hmain. rewrite Hmain in Hworker. discriminate.
  - assert (Hp : In p (attemptedPresets log)).
    { rewrite Htried. apply in_or_app. right. left. reflexivity. }
    destruct (attempted_in_log _ _ Hp) as [acts' Hin].
    pose proof (compress_attempts _ _ _ _ _ _ _ _ Hpreset Hrun Hin) as Hsame.
    rewrite Hpass in Hsame. cbn [fst] in Hsame. subst acts'.
    exists earlier, p, acts, m, transferList. conjs; assumption.
Qed.

(** A pass resolves only if a worker answered, or the merge ran on the main
    thread. *)
Lemma resolved_pass_had_answers env pdfBuffer options acts result :
  compressWithPreset env pdfBuffer options = (acts, Resolved result) ->
  (exists m reply, env_compressWorker env m = PostsChunkComplete reply) \/
  isMainStrategy (opt_mergeStrategy options) = true \/
  (exists m merged, mw_terminal (env_mergeWorker env m) = PostsMergeComplete merged).
Proof.
  unfold compressWithPreset, compressWithPreset_body.
  destruct (bind _ _ _) as [s' out] eqn:H. intros Hres. inversion Hres; subst. clear Hres.
  apply bind_resolved_inv in H. destruct H as (s1 & [] & _ & H).
  apply bind_resolved_inv in H. destruct H as (s2 & [] & _ & H).
  apply bind_resolved_inv in H. destruct H as (s3 & totalPages & _ & H).
  cbv zeta in H.
  apply bind_resolved_inv in H. destruct H as (s4 & [] & _ & H).
  apply bind_resolved_inv in H. destruct H as (s5 & [] & _ & H).
  apply bind_resolved_inv in H. destruct H as (s6 & metadata & _ & H).
  apply bind_resolved_inv in H. destruct H as (s7 & [] & _ & H).
  apply bind_resolved_inv in H. destruct H as (s8 & [compressedChunks chunkStats] & Hloop & H).
  destruct (Z.to_nat _) as [| remaining] in Hloop.
  - cbn [chunkLoop] in Hloop. inversion Hloop; subst.
    apply bind_resolved_inv in H. destruct H as (s9 & [] & _ & H).
    apply bind_resolved_inv in H. destruct H as (s10 & mergedPdf & Hmerge & _).
    unfold mergeChunks in Hmerge. cbv zeta in Hmerge.
    destruct (isMainStrategy (opt_mergeStrategy options)); [right; left; reflexivity |].
    cbn [orb List.length Nat.eqb] in Hmerge.
    apply bind_resolved_inv in Hmerge. destruct Hmerge as (t1 & [] & _ & Hmerge).
    apply bind_resolved_inv in Hmerge. destruct Hmerge as (t2 & [] & _ & Hmerge).
    right. right.
    destruct (mw_terminal _) eqn:Hterminal; unfold ret, throw, await in Hmerge;
      inversion Hmerge. eauto.
  - cbn [chunkLoop] in Hloop. cbv zeta in Hloop.
    apply bind_resolved_inv in Hloop. destruct Hloop as (t1 & [] & _ & Hloop).
    apply bind_resolved_inv in Hloop. destruct Hloop as (t2 & chunkPdf & _ & Hloop).
    apply bind_resolved_inv in Hloop. destruct Hloop as (t3 & [] & _ & Hloop).
    apply bind_resolved_inv in Hloop. destruct Hloop as (t4 & [compressed after] & Hchunk & _).
    unfold compressChunk in Hchunk. cbv zeta in Hchunk.
    apply bind_resolved_inv in Hchunk. destruct Hchunk as (t5 & [] & _ & Hchunk).
    left.
    destruct (env_compressWorker env _) eqn:Hworker; unfold ret, throw in Hchunk;
      inversion Hchunk. eauto.
Qed.

(** X7: with the two worker scripts the orchestrator itself ships
    ([getCompressionWorkerCode], [getMergeWorkerCode]) and a merge that is
    left to the worker (the default), no pass ever resolves.  For every
    document that gets past the door, [compress] then returns the original
    bytes with the fallback warning when degradation is enabled, and is
    rejected with a plain [Error] when it is disabled. *)
Theorem shipped_worker_scripts_never_compress :
  forall env pdfBuffer options preset log out,
    (forall m, env_compressWorker env m = getCompressionWorkerCode m) ->
    (forall m, env_mergeWorker env m = getMergeWorkerCode m) ->
    parsePreset (presetOrDefault (in_preset options)) = Some preset ->
    env_loadWASM env (in_wasmUrl options) = WasmLoaded ->
    isValidPDF pdfBuffer = true ->
    in_mergeStrategy options <> Some StrategyMain ->
    compress env (AnArrayBuffer pdfBuffer) options = (log, out) ->
    if not_false (in_gracefulDegradation options)
    then out = Resolved (originalPdfResult env pdfBuffer (fullOptions options preset))
    else exists msg, out = Rejected (Error msg).
Proof.
  intros env pdfBuffer options preset log out Hchunks Hmerges Hpreset Hload Hvalid Hworker Hrun.
  destruct (compress_ran _ _ _ _ _ _ Hpreset Hload Hvalid Hrun)
    as (steps & untried & _ & _ & _ & _ & Hend).
  destruct Hend as (earlier & p & acts & _ & Hend).
  assert (Hnone : forall result,
             compressWithPreset env pdfBuffer (withPreset (fullOptions options preset) p)
             <> (acts, Resolved result)).
  { intros result Hpass. apply resolved_pass_had_answers in Hpass.
    destruct Hpass as [(m & reply & Habs) | [Habs | (m & merged & Habs)]].
    - rewrite Hchunks in Habs. discriminate.
    - cbn [opt_mergeStrategy withPreset fullOptions isMainStrategy] in Habs.
      destruct (in_mergeStrategy options) as [[|] |]; try discriminate.
      apply Hworker. reflexivity.
    - rewrite Hmerges in Habs. discriminate. }
  destruct out as [r | e |].
  - destruct Hend as [(result & Hpass & _) | (e & _ & Hdegrade & ->)].
    + exfalso. exact (Hnone _ Hpass).
    + cbn [opt_gracefulDegradation fullOptions] in Hdegrade.
      destruct (in_gracefulDegradation options) as [[|] |]; try discriminate; reflexivity.
  - destruct Hend as (Hpass & Hoff).
    cbn [opt_gracefulDegradation fullOptions] in Hoff.
    destruct (rejected_pass_throws_plain _ _ _ _ _ Hpass) as [msg ->].
    destruct (in_gracefulDegradation options) as [[|] |]; try discriminate.
    cbn [not_false]. exists msg. reflexivity.
  - exfalso. apply pass_pending in Hend.
    destruct Hend as (_ & m & transferList & _ & Hsilent).
    rewrite Hmerges in Hsilent. discriminate.
Qed.

(* ===================================================================== *)
(** * The alphabet of a pass *)
(* ===================================================================== *)

Section PassAlphabet.

Variable env : Env.
Variable pdfBuffer : ArrayBuffer.
Variable options : CompressionOptions.
Variable good : Action -> Prop.

Hypothesis good_event : forall ev, good (OnProgress ev).
Hypothesis good_count : good CallCountPages.
Hypothesis good_metadata :
  opt_preserveMetadata options = Some true -> good CallExtractMetadata.
Hypothesis good_extract : forall startPage endPage, good (CallExtractPages startPage endPage).
Hypothesis good_task :
  forall chunkPdf chunkIndex,
    good (PostCompressChunk (compressChunkMessage chunkPdf options chunkIndex)).
Hypothesis good_merge : forall chunks, good (CallMergePDFs chunks).
Hypothesis good_merge_task : forall m transferList, good (PostMergeChunks m transferList).

Lemma alphabet_track (method : Tracker.Method) : preserves (logged good) (track method).
Proof. apply preserves_track. intros t ev _. apply good_event. Qed.

Lemma alphabet_ret {A : Type} (a : A) : preserves (logged good) (ret a).
Proof. apply triple_ret. auto. Qed.

Lemma alphabet_throw {A : Type} (e : JsError) : preserves (logged good) (@throw _ A e).
Proof. apply triple_throw. auto. Qed.

Lemma alphabet_compressChunk chunkPdf chunkIndex :
  preserves (logged good) (compressChunk env chunkPdf options chunkIndex).
Proof.
  unfold compressChunk. cbv zeta.
  apply preserves_bind; [apply preserves_perform; apply good_task | intros _].
  destruct (env_compressWorker env _);
    [apply alphabet_ret | apply alphabet_throw | apply alphabet_throw | apply alphabet_throw].
Qed.

Lemma alphabet_chunkLoop totalPages chunkSize :
  forall (remaining : nat) i compressedChunks chunkStats,
    preserves (logged good)
              (chunkLoop env pdfBuffer options totalPages chunkSize remaining i
                         compressedChunks chunkStats).
Proof.
  induction remaining as [| remaining IH]; intros i cc cs.
  - apply alphabet_ret.
  - cbn [chunkLoop]. cbv zeta.
    apply preserves_bind; [apply preserves_perform; apply good_extract | intros _].
    apply preserves_bind; [apply preserves_pure | intros chunkPdf].
    apply preserves_bind; [apply alphabet_track | intros _].
    apply preserves_bind; [apply alphabet_compressChunk | intros [compressed after]].
    apply preserves_bind; [apply alphabet_track | intros _].
    apply IH.
Qed.

Lemma alphabet_reportAll (ps : list Q) : preserves (logged good) (reportAll ps).
Proof.
  induction ps as [| p ps IH].
  - apply alphabet_ret.
  - cbn [reportAll]. apply preserves_bind; [apply alphabet_track | intros _; exact IH].
Qed.

Lemma alphabet_mergeChunks chunks metadata :
  preserves (logged good) (mergeChunks env chunks metadata options).
Proof.
  unfold mergeChunks. cbv zeta.
  assert (Hmain : forall cs,
             preserves (logged good)
                       (bind (perform (CallMergePDFs cs))
                             (fun _ => await (mergePDFs env cs metadata)))).
  { intros cs. apply preserves_bind; [apply preserves_perform; apply good_merge |].
    intros _. apply preserves_pure. }
  destruct (isMainStrategy (opt_mergeStrategy options) || Nat.eqb (List.length chunks) 1)%bool.
  - destruct chunks as [| c [| c' rest]]; [apply Hmain | apply alphabet_ret | apply Hmain].
  - apply preserves_bind; [apply preserves_perform; apply good_merge_task | intros _].
    apply preserves_bind; [apply alphabet_reportAll | intros _].
    destruct (mw_terminal _);
      [apply alphabet_ret | apply alphabet_throw | apply alphabet_throw | apply preserves_pure].
Qed.

Lemma alphabet_metadataIfPreserved :
  preserves (logged good) (metadataIfPreserved env pdfBuffer options).
Proof.
  unfold metadataIfPreserved. cbv zeta.
  cbn [cfg_preserveMetadata getPresetConfigWithOverrides spread ov_preserveMetadata].
  destruct (opt_preserveMetadata options) as [[|] |] eqn:Hkeep; cbn [truthy];
    try apply alphabet_ret.
  apply preserves_bind; [apply preserves_perform; apply good_metadata; reflexivity |].
  intros _. apply alphabet_ret.
Qed.

(** Whatever a pass does to the outside world is one of: a progress event,
    the page count, the metadata read (only if the caller asked for it),
    a page extraction, a chunk task built from the pass's own options, a
    merge on the main thread, a merge task. *)
Lemma pass_alphabet acts o :
  compressWithPreset env pdfBuffer options = (acts, o) -> Forall good acts.
Proof.
  unfold compressWithPreset.
  destruct (compressWithPreset_body _ _ _ _) as [s' out] eqn:H.
  intros Hres. inversion Hres; subst. clear Hres.
  assert (Hbody : preserves (logged good) (compressWithPreset_body env pdfBuffer options)).
  { unfold compressWithPreset_body.
    apply preserves_bind; [apply alphabet_track | intros _].
    apply preserves_bind; [apply preserves_perform; apply good_count | intros _].
    apply preserves_bind; [apply preserves_pure | intros totalPages].
    cbv zeta.
    apply preserves_bind; [apply alphabet_track | intros _].
    apply preserves_bind; [apply alphabet_track | intros _].
    apply preserves_bind; [apply alphabet_metadataIfPreserved | intros metadata].
    apply preserves_bind; [apply alphabet_track | intros _].
    apply preserves_bind; [apply alphabet_chunkLoop | intros [compressedChunks chunkStats]].
    apply preserves_bind; [apply alphabet_track | intros _].
    apply preserves_bind; [apply alphabet_mergeChunks | intros mergedPdf].
    apply preserves_bind; [apply alphabet_track | intros _].
    apply alphabet_ret. }
  refine (Hbody _ _ _ _ H). constructor.
Qed.

End PassAlphabet.

(* ===================================================================== *)
(** * The log of a pass only grows *)
(* ===================================================================== *)

Lemma growsLog_bind {A B : Type} (m : Pass A) (k : A -> Pass B) :
  growsLog m -> (forall a, growsLog (k a)) -> growsLog (bind m k).
Proof.
  intros Hm Hk s s' o Hrun. unfold bind in Hrun.
  destruct (m s) as [s1 [a | e |]] eqn:Hms.
  - destruct (Hm _ _ _ Hms) as [added1 H1]. destruct (Hk a _ _ _ Hrun) as [added2 H2].
    exists (added1 ++ added2). rewrite H2, H1. now rewrite app_assoc.
  - inversion Hrun; subst. exact (Hm _ _ _ Hms).
  - inversion Hrun; subst. exact (Hm _ _ _ Hms).
Qed.

Lemma growsLog_track (method : Tracker.Method) : growsLog (track method).
Proof.
  intros s s' o Hrun. unfold track in Hrun. destruct (method (st_progress s)) as [t' evs].
  inversion Hrun; subst. eexists. reflexivity.
Qed.

Lemma growsLog_perform (a : Action) : growsLog (perform a).
Proof. intros s s' o Hrun. inversion Hrun; subst. eexists. reflexivity. Qed.

Lemma growsLog_await {A : Type} (p : Outcome A) : growsLog (@await PassState A p).
Proof. intros s s' o Hrun. inversion Hrun; subst. exists []. now rewrite app_nil_r. Qed.

Lemma growsLog_ret {A : Type} (a : A) : growsLog (@ret PassState A a).
Proof. intros s s' o Hrun. inversion Hrun; subst. exists []. now rewrite app_nil_r. Qed.

Lemma growsLog_throw {A : Type} (e : JsError) : growsLog (@throw PassState A e).
Proof. intros s s' o Hrun. inversion Hrun; subst. exists []. now rewrite app_nil_r. Qed.

Lemma growsLog_compressChunk env chunkPdf options chunkIndex :
  growsLog (compressChunk env chunkPdf options chunkIndex).
Proof.
  unfold compressChunk. cbv zeta. apply growsLog_bind; [apply growsLog_perform | intros _].
  destruct (env_compressWorker env _);
    [apply growsLog_ret | apply growsLog_throw | apply growsLog_throw | apply growsLog_throw].
Qed.

Lemma growsLog_chunkLoop env pdfBuffer options totalPages chunkSize :
  forall (remaining : nat) i compressedChunks chunkStats,
    growsLog (chunkLoop env pdfBuffer options totalPages chunkSize remaining i
                        compressedChunks chunkStats).
Proof.
  induction remaining as [| remaining IH]; intros i cc cs.
  - apply growsLog_ret.
  - cbn [chunkLoop]. cbv zeta.
    apply growsLog_bind; [apply growsLog_perform | intros _].
    apply growsLog_bind; [apply growsLog_await | intros chunkPdf].
    apply growsLog_bind; [apply growsLog_track | intros _].
    apply growsLog_bind; [apply growsLog_compressChunk | intros [compressed after]].
    apply growsLog_bind; [apply growsLog_track | intros _].
    apply IH.
Qed.

Lemma growsLog_reportAll (ps : list Q) : growsLog (reportAll ps).
Proof.
  induction ps as [| p ps IH].
  - apply growsLog_ret.
  - cbn [reportAll]. apply growsLog_bind; [apply growsLog_track | intros _; exact IH].
Qed.

Lemma growsLog_mergeChunks env chunks metadata options :
  growsLog (mergeChunks env chunks metadata options).
Proof.
  unfold mergeChunks. cbv zeta.
  assert (Hmain : forall cs,
             growsLog (bind (perform (CallMergePDFs cs))
                            (fun _ => await (mergePDFs env cs metadata)))).
  { intros cs. apply growsLog_bind; [apply growsLog_perform | intros _; apply growsLog_await]. }
  destruct (isMainStrategy (opt_mergeStrategy options) || Nat.eqb (List.length chunks) 1)%bool.
  - destruct chunks as [| c [| c' rest]]; [apply Hmain | apply growsLog_ret | apply Hmain].
  - apply growsLog_bind; [apply growsLog_perform | intros _].
    apply growsLog_bind; [apply growsLog_reportAll | intros _].
    destruct (mw_terminal _);
      [apply growsLog_ret | apply growsLog_throw | apply growsLog_throw | apply growsLog_await].
Qed.

Lemma grows_keeps (a : Action) {A : Type} (m : Pass A) :
  growsLog m -> preserves (fun s => In a (st_log s)) m.
Proof.
  intros Hm s s' o Hin Hrun. destruct (Hm _ _ _ Hrun) as [added ->].
  apply in_or_app. left. exact Hin.
Qed.

(** A step that always resolves, followed by the rest. *)
Lemma resolves_then {A B : Type} (P : PassState -> Prop) (m : Pass A) (k : A -> Pass B)
      (Q : PassState -> Outcome B -> Prop) :
  (forall s s' o, m s = (s', o) -> exists a, o = Resolved a) ->
  (forall a, triple (fun _ => True) (k a) Q) ->
  triple P (bind m k) Q.
Proof.
  intros Hm Hk s s' o _ Hrun. unfold bind in Hrun.
  destruct (m s) as [s1 o1] eqn:Hms. destruct (Hm _ _ _ Hms) as [a ->].
  exact (Hk a _ _ _ I Hrun).
Qed.

Lemma track_resolves (method : Tracker.Method) (s s' : PassState) (o : Outcome unit) :
  track method s = (s', o) -> exists a, o = Resolved a.
Proof.
  unfold track. destruct (method (st_progress s)). intros H. inversion H. eauto.
Qed.

Lemma perform_resolves (a : Action) (s s' : PassState) (o : Outcome unit) :
  perform a s = (s', o) -> exists u, o = Resolved u.
Proof. intros H. inversion H. eauto. Qed.

(** Whether the metadata is read depends on the caller's [preserveMetadata]
    alone: the override is always present in the spread, so the preset's
    own default never shows. *)
Lemma metadata_step env pdfBuffer options :
  triple (fun _ => True) (metadataIfPreserved env pdfBuffer options)
         (fun s o =>
            (exists md, o = Resolved md) /\
            (opt_preserveMetadata options = Some true -> In CallExtractMetadata (st_log s))).
Proof.
  intros s s' o _ Hrun. unfold metadataIfPreserved in Hrun. cbv zeta in Hrun.
  cbn [cfg_preserveMetadata getPresetConfigWithOverrides spread ov_preserveMetadata] in Hrun.
  destruct (opt_preserveMetadata options) as [[|] |]; cbn [truthy] in Hrun;
    unfold bind, perform, ret in Hrun; inversion Hrun; subst;
    (split; [eauto | try discriminate]).
  intros _. cbn [st_log]. apply in_or_app. right. left. reflexivity.
Qed.

(** When the page count was read and the caller asked for the metadata, the
    pass reads it, however it ends afterwards. *)
Lemma pass_reads_metadata env pdfBuffer options totalPages acts o :
  env_pageCount env pdfBuffer = LibOk totalPages ->
  opt_preserveMetadata options = Some true ->
  compressWithPreset env pdfBuffer options = (acts, o) ->
  In CallExtractMetadata acts.
Proof.
  intros Hpages Hkeep. unfold compressWithPreset.
  destruct (compressWithPreset_body _ _ _ _) as [s' out] eqn:H.
  intros Hres. inversion Hres; subst. clear Hres.
  assert (Hbody : triple (fun _ => True) (compressWithPreset_body env pdfBuffer options)
                         (fun s _ => In CallExtractMetadata (st_log s))).
  { unfold compressWithPreset_body.
    apply resolves_then; [apply track_resolves | intros _].
    apply resolves_then; [apply perform_resolves | intros _].
    apply resolves_then.
    { intros s s1 o1 Hawait. inversion Hawait. unfold countPages. rewrite Hpages. eauto. }
    intros pages. cbv zeta.
    apply resolves_then; [apply track_resolves | intros _].
    apply resolves_then; [apply track_resolves | intros _].
    eapply triple_bind; [apply metadata_step | | |].
    - intros metadata. cbv beta.
      eapply triple_weaken with (P := fun s => In CallExtractMetadata (st_log s));
        [intros s [_ Hin]; exact (Hin Hkeep) | intros s o0 Hq; exact Hq |].
      apply grows_keeps.
      apply growsLog_bind; [apply growsLog_track | intros _].
      apply growsLog_bind; [apply growsLog_chunkLoop | intros [compressedChunks chunkStats]].
      apply growsLog_bind; [apply growsLog_track | intros _].
      apply growsLog_bind; [apply growsLog_mergeChunks | intros mergedPdf].
      apply growsLog_bind; [apply growsLog_track | intros _].
      apply growsLog_ret.
    - intros s e [[md Habs] _]. discriminate.
    - intros s [[md Habs] _]. discriminate. }
  exact (Hbody _ _ _ I H).
Qed.

(** When pdf-lib cannot count the pages, the pass ends there. *)
Lemma pass_without_pages env pdfBuffer options thrown acts o :
  env_pageCount env pdfBuffer = LibThrows thrown ->
  compressWithPreset env pdfBuffer options = (acts, o) ->
  o = Rejected (Error ("Failed to count pages: " ++ lib_message thrown)%string) /\
  acts = map OnProgress (snd (Tracker.setPhase Chunking
                                 (newProgressTracker (opt_onProgress options))))
         ++ [CallCountPages].
Proof.
  intros Hpages. unfold compressWithPreset, compressWithPreset_body.
  unfold bind at 1. unfold track at 1.
  destruct (Tracker.setPhase Chunking _) as [t1 evs1]. cbn [snd].
  unfold bind at 1. unfold perform at 1.
  unfold bind at 1. unfold await at 1. unfold countPages. rewrite Hpages.
  cbn [st_log]. intros H. inversion H; subst. split; reflexivity.
Qed.

(* ===================================================================== *)
(** * The tasks a pass posts *)
(* ===================================================================== *)

Lemma postedChunks_app (l1 l2 : list Action) :
  postedChunks (l1 ++ l2) = postedChunks l1 ++ postedChunks l2.
Proof. unfold postedChunks. apply flat_map_app. Qed.

Lemma postedChunks_events (evs : list ProgressEvent) :
  postedChunks (map OnProgress evs) = [].
Proof. induction evs as [| ev evs IH]; [reflexivity | exact IH]. Qed.

Lemma indicesBelow_S (k : nat) : indicesBelow (S k) = indicesBelow k ++ [Z.of_nat k].
Proof. unfold indicesBelow. rewrite seq_S, map_app. reflexivity. Qed.

Lemma postedIndices_track (k : nat) (method : Tracker.Method) :
  preserves (postedIndices k) (track method).
Proof.
  apply triple_track. intros s Hs. unfold postedIndices in *. cbn [st_log].
  rewrite postedChunks_app, postedChunks_events, app_nil_r. exact Hs.
Qed.

Lemma postedIndices_silent (k : nat) (a : Action) :
  postedChunks [a] = [] -> preserves (postedIndices k) (perform a).
Proof.
  intros Ha. apply triple_perform. intros s Hs. unfold postedIndices in *. cbn [st_log].
  rewrite postedChunks_app, Ha, app_nil_r. exact Hs.
Qed.

Lemma postedIndices_ret (k : nat) {A : Type} (a : A) : preserves (postedIndices k) (ret a).
Proof. apply triple_ret. auto. Qed.

Lemma postedIndices_throw (k : nat) {A : Type} (e : JsError) :
  preserves (postedIndices k) (@throw _ A e).
Proof. apply triple_throw. auto. Qed.

Lemma postedIndices_compressChunk env chunkPdf options (k : nat) :
  triple (postedIndices k) (compressChunk env chunkPdf options (Z.of_nat k))
         (fun s _ => postedIndices (S k) s).
Proof.
  unfold compressChunk. cbv zeta.
  apply (triple_seq (postedIndices k) (postedIndices (S k)) (postedIndices (S k))).
  - apply triple_perform. intros s Hs. unfold postedIndices in *. cbn [st_log].
    rewrite postedChunks_app, map_app, Hs, indicesBelow_S. reflexivity.
  - intros _. destruct (env_compressWorker env _);
      [apply postedIndices_ret | apply postedIndices_throw | apply postedIndices_throw
       | apply postedIndices_throw].
  - auto.
Qed.

Lemma postedIndices_chunkLoop env pdfBuffer options totalPages chunkSize :
  forall (remaining k : nat) compressedChunks chunkStats,
    triple (postedIndices k)
           (chunkLoop env pdfBuffer options totalPages chunkSize remaining (Z.of_nat k)
                      compressedChunks chunkStats)
           (fun s _ => exists j, postedIndices j s).
Proof.
  induction remaining as [| remaining IH]; intros k cc cs.
  - apply triple_ret. eauto.
  - cbn [chunkLoop]. cbv zeta.
    apply (triple_seq _ (postedIndices k)); [apply postedIndices_silent; reflexivity | | eauto].
    intros _.
    apply (triple_seq _ (postedIndices k)); [apply preserves_pure | | eauto].
    intros chunkPdf.
    apply (triple_seq _ (postedIndices k)); [apply postedIndices_track | | eauto].
    intros _.
    apply (triple_seq _ (postedIndices (S k))); [apply postedIndices_compressChunk | | eauto].
    intros [compressed after].
    apply (triple_seq _ (postedIndices (S k))); [apply postedIndices_track | | eauto].
    intros _.
    replace (Z.of_nat k + 1) with (Z.of_nat (S k)) by lia.
    apply IH.
Qed.

Lemma postedIndices_reportAll (k : nat) (ps : list Q) :
  preserves (postedIndices k) (reportAll ps).
Proof.
  induction ps as [| p ps IH].
  - apply postedIndices_ret.
  - cbn [reportAll]. apply preserves_bind; [apply postedIndices_track | intros _; exact IH].
Qed.

Lemma postedIndices_mergeChunks env chunks metadata options (k : nat) :
  preserves (postedIndices k) (mergeChunks env chunks metadata options).
Proof.
  unfold mergeChunks. cbv zeta.
  assert (Hmain : forall cs,
             preserves (postedIndices k)
                       (bind (perform (CallMergePDFs cs))
                             (fun _ => await (mergePDFs env cs metadata)))).
  { intros cs. apply preserves_bind; [apply postedIndices_silent; reflexivity |].
    intros _. apply preserves_pure. }
  destruct (isMainStrategy (opt_mergeStrategy options) || Nat.eqb (List.length chunks) 1)%bool.
  - destruct chunks as [| c [| c' rest]]; [apply Hmain | apply postedIndices_ret | apply Hmain].
  - apply preserves_bind; [apply postedIndices_silent; reflexivity | intros _].
    apply preserves_bind; [apply postedIndices_reportAll | intros _].
    destruct (mw_terminal _);
      [apply postedIndices_ret | apply postedIndices_throw | apply postedIndices_throw
       | apply preserves_pure].
Qed.

(** The tasks of a pass are numbered from 0, without a gap. *)
Lemma pass_indices env pdfBuffer options acts o :
  compressWithPreset env pdfBuffer options = (acts, o) ->
  map ccm_chunkIndex (postedChunks acts) = indicesBelow (List.length (postedChunks acts)).
Proof.
  unfold compressWithPreset.
  destruct (compressWithPreset_body _ _ _ _) as [s' out] eqn:H.
  intros Hres. inversion Hres; subst. clear Hres.
  assert (Hbody : triple (postedIndices 0) (compressWithPreset_body env pdfBuffer options)
                         (fun s _ => exists j, postedIndices j s)).
  { unfold compressWithPreset_body.
    apply (triple_seq _ (postedIndices 0)); [apply postedIndices_track | | eauto]. intros _.
    apply (triple_seq _ (postedIndices 0));
      [apply postedIndices_silent; reflexivity | | eauto]. intros _.
    apply (triple_seq _ (postedIndices 0)); [apply preserves_pure | | eauto].
    intros totalPages. cbv zeta.
    apply (triple_seq _ (postedIndices 0)); [apply postedIndices_track | | eauto]. intros _.
    apply (triple_seq _ (postedIndices 0)); [apply postedIndices_track | | eauto]. intros _.
    apply (triple_seq _ (postedIndices 0)); [| | eauto].
    { unfold metadataIfPreserved. cbv zeta. destruct (truthy _).
      - apply preserves_bind; [apply postedIndices_silent; reflexivity |].
        intros _. apply postedIndices_ret.
      - apply postedIndices_ret. }
    intros metadata.
    apply (triple_seq _ (postedIndices 0)); [apply postedIndices_track | | eauto]. intros _.
    apply (triple_seq _ (fun s => exists j, postedIndices j s));
      [apply (postedIndices_chunkLoop _ _ _ _ _ _ 0%nat) | | auto].
    intros [compressedChunks chunkStats].
    assert (Hkeep : forall {A : Type} (m : Pass A),
               (forall j, preserves (postedIndices j) m) ->
               preserves (fun s => exists j, postedIndices j s) m).
    { intros A m Hm s s1 o1 [j Hj] Hrun. exists j. exact (Hm j _ _ _ Hj Hrun). }
    apply preserves_bind; [apply Hkeep; intros j; apply postedIndices_track | intros _].
    apply preserves_bind; [apply Hkeep; intros j; apply postedIndices_mergeChunks |].
    intros mergedPdf. cbv zeta.
    apply preserves_bind; [apply Hkeep; intros j; apply postedIndices_track | intros _].
    apply Hkeep. intros j. apply postedIndices_ret. }
  assert (Hstart : postedIndices 0
                     {| st_progress := newProgressTracker (opt_onProgress options);
                        st_log := [] |}) by reflexivity.
  destruct (Hbody _ _ _ Hstart H) as [j Hj]. unfold postedIndices in Hj.
  rewrite Hj. f_equal.
  apply (f_equal (@List.length Z)) in Hj.
  unfold indicesBelow in Hj. rewrite !length_map, length_seq in Hj. symmetry. exact Hj.
Qed.

Lemma posted_among (good : CompressChunkMessage -> Prop) (acts : list Action) :
  Forall (fun a => match a with PostCompressChunk m => good m | _ => True end) acts ->
  Forall good (postedChunks acts).
Proof.
  induction 1 as [| a acts Ha _ IH]; [constructor |].
  destruct a; cbn; try exact IH. constructor; assumption.
Qed.

(** X8: every [compress-chunk] task of an attempt names the preset of that
    attempt, carries the four tuning options exactly as the caller gave them
    (the defaults of the preset catalogue are not filled in), and the tasks
    of an attempt are numbered 0, 1, 2, ... in the order they are posted. *)
Theorem chunk_tasks_follow_the_attempt :
  forall env pdfBuffer options preset log out p acts,
    parsePreset (presetOrDefault (in_preset options)) = Some preset ->
    compress env (AnArrayBuffer pdfBuffer) options = (log, out) ->
    In (Attempt p acts) log ->
    Forall (fun m =>
              ccm_preset m = p /\
              ccm_options m = {| wo_targetDPI := in_targetDPI options;
                                 wo_jpegQuality := in_jpegQuality options;
                                 wo_preserveMetadata := in_preserveMetadata options;
                                 wo_enableRasterization := in_enableRasterization options |})
           (postedChunks acts) /\
    map ccm_chunkIndex (postedChunks acts) = indicesBelow (List.length (postedChunks acts)).
Proof.
  intros env pdfBuffer options preset log out p acts Hpreset Hrun Hin.
  pose proof (compress_attempts _ _ _ _ _ _ _ _ Hpreset Hrun Hin) as Hacts.
  destruct (compressWithPreset env pdfBuffer (withPreset (fullOptions options preset) p))
    as [acts' o] eqn:Hpass.
  cbn [fst] in Hacts. subst acts'.
  split; [| exact (pass_indices _ _ _ _ _ Hpass)].
  apply posted_among.
  apply (pass_alphabet env pdfBuffer (withPreset (fullOptions options preset) p)) with (o := o);
    try exact Hpass; try (intros; exact I).
  intros chunkPdf chunkIndex. split; reflexivity.
Qed.

(** X9: in every attempt, the document's metadata is read exactly when the
    caller passed [preserveMetadata: true] and pdf-lib could count the
    pages.  The preset's own [preserveMetadata] ([true] for 'lossless' and
    'balanced') never decides: the override object always holds the key, so
    an omitted option counts as "do not preserve". *)
Theorem metadata_is_read_only_on_request :
  forall env pdfBuffer options preset log out p acts,
    parsePreset (presetOrDefault (in_preset options)) = Some preset ->
    compress env (AnArrayBuffer pdfBuffer) options = (log, out) ->
    In (Attempt p acts) log ->
    (In CallExtractMetadata acts <->
     in_preserveMetadata options = Some true /\
     exists totalPages, env_pageCount env pdfBuffer = LibOk totalPages).
Proof.
  intros env pdfBuffer options preset log out p acts Hpreset Hrun Hin.
  pose proof (compress_attempts _ _ _ _ _ _ _ _ Hpreset Hrun Hin) as Hacts.
  destruct (compressWithPreset env pdfBuffer (withPreset (fullOptions options preset) p))
    as [acts' o] eqn:Hpass.
  cbn [fst] in Hacts. subst acts'.
  split.
  - intros Hread. split.
    + assert (Hall : Forall (fun a => a = CallExtractMetadata ->
                                      in_preserveMetadata options = Some true) acts).
      { apply (pass_alphabet env pdfBuffer (withPreset (fullOptions options preset) p))
          with (o := o); try exact Hpass; try discriminate.
        intros Hkeep _. exact Hkeep. }
      rewrite Forall_forall in Hall. exact (Hall _ Hread eq_refl).
    + destruct (env_pageCount env pdfBuffer) as [totalPages | thrown] eqn:Hpages; [eauto |].
      exfalso. destruct (pass_without_pages _ _ _ _ _ _ Hpages Hpass) as [_ ->].
      apply in_app_or in Hread. destruct Hread as [Hread | [Habs | []]]; [| discriminate].
      apply in_map_iff in Hread. destruct Hread as (ev & Habs & _). discriminate.
  - intros [Hkeep [totalPages Hpages]].
    exact (pass_reads_metadata env pdfBuffer (withPreset (fullOptions options preset) p)
                               totalPages acts o Hpages Hkeep Hpass).
Qed.

(* ===================================================================== *)
(** * Where the merge runs *)
(* ===================================================================== *)

Lemma bind_ext {S A B : Type} (m m' : M S A) (k k' : A -> M S B) (s : S) :
  m s = m' s -> (forall a s1, k a s1 = k' a s1) -> bind m k s = bind m' k' s.
Proof.
  intros Hm Hk. unfold bind. rewrite <- Hm.
  destruct (m s) as [s1 [a | e |]]; [apply Hk | reflexivity | reflexivity].
Qed.

(** Same first step from the same state; afterwards only the outcome has to
    agree. *)
Lemma outcome_bind_same {S A B : Type} (m m' : M S A) (k k' : A -> M S B) (s : S) :
  m s = m' s -> (forall a s1, snd (k a s1) = snd (k' a s1)) ->
  snd (bind m k s) = snd (bind m' k' s).
Proof.
  intros Hm Hk. unfold bind. rewrite <- Hm.
  destruct (m s) as [s1 [a | e |]]; [apply Hk | reflexivity | reflexivity].
Qed.

(** Same outcome of the first step, from states that may differ. *)
Lemma outcome_bind_apart {S A B : Type} (m m' : M S A) (k k' : A -> M S B) (s s' : S) :
  snd (m s) = snd (m' s') -> (forall a t t', snd (k a t) = snd (k' a t')) ->
  snd (bind m k s) = snd (bind m' k' s').
Proof.
  intros Hm Hk. unfold bind.
  destruct (m s) as [s1 o1], (m' s') as [s1' o1']. cbn [snd] in Hm. subst o1'.
  destruct o1 as [a | e |]; [apply Hk | reflexivity | reflexivity].
Qed.

(** The chunk loop never looks at the merge strategy. *)
Lemma chunkLoop_ignores_strategy env pdfBuffer options strategy totalPages chunkSize :
  forall (remaining : nat) i compressedChunks chunkStats (s : PassState),
    chunkLoop env pdfBuffer (withMergeStrategy options strategy) totalPages chunkSize
              remaining i compressedChunks chunkStats s
    = chunkLoop env pdfBuffer options totalPages chunkSize
                remaining i compressedChunks chunkStats s.
Proof.
  induction remaining as [| remaining IH]; intros i cc cs s.
  - reflexivity.
  - cbn [chunkLoop]. cbv zeta.
    apply bind_ext; [reflexivity | intros _ s1].
    apply bind_ext; [reflexivity | intros chunkPdf s2].
    apply bind_ext; [reflexivity | intros _ s3].
    apply bind_ext; [reflexivity | intros [compressed after] s4].
    apply bind_ext; [reflexivity | intros _ s5].
    apply IH.
Qed.

(** With the repository's merge worker, the worker and the main thread
    merge to the same outcome. *)
Lemma mergeChunks_agree env chunks metadata options strategy (s s' : PassState) :
  (forall m, env_mergeWorker env m = handleMergeChunks env m) ->
  snd (mergeChunks env chunks metadata (withMergeStrategy options strategy) s)
  = snd (mergeChunks env chunks metadata (withMergeStrategy options (Some StrategyMain)) s').
Proof.
  intros Hworker. unfold mergeChunks. cbv zeta.
  cbn [opt_mergeStrategy withMergeStrategy isMainStrategy orb].
  destruct (isMainStrategy strategy || Nat.eqb (List.length chunks) 1)%bool eqn:Hhere.
  - destruct chunks as [| c [| c' rest]]; unfold bind, perform, await, ret; reflexivity.
  - assert (Hmany : match chunks with [only] => False | _ => True end).
    { destruct chunks as [| c [| c' rest]]; try exact I.
      cbn in Hhere. rewrite orb_true_r in Hhere. discriminate. }
    rewrite Hworker. unfold handleMergeChunks. cbn [mcm_chunks mcm_originalMetadata].
    assert (Hmain : snd (bind (perform (CallMergePDFs chunks))
                              (fun _ => await (mergePDFs env chunks metadata)) s')
                    = mergePDFs env chunks metadata) by reflexivity.
    assert (Hgoal : forall (k : ArrayBuffer -> Pass ArrayBuffer),
               snd (bind (perform (PostMergeChunks
                                     {| mcm_chunks := chunks; mcm_originalMetadata := metadata |}
                                     (filter (fun c => 0 <? byteLength c) chunks)))
                         (fun _ =>
                            let run :=
                              match mergePDFs env chunks metadata with
                              | Resolved (Buf mergedPdf) =>
                                  {| mw_progress := [10; 30; 90; 100]%Q;
                                     mw_terminal := PostsMergeComplete mergedPdf |}
                              | Resolved Detached =>
                                  {| mw_progress := [10; 30; 90; 100]%Q;
                                     mw_terminal := MergeFiresOnError "DataCloneError" |}
                              | Rejected error =>
                                  {| mw_progress := [10; 30]%Q;
                                     mw_terminal := MergePostsError (error_message error) |}
                              | Pending =>
                                  {| mw_progress := [10; 30]%Q;
                                     mw_terminal := MergeStaysSilent |}
                              end in
                            bind (reportAll (mw_progress run))
                                 (fun _ =>
                                    match mw_terminal run with
                                    | PostsMergeComplete result => ret (Buf result)
                                    | MergePostsError error => throw (Error error)
                                    | MergeFiresOnError msg =>
                                        throw (Error ("Merge worker error: " ++ msg)%string)
                                    | MergeStaysSilent => await Pending
                                    end)) s)
               = mergePDFs env chunks metadata).
    { intros _. unfold bind at 1. unfold perform at 1. cbv zeta.
      unfold mergePDFs. destruct (env_mergeDocuments env chunks metadata) as [bytes | thrown];
        cbn [mw_progress mw_terminal error_message].
      - unfold bind. destruct (reportAll _ _) as [s1 o1] eqn:Hreports.
        apply reportAll_log in Hreports. destruct Hreports as [-> _]. reflexivity.
      - unfold bind. destruct (reportAll _ _) as [s1 o1] eqn:Hreports.
        apply reportAll_log in Hreports. destruct Hreports as [-> _]. reflexivity. }
    specialize (Hgoal (fun b => ret b)). cbv zeta in Hgoal.
    destruct chunks as [| c [| c' rest]]; [| destruct Hmany |];
      (etransitivity; [exact Hgoal | symmetry; exact Hmain]).
Qed.

(** The outcome of a pass does not depend on where the merge runs. *)
Lemma pass_outcome_ignores_strategy env pdfBuffer options strategy :
  (forall m, env_mergeWorker env m = handleMergeChunks env m) ->
  snd (compressWithPreset env pdfBuffer (withMergeStrategy options strategy))
  = snd (compressWithPreset env pdfBuffer (withMergeStrategy options (Some StrategyMain))).
Proof.
  intros Hworker. unfold compressWithPreset.
  cbn [opt_onProgress withMergeStrategy].
  generalize {| st_progress := newProgressTracker (opt_onProgress options); st_log := [] |}.
  intros s0.
  destruct (compressWithPreset_body env pdfBuffer (withMergeStrategy options strategy) s0)
    as [s1 o1] eqn:H1.
  destruct (compressWithPreset_body env pdfBuffer
              (withMergeStrategy options (Some StrategyMain)) s0) as [s2 o2] eqn:H2.
  cbn [snd].
  change o1 with (snd (s1, o1)). change o2 with (snd (s2, o2)).
  rewrite <- H1, <- H2. clear H1 H2 s1 s2 o1 o2.
  unfold compressWithPreset_body.
  apply outcome_bind_same; [reflexivity | intros _ s1].
  apply outcome_bind_same; [reflexivity | intros _ s2].
  apply outcome_bind_same; [reflexivity | intros totalPages s3].
  cbv zeta.
  apply outcome_bind_same; [reflexivity | intros _ s4].
  apply outcome_bind_same; [reflexivity | intros _ s5].
  apply outcome_bind_same; [reflexivity | intros metadata s6].
  apply outcome_bind_same; [reflexivity | intros _ s7].
  apply outcome_bind_same.
  { rewrite !chunkLoop_ignores_strategy. reflexivity. }
  intros [compressedChunks chunkStats] s8.
  apply outcome_bind_same; [reflexivity | intros _ s9].
  apply outcome_bind_apart; [apply mergeChunks_agree; exact Hworker |].
  intros mergedPdf t t'. unfold bind, track, ret.
  destruct (Tracker.reportComplete (st_progress t)), (Tracker.reportComplete (st_progress t')).
  reflexivity.
Qed.

(** The outcome of the degradation loop is a function of the outcomes of
    the passes. *)
Lemma presetLoop_outcome_ext env pdfBuffer (options1 options2 : CompressionOptions) chain :
  opt_onProgress options1 = opt_onProgress options2 ->
  opt_preset options1 = opt_preset options2 ->
  (forall p, snd (compressWithPreset env pdfBuffer (withPreset options1 p))
             = snd (compressWithPreset env pdfBuffer (withPreset options2 p))) ->
  forall rest lastError (s1 s2 : list Step),
    snd (presetLoop env pdfBuffer options1 chain rest lastError s1)
    = snd (presetLoop env pdfBuffer options2 chain rest lastError s2).
Proof.
  intros Hcallback Hpreset Hpasses.
  induction rest as [| p rest IH]; intros lastError s1 s2.
  - reflexivity.
  - cbn [presetLoop]. specialize (Hpasses p).
    destruct (compressWithPreset env pdfBuffer (withPreset options1 p)) as [acts1 attempt1].
    destruct (compressWithPreset env pdfBuffer (withPreset options2 p)) as [acts2 attempt2].
    cbn [snd] in Hpasses. subst attempt2.
    unfold bind at 1 3. unfold record at 1 3.
    destruct attempt1 as [result | error |].
    + unfold ret, passResult. rewrite Hpreset. reflexivity.
    + destruct (isLastOf chain p); [reflexivity |].
      rewrite <- Hcallback. destruct (opt_onProgress options1).
      * destruct (handleErrorWithGracefulDegradation error p true true) as [evs decision].
        unfold bind, record. destruct (negb (shouldRetry decision)); [reflexivity | apply IH].
      * apply IH.
    + reflexivity.
Qed.

Lemma orchestrate_outcome_ext env pdfBuffer (options1 options2 : CompressionOptions) :
  opt_onProgress options1 = opt_onProgress options2 ->
  opt_preset options1 = opt_preset options2 ->
  opt_gracefulDegradation options1 = opt_gracefulDegradation options2 ->
  (forall p, snd (compressWithPreset env pdfBuffer (withPreset options1 p))
             = snd (compressWithPreset env pdfBuffer (withPreset options2 p))) ->
  forall s1 s2 : list Step,
    snd (orchestrateCompression_body env pdfBuffer options1 s1)
    = snd (orchestrateCompression_body env pdfBuffer options2 s2).
Proof.
  intros Hcallback Hpreset Hdegrade Hpasses s1 s2.
  unfold orchestrateCompression_body. cbv zeta.
  rewrite <- Hpreset, <- Hdegrade.
  destruct (isValidPDF pdfBuffer); cbn [negb]; [| reflexivity].
  apply outcome_bind_apart.
  - apply presetLoop_outcome_ext; assumption.
  - intros [result | lastError] t t'; [reflexivity |].
    destruct (not_false (opt_gracefulDegradation options1)).
    + unfold bind, notify, originalPdfResult. rewrite <- Hcallback, <- Hpreset.
      destruct (opt_onProgress options1); reflexivity.
    + destruct lastError; reflexivity.
Qed.

(** X10: where the merge runs does not change what [compress] returns or
    throws.  With the merge worker of the repository ([handleMergeChunks],
    which calls the same [mergePDFs] and posts back its result or the
    message of its error), the outcome under 'worker' (or with the option
    omitted) is the outcome under 'main': same artifact and statistics, or
    the same error.  Only the log differs. *)
Theorem merge_strategy_does_not_change_the_outcome :
  forall env input options strategy,
    (forall m, env_mergeWorker env m = handleMergeChunks env m) ->
    snd (compress env input (setMergeStrategy options strategy))
    = snd (compress env input (setMergeStrategy options (Some StrategyMain))).
Proof.
  intros env input options strategy Hworker.
  unfold compress, compress_body.
  destruct input as [pdfBuffer |]; [| reflexivity].
  destruct (byteLength pdfBuffer =? 0); [reflexivity |].
  cbn [in_preset setMergeStrategy].
  destruct (parsePreset _) as [preset |]; [| reflexivity].
  apply outcome_bind_same; [reflexivity | intros _ s1].
  apply outcome_bind_same; [reflexivity | intros _ s2].
  cbn [opt_wasmUrl fullOptions in_wasmUrl setMergeStrategy].
  destruct (env_loadWASM env (in_wasmUrl options)); [| reflexivity | reflexivity].
  apply orchestrate_outcome_ext; try reflexivity.
  intros p.
  exact (pass_outcome_ignores_strategy env pdfBuffer
           (withPreset (fullOptions options preset) p)
           (Some match strategy with Some s => s | None => StrategyWorker end)
           Hworker).
Qed.

(* ===================================================================== *)
(** * Searching a message that holds rendered numbers *)
(* ===================================================================== *)

Lemma toLowerCase_app (a b : string) :
  toLowerCase (a ++ b) = (toLowerCase a ++ toLowerCase b)%string.
Proof. induction a as [| c a IH]; cbn; [reflexivity | now rewrite IH]. Qed.

Lemma lower_numeral (c : ascii) : isNumeral c = true -> lower_ascii c = c.
Proof.
  unfold isNumeral, lower_ascii. cbv zeta. intros H.
  destruct (Nat.leb 65 (nat_of_ascii c) && Nat.leb (nat_of_ascii c) 90)%bool eqn:Hupper;
    [| reflexivity].
  exfalso.
  apply andb_true_iff in Hupper. destruct Hupper as [H1 H2].
  apply Nat.leb_le in H1. apply Nat.leb_le in H2.
  apply orb_true_iff in H. destruct H as [H | H].
  - apply andb_true_iff in H. destruct H as [_ H]. apply Nat.leb_le in H. lia.
  - apply Nat.eqb_eq in H. lia.
Qed.

Lemma toLowerCase_numerals (s : string) : allChars isNumeral s = true -> toLowerCase s = s.
Proof.
  induction s as [| c s IH]; cbn; [reflexivity |].
  intros H. apply andb_true_iff in H. destruct H as [Hc Hs].
  now rewrite (lower_numeral c Hc), (IH Hs).
Qed.

Lemma uint_numerals (d : Decimal.uint) :
  allChars isNumeral (NilEmpty.string_of_uint d) = true.
Proof. induction d; cbn; try reflexivity; exact IHd. Qed.

Lemma show_Z_numeral (z : Z) : numeralString (show_Z z).
Proof.
  unfold numeralString, show_Z, NilZero.string_of_int.
  assert (Huint : forall d, allChars isNumeral (NilZero.string_of_uint d) = true /\
                            NilZero.string_of_uint d <> EmptyString).
  { intros d. unfold NilZero.string_of_uint.
    destruct d; (split; [try reflexivity; apply (uint_numerals (_ d)) | discriminate]). }
  destruct (Z.to_int z) as [d | d].
  - apply Huint.
  - split; [| discriminate]. cbn. exact (proj1 (Huint d)).
Qed.

Lemma prefix_empty (s : string) : String.prefix "" s = true.
Proof. destruct s; reflexivity. Qed.

Lemma prefix_before_numeral (pat a d b : string) :
  allChars (fun c => negb (isNumeral c)) pat = true ->
  numeralString d ->
  String.prefix pat (a ++ d ++ b) = String.prefix pat a.
Proof.
  intros Hpat [Hd Hsome]. revert pat Hpat.
  induction a as [| x a IH]; intros pat Hpat.
  - destruct pat as [| c p]; [now rewrite !prefix_empty |].
    destruct d as [| y d']; [congruence |]. cbn.
    destruct (ascii_dec c y) as [-> | _]; [| reflexivity].
    cbn in Hpat, Hd. apply andb_true_iff in Hpat. apply andb_true_iff in Hd.
    destruct Hpat as [Hc _], Hd as [Hy _]. rewrite Hy in Hc. discriminate.
  - destruct pat as [| c p]; [now rewrite !prefix_empty |]. cbn.
    destruct (ascii_dec c x); [| reflexivity].
    apply IH. cbn in Hpat. apply andb_true_iff in Hpat. exact (proj2 Hpat).
Qed.

Lemma includes_after_numerals (pat d b : string) :
  wordPattern pat -> allChars isNumeral d = true ->
  includes (d ++ b) pat = includes b pat.
Proof.
  intros [Hpat Hsome] Hd. induction d as [| y d IH]; [reflexivity |].
  cbn in Hd. apply andb_true_iff in Hd. destruct Hd as [Hy Hd].
  cbn [String.append includes].
  destruct pat as [| c p]; [congruence |].
  cbn [String.prefix].
  destruct (ascii_dec c y) as [-> | _]; [| exact (IH Hd)].
  cbn in Hpat. apply andb_true_iff in Hpat. destruct Hpat as [Hc _].
  rewrite Hy in Hc. discriminate.
Qed.

(** A pattern without numerals occurs in [a ++ d ++ b], where [d] is a
    rendered number, exactly when it occurs in [a] or in [b]. *)
Lemma includes_around_numerals (pat a d b : string) :
  wordPattern pat -> numeralString d ->
  includes (a ++ d ++ b) pat = (includes a pat || includes b pat)%bool.
Proof.
  intros Hpat Hd. induction a as [| x a IH].
  - cbn [String.append]. rewrite (includes_after_numerals pat d b Hpat (proj1 Hd)).
    destruct Hpat as [_ Hsome]. destruct pat; [congruence | reflexivity].
  - change (String x a ++ d ++ b)%string with (String x (a ++ d ++ b)).
    cbn [includes].
    change (String x (a ++ d ++ b)) with (String x a ++ d ++ b)%string.
    rewrite (prefix_before_numeral pat (String x a) d b (proj1 Hpat) Hd).
    destruct (String.prefix pat (String x a)); [reflexivity | exact IH].
Qed.

(** A pattern that occurs in [a] occurs in [a ++ b]. *)
Lemma prefix_app_l (pat a b : string) :
  String.prefix pat a = true -> String.prefix pat (a ++ b) = true.
Proof.
  revert pat. induction a as [| x a IH]; intros pat H.
  - destruct pat; [apply prefix_empty | discriminate].
  - destruct pat as [| c p]; [apply prefix_empty |]. cbn in *.
    destruct (ascii_dec c x); [exact (IH _ H) | discriminate].
Qed.

Lemma includes_app_l (pat a b : string) :
  includes a pat = true -> includes (a ++ b) pat = true.
Proof.
  induction a as [| x a IH]; intros H.
  - destruct pat as [| c p]; [destruct b; reflexivity | discriminate H].
  - cbn [includes] in H. cbn [String.append includes].
    destruct (String.prefix pat (String x a)) eqn:Hp.
    + change (String x (a ++ b)) with (String x a ++ b)%string.
      now rewrite (prefix_app_l _ _ b Hp).
    + rewrite (IH H). destruct (String.prefix pat (String x (a ++ b))); reflexivity.
Qed.

(* ===================================================================== *)
(** * How the errors built by the orchestrator are classified *)
(* ===================================================================== *)

(** The message of the chunk timer, lower-cased, searched for a word. *)
Lemma timeout_message_includes (chunkIndex timeout : Z) (pat : string) :
  wordPattern pat ->
  includes (toLowerCase ("Chunk " ++ show_Z chunkIndex ++ " compression timed out after " ++
                         show_Z timeout ++ "ms")) pat
  = (includes "chunk " pat
     || (includes " compression timed out after " pat || includes "ms" pat))%bool.
Proof.
  intros Hpat.
  rewrite !toLowerCase_app.
  rewrite (toLowerCase_numerals _ (proj1 (show_Z_numeral chunkIndex))).
  rewrite (toLowerCase_numerals _ (proj1 (show_Z_numeral timeout))).
  rewrite (includes_around_numerals pat _ _ _ Hpat (show_Z_numeral chunkIndex)).
  rewrite (includes_around_numerals pat _ _ _ Hpat (show_Z_numeral timeout)).
  reflexivity.
Qed.

Lemma timeout_message_class (chunkIndex timeout : Z) :
  classifyError (Error ("Chunk " ++ show_Z chunkIndex ++ " compression timed out after " ++
                        show_Z timeout ++ "ms")) = TIMEOUT.
Proof.
  unfold classifyError. cbn [error_message]. cbv zeta.
  rewrite !timeout_message_includes by (split; [reflexivity | discriminate]).
  reflexivity.
Qed.

(** X11: a compression worker that never answers makes [compressChunk]
    reject, through its timer, with an error that [classifyError] files
    under TIMEOUT whatever the chunk index and the timeout are: no other
    keyword of the classifier occurs in the message.  The error is therefore
    recoverable, and the degradation handler names the fallback preset. *)
Theorem silent_worker_times_out_recoverably :
  forall env chunkPdf options chunkIndex (s : PassState),
    env_compressWorker env (compressChunkMessage chunkPdf options chunkIndex) = StaysSilent ->
    exists s' e,
      compressChunk env chunkPdf options chunkIndex s = (s', Rejected e) /\
      classifyError e = TIMEOUT /\
      isRecoverableError (classifyError e) = true /\
      forall preset callback,
        nextPreset (snd (handleErrorWithGracefulDegradation e preset true callback))
        = getFallbackPreset preset.
Proof.
  intros env chunkPdf options chunkIndex s Hsilent.
  unfold compressChunk. cbv zeta. rewrite Hsilent.
  unfold bind, perform, throw. do 2 eexists. split; [reflexivity |].
  rewrite timeout_message_class. conjs; try reflexivity.
  intros preset callback. unfold handleErrorWithGracefulDegradation. cbv zeta.
  rewrite timeout_message_class. cbn.
  destruct (getFallbackPreset preset); reflexivity.
Qed.

(** X12: a compression worker that crashes ([onerror]) makes
    [compressChunk] reject with 'Worker error: ' followed by the event's
    message.  Because of that prefix the classifier never answers TIMEOUT,
    VALIDATION_FAILED or UNKNOWN for it: the class is WORKER_ERROR unless
    the event's message holds one of the keywords tested earlier. *)
Theorem worker_crash_is_at_least_a_worker_error :
  forall env chunkPdf options chunkIndex (s : PassState) msg,
    env_compressWorker env (compressChunkMessage chunkPdf options chunkIndex)
    = FiresOnError msg ->
    exists s' e,
      compressChunk env chunkPdf options chunkIndex s = (s', Rejected e) /\
      e = Error ("Worker error: " ++ msg)%string /\
      In (classifyError e) [INVALID_PDF; OUT_OF_MEMORY; WASM_LOAD_FAILED; WORKER_ERROR].
Proof.
  intros env chunkPdf options chunkIndex s msg Hcrash.
  unfold compressChunk. cbv zeta. rewrite Hcrash.
  unfold bind, perform, throw. do 2 eexists. conjs; try reflexivity.
  unfold classifyError. cbn [error_message]. cbv zeta.
  rewrite toLowerCase_app.
  assert (Hworker : includes (toLowerCase "Worker error: " ++ toLowerCase msg) "worker" = true)
    by (apply includes_app_l; reflexivity).
  rewrite Hworker.
  destruct (_ || _)%bool; [left; reflexivity |].
  destruct (_ || _)%bool; [right; left; reflexivity |].
  destruct (_ || _)%bool; [right; right; left; reflexivity |].
  right. right. right. left. reflexivity.
Qed.

(** X13: [createCompressionError] replaces the message of the error it wraps
    by the user-friendly text of its class.  Classifying the wrapper gives
    the class of the wrapped error again, with one exception: the text for
    WASM_LOAD_FAILED holds none of the classifier's keywords, so a wrapped
    engine failure is classified UNKNOWN, which counts as recoverable. *)
Theorem wrapping_keeps_the_class_except_engine_failures :
  forall error preset size errPhase,
    classifyError (createCompressionError error preset size errPhase)
    = match classifyError error with
      | WASM_LOAD_FAILED => UNKNOWN
      | errorType => errorType
      end.
Proof.
  intros error preset size errPhase.
  unfold createCompressionError. cbv zeta.
  unfold classifyError at 1. cbn [error_message].
  destruct (classifyError error), preset; reflexivity.
Qed.

(** X14: the handler and the loop agree on what comes next.  Whenever
    [handleErrorWithGracefulDegradation] decides to retry after a failure
    under a preset of the fallback chain, the preset it names (and
    announces to the callback) is the one that follows in the chain, which
    is the one the orchestrator's loop tries next; and it only decides so
    for an error it classifies as recoverable. *)
Theorem announced_preset_is_next_in_chain :
  forall error current callback preset evs decision,
    In current (getPresetFallbackChain preset) ->
    handleErrorWithGracefulDegradation error current true callback = (evs, decision) ->
    shouldRetry decision = true ->
    isRecoverableError (classifyError error) = true /\
    exists before next after,
      getPresetFallbackChain preset = before ++ current :: next :: after /\
      nextPreset decision = Some next /\
      evs = if callback
            then [ {| phase := ErrorRecovery; progress := 0%Q;
                      currentChunk := None; totalChunks := None;
                      estimatedTimeRemaining := None;
                      message :=
                        Some (preset_name current ++ " compression failed (" ++
                              errorType_name (classifyError error) ++ "). Trying " ++
                              preset_name next ++ " preset...")%string |} ]
            else [].
Proof.
  intros error current callback preset evs decision Hin Hrun Hretry.
  unfold handleErrorWithGracefulDegradation in Hrun. cbv zeta in Hrun.
  destruct (isRecoverableError (classifyError error)); cbn [negb orb] in Hrun;
    [| inversion Hrun; subst; discriminate].
  split; [reflexivity |].
  rewrite getPresetFallbackChain_eq in *.
  destruct current; cbn [getFallbackPreset] in Hrun; inversion Hrun; subst; clear Hrun;
    try discriminate.
  - destruct preset; cbn in Hin.
    + destruct Hin as [Habs | []]; discriminate.
    + exists [], Lossless, []. conjs; reflexivity.
    + exists [Max], Lossless, []. conjs; reflexivity.
  - destruct preset; cbn in Hin.
    + destruct Hin as [Habs | []]; discriminate.
    + destruct Hin as [Habs | [Habs | []]]; discriminate.
    + exists [], Balanced, [Lossless]. conjs; reflexivity.
Qed.

(* ===================================================================== *)
(** * The tracker, whatever is called on it *)
(* ===================================================================== *)

Lemma callMethod_state (c : TrackerCall) (t : ProgressTracker) :
  pt_onProgress (fst (callMethod c t)) = pt_onProgress t /\
  pt_chunkTimes (fst (callMethod c t)) = pt_chunkTimes t ++ completionTimes [c] /\
  pt_completedChunks (fst (callMethod c t))
  = pt_completedChunks t + Z.of_nat (List.length (completionTimes [c])) /\
  pt_totalChunks (fst (callMethod c t))
  = match c with SetTotalChunks n => n | _ => pt_totalChunks t end /\
  List.length (snd (callMethod c t))
  = if pt_onProgress t then List.length (reportingCalls [c]) else 0%nat.
Proof.
  destruct c; cbn; unfold Tracker.emitProgress, Tracker.emit; cbn;
    rewrite ?app_nil_r, ?Z.add_0_r; destruct (pt_onProgress t); conjs; reflexivity.
Qed.

Lemma completionTimes_cons (c : TrackerCall) (calls : list TrackerCall) :
  completionTimes (c :: calls) = completionTimes [c] ++ completionTimes calls.
Proof. unfold completionTimes. cbn. now rewrite app_nil_r. Qed.

Lemma reportingCalls_cons (c : TrackerCall) (calls : list TrackerCall) :
  reportingCalls (c :: calls) = reportingCalls [c] ++ reportingCalls calls.
Proof. unfold reportingCalls. cbn. destruct c; reflexivity. Qed.

Lemma runCalls_state (calls : list TrackerCall) :
  forall t,
    pt_onProgress (fst (runCalls calls t)) = pt_onProgress t /\
    pt_chunkTimes (fst (runCalls calls t)) = pt_chunkTimes t ++ completionTimes calls /\
    pt_completedChunks (fst (runCalls calls t))
    = pt_completedChunks t + Z.of_nat (List.length (completionTimes calls)) /\
    pt_totalChunks (fst (runCalls calls t))
    = fold_left (fun total c => match c with SetTotalChunks n => n | _ => total end)
                calls (pt_totalChunks t) /\
    List.length (snd (runCalls calls t))
    = if pt_onProgress t then List.length (reportingCalls calls) else 0%nat.
Proof.
  induction calls as [| c calls IH]; intros t.
  - cbn. rewrite app_nil_r, Z.add_0_r. destruct (pt_onProgress t); conjs; reflexivity.
  - cbn [runCalls fold_left].
    destruct (callMethod_state c t) as (Hcb & Htimes & Hdone & Htotal & Hevs).
    destruct (callMethod c t) as [t1 evs1]. cbn [fst snd] in *.
    specialize (IH t1). destruct IH as (IHcb & IHtimes & IHdone & IHtotal & IHevs).
    destruct (runCalls calls t1) as [t2 evs2]. cbn [fst snd] in *.
    rewrite completionTimes_cons, reportingCalls_cons, !length_app.
    conjs.
    + congruence.
    + rewrite IHtimes, Htimes. now rewrite app_assoc.
    + rewrite IHdone, Hdone. lia.
    + rewrite IHtotal, Htotal. destruct c; reflexivity.
    + rewrite IHevs, Hevs, Hcb. destruct (pt_onProgress t); reflexivity.
Qed.

(** X15: the [ProgressTracker] object after any sequence of calls of its
    public methods, from construction on.  [completedChunks] equals the
    length of [chunkTimes] and the number of calls of [completeChunk], and
    [chunkTimes] holds their second arguments in order; [totalChunks] is
    the argument of the last [setTotalChunks]; the callback, if there is
    one, was invoked exactly once for every call other than
    [setTotalChunks] and [getElapsedTime], which never invoke it, and
    nothing was emitted without one. *)
Theorem tracker_object_invariants :
  forall (calls : list TrackerCall) (onProgress : bool),
    pt_chunkTimes (fst (runCalls calls (newProgressTracker onProgress)))
    = completionTimes calls /\
    pt_completedChunks (fst (runCalls calls (newProgressTracker onProgress)))
    = Z.of_nat (List.length
                  (pt_chunkTimes (fst (runCalls calls (newProgressTracker onProgress))))) /\
    pt_totalChunks (fst (runCalls calls (newProgressTracker onProgress)))
    = lastTotal calls /\
    pt_onProgress (fst (runCalls calls (newProgressTracker onProgress))) = onProgress /\
    List.length (snd (runCalls calls (newProgressTracker onProgress)))
    = if onProgress then List.length (reportingCalls calls) else 0%nat.
Proof.
  intros calls onProgress.
  destruct (runCalls_state calls (newProgressTracker onProgress))
    as (Hcb & Htimes & Hdone & Htotal & Hevs).
  cbn [pt_onProgress pt_chunkTimes pt_completedChunks pt_totalChunks newProgressTracker app]
    in *.
  conjs.
  - exact Htimes.
  - rewrite Hdone, Htimes. lia.
  - exact Htotal.
  - exact Hcb.
  - exact Hevs.
Qed.

(* ===================================================================== *)
(** * The two magic-byte checks *)
(* ===================================================================== *)

Lemma magic_check (bytes : list Z) :
  forallb (fun '(index, byte) =>
             match nth_error bytes index with
             | Some b => b =? byte
             | None => false
             end)
          (combine (seq 0 4) PDF_MAGIC_BYTES) = true <->
  exists rest, bytes = [37; 80; 68; 70] ++ rest.
Proof.
  split.
  - intros H. cbn in H.
    destruct bytes as [| b0 [| b1 [| b2 [| b3 rest]]]]; cbn in H; try discriminate;
      rewrite ?andb_false_r in H; try discriminate.
    rewrite !andb_true_iff in H. destruct H as (H0 & H1 & H2 & H3 & _).
    apply Z.eqb_eq in H0, H1, H2, H3. subst. exists rest. reflexivity.
  - intros [rest ->]. reflexivity.
Qed.

(** X16: [isValidPDF] accepts a buffer exactly when it is attached and its
    first four bytes are 0x25 0x50 0x44 0x46 ("%PDF"); nothing after
    the fourth byte is looked at.  The adapter's [validatePDFBuffer], which
    the worker applies to every chunk, accepts exactly the same buffers. *)
Theorem magic_byte_checks_agree :
  forall buffer,
    (isValidPDF buffer = true <-> exists rest, buffer = Buf ([37; 80; 68; 70] ++ rest)) /\
    validatePDFBuffer buffer = isValidPDF buffer.
Proof.
  intros buffer. split.
  - unfold isValidPDF. destruct buffer as [bytes |].
    + destruct (byteLength (Buf bytes) <? 4) eqn:Hshort.
      * split; [discriminate |]. intros [rest Heq]. inversion Heq; subst.
        cbn in Hshort. apply Z.ltb_lt in Hshort. lia.
      * rewrite magic_check. split; intros [rest H]; exists rest; congruence.
    + destruct (byteLength Detached <? 4); split; try discriminate;
        intros [rest Habs]; discriminate.
  - unfold validatePDFBuffer, isValidPDF, headerOf.
    destruct (byteLength buffer <? 4); [reflexivity |].
    destruct buffer as [bytes |]; [| reflexivity].
    destruct bytes as [| b0 [| b1 [| b2 [| b3 rest]]]]; reflexivity.
Qed.

(* ===================================================================== *)
(** * The estimate of the time that remains *)
(* ===================================================================== *)

Lemma sum_between (times : list Z) (lo hi : Z) :
  Forall (fun time => lo <= time <= hi) times ->
  forall start,
    start + lo * Z.of_nat (List.length times) <= fold_left Z.add times start
    <= start + hi * Z.of_nat (List.length times).
Proof.
  induction 1 as [| time times Htime _ IH]; intros start.
  - cbn. lia.
  - cbn [fold_left List.length]. specialize (IH (start + time)). lia.
Qed.

(** X17: whenever the tracker reports an estimate of the remaining time, it
    lies between the smallest and the largest recorded chunk time, each
    multiplied by the number of chunks still to do.  In particular the
    estimate is never negative when no recorded time is, and it is exactly
    [d * remaining] when every chunk took [d]. *)
Theorem estimate_between_fastest_and_slowest :
  forall t lo hi eta,
    Forall (fun time => lo <= time <= hi) (pt_chunkTimes t) ->
    Tracker.estimateTimeRemaining t = Some eta ->
    lo * (pt_totalChunks t - pt_completedChunks t) <= eta
    <= hi * (pt_totalChunks t - pt_completedChunks t).
Proof.
  intros t lo hi eta Htimes Heta.
  rewrite estimateTimeRemaining_formula in Heta.
  destruct (Nat.eqb (List.length (pt_chunkTimes t)) 0) eqn:Hsome; [discriminate |].
  destruct (pt_totalChunks t <=? pt_completedChunks t) eqn:Hleft; [discriminate |].
  cbn [orb] in Heta. inversion Heta as [Hvalue]. clear Heta.
  apply Nat.eqb_neq in Hsome. apply Z.leb_gt in Hleft.
  pose proof (sum_between _ _ _ Htimes 0) as Hsum.
  set (total := fold_left Z.add (pt_chunkTimes t) 0) in *.
  set (count := Z.of_nat (List.length (pt_chunkTimes t))) in *.
  set (remaining := pt_totalChunks t - pt_completedChunks t) in *.
  assert (Hcount : 0 < count) by (subst count; lia).
  assert (Hcount' : (inject_Z 0 < inject_Z count)%Q) by (rewrite <- Zlt_Qlt; exact Hcount).
  assert (Hremaining : (inject_Z 0 <= inject_Z remaining)%Q) by (rewrite <- Zle_Qle; lia).
  assert (Hlow : (inject_Z lo <= inject_Z total / inject_Z count)%Q).
  { apply Qle_shift_div_l; [exact Hcount' |].
    rewrite <- inject_Z_mult, <- Zle_Qle. lia. }
  assert (Hhigh : (inject_Z total / inject_Z count <= inject_Z hi)%Q).
  { apply Qle_shift_div_r; [exact Hcount' |].
    rewrite <- inject_Z_mult, <- Zle_Qle. lia. }
  split.
  - rewrite Zle_Qle. rewrite inject_Z_mult.
    eapply Qle_trans; [| apply Qle_ceiling].
    apply Qmult_le_compat_r; assumption.
  - rewrite <- (Qceiling_Z (hi * remaining)). apply Qceiling_resp_le.
    rewrite inject_Z_mult. apply Qmult_le_compat_r; assumption.
Qed.

(* ===================================================================== *)
(** * The chunk size and the pages asked of pdf-lib *)
(* ===================================================================== *)

(** The comparison [fileSizeBytes / totalPages > limit] on integers. *)
Lemma average_above (fileSizeBytes totalPages limit : Z) :
  0 < totalPages ->
  js_gt (js_div fileSizeBytes totalPages) limit = (limit * totalPages <? fileSizeBytes).
Proof.
  intros Hpages. unfold js_div.
  destruct (totalPages =? 0) eqn:Hzero; [apply Z.eqb_eq in Hzero; lia |].
  cbn [js_gt].
  assert (Hpos : (inject_Z 0 < inject_Z totalPages)%Q) by (rewrite <- Zlt_Qlt; exact Hpages).
  destruct (limit * totalPages <? fileSizeBytes) eqn:Habove.
  - apply Z.ltb_lt in Habove. apply negb_true_iff.
    destruct (Qle_bool _ _) eqn:Hle; [| reflexivity]. exfalso.
    apply Qle_bool_iff in Hle.
    assert (Hmul : (inject_Z fileSizeBytes <= inject_Z limit * inject_Z totalPages)%Q).
    { setoid_replace (inject_Z fileSizeBytes)
        with (inject_Z fileSizeBytes / inject_Z totalPages * inject_Z totalPages)%Q.
      - apply Qmult_le_compat_r; [exact Hle | apply Qlt_le_weak; exact Hpos].
      - field. intros Habs. rewrite Habs in Hpos. exact (Qlt_irrefl _ Hpos). }
    rewrite <- inject_Z_mult, <- Zle_Qle in Hmul. lia.
  - apply Z.ltb_ge in Habove. apply negb_false_iff. apply Qle_bool_iff.
    apply Qle_shift_div_r; [exact Hpos |].
    rewrite <- inject_Z_mult, <- Zle_Qle. exact Habove.
Qed.

(** X18: the chunk size of a pass over a document with at least one page.
    When the caller gives none (or 0, which [||] treats as none) it is 5 or
    10: 5 exactly when the device is mobile, or the file is larger than
    5 MiB a page on average, or the document has more than 500 pages.  The
    number of chunks is then at least 1, at most the number of pages, and
    no chunk holds more than 10 pages. *)
Theorem automatic_chunk_size :
  forall env options totalPages fileSizeBytes,
    0 < totalPages ->
    opt_chunkSize options = None \/ opt_chunkSize options = Some 0 ->
    resolveChunkSize env options totalPages fileSizeBytes
    = (if (env_isMobile env || (5 * 1024 * 1024 * totalPages <? fileSizeBytes)
           || (500 <? totalPages))%bool
       then 5 else 10) /\
    0 < ceilDiv totalPages (resolveChunkSize env options totalPages fileSizeBytes)
    <= totalPages /\
    Forall (fun r => 0 < rangeSize r <= 10)
           (chunkPlan totalPages (resolveChunkSize env options totalPages fileSizeBytes)).
Proof.
  intros env options totalPages fileSizeBytes Hpages Hauto.
  assert (Hsize : resolveChunkSize env options totalPages fileSizeBytes
                  = if (env_isMobile env || (5 * 1024 * 1024 * totalPages <? fileSizeBytes)
                        || (500 <? totalPages))%bool
                    then 5 else 10).
  { unfold resolveChunkSize.
    assert (Hcalc : calculateChunkSize env totalPages fileSizeBytes 10
                    = if (env_isMobile env || (5 * 1024 * 1024 * totalPages <? fileSizeBytes)
                          || (500 <? totalPages))%bool
                      then 5 else 10).
    { unfold calculateChunkSize. cbv zeta.
      rewrite (average_above _ _ _ Hpages).
      destruct (5 * 1024 * 1024 * totalPages <? fileSizeBytes), (env_isMobile env),
               (500 <? totalPages); reflexivity. }
    destruct Hauto as [-> | ->]; exact Hcalc. }
  split; [exact Hsize |].
  set (chunkSize := resolveChunkSize env options totalPages fileSizeBytes) in *.
  assert (Hchunk : chunkSize = 5 \/ chunkSize = 10)
    by (rewrite Hsize; destruct (_ || _ || _)%bool; [left | right]; reflexivity).
  assert (Hpos : 0 < chunkSize) by lia.
  pose proof (ceilDiv_bounds totalPages chunkSize Hpos) as Hbounds.
  split; [nia |].
  unfold chunkPlan, chunkRangesFrom. apply Forall_forall. intros r Hr.
  apply in_map_iff in Hr. destruct Hr as (i & <- & Hi). apply in_seq in Hi.
  unfold rangeSize, chunkStart, chunkEnd. cbn [fst snd].
  assert (Hi' : Z.of_nat i < ceilDiv totalPages chunkSize) by lia.
  nia.
Qed.




(* ===================================================================== *)
(** * Preset names *)
(* ===================================================================== *)

(** X20: the three ways the code recognises a preset name agree.  The list
    [compress] checks against accepts a string exactly when it is the run
    time value of one of the three presets, which is exactly when
    [isValidPreset] of the preset catalogue accepts it; an omitted or empty
    name stands for 'balanced'. *)
Theorem preset_names_round_trip :
  forall s : string,
    (forall p, parsePreset s = Some p <-> s = preset_name p) /\
    isValidPreset s = match parsePreset s with Some _ => true | None => false end /\
    parsePreset (presetOrDefault None) = Some Balanced /\
    parsePreset (presetOrDefault (Some EmptyString)) = Some Balanced.
Proof.
  intros s. conjs; try reflexivity.
  - intros p. unfold parsePreset. split.
    + destruct (String.eqb s "lossless") eqn:H1;
        [apply String.eqb_eq in H1; intros H; inversion H; subst; reflexivity |].
      destruct (String.eqb s "balanced") eqn:H2;
        [apply String.eqb_eq in H2; intros H; inversion H; subst; reflexivity |].
      destruct (String.eqb s "max") eqn:H3;
        [apply String.eqb_eq in H3; intros H; inversion H; subst; reflexivity |].
      discriminate.
    + intros ->. destruct p; reflexivity.
  - unfold isValidPreset, parsePreset.
    destruct (String.eqb s "lossless"), (String.eqb s "balanced"), (String.eqb s "max");
      reflexivity.
Qed.

(* ===================================================================== *)
(** * The events of a pass *)
(* ===================================================================== *)

Lemma actionEvents_app (l1 l2 : list Action) :
  actionEvents (l1 ++ l2) = actionEvents l1 ++ actionEvents l2.
Proof. unfold actionEvents. apply flat_map_app. Qed.

Lemma actionEvents_events (evs : list ProgressEvent) :
  actionEvents (map OnProgress evs) = evs.
Proof.
  unfold actionEvents. induction evs as [| ev evs IH]; [reflexivity |].
  cbn [map flat_map app]. f_equal. exact IH.
Qed.

(** What a call of the tracker emits: nothing without a callback, and
    otherwise events under the phase of the call, whose value, under the
    merging phase, reaches 100 only for [reportComplete]. *)
Lemma callMethod_events (c : TrackerCall) (t : ProgressTracker) (ev : ProgressEvent) :
  In ev (snd (callMethod c t)) ->
  pt_onProgress t = true /\
  phase ev = callPhase c /\
  (isCompletion ev -> c = ReportComplete).
Proof.
  assert (Hemit : forall t' e, pt_onProgress t' = pt_onProgress t ->
                               In ev (Tracker.emit t' e) ->
                               pt_onProgress t = true /\ ev = e).
  { intros t' e Hsame Hin. unfold Tracker.emit in Hin. rewrite Hsame in Hin.
    destruct (pt_onProgress t); [| destruct Hin].
    destruct Hin as [<- | []]. split; reflexivity. }
  destruct c; cbn [callMethod snd callPhase];
    unfold Tracker.setTotalChunks, Tracker.setPhase, Tracker.emitProgress,
           Tracker.reportChunkingProgress, Tracker.startChunk, Tracker.completeChunk,
           Tracker.reportMergingProgress, Tracker.reportComplete,
           Tracker.reportErrorRecovery;
    cbv zeta; cbn [snd]; intros Hin;
    try (destruct Hin; fail);
    (apply Hemit in Hin; [| reflexivity]); destruct Hin as [Hcb ->];
    (split; [exact Hcb |]); (split; [reflexivity |]);
    unfold isCompletion; cbn [phase progress]; intros [Hphase Hvalue];
    try discriminate; try reflexivity.
  - exfalso. cbn [pt_currentPhase Tracker.withPhase] in Hphase. subst p.
    unfold Tracker.calculateProgress in Hvalue.
    cbn [pt_currentPhase pt_totalChunks Tracker.withPhase] in Hvalue.
    destruct (pt_totalChunks t =? 0); vm_compute in Hvalue; discriminate.
  - exfalso. destruct (Qle_bool 95 (90 + value * (1 # 10))) eqn:Hcap;
      [vm_compute in Hvalue; discriminate |].
    assert (Hle : (95 <= 90 + value * (1 # 10))%Q)
      by (rewrite Hvalue; unfold Qle; cbn; lia).
    apply Qle_bool_iff in Hle. congruence.
Qed.

Lemma callMethod_callback (c : TrackerCall) (t : ProgressTracker) :
  pt_onProgress (fst (callMethod c t)) = pt_onProgress t.
Proof. exact (proj1 (callMethod_state c t)). Qed.

Lemma callMethod_quiet (c : TrackerCall) (t : ProgressTracker) :
  pt_onProgress t = false -> snd (callMethod c t) = [].
Proof.
  intros Hoff. destruct (snd (callMethod c t)) as [| ev evs] eqn:Hevs; [reflexivity |].
  destruct (callMethod_events c t ev) as (Hon & _); [rewrite Hevs; left; reflexivity |].
  congruence.
Qed.

(* ----- without a callback ----- *)

Lemma quiet_track (c : TrackerCall) : preserves quiet (track (callMethod c)).
Proof.
  apply triple_track. intros s [Hoff Hnone]. split; cbn [st_progress st_log].
  - rewrite callMethod_callback. exact Hoff.
  - rewrite actionEvents_app, Hnone, (callMethod_quiet c _ Hoff). reflexivity.
Qed.

Lemma quiet_perform (a : Action) : actionEvents [a] = [] -> preserves quiet (perform a).
Proof.
  intros Ha. apply triple_perform. intros s [Hoff Hnone]. split; cbn [st_progress st_log].
  - exact Hoff.
  - rewrite actionEvents_app, Hnone, Ha. reflexivity.
Qed.

Lemma quiet_ret {A : Type} (a : A) : preserves quiet (ret a).
Proof. apply triple_ret. auto. Qed.

Lemma quiet_throw {A : Type} (e : JsError) : preserves quiet (@throw _ A e).
Proof. apply triple_throw. auto. Qed.

Lemma quiet_compressChunk env chunkPdf options chunkIndex :
  preserves quiet (compressChunk env chunkPdf options chunkIndex).
Proof.
  unfold compressChunk. cbv zeta.
  apply preserves_bind; [apply quiet_perform; reflexivity | intros _].
  destruct (env_compressWorker env _);
    [apply quiet_ret | apply quiet_throw | apply quiet_throw | apply quiet_throw].
Qed.

Lemma quiet_chunkLoop env pdfBuffer options totalPages chunkSize :
  forall (remaining : nat) i compressedChunks chunkStats,
    preserves quiet (chunkLoop env pdfBuffer options totalPages chunkSize remaining i
                               compressedChunks chunkStats).
Proof.
  induction remaining as [| remaining IH]; intros i cc cs.
  - apply quiet_ret.
  - cbn [chunkLoop]. cbv zeta.
    apply preserves_bind; [apply quiet_perform; reflexivity | intros _].
    apply preserves_bind; [apply preserves_pure | intros chunkPdf].
    apply preserves_bind; [apply (quiet_track (StartChunk i)) | intros _].
    apply preserves_bind; [apply quiet_compressChunk | intros [compressed after]].
    apply preserves_bind;
      [apply (quiet_track (CompleteChunk i (byteLength compressed))) | intros _].
    apply IH.
Qed.

Lemma quiet_reportAll (ps : list Q) : preserves quiet (reportAll ps).
Proof.
  induction ps as [| p ps IH].
  - apply quiet_ret.
  - cbn [reportAll].
    apply preserves_bind; [apply (quiet_track (ReportMergingProgress p)) | intros _; exact IH].
Qed.

Lemma quiet_mergeChunks env chunks metadata options :
  preserves quiet (mergeChunks env chunks metadata options).
Proof.
  unfold mergeChunks. cbv zeta.
  assert (Hmain : forall cs,
             preserves quiet (bind (perform (CallMergePDFs cs))
                                   (fun _ => await (mergePDFs env cs metadata)))).
  { intros cs. apply preserves_bind; [apply quiet_perform; reflexivity |].
    intros _. apply preserves_pure. }
  destruct (isMainStrategy (opt_mergeStrategy options) || Nat.eqb (List.length chunks) 1)%bool.
  - destruct chunks as [| c [| c' rest]]; [apply Hmain | apply quiet_ret | apply Hmain].
  - apply preserves_bind; [apply quiet_perform; reflexivity | intros _].
    apply preserves_bind; [apply quiet_reportAll | intros _].
    destruct (mw_terminal _);
      [apply quiet_ret | apply quiet_throw | apply quiet_throw | apply preserves_pure].
Qed.

(** A pass without a callback delivers nothing. *)
Lemma pass_quiet env pdfBuffer options acts o :
  opt_onProgress options = false ->
  compressWithPreset env pdfBuffer options = (acts, o) ->
  actionEvents acts = [].
Proof.
  intros Hoff. unfold compressWithPreset.
  destruct (compressWithPreset_body _ _ _ _) as [s' out] eqn:H.
  intros Hres. inversion Hres; subst. clear Hres.
  assert (Hbody : preserves quiet (compressWithPreset_body env pdfBuffer options)).
  { unfold compressWithPreset_body.
    apply preserves_bind; [apply (quiet_track (SetPhase Chunking)) | intros _].
    apply preserves_bind; [apply quiet_perform; reflexivity | intros _].
    apply preserves_bind; [apply preserves_pure | intros totalPages].
    cbv zeta.
    apply preserves_bind; [apply (quiet_track (SetTotalChunks _)) | intros _].
    apply preserves_bind; [apply (quiet_track (ReportChunkingProgress 50)) | intros _].
    apply preserves_bind.
    { unfold metadataIfPreserved. cbv zeta. destruct (truthy _).
      - apply preserves_bind; [apply quiet_perform; reflexivity | intros _; apply quiet_ret].
      - apply quiet_ret. }
    intros metadata.
    apply preserves_bind; [apply (quiet_track (ReportChunkingProgress 100)) | intros _].
    apply preserves_bind; [apply quiet_chunkLoop | intros [compressedChunks chunkStats]].
    apply preserves_bind; [apply (quiet_track (SetPhase Merging)) | intros _].
    apply preserves_bind; [apply quiet_mergeChunks | intros mergedPdf].
    apply preserves_bind; [apply (quiet_track ReportComplete) | intros _].
    apply quiet_ret. }
  refine (proj2 (Hbody _ _ _ _ H)). split; [exact Hoff | reflexivity].
Qed.

Lemma emittedEvents_app (l1 l2 : list Step) :
  emittedEvents (l1 ++ l2) = emittedEvents l1 ++ emittedEvents l2.
Proof. unfold emittedEvents. apply flat_map_app. Qed.

Lemma presetLoop_quiet env pdfBuffer options chain :
  opt_onProgress options = false ->
  forall rest lastError (s s' : list Step) o,
    presetLoop env pdfBuffer options chain rest lastError s = (s', o) ->
    emittedEvents s' = emittedEvents s.
Proof.
  intros Hoff. induction rest as [| p rest IH]; intros lastError s s' o Hrun.
  - inversion Hrun; subst. reflexivity.
  - cbn [presetLoop] in Hrun.
    destruct (compressWithPreset env pdfBuffer (withPreset options p)) as [acts attempt]
      eqn:Hpass.
    assert (Hacts : actionEvents acts = [])
      by (apply (pass_quiet env pdfBuffer (withPreset options p) acts attempt Hoff Hpass)).
    assert (Hstep : emittedEvents (s ++ [Attempt p acts]) = emittedEvents s).
    { rewrite emittedEvents_app. cbn. rewrite Hacts, !app_nil_r. reflexivity. }
    unfold bind at 1 in Hrun. unfold record at 1 in Hrun.
    destruct attempt as [result | error |].
    + inversion Hrun; subst. exact Hstep.
    + destruct (isLastOf chain p); [inversion Hrun; subst; exact Hstep |].
      rewrite Hoff in Hrun. apply IH in Hrun. rewrite Hrun. exact Hstep.
    + inversion Hrun; subst. exact Hstep.
Qed.

(** X21: without an [onProgress] callback nothing is ever delivered: in the
    whole log of [compress], with all its attempts and whatever their
    outcome, there is no progress event. *)
Theorem no_callback_no_events :
  forall env input options,
    in_onProgress options = false ->
    emittedEvents (fst (compress env input options)) = [].
Proof.
  intros env input options Hoff.
  unfold compress, compress_body.
  destruct input as [pdfBuffer |]; [| reflexivity].
  destruct (byteLength pdfBuffer =? 0); [reflexivity |].
  destruct (parsePreset _) as [preset |]; [| reflexivity].
  unfold bind at 1. unfold notify at 1. cbn [opt_onProgress fullOptions]. rewrite Hoff.
  unfold ret at 1. unfold bind at 1. unfold record at 1. cbn [app].
  destruct (env_loadWASM env _); [| reflexivity | reflexivity].
  unfold orchestrateCompression_body. cbv zeta.
  destruct (isValidPDF pdfBuffer); cbn [negb]; [| reflexivity].
  unfold bind.
  destruct (presetLoop _ _ _ _ _ _ _) as [s1 exit] eqn:Hloop.
  apply presetLoop_quiet in Hloop; [| exact Hoff].
  destruct exit as [[result | lastError] | e |]; cbn [fst]; try exact Hloop.
  destruct (not_false _).
  - unfold notify. cbn [opt_onProgress fullOptions]. rewrite Hoff. exact Hloop.
  - destruct lastError; exact Hloop.
Qed.

(* ----- the order of the phases ----- *)

Lemma nondecreasing_app (l1 l2 : list nat) :
  nondecreasing l1 -> nondecreasing l2 ->
  (forall x y, In x l1 -> In y l2 -> (x <= y)%nat) ->
  nondecreasing (l1 ++ l2).
Proof.
  induction l1 as [| x l1 IH]; cbn [app nondecreasing]; intros H1 H2 Hcross; [exact H2 |].
  destruct H1 as [Hx H1]. split.
  - apply Forall_app. split; [exact Hx |].
    apply Forall_forall. intros y Hy. apply Hcross; [left; reflexivity | exact Hy].
  - apply IH; [exact H1 | exact H2 |]. intros a b Ha Hb. apply Hcross; [right; exact Ha | exact Hb].
Qed.

Lemma nondecreasing_constant (n : nat) (l : list nat) :
  Forall (fun r => r = n) l -> nondecreasing l.
Proof.
  induction 1 as [| x l Hx Hl IH]; cbn; [exact I |]. split; [| exact IH].
  subst x. eapply Forall_impl; [| exact Hl]. intros y ->. apply Nat.le_refl.
Qed.

Lemma phaseRanks_app (l1 l2 : list Action) :
  phaseRanks (l1 ++ l2) = phaseRanks l1 ++ phaseRanks l2.
Proof. unfold phaseRanks. now rewrite actionEvents_app, map_app. Qed.

Lemma staged_mono (n m : nat) (s : PassState) : (n <= m)%nat -> staged n s -> staged m s.
Proof.
  intros Hnm [Hsorted Hbound]. split; [exact Hsorted |].
  eapply Forall_impl; [| exact Hbound]. intros r Hr. cbn in Hr. lia.
Qed.

Lemma staged_track (c : TrackerCall) (n : nat) :
  (n <= phaseRank (callPhase c))%nat ->
  triple (staged n) (track (callMethod c)) (fun s _ => staged (phaseRank (callPhase c)) s).
Proof.
  intros Hn. apply triple_track. intros s [Hsorted Hbound].
  assert (Hnew : Forall (fun r => r = phaseRank (callPhase c))
                        (phaseRanks (map OnProgress (snd (callMethod c (st_progress s)))))).
  { unfold phaseRanks. rewrite actionEvents_events. apply Forall_forall.
    intros r Hr. apply in_map_iff in Hr. destruct Hr as (ev & <- & Hev).
    destruct (callMethod_events _ _ _ Hev) as (_ & -> & _). reflexivity. }
  split; cbn [st_log]; rewrite phaseRanks_app.
  - apply nondecreasing_app; [exact Hsorted | exact (nondecreasing_constant _ _ Hnew) |].
    intros x y Hx Hy. rewrite Forall_forall in Hbound, Hnew.
    specialize (Hbound _ Hx). specialize (Hnew _ Hy). cbn in Hbound. lia.
  - apply Forall_app. split.
    + eapply Forall_impl; [| exact Hbound]. intros r Hr. cbn in Hr. lia.
    + eapply Forall_impl; [| exact Hnew]. intros r ->. apply Nat.le_refl.
Qed.

Lemma staged_perform (n : nat) (a : Action) :
  actionEvents [a] = [] -> preserves (staged n) (perform a).
Proof.
  intros Ha. apply triple_perform. intros s Hs. unfold staged in *. cbn [st_log].
  rewrite phaseRanks_app. unfold phaseRanks at 2 4. rewrite Ha. cbn [map].
  rewrite app_nil_r. exact Hs.
Qed.

Lemma staged_ret (n : nat) {A : Type} (a : A) : preserves (staged n) (ret a).
Proof. apply triple_ret. auto. Qed.

Lemma staged_throw (n : nat) {A : Type} (e : JsError) : preserves (staged n) (@throw _ A e).
Proof. apply triple_throw. auto. Qed.

Lemma staged_compressChunk (n : nat) env chunkPdf options chunkIndex :
  preserves (staged n) (compressChunk env chunkPdf options chunkIndex).
Proof.
  unfold compressChunk. cbv zeta.
  apply preserves_bind; [apply staged_perform; reflexivity | intros _].
  destruct (env_compressWorker env _);
    [apply staged_ret | apply staged_throw | apply staged_throw | apply staged_throw].
Qed.

Lemma staged_chunkLoop env pdfBuffer options totalPages chunkSize :
  forall (remaining : nat) i compressedChunks chunkStats,
    preserves (staged 1)
              (chunkLoop env pdfBuffer options totalPages chunkSize remaining i
                         compressedChunks chunkStats).
Proof.
  induction remaining as [| remaining IH]; intros i cc cs.
  - apply staged_ret.
  - cbn [chunkLoop]. cbv zeta.
    apply preserves_bind; [apply staged_perform; reflexivity | intros _].
    apply preserves_bind; [apply preserves_pure | intros chunkPdf].
    apply preserves_bind; [apply (staged_track (StartChunk i) 1); apply Nat.le_refl | intros _].
    apply preserves_bind; [apply staged_compressChunk | intros [compressed after]].
    apply preserves_bind;
      [apply (staged_track (CompleteChunk i (byteLength compressed)) 1); apply Nat.le_refl
      | intros _].
    apply IH.
Qed.

Lemma staged_reportAll (ps : list Q) : preserves (staged 2) (reportAll ps).
Proof.
  induction ps as [| p ps IH].
  - apply staged_ret.
  - cbn [reportAll].
    apply preserves_bind;
      [apply (staged_track (ReportMergingProgress p) 2); apply Nat.le_refl | intros _; exact IH].
Qed.

Lemma staged_mergeChunks env chunks metadata options :
  preserves (staged 2) (mergeChunks env chunks metadata options).
Proof.
  unfold mergeChunks. cbv zeta.
  assert (Hmain : forall cs,
             preserves (staged 2) (bind (perform (CallMergePDFs cs))
                                        (fun _ => await (mergePDFs env cs metadata)))).
  { intros cs. apply preserves_bind; [apply staged_perform; reflexivity |].
    intros _. apply preserves_pure. }
  destruct (isMainStrategy (opt_mergeStrategy options) || Nat.eqb (List.length chunks) 1)%bool.
  - destruct chunks as [| c [| c' rest]]; [apply Hmain | apply staged_ret | apply Hmain].
  - apply preserves_bind; [apply staged_perform; reflexivity | intros _].
    apply preserves_bind; [apply staged_reportAll | intros _].
    destruct (mw_terminal _);
      [apply staged_ret | apply staged_throw | apply staged_throw | apply preserves_pure].
Qed.

(** The events of a pass go through chunking, compressing, merging, in
    this order, whatever its outcome. *)
Lemma pass_staged env pdfBuffer options acts o :
  compressWithPreset env pdfBuffer options = (acts, o) ->
  nondecreasing (phaseRanks acts) /\ Forall (fun r => (r <= 2)%nat) (phaseRanks acts).
Proof.
  unfold compressWithPreset.
  destruct (compressWithPreset_body _ _ _ _) as [s' out] eqn:H.
  intros Hres. inversion Hres; subst. clear Hres.
  assert (Hbody : triple (staged 0) (compressWithPreset_body env pdfBuffer options)
                         (fun s _ => staged 2 s)).
  { assert (H02 : forall s, staged 0 s -> staged 2 s)
      by (intros s; apply staged_mono; lia).
    assert (H12 : forall s, staged 1 s -> staged 2 s)
      by (intros s; apply staged_mono; lia).
    unfold compressWithPreset_body.
    apply (triple_seq _ (staged 0));
      [apply (staged_track (SetPhase Chunking) 0); apply Nat.le_refl | | exact H02].
    intros _.
    apply (triple_seq _ (staged 0)); [apply staged_perform; reflexivity | | exact H02].
    intros _.
    apply (triple_seq _ (staged 0)); [apply preserves_pure | | exact H02].
    intros totalPages. cbv zeta.
    apply (triple_seq _ (staged 0));
      [apply (staged_track (SetTotalChunks _) 0); apply Nat.le_refl | | exact H02].
    intros _.
    apply (triple_seq _ (staged 0));
      [apply (staged_track (ReportChunkingProgress 50) 0); apply Nat.le_refl | | exact H02].
    intros _.
    apply (triple_seq _ (staged 0)); [| | exact H02].
    { unfold metadataIfPreserved. cbv zeta. destruct (truthy _).
      - apply preserves_bind; [apply staged_perform; reflexivity |].
        intros _. apply staged_ret.
      - apply staged_ret. }
    intros metadata.
    apply (triple_seq _ (staged 0));
      [apply (staged_track (ReportChunkingProgress 100) 0); apply Nat.le_refl | | exact H02].
    intros _.
    apply (triple_seq _ (staged 1)); [| | exact H12].
    { eapply triple_weaken; [| | apply staged_chunkLoop].
      - intros s. apply staged_mono. lia.
      - auto. }
    intros [compressedChunks chunkStats].
    apply (triple_seq _ (staged 2));
      [apply (staged_track (SetPhase Merging) 1); cbn; lia | | auto].
    intros _.
    apply preserves_bind; [apply staged_mergeChunks | intros mergedPdf]. cbv zeta.
    apply preserves_bind;
      [apply (staged_track ReportComplete 2); apply Nat.le_refl | intros _].
    apply staged_ret. }
  refine (Hbody _ _ _ _ H). split; [exact I | constructor].
Qed.

Lemma ranks_in_stages (phases : list ProgressPhase) :
  nondecreasing (map phaseRank phases) ->
  Forall (fun r => (r <= 2)%nat) (map phaseRank phases) ->
  exists a b c,
    phases = repeat Chunking a ++ repeat Compressing b ++ repeat Merging c.
Proof.
  induction phases as [| p rest IH]; cbn [map nondecreasing]; intros Hsorted Hbound.
  - exists 0%nat, 0%nat, 0%nat. reflexivity.
  - destruct Hsorted as [Hfirst Hsorted]. inversion Hbound as [| ? ? Hp Hrest]; subst.
    destruct (IH Hsorted Hrest) as (a & b & c & ->).
    rewrite !map_app, !Forall_app in Hfirst. destruct Hfirst as (Ha & Hb & Hc).
    destruct p; cbn in Hp; try lia.
    + exists (S a), b, c. reflexivity.
    + destruct a as [| a]; [exists 0%nat, (S b), c; reflexivity |].
      cbn in Ha. inversion Ha; subst. cbn in *. lia.
    + destruct a as [| a]; [| cbn in Ha; inversion Ha; subst; cbn in *; lia].
      destruct b as [| b]; [exists 0%nat, 0%nat, (S c); reflexivity |].
      cbn in Hb. inversion Hb; subst. cbn in *. lia.
Qed.

(** X22: within one attempt the phases never go backwards: the events it
    delivers are some chunking events, then some compressing events, then
    some merging events, however the attempt ends; an attempt delivers no
    error-recovery event. *)
Theorem phases_of_an_attempt_are_in_order :
  forall env pdfBuffer options preset log out p acts,
    parsePreset (presetOrDefault (in_preset options)) = Some preset ->
    compress env (AnArrayBuffer pdfBuffer) options = (log, out) ->
    In (Attempt p acts) log ->
    exists a b c,
      map phase (actionEvents acts)
      = repeat Chunking a ++ repeat Compressing b ++ repeat Merging c.
Proof.
  intros env pdfBuffer options preset log out p acts Hpreset Hrun Hin.
  pose proof (compress_attempts _ _ _ _ _ _ _ _ Hpreset Hrun Hin) as Hacts.
  destruct (compressWithPreset env pdfBuffer (withPreset (fullOptions options preset) p))
    as [acts' o] eqn:Hpass.
  cbn [fst] in Hacts. subst acts'.
  destruct (pass_staged _ _ _ _ _ Hpass) as [Hsorted Hbound].
  unfold phaseRanks in *. rewrite <- map_map in Hsorted, Hbound.
  exact (ranks_in_stages _ Hsorted Hbound).
Qed.

(* ----- the completion event ----- *)

Lemma unfinished_track (c : TrackerCall) :
  c <> ReportComplete -> preserves unfinished (track (callMethod c)).
Proof.
  intros Hc. apply triple_track. intros s [Hon Hnone]. split; cbn [st_progress st_log].
  - rewrite callMethod_callback. exact Hon.
  - rewrite actionEvents_app, actionEvents_events. apply Forall_app. split; [exact Hnone |].
    apply Forall_forall. intros ev Hev Hdone.
    destruct (callMethod_events _ _ _ Hev) as (_ & _ & Honly). exact (Hc (Honly Hdone)).
Qed.

Lemma unfinished_perform (a : Action) :
  actionEvents [a] = [] -> preserves unfinished (perform a).
Proof.
  intros Ha. apply triple_perform. intros s [Hon Hnone]. split; cbn [st_progress st_log].
  - exact Hon.
  - rewrite actionEvents_app, Ha, app_nil_r. exact Hnone.
Qed.

Lemma unfinished_ret {A : Type} (a : A) : preserves unfinished (ret a).
Proof. apply triple_ret. auto. Qed.

Lemma unfinished_throw {A : Type} (e : JsError) : preserves unfinished (@throw _ A e).
Proof. apply triple_throw. auto. Qed.

Lemma unfinished_compressChunk env chunkPdf options chunkIndex :
  preserves unfinished (compressChunk env chunkPdf options chunkIndex).
Proof.
  unfold compressChunk. cbv zeta.
  apply preserves_bind; [apply unfinished_perform; reflexivity | intros _].
  destruct (env_compressWorker env _);
    [apply unfinished_ret | apply unfinished_throw | apply unfinished_throw
     | apply unfinished_throw].
Qed.

Lemma unfinished_chunkLoop env pdfBuffer options totalPages chunkSize :
  forall (remaining : nat) i compressedChunks chunkStats,
    preserves unfinished
              (chunkLoop env pdfBuffer options totalPages chunkSize remaining i
                         compressedChunks chunkStats).
Proof.
  induction remaining as [| remaining IH]; intros i cc cs.
  - apply unfinished_ret.
  - cbn [chunkLoop]. cbv zeta.
    apply preserves_bind; [apply unfinished_perform; reflexivity | intros _].
    apply preserves_bind; [apply preserves_pure | intros chunkPdf].
    apply preserves_bind; [apply (unfinished_track (StartChunk i)); discriminate | intros _].
    apply preserves_bind; [apply unfinished_compressChunk | intros [compressed after]].
    apply preserves_bind;
      [apply (unfinished_track (CompleteChunk i (byteLength compressed))); discriminate
      | intros _].
    apply IH.
Qed.

Lemma unfinished_reportAll (ps : list Q) : preserves unfinished (reportAll ps).
Proof.
  induction ps as [| p ps IH].
  - apply unfinished_ret.
  - cbn [reportAll].
    apply preserves_bind;
      [apply (unfinished_track (ReportMergingProgress p)); discriminate | intros _; exact IH].
Qed.

Lemma unfinished_mergeChunks env chunks metadata options :
  preserves unfinished (mergeChunks env chunks metadata options).
Proof.
  unfold mergeChunks. cbv zeta.
  assert (Hmain : forall cs,
             preserves unfinished (bind (perform (CallMergePDFs cs))
                                        (fun _ => await (mergePDFs env cs metadata)))).
  { intros cs. apply preserves_bind; [apply unfinished_perform; reflexivity |].
    intros _. apply preserves_pure. }
  destruct (isMainStrategy (opt_mergeStrategy options) || Nat.eqb (List.length chunks) 1)%bool.
  - destruct chunks as [| c [| c' rest]]; [apply Hmain | apply unfinished_ret | apply Hmain].
  - apply preserves_bind; [apply unfinished_perform; reflexivity | intros _].
    apply preserves_bind; [apply unfinished_reportAll | intros _].
    destruct (mw_terminal _);
      [apply unfinished_ret | apply unfinished_throw | apply unfinished_throw
       | apply preserves_pure].
Qed.

(** With a callback, a pass delivers a merging event of value 100 exactly
    when it resolves, and then as its last event. *)
Lemma pass_completion env pdfBuffer options acts o :
  opt_onProgress options = true ->
  compressWithPreset env pdfBuffer options = (acts, o) ->
  match o with
  | Resolved _ =>
      exists earlier ev,
        actionEvents acts = earlier ++ [ev] /\ isCompletion ev /\
        Forall (fun ev' => ~ isCompletion ev') earlier
  | _ => Forall (fun ev => ~ isCompletion ev) (actionEvents acts)
  end.
Proof.
  intros Hon. unfold compressWithPreset.
  destruct (compressWithPreset_body _ _ _ _) as [s' out] eqn:H.
  intros Hres. inversion Hres; subst. clear Hres.
  assert (Hbody :
            triple unfinished (compressWithPreset_body env pdfBuffer options)
                   (fun s o =>
                      match o with
                      | Resolved _ =>
                          exists earlier ev,
                            actionEvents (st_log s) = earlier ++ [ev] /\ isCompletion ev /\
                            Forall (fun ev' => ~ isCompletion ev') earlier
                      | _ => Forall (fun ev => ~ isCompletion ev) (actionEvents (st_log s))
                      end)).
  { assert (Hstop : forall (I : PassState -> Prop) {A B : Type} (m : Pass A) (k : A -> Pass B)
                           (Q : PassState -> Outcome B -> Prop),
               preserves unfinished m ->
               (forall a, triple unfinished (k a) Q) ->
               (forall s e, unfinished s -> Q s (Rejected e)) ->
               (forall s, unfinished s -> Q s Pending) ->
               triple unfinished (bind m k) Q).
    { intros _ A B m k Q Hm Hk Hrej Hpend.
      apply (triple_bind unfinished m k (fun s _ => unfinished s)); assumption. }
    unfold compressWithPreset_body.
    apply (Hstop unfinished);
      [apply (unfinished_track (SetPhase Chunking)); discriminate | intros _
      | intros s e Hs; exact (proj2 Hs) | intros s Hs; exact (proj2 Hs)].
    apply (Hstop unfinished);
      [apply unfinished_perform; reflexivity | intros _
      | intros s e Hs; exact (proj2 Hs) | intros s Hs; exact (proj2 Hs)].
    apply (Hstop unfinished);
      [apply preserves_pure | intros totalPages
      | intros s e Hs; exact (proj2 Hs) | intros s Hs; exact (proj2 Hs)].
    cbv zeta.
    apply (Hstop unfinished);
      [apply (unfinished_track (SetTotalChunks _)); discriminate | intros _
      | intros s e Hs; exact (proj2 Hs) | intros s Hs; exact (proj2 Hs)].
    apply (Hstop unfinished);
      [apply (unfinished_track (ReportChunkingProgress 50)); discriminate | intros _
      | intros s e Hs; exact (proj2 Hs) | intros s Hs; exact (proj2 Hs)].
    apply (Hstop unfinished);
      [ | intros metadata
      | intros s e Hs; exact (proj2 Hs) | intros s Hs; exact (proj2 Hs)].
    { unfold metadataIfPreserved. cbv zeta. destruct (truthy _).
      - apply preserves_bind; [apply unfinished_perform; reflexivity |].
        intros _. apply unfinished_ret.
      - apply unfinished_ret. }
    apply (Hstop unfinished);
      [apply (unfinished_track (ReportChunkingProgress 100)); discriminate | intros _
      | intros s e Hs; exact (proj2 Hs) | intros s Hs; exact (proj2 Hs)].
    apply (Hstop unfinished);
      [apply unfinished_chunkLoop | intros [compressedChunks chunkStats]
      | intros s e Hs; exact (proj2 Hs) | intros s Hs; exact (proj2 Hs)].
    apply (Hstop unfinished);
      [apply (unfinished_track (SetPhase Merging)); discriminate | intros _
      | intros s e Hs; exact (proj2 Hs) | intros s Hs; exact (proj2 Hs)].
    apply (Hstop unfinished);
      [apply unfinished_mergeChunks | intros mergedPdf
      | intros s e Hs; exact (proj2 Hs) | intros s Hs; exact (proj2 Hs)].
    cbv zeta.
    intros s s1 o1 [Hcb Hnone] Hrun.
    unfold bind, track, Tracker.reportComplete, Tracker.emit, ret in Hrun.
    rewrite Hcb in Hrun. inversion Hrun; subst. cbn [st_log].
    rewrite actionEvents_app.
    eexists _, _. split; [reflexivity |]. split; [| exact Hnone].
    split; [reflexivity | reflexivity]. }
  refine (Hbody _ _ _ _ H). split; [exact Hon | constructor].
Qed.

(** X23: with a callback, an attempt delivers a merging event of value 100
    exactly when its pass resolves, and then as the last event of the
    attempt: none of [setPhase('merging')] and [reportMergingProgress]
    reaches 100, and [reportComplete] is called only after the merge
    resolved. *)
Theorem completion_event_means_the_pass_resolved :
  forall env pdfBuffer options preset log out p acts,
    parsePreset (presetOrDefault (in_preset options)) = Some preset ->
    in_onProgress options = true ->
    compress env (AnArrayBuffer pdfBuffer) options = (log, out) ->
    In (Attempt p acts) log ->
    ((exists ev, In ev (actionEvents acts) /\ isCompletion ev) <->
     (exists result,
         compressWithPreset env pdfBuffer (withPreset (fullOptions options preset) p)
         = (acts, Resolved result))) /\
    (forall ev, In ev (actionEvents acts) -> isCompletion ev ->
                exists earlier, actionEvents acts = earlier ++ [ev]).
Proof.
  intros env pdfBuffer options preset log out p acts Hpreset Hon Hrun Hin.
  pose proof (compress_attempts _ _ _ _ _ _ _ _ Hpreset Hrun Hin) as Hacts.
  destruct (compressWithPreset env pdfBuffer (withPreset (fullOptions options preset) p))
    as [acts' o] eqn:Hpass.
  cbn [fst] in Hacts. subst acts'.
  pose proof (pass_completion env pdfBuffer (withPreset (fullOptions options preset) p)
                              acts o Hon Hpass) as Hdone.
  destruct o as [result | e |].
  - destruct Hdone as (earlier & ev & Hevents & Hev & Hearlier). split.
    + split; [intros _; exists result; reflexivity |].
      intros _. exists ev. split; [| exact Hev].
      rewrite Hevents. apply in_or_app. right. left. reflexivity.
    + intros ev' Hin' Hev'. rewrite Hevents in Hin'. apply in_app_or in Hin'.
      destruct Hin' as [Hin' | [<- | []]].
      * exfalso. rewrite Forall_forall in Hearlier. exact (Hearlier _ Hin' Hev').
      * exists earlier. exact Hevents.
  - split.
    + split; [| intros [result Habs]; discriminate].
      intros (ev & Hin' & Hev). exfalso. rewrite Forall_forall in Hdone.
      exact (Hdone _ Hin' Hev).
    + intros ev Hin' Hev. exfalso. rewrite Forall_forall in Hdone. exact (Hdone _ Hin' Hev).
  - split.
    + split; [| intros [result Habs]; discriminate].
      intros (ev & Hin' & Hev). exfalso. rewrite Forall_forall in Hdone.
      exact (Hdone _ Hin' Hev).
    + intros ev Hin' Hev. exfalso. rewrite Forall_forall in Hdone. exact (Hdone _ Hin' Hev).
Qed.

(* ===================================================================== *)
(** * Options that make no difference *)
(* ===================================================================== *)

Lemma chunkLoop_ext env pdfBuffer (options1 options2 : CompressionOptions)
      totalPages chunkSize :
  (forall chunkPdf i s,
      compressChunk env chunkPdf options1 i s = compressChunk env chunkPdf options2 i s) ->
  forall (remaining : nat) i compressedChunks chunkStats (s : PassState),
    chunkLoop env pdfBuffer options1 totalPages chunkSize remaining i
              compressedChunks chunkStats s
    = chunkLoop env pdfBuffer options2 totalPages chunkSize remaining i
                compressedChunks chunkStats s.
Proof.
  intros Hchunk. induction remaining as [| remaining IH]; intros i cc cs s.
  - reflexivity.
  - cbn [chunkLoop]. cbv zeta.
    apply bind_ext; [reflexivity | intros _ s1].
    apply bind_ext; [reflexivity | intros chunkPdf s2].
    apply bind_ext; [reflexivity | intros _ s3].
    apply bind_ext; [apply Hchunk | intros [compressed after] s4].
    apply bind_ext; [reflexivity | intros _ s5].
    apply IH.
Qed.

(** Two option objects that the steps of a pass cannot tell apart give the
    same pass. *)
Lemma pass_ext env pdfBuffer (options1 options2 : CompressionOptions) :
  opt_onProgress options1 = opt_onProgress options2 ->
  (forall totalPages size,
      resolveChunkSize env options1 totalPages size
      = resolveChunkSize env options2 totalPages size) ->
  (forall s, metadataIfPreserved env pdfBuffer options1 s
             = metadataIfPreserved env pdfBuffer options2 s) ->
  (forall chunkPdf i s,
      compressChunk env chunkPdf options1 i s = compressChunk env chunkPdf options2 i s) ->
  (forall chunks metadata s,
      mergeChunks env chunks metadata options1 s = mergeChunks env chunks metadata options2 s) ->
  compressWithPreset env pdfBuffer options1 = compressWithPreset env pdfBuffer options2.
Proof.
  intros Hcallback Hsize Hmetadata Hchunk Hmerge.
  unfold compressWithPreset. rewrite <- Hcallback.
  enough (Hbody : forall s, compressWithPreset_body env pdfBuffer options1 s
                            = compressWithPreset_body env pdfBuffer options2 s)
    by (rewrite Hbody; reflexivity).
  intros s. unfold compressWithPreset_body.
  apply bind_ext; [reflexivity | intros _ s1].
  apply bind_ext; [reflexivity | intros _ s2].
  apply bind_ext; [reflexivity | intros totalPages s3].
  cbv zeta. rewrite <- Hsize.
  apply bind_ext; [reflexivity | intros _ s4].
  apply bind_ext; [reflexivity | intros _ s5].
  apply bind_ext; [apply Hmetadata | intros metadata s6].
  apply bind_ext; [reflexivity | intros _ s7].
  apply bind_ext; [apply chunkLoop_ext; exact Hchunk | intros [compressedChunks chunkStats] s8].
  apply bind_ext; [reflexivity | intros _ s9].
  apply bind_ext; [apply Hmerge | intros mergedPdf s10].
  reflexivity.
Qed.

Lemma presetLoop_ext env pdfBuffer (options1 options2 : CompressionOptions) chain :
  opt_onProgress options1 = opt_onProgress options2 ->
  opt_preset options1 = opt_preset options2 ->
  (forall p, compressWithPreset env pdfBuffer (withPreset options1 p)
             = compressWithPreset env pdfBuffer (withPreset options2 p)) ->
  forall rest lastError (s : list Step),
    presetLoop env pdfBuffer options1 chain rest lastError s
    = presetLoop env pdfBuffer options2 chain rest lastError s.
Proof.
  intros Hcallback Hpreset Hpasses.
  induction rest as [| p rest IH]; intros lastError s.
  - reflexivity.
  - cbn [presetLoop]. rewrite <- (Hpasses p).
    destruct (compressWithPreset env pdfBuffer (withPreset options1 p)) as [acts attempt].
    apply bind_ext; [reflexivity | intros _ s1].
    destruct attempt as [result | error |].
    + unfold passResult. rewrite Hpreset. reflexivity.
    + destruct (isLastOf chain p); [reflexivity |].
      rewrite <- Hcallback. destruct (opt_onProgress options1); [| apply IH].
      destruct (handleErrorWithGracefulDegradation error p true true) as [evs decision].
      apply bind_ext; [reflexivity | intros _ s2].
      destruct (negb (shouldRetry decision)); [reflexivity | apply IH].
    + reflexivity.
Qed.

Lemma orchestrate_ext env pdfBuffer (options1 options2 : CompressionOptions) :
  opt_onProgress options1 = opt_onProgress options2 ->
  opt_preset options1 = opt_preset options2 ->
  not_false (opt_gracefulDegradation options1) = not_false (opt_gracefulDegradation options2) ->
  (forall p, compressWithPreset env pdfBuffer (withPreset options1 p)
             = compressWithPreset env pdfBuffer (withPreset options2 p)) ->
  forall s : list Step,
    orchestrateCompression_body env pdfBuffer options1 s
    = orchestrateCompression_body env pdfBuffer options2 s.
Proof.
  intros Hcallback Hpreset Hdegrade Hpasses s.
  unfold orchestrateCompression_body. cbv zeta.
  rewrite <- Hpreset, <- Hdegrade.
  destruct (isValidPDF pdfBuffer); cbn [negb]; [| reflexivity].
  apply bind_ext; [apply presetLoop_ext; assumption |].
  intros [result | lastError] s1; [reflexivity |].
  destruct (not_false (opt_gracefulDegradation options1)); [| reflexivity].
  unfold notify, originalPdfResult. rewrite <- Hcallback, <- Hpreset. reflexivity.
Qed.

Lemma or_default_twice (x : option Z) (d : Z) :
  d <> 0 -> or_default_Z (Some (or_default_Z x d)) d = or_default_Z x d.
Proof.
  intros Hd. unfold or_default_Z. destruct x as [v |].
  - destruct (v =? 0) eqn:Hv.
    + destruct (d =? 0) eqn:Hd'; [apply Z.eqb_eq in Hd'; contradiction | reflexivity].
    + rewrite Hv. reflexivity.
  - destruct (d =? 0) eqn:Hd'; [apply Z.eqb_eq in Hd'; contradiction | reflexivity].
Qed.

(** X24: an omitted option and its default cannot be told apart, and
    neither can the falsy values that [||] replaces: [compress] with the
    caller's options does exactly what it does once every default is
    written out (preset 'balanced', gracefulDegradation true, mergeStrategy
    'worker', timeout 300000), an empty preset name is taken as 'balanced',
    and a chunk size or a timeout of 0 as absent.  The whole log and the
    outcome are the same. *)
Theorem falsy_options_count_as_omitted :
  forall env input options,
    compress env input (withDefaults options) = compress env input options.
Proof.
  intros env input options.
  unfold compress, compress_body.
  destruct input as [pdfBuffer |]; [| reflexivity].
  destruct (byteLength pdfBuffer =? 0); [reflexivity |].
  assert (Hname : presetOrDefault (in_preset (withDefaults options))
                  = presetOrDefault (in_preset options)).
  { cbn [in_preset withDefaults]. unfold presetOrDefault.
    destruct (in_preset options) as [[| c s] |]; reflexivity. }
  rewrite Hname.
  destruct (parsePreset _) as [preset |]; [| reflexivity].
  apply bind_ext; [reflexivity | intros _ s1].
  apply bind_ext; [reflexivity | intros _ s2].
  cbn [opt_wasmUrl fullOptions in_wasmUrl withDefaults].
  destruct (env_loadWASM env (in_wasmUrl options)); [| reflexivity | reflexivity].
  apply orchestrate_ext; try reflexivity.
  - cbn [opt_gracefulDegradation fullOptions in_gracefulDegradation withDefaults].
    destruct (in_gracefulDegradation options) as [[|] |]; reflexivity.
  - intros p. apply pass_ext; try reflexivity.
    + intros totalPages size. unfold resolveChunkSize.
      cbn [opt_chunkSize withPreset fullOptions in_chunkSize withDefaults].
      destruct (in_chunkSize options) as [c |]; [| reflexivity].
      destruct (c =? 0) eqn:Hc; [reflexivity | rewrite Hc; reflexivity].
    + intros chunkPdf i s. unfold compressChunk. cbv zeta.
      cbn [opt_timeout withPreset fullOptions in_timeout withDefaults].
      rewrite !or_default_twice by discriminate.
      reflexivity.
Qed.

(* ===================================================================== *)
(** * The pdf-lib compressor *)
(* ===================================================================== *)

Lemma js_minQ_le_l : forall a b, (js_minQ a b <= a)%Q.
Proof.
  intros a b. unfold js_minQ. destruct (Qle_bool a b) eqn:H.
  - apply Qle_refl.
  - apply Qlt_le_weak. apply Qnot_le_lt. intros Hle.
    apply Qle_bool_iff in Hle. congruence.
Qed.

Lemma js_minQ_le_r : forall a b, (js_minQ a b <= b)%Q.
Proof.
  intros a b. unfold js_minQ. destruct (Qle_bool a b) eqn:H.
  - apply Qle_bool_iff. exact H.
  - apply Qle_refl.
Qed.

Lemma js_minQ_cases : forall a b, js_minQ a b = a \/ js_minQ a b = b.
Proof. intros a b. unfold js_minQ. destruct (Qle_bool a b); auto. Qed.

Lemma chooseFinal_smallest :
  forall originalSize optimizedSize imageCompressedSize,
    match chooseFinal originalSize optimizedSize imageCompressedSize with
    | ImageCompressed => imageCompressedSize
    | LosslessOptimized => optimizedSize
    | OriginalKept => originalSize
    end = Z.min imageCompressedSize (Z.min optimizedSize originalSize).
Proof.
  intros o p i. unfold chooseFinal.
  destruct (i <? p) eqn:H1; destruct (i <? o) eqn:H2; cbn [andb];
    try destruct (p <? o) eqn:H3;
    repeat match goal with
           | H : (_ <? _) = true |- _ => apply Z.ltb_lt in H
           | H : (_ <? _) = false |- _ => apply Z.ltb_ge in H
           end; lia.
Qed.

Lemma bind_emit {B : Type} (onProgress : bool) (ev : ProgressEvent) (k : unit -> Run B)
      (delivered : list ProgressEvent) :
  bind (emitProgress onProgress ev) k delivered
  = k tt (if onProgress then delivered ++ [ev] else delivered).
Proof. reflexivity. Qed.

Lemma bind_lib {A B : Type} (r : LibResult A) (k : A -> Run B)
      (delivered : list ProgressEvent) :
  bind (lib r) k delivered
  = match r with
    | LibOk a => k a delivered
    | LibThrows m => (delivered, Rejected (Error (lib_message m)))
    end.
Proof. destruct r; reflexivity. Qed.

Lemma bind_run {A B : Type} (m : Run A) (k : A -> Run B) (delivered : list ProgressEvent) :
  bind m k delivered
  = match m delivered with
    | (d, Resolved a) => k a d
    | (d, Rejected e) => (d, Rejected e)
    | (d, Pending) => (d, Pending)
    end.
Proof. unfold bind. destruct (m delivered) as [d [a | e |]]; reflexivity. Qed.

(** What [compressPDF] resolves with. *)
Lemma compressPDF_resolved :
  forall w pdfBuffer options delivered result,
    compressPDF w pdfBuffer options = (delivered, Resolved result) ->
    exists optimized,
      cw_saveOptimized w pdfBuffer = LibOk optimized /\
      stats result
      = compressorStats w (opt_preset options) (byteLength pdfBuffer)
          (compressedSize (stats result)) /\
      warning result = None /\
      if preset_eqb (opt_preset options) Lossless
      then pdf result = Buf optimized /\
           compressedSize (stats result) = Z.of_nat (List.length optimized)
      else exists images,
          cw_saveImages w pdfBuffer
            (imageSettings (byteLength pdfBuffer) (opt_preset options)) = LibOk images /\
          compressedSize (stats result)
          = Z.min (Z.of_nat (List.length images))
              (Z.min (Z.of_nat (List.length optimized)) (byteLength pdfBuffer)).
Proof.
  intros w pdfBuffer options delivered result Hrun.
  unfold compressPDF in Hrun.
  rewrite bind_emit in Hrun. unfold compressPDF_try in Hrun.
  rewrite bind_lib in Hrun.
  destruct (cw_load w pdfBuffer) as [numPages | m]; [| discriminate Hrun].
  rewrite bind_emit, bind_lib in Hrun.
  destruct (cw_saveOptimized w pdfBuffer) as [optimized | m]; [| discriminate Hrun].
  exists optimized. split; [reflexivity |].
  rewrite bind_emit in Hrun.
  destruct (preset_eqb (opt_preset options) Lossless) eqn:Hpreset.
  - rewrite bind_emit in Hrun. cbv [ret] in Hrun.
    inversion Hrun; subst. cbn. auto.
  - rewrite bind_emit, bind_lib in Hrun.
    destruct (cw_openForRendering w pdfBuffer) as [[] | m]; [| discriminate Hrun].
    rewrite bind_run in Hrun.
    destruct (pageLoop _ _ _ _ _ _ _ _) as [d [[] | e |]]; try discriminate Hrun.
    rewrite bind_emit, bind_lib in Hrun.
    destruct (cw_saveImages w pdfBuffer _) as [images | m]; [| discriminate Hrun].
    rewrite bind_emit, bind_run in Hrun.
    pose proof (chooseFinal_smallest (byteLength pdfBuffer) (Z.of_nat (List.length optimized))
                  (Z.of_nat (List.length images))) as Hmin.
    destruct (chooseFinal _ _ _);
      [ cbv [ret] in Hrun | cbv [ret] in Hrun
      | cbv [sameBuffer transfer lib ret throw] in Hrun ];
      try discriminate Hrun;
      rewrite bind_emit in Hrun; cbv [ret] in Hrun; inversion Hrun; subst;
      cbn [stats warning pdf compressorStats compressedSize];
      (split; [reflexivity |]); (split; [reflexivity |]);
      exists images; (split; [reflexivity | exact Hmin]).
Qed.

Lemma ascending_snoc :
  forall values v,
    ascending values -> Forall (fun v' => (v' <= v)%Q) values -> ascending (values ++ [v]).
Proof.
  induction values as [| x rest IH]; intros v Hasc Hall.
  - cbn. split; constructor.
  - cbn in Hasc |- *. destruct Hasc as [Hx Hrest]. inversion Hall; subst.
    split.
    + apply Forall_app. split; [exact Hx | constructor; [assumption | constructor]].
    + apply IH; assumption.
Qed.

Lemma climbsTo_weaken :
  forall a b delivered, (a <= b)%Q -> climbsTo a delivered -> climbsTo b delivered.
Proof.
  intros a b delivered Hab [Hasc [Hall Hphase]]. split; [exact Hasc | split; [| exact Hphase]].
  eapply Forall_impl; [| exact Hall]. cbn. intros v [H0 Hv].
  split; [exact H0 | eapply Qle_trans; eassumption].
Qed.

Lemma climbsTo_snoc :
  forall a delivered ev,
    climbsTo a delivered -> phase ev = Compressing ->
    (0 <= progress ev)%Q -> (a <= progress ev)%Q ->
    climbsTo (progress ev) (delivered ++ [ev]).
Proof.
  intros a delivered ev [Hasc [Hall Hphase]] Hev H0 Ha. unfold climbsTo, valuesOf.
  rewrite map_app. cbn [map]. split; [| split].
  - apply ascending_snoc; [exact Hasc |].
    eapply Forall_impl; [| exact Hall]. cbn. intros v [_ Hv].
    eapply Qle_trans; eassumption.
  - apply Forall_app. split.
    + eapply Forall_impl; [| exact Hall]. cbn. intros v [Hv0 Hv].
      split; [exact Hv0 | eapply Qle_trans; eassumption].
    + constructor; [| constructor]. split; [exact H0 | apply Qle_refl].
  - apply Forall_app. split; [exact Hphase | constructor; [exact Hev | constructor]].
Qed.

Lemma climbsTo_nil : forall a, climbsTo a [].
Proof. intros a. split; [exact I | split; constructor]. Qed.

(** A step that reports [v], started at [a] or below, leaves the callback
    at [v] or below. *)
Lemma runs_emit :
  forall onProgress a v msg,
    (0 <= v)%Q -> (a <= v)%Q ->
    runs (climbsTo a) (emitProgress onProgress (compressingEvent v msg))
         (fun d o => climbsTo v d /\ endsAt onProgress v d /\ o = Resolved tt).
Proof.
  intros cb a v msg H0 Ha d d' o Hd Hrun. unfold emitProgress in Hrun.
  inversion Hrun; subst. split; [| split; [| reflexivity]].
  - destruct cb.
    + apply (climbsTo_snoc a d (compressingEvent v msg)); [exact Hd | reflexivity | |]; assumption.
    + apply (climbsTo_weaken a v); assumption.
  - intros Hcb. subst cb. unfold valuesOf. rewrite map_app. cbn [map].
    apply last_last.
Qed.

Lemma runs_lib {A : Type} (P : list ProgressEvent -> Prop) (r : LibResult A) :
  runs P (lib r) (fun d _ => P d).
Proof.
  intros d d' o Hd Hrun. destruct r; cbv [lib ret throw] in Hrun;
    inversion Hrun; subst; exact Hd.
Qed.

(** The two ways on from a step that stays at [b <= 95]. *)
Lemma runs_then {A B : Type} (onProgress : bool) (a b : Q) (m : Run A) (k : A -> Run B) :
  (b <= 95)%Q ->
  runs (climbsTo a) m (fun d _ => climbsTo b d) ->
  (forall x, runs (climbsTo b) (k x) (settledAt onProgress)) ->
  runs (climbsTo a) (bind m k) (settledAt onProgress).
Proof.
  intros Hb Hm Hk d d' o Hd Hrun. rewrite bind_run in Hrun.
  destruct (m d) as [d1 [x | e |]] eqn:Hmd.
  - exact (Hk x _ _ _ (Hm _ _ _ Hd Hmd) Hrun).
  - inversion Hrun; subst. cbn. apply (climbsTo_weaken b); [exact Hb |].
    exact (Hm _ _ _ Hd Hmd).
  - inversion Hrun; subst. cbn. apply (climbsTo_weaken b); [exact Hb |].
    exact (Hm _ _ _ Hd Hmd).
Qed.

Lemma runs_emit_then {B : Type} (onProgress : bool) (a v : Q) (msg : string)
      (k : unit -> Run B) :
  (0 <= v)%Q -> (a <= v)%Q -> (v <= 95)%Q ->
  (forall x, runs (climbsTo v) (k x) (settledAt onProgress)) ->
  runs (climbsTo a) (bind (emitProgress onProgress (compressingEvent v msg)) k)
       (settledAt onProgress).
Proof.
  intros H0 Ha Hv Hk. apply (runs_then onProgress a v); [exact Hv | | exact Hk].
  intros d d' o Hd Hrun. exact (proj1 (runs_emit onProgress a v msg H0 Ha d d' o Hd Hrun)).
Qed.

Lemma runs_lib_then {A B : Type} (onProgress : bool) (a : Q) (r : LibResult A)
      (k : A -> Run B) :
  (a <= 95)%Q ->
  (forall x, runs (climbsTo a) (k x) (settledAt onProgress)) ->
  runs (climbsTo a) (bind (lib r) k) (settledAt onProgress).
Proof.
  intros Ha Hk. apply (runs_then onProgress a a); [exact Ha | apply runs_lib | exact Hk].
Qed.

(** The last report and the return. *)
Lemma runs_finish {B : Type} (onProgress : bool) (a : Q) (msg : string) (result : B) :
  (a <= 100)%Q ->
  runs (climbsTo a)
       (bind (emitProgress onProgress (compressingEvent 100 msg)) (fun _ => ret result))
       (settledAt onProgress).
Proof.
  intros Ha d d' o Hd Hrun. rewrite bind_emit in Hrun. cbv [ret] in Hrun.
  inversion Hrun; subst. cbn.
  assert (H0 : (0 <= 100)%Q) by (unfold Qle; cbn; lia).
  destruct (runs_emit onProgress a 100 msg H0 Ha d _ _ Hd eq_refl) as [Hc [He _]].
  split; assumption.
Qed.

Lemma runs_seq {A B : Type} (a b c : Q) (m : Run A) (k : A -> Run B) :
  (b <= c)%Q ->
  runs (climbsTo a) m (fun d _ => climbsTo b d) ->
  (forall x, runs (climbsTo b) (k x) (fun d _ => climbsTo c d)) ->
  runs (climbsTo a) (bind m k) (fun d _ => climbsTo c d).
Proof.
  intros Hbc Hm Hk d d' o Hd Hrun. rewrite bind_run in Hrun.
  destruct (m d) as [d1 [x | e |]] eqn:Hmd.
  - exact (Hk x _ _ _ (Hm _ _ _ Hd Hmd) Hrun).
  - inversion Hrun; subst. apply (climbsTo_weaken b); [exact Hbc |].
    exact (Hm _ _ _ Hd Hmd).
  - inversion Hrun; subst. apply (climbsTo_weaken b); [exact Hbc |].
    exact (Hm _ _ _ Hd Hmd).
Qed.

Lemma js_round_mono : forall x y, (x <= y)%Q -> (js_round x <= js_round y)%Z.
Proof.
  intros x y H. unfold js_round. apply Qfloor_resp_le.
  apply Qplus_le_compat; [exact H | apply Qle_refl].
Qed.

Lemma share_mono :
  forall p q n, 0 < n -> p <= q ->
    (inject_Z p / inject_Z n <= inject_Z q / inject_Z n)%Q.
Proof.
  intros p q n Hn Hpq. unfold Qdiv. apply Qmult_le_compat_r.
  - rewrite <- Zle_Qle. exact Hpq.
  - apply Qlt_le_weak. apply Qinv_lt_0_compat.
    change 0%Q with (inject_Z 0). rewrite <- Zlt_Qlt. exact Hn.
Qed.

Lemma pageProgress_mono :
  forall p q n, 0 < n -> p <= q -> (pageProgress p n <= pageProgress q n)%Q.
Proof.
  intros p q n Hn Hpq. unfold pageProgress. rewrite <- Zle_Qle.
  apply js_round_mono. apply Qplus_le_compat; [apply Qle_refl |].
  apply Qmult_le_compat_r; [apply share_mono; assumption | unfold Qle; cbn; lia].
Qed.

Lemma pageProgress_first : forall n, 0 < n -> (45 <= pageProgress 1 n)%Q.
Proof.
  intros n Hn.
  apply (Qle_trans _ (inject_Z (js_round (inject_Z 45)))); [unfold Qle; cbn; lia |].
  unfold pageProgress. rewrite <- Zle_Qle. apply js_round_mono.
  assert (H : (0 <= inject_Z 1 / inject_Z n)%Q).
  { unfold Qdiv. apply Qmult_le_0_compat; [unfold Qle; cbn; lia |].
    apply Qlt_le_weak. apply Qinv_lt_0_compat.
    change 0%Q with (inject_Z 0). rewrite <- Zlt_Qlt. exact Hn. }
  set (x := (inject_Z 1 / inject_Z n)%Q) in *. unfold inject_Z. lra.
Qed.

Lemma pageProgress_last : forall p n, 0 < n -> p <= n -> (pageProgress p n <= 90)%Q.
Proof.
  intros p n Hn Hp.
  apply (Qle_trans _ (pageProgress n n)); [apply pageProgress_mono; assumption |].
  apply (Qle_trans _ (inject_Z (js_round (inject_Z 90)))); [| unfold Qle; cbn; lia].
  unfold pageProgress. rewrite <- Zle_Qle. apply js_round_mono.
  assert (H : (inject_Z n / inject_Z n == 1)%Q).
  { unfold Qdiv. apply Qmult_inv_r. intros H. unfold Qeq in H. cbn in H. lia. }
  rewrite H. unfold Qle. cbn. lia.
Qed.

Lemma pageProgress_nonneg : forall p n, 0 < n -> 1 <= p -> (0 <= pageProgress p n)%Q.
Proof.
  intros p n Hn Hp. apply (Qle_trans _ 45); [unfold Qle; cbn; lia |].
  apply (Qle_trans _ (pageProgress 1 n)); [apply pageProgress_first; exact Hn |].
  apply pageProgress_mono; assumption.
Qed.

(** The page loop, entered at [a] or below, stays within 90, and each page
    reports at least what the page before it reported. *)
Lemma pageLoop_climbs :
  forall w pdfBuffer onProgress settings numPages remaining pageNum a,
    1 <= pageNum -> pageNum + Z.of_nat remaining = numPages + 1 ->
    (a <= 90)%Q -> (remaining <> 0%nat -> (a <= pageProgress pageNum numPages)%Q) ->
    runs (climbsTo a)
         (pageLoop w pdfBuffer onProgress settings numPages remaining pageNum)
         (fun d _ => climbsTo 90 d).
Proof.
  intros w pdfBuffer cb settings n remaining.
  induction remaining as [| r IH]; intros p a Hp Hsum Ha Hnext.
  - intros d d' o Hd Hrun. cbv [pageLoop ret] in Hrun. inversion Hrun; subst.
    apply (climbsTo_weaken a); assumption.
  - assert (Hn : 0 < n) by lia.
    assert (Hpn : p <= n) by lia.
    cbn [pageLoop].
    apply (runs_seq a (pageProgress p n) 90).
    + apply pageProgress_last; assumption.
    + intros d d' o Hd Hrun.
      refine (proj1 (runs_emit cb a (pageProgress p n) _ _ _ d d' o Hd Hrun)).
      * apply pageProgress_nonneg; assumption.
      * apply Hnext. discriminate.
    + intros _. apply (runs_seq _ (pageProgress p n) 90).
      * apply pageProgress_last; assumption.
      * apply runs_lib.
      * intros [width height]. apply (runs_seq _ (pageProgress p n) 90).
        -- apply pageProgress_last; assumption.
        -- intros d d' o Hd Hrun. destruct (cw_hasDocument w);
             cbv [ret throw] in Hrun; inversion Hrun; subst; exact Hd.
        -- intros _. apply (runs_seq _ (pageProgress p n) 90).
           ++ apply pageProgress_last; assumption.
           ++ apply runs_lib.
           ++ intros _. apply IH.
              ** lia.
              ** lia.
              ** apply pageProgress_last; assumption.
              ** intros _. apply pageProgress_mono; lia.
Qed.

Lemma compressPDF_try_settles :
  forall w pdfBuffer options,
    runs (climbsTo 0) (compressPDF_try w pdfBuffer options)
         (settledAt (opt_onProgress options)).
Proof.
  intros w pdfBuffer options. unfold compressPDF_try.
  assert (Hq : forall a b : Z, (a <= b)%Z -> (inject_Z a <= inject_Z b)%Q)
    by (intros a b H; rewrite <- Zle_Qle; exact H).
  apply runs_lib_then; [apply (Hq 0 95); lia |]. intros numPages.
  apply runs_emit_then; [apply (Hq 0 20) | apply (Hq 0 20) | apply (Hq 20 95) |]; try lia.
  intros _. apply runs_lib_then; [apply (Hq 20 95); lia |]. intros optimized.
  apply runs_emit_then; [apply (Hq 0 40) | apply (Hq 20 40) | apply (Hq 40 95) |]; try lia.
  intros _. destruct (preset_eqb (opt_preset options) Lossless).
  - apply runs_finish. apply (Hq 40 100). lia.
  - apply runs_emit_then; [apply (Hq 0 45) | apply (Hq 40 45) | apply (Hq 45 95) |]; try lia.
    intros _. apply runs_lib_then; [apply (Hq 45 95); lia |]. intros _.
    apply (runs_then _ 45 90); [apply (Hq 90 95); lia | |].
    { destruct (Z.to_nat numPages) as [| r] eqn:Hr.
      - intros d d' o Hd Hrun. cbv [pageLoop ret] in Hrun. inversion Hrun; subst.
        apply (climbsTo_weaken 45); [apply (Hq 45 90); lia | exact Hd].
      - rewrite <- Hr. apply pageLoop_climbs.
        + lia.
        + lia.
        + apply (Hq 45 90). lia.
        + intros _. apply pageProgress_first. lia. }
    intros _.
    apply runs_emit_then; [apply (Hq 0 90) | apply (Hq 90 90) | apply (Hq 90 95) |]; try lia.
    intros _. apply runs_lib_then; [apply (Hq 90 95); lia |]. intros images.
    apply runs_emit_then; [apply (Hq 0 95) | apply (Hq 90 95) | apply (Hq 95 95) |]; try lia.
    intros _. apply (runs_then _ 95 95); [apply (Hq 95 95); lia | |].
    { intros d d' o Hd Hrun. destruct (chooseFinal _ _ _);
        cbv [lib sameBuffer transfer ret throw] in Hrun;
        inversion Hrun; subst; exact Hd. }
    intros finalBuffer. apply runs_finish. apply (Hq 95 100). lia.
Qed.

Lemma climbsTo_events :
  forall b delivered,
    climbsTo b delivered ->
    Forall (fun ev => phase ev = Compressing /\ (0 <= progress ev <= b)%Q) delivered.
Proof.
  intros b delivered [_ [Hall Hphase]]. unfold valuesOf in Hall.
  induction delivered as [| ev rest IH]; [constructor |].
  cbn [map] in Hall. inversion Hall; subst. inversion Hphase; subst.
  constructor; [split; assumption | apply IH; assumption].
Qed.

Lemma climbsTo_below :
  forall b v delivered, climbsTo b delivered -> In v (valuesOf delivered) -> (v <= b)%Q.
Proof.
  intros b v delivered [_ [Hall _]] Hin.
  rewrite Forall_forall in Hall. exact (proj2 (Hall _ Hin)).
Qed.

Lemma last_in : forall (values : list Q) (v d : Q), last values d = v -> v <> d -> In v values.
Proof.
  induction values as [| x rest IH]; intros v d Hlast Hne.
  - cbn in Hlast. congruence.
  - destruct rest as [| y rest'].
    + cbn in Hlast. left. exact Hlast.
    + right. apply (IH v d); [exact Hlast | exact Hne].
Qed.

(** X25: what [compressPDF] resolves with.  Under 'balanced' and 'max' the
    reported size is the smallest of the three candidates (the rendered
    copy, the lossless re-save, the input), so never more than the input;
    under 'lossless' it is the re-save, whatever its size.  The statistics
    are the input's length, the difference, the preset as given, one chunk,
    and there is never a warning. *)
Theorem compressor_returns_the_smallest_candidate :
  forall w pdfBuffer options delivered result,
    compressPDF w pdfBuffer options = (delivered, Resolved result) ->
    originalSize (stats result) = byteLength pdfBuffer /\
    bytesSaved (stats result) = byteLength pdfBuffer - compressedSize (stats result) /\
    presetUsed (stats result) = opt_preset options /\
    chunksProcessed (stats result) = 1 /\
    warning result = None /\
    exists optimized,
      cw_saveOptimized w pdfBuffer = LibOk optimized /\
      (opt_preset options = Lossless ->
       pdf result = Buf optimized /\
       compressedSize (stats result) = Z.of_nat (List.length optimized)) /\
      (opt_preset options <> Lossless ->
       compressedSize (stats result) <= byteLength pdfBuffer /\
       compressedSize (stats result) <= Z.of_nat (List.length optimized) /\
       exists images,
         cw_saveImages w pdfBuffer
           (imageSettings (byteLength pdfBuffer) (opt_preset options)) = LibOk images /\
         compressedSize (stats result)
         = Z.min (Z.of_nat (List.length images))
             (Z.min (Z.of_nat (List.length optimized)) (byteLength pdfBuffer))).
Proof.
  intros w pdfBuffer options delivered result Hrun.
  destruct (compressPDF_resolved _ _ _ _ _ Hrun) as [optimized [Hsave [Hstats [Hwarn Hsize]]]].
  rewrite Hstats. cbn [compressorStats originalSize bytesSaved presetUsed chunksProcessed
                         compressedSize].
  conjs; try reflexivity; try exact Hwarn.
  exists optimized. split; [exact Hsave |]. split.
  - intros Hpreset. rewrite Hpreset in Hsize. exact Hsize.
  - intros Hpreset.
    destruct (opt_preset options); [contradiction Hpreset; reflexivity | |];
      cbn [preset_eqb] in Hsize; destruct Hsize as [images [Himages Hmin]];
      (split; [lia |]); (split; [lia |]); exists images; split; assumption.
Qed.

(* ----- the values in order ----- *)

Lemma advances_bind {A B : Type} (expected r r' r'' : list Q) (m : Run A) (k : A -> Run B) :
  runs (leaves expected r) m (advances expected r') ->
  (forall a, runs (leaves expected r') (k a) (advances expected r'')) ->
  runs (leaves expected r) (bind m k) (advances expected r'').
Proof.
  intros Hm Hk d d' o Hd Hrun. rewrite bind_run in Hrun.
  destruct (m d) as [d1 [a | e |]] eqn:Hmd.
  - exact (Hk a _ _ _ (Hm _ _ _ Hd Hmd) Hrun).
  - inversion Hrun; subst. exact (Hm _ _ _ Hd Hmd).
  - inversion Hrun; subst. exact (Hm _ _ _ Hd Hmd).
Qed.

Lemma advances_emit (expected rest : list Q) (v : Q) (msg : string) :
  runs (leaves expected (v :: rest)) (emitProgress true (compressingEvent v msg))
       (advances expected rest).
Proof.
  intros d d' o Hd Hrun. cbv [emitProgress] in Hrun. inversion Hrun; subst.
  cbn [advances]. unfold leaves in *. unfold valuesOf. rewrite map_app.
  cbn [map progress compressingEvent]. rewrite <- app_assoc. exact Hd.
Qed.

Lemma advances_lib {A : Type} (expected rest : list Q) (r : LibResult A) :
  runs (leaves expected rest) (lib r) (advances expected rest).
Proof.
  intros d d' o Hd Hrun. destruct r; cbv [lib ret throw] in Hrun; inversion Hrun; subst;
    cbn [advances]; [exact Hd | exists rest; exact Hd].
Qed.

Lemma advances_ret {A : Type} (expected rest : list Q) (a : A) :
  runs (leaves expected rest) (ret a) (advances expected rest).
Proof. intros d d' o Hd Hrun. cbv [ret] in Hrun. inversion Hrun; subst. exact Hd. Qed.

Lemma advances_throw {A : Type} (expected rest : list Q) (e : JsError) :
  runs (leaves expected rest) (@throw _ A e) (advances expected rest).
Proof.
  intros d d' o Hd Hrun. cbv [throw] in Hrun. inversion Hrun; subst. exists rest. exact Hd.
Qed.

(** The page loop reports the values of its pages, one after the other. *)
Lemma pageLoop_advances :
  forall w pdfBuffer settings numPages expected tail remaining (p : nat),
    runs (leaves expected
            (map (fun q => pageProgress (Z.of_nat q) numPages) (seq p remaining) ++ tail))
         (pageLoop w pdfBuffer true settings numPages remaining (Z.of_nat p))
         (advances expected tail).
Proof.
  intros w pdfBuffer settings n expected tail remaining.
  induction remaining as [| r IH]; intros p.
  - cbn [seq map app pageLoop]. apply advances_ret.
  - cbn [seq map app pageLoop].
    eapply advances_bind; [apply advances_emit | intros _].
    eapply advances_bind; [apply advances_lib | intros [width height]].
    eapply advances_bind.
    { destruct (cw_hasDocument w); [apply advances_ret | apply advances_throw]. }
    intros _.
    eapply advances_bind; [apply advances_lib | intros _].
    replace (Z.of_nat p + 1) with (Z.of_nat (S p)) by lia.
    apply IH.
Qed.

(** With a callback, the body of the [try] goes through the schedule. *)
Lemma compressPDF_try_advances :
  forall w pdfBuffer options rest,
    opt_onProgress options = true ->
    expectedValues w pdfBuffer options = 0%Q :: rest ->
    runs (leaves (expectedValues w pdfBuffer options) rest)
         (compressPDF_try w pdfBuffer options)
         (advances (expectedValues w pdfBuffer options) []).
Proof.
  intros w pdfBuffer options rest Hcb Hexpected.
  remember (expectedValues w pdfBuffer options) as expected eqn:Hdef.
  rewrite Hdef in Hexpected. clear Hdef.
  unfold expectedValues in Hexpected.
  unfold compressPDF_try. cbv zeta. rewrite Hcb.
  destruct (cw_load w pdfBuffer) as [numPages | m].
  2:{ intros d d' o Hd Hrun. cbv [lib bind throw] in Hrun. inversion Hrun; subst.
      exists rest. exact Hd. }
  assert (Hskip : forall (k : Z -> Run CompressionResult) Q0,
             runs (leaves expected rest) (k numPages) Q0 ->
             runs (leaves expected rest) (bind (lib (LibOk numPages)) k) Q0).
  { intros k Q0 H d d' o Hd Hrun. exact (H d d' o Hd Hrun). }
  apply Hskip. clear Hskip.
  unfold schedule in Hexpected.
  destruct (preset_eqb (opt_preset options) Lossless).
  - injection Hexpected as <-.
    eapply advances_bind; [apply advances_emit | intros _].
    eapply advances_bind; [apply advances_lib | intros optimized].
    eapply advances_bind; [apply advances_emit | intros _].
    eapply advances_bind; [apply advances_emit | intros _].
    apply advances_ret.
  - cbn [app] in Hexpected. injection Hexpected as <-.
    eapply advances_bind; [apply advances_emit | intros _].
    eapply advances_bind; [apply advances_lib | intros optimized].
    eapply advances_bind; [apply advances_emit | intros _].
    eapply advances_bind; [apply advances_emit | intros _].
    eapply advances_bind; [apply advances_lib | intros _].
    eapply advances_bind.
    { exact (pageLoop_advances w pdfBuffer _ numPages expected [90; 95; 100]%Q
               (Z.to_nat numPages) 1%nat). }
    intros _.
    eapply advances_bind; [apply advances_emit | intros _].
    eapply advances_bind; [apply advances_lib | intros images].
    eapply advances_bind; [apply advances_emit | intros _].
    eapply advances_bind.
    { destruct (chooseFinal _ _ _);
        [apply advances_ret | apply advances_ret | apply advances_lib]. }
    intros finalBuffer.
    eapply advances_bind; [apply advances_emit | intros _].
    apply advances_ret.
Qed.

Lemma pageValues_bounds :
  forall numPages, Forall (fun v => (45 <= v <= 90)%Q) (pageValues numPages).
Proof.
  intros n. unfold pageValues. apply Forall_forall. intros v Hin.
  apply in_map_iff in Hin. destruct Hin as (p & <- & Hp).
  apply in_seq in Hp.
  assert (Hn : 0 < n) by lia.
  split.
  - apply (Qle_trans _ (pageProgress 1 n)); [apply pageProgress_first; exact Hn |].
    apply pageProgress_mono; lia.
  - apply pageProgress_last; lia.
Qed.

(** X26: what [compressPDF] hands to the callback.  The values delivered
    are an initial segment of the schedule 0, 20, 40, 45, one value
    round(45 + pageNum / numPages * 45) for each page, 90, 95, 100 (of 0,
    20, 40, 100 under 'lossless'), the whole of it when the promise
    resolves.  The per-page values lie between 45 and 90.  The values never
    go down, lie between 0 and 100 and carry the phase 'compressing'.  The
    value 100 is delivered exactly when the promise resolves and is then the
    last one; a run that does not resolve stops at 95 or below. *)
Theorem compressor_progress_reaches_100_only_on_success :
  forall w pdfBuffer options delivered out,
    opt_onProgress options = true ->
    compressPDF w pdfBuffer options = (delivered, out) ->
    (exists rest,
        expectedValues w pdfBuffer options = valuesOf delivered ++ rest /\
        ((exists result, out = Resolved result) -> rest = [])) /\
    (forall numPages,
        cw_load w pdfBuffer = LibOk numPages ->
        Forall (fun v => (45 <= v <= 90)%Q) (pageValues numPages)) /\
    ascending (valuesOf delivered) /\
    Forall (fun ev => phase ev = Compressing /\ (0 <= progress ev <= 100)%Q) delivered /\
    ((exists result, out = Resolved result) <-> In 100%Q (valuesOf delivered)) /\
    (In 100%Q (valuesOf delivered) -> last (valuesOf delivered) 0%Q = 100%Q) /\
    ((forall result, out <> Resolved result) ->
     Forall (fun ev => (progress ev <= 95)%Q) delivered).
Proof.
  intros w pdfBuffer options delivered out Hcb Hrun.
  unfold compressPDF in Hrun. rewrite bind_emit in Hrun. rewrite Hcb in Hrun.
  destruct (compressPDF_try w pdfBuffer options _) as [d o] eqn:Htry.
  assert (Hstart : climbsTo 0 ([] ++ [compressingEvent 0 "Loading PDF..."])).
  { apply (climbsTo_snoc 0 [] (compressingEvent 0 "Loading PDF..."));
      [apply climbsTo_nil | reflexivity | apply Qle_refl | apply Qle_refl]. }
  pose proof (compressPDF_try_settles w pdfBuffer options _ _ _ Hstart Htry) as Hend.
  assert (Hhead : exists rest, expectedValues w pdfBuffer options = 0%Q :: rest).
  { unfold expectedValues, schedule. destruct (cw_load w pdfBuffer); [| eexists; reflexivity].
    destruct (preset_eqb _ _); eexists; reflexivity. }
  destruct Hhead as [rest0 Hhead].
  assert (Hfirst : leaves (expectedValues w pdfBuffer options) rest0
                          ([] ++ [compressingEvent 0 "Loading PDF..."])).
  { unfold leaves. rewrite Hhead. reflexivity. }
  pose proof (compressPDF_try_advances w pdfBuffer options rest0 Hcb Hhead _ _ _ Hfirst Htry)
    as Hsched.
  inversion Hrun; subst delivered out. clear Hrun.
  assert (Hnever : climbsTo 95 d -> ~ In 100%Q (valuesOf d)).
  { intros Hc Hin. pose proof (climbsTo_below _ _ _ Hc Hin) as Hle.
    unfold Qle in Hle. cbn in Hle. lia. }
  assert (Hweak : climbsTo 95 d -> climbsTo 100 d).
  { apply climbsTo_weaken. unfold Qle. cbn. lia. }
  assert (Hlow : climbsTo 95 d -> Forall (fun ev => (progress ev <= 95)%Q) d).
  { intros Hc. eapply Forall_impl; [| exact (climbsTo_events _ _ Hc)].
    cbn. intros ev [_ [_ Hle]]. exact Hle. }
  split; [| split; [intros numPages _; apply pageValues_bounds |]].
  { destruct o as [result | error |]; cbn [advances] in Hsched.
    - exists []. split; [exact Hsched | reflexivity].
    - destruct Hsched as [rest Hrest]. exists rest. split; [exact Hrest |].
      intros [result Hres]. discriminate Hres.
    - destruct Hsched as [rest Hrest]. exists rest. split; [exact Hrest |].
      intros [result Hres]. discriminate Hres. }
  destruct o as [result | error |]; cbn [settledAt] in Hend.
  - destruct Hend as [Hclimb Hlast]. specialize (Hlast Hcb).
    conjs.
    + exact (proj1 Hclimb).
    + apply climbsTo_events. exact Hclimb.
    + split; [intros _ | intros _; exists result; reflexivity].
      apply (last_in _ _ 0%Q Hlast). discriminate.
    + intros _. exact Hlast.
    + intros Hnot. contradiction (Hnot result). reflexivity.
  - conjs.
    + exact (proj1 Hend).
    + apply climbsTo_events. exact (Hweak Hend).
    + split; [intros [result Hres]; discriminate Hres |].
      intros Hin. contradiction (Hnever Hend Hin).
    + intros Hin. contradiction (Hnever Hend Hin).
    + intros _. exact (Hlow Hend).
  - conjs.
    + exact (proj1 Hend).
    + apply climbsTo_events. exact (Hweak Hend).
    + split; [intros [result Hres]; discriminate Hres |].
      intros Hin. contradiction (Hnever Hend Hin).
    + intros Hin. contradiction (Hnever Hend Hin).
    + intros _. exact (Hlow Hend).
Qed.

Lemma pageLoop_without_document :
  forall w pdfBuffer onProgress settings numPages remaining pageNum delivered,
    cw_hasDocument w = false ->
    exists delivered' reason,
      pageLoop w pdfBuffer onProgress settings numPages (S remaining) pageNum delivered
      = (delivered', Rejected (Error reason)).
Proof.
  intros w pdfBuffer cb settings n r p d Hdoc.
  cbn [pageLoop]. rewrite bind_emit, bind_lib.
  destruct (cw_viewport w pdfBuffer p) as [[width height] | m].
  - rewrite Hdoc. eexists _, _. reflexivity.
  - eexists _, _. reflexivity.
Qed.

(** X27: where there is no [document] (outside a browser's main thread),
    a PDF with at least one page is compressed only under 'lossless':
    [compressPDF] resolves exactly when the preset is 'lossless' and the
    re-save succeeds; under 'balanced' and 'max' the run is rejected, at
    the first page at the latest. *)
Theorem without_a_document_only_lossless_resolves :
  forall w pdfBuffer options numPages,
    cw_hasDocument w = false ->
    cw_load w pdfBuffer = LibOk numPages ->
    1 <= numPages ->
    ((exists result, snd (compressPDF w pdfBuffer options) = Resolved result) <->
     (opt_preset options = Lossless /\
      exists optimized, cw_saveOptimized w pdfBuffer = LibOk optimized)) /\
    (opt_preset options <> Lossless ->
     exists reason,
       snd (compressPDF w pdfBuffer options)
       = Rejected (Error ("PDF compression failed: " ++ reason)%string)).
Proof.
  intros w pdfBuffer options numPages Hdoc Hload Hpages.
  assert (Himage :
            opt_preset options <> Lossless ->
            exists reason,
              snd (compressPDF w pdfBuffer options)
              = Rejected (Error ("PDF compression failed: " ++ reason)%string)).
  { intros Hpreset. unfold compressPDF. rewrite bind_emit. unfold compressPDF_try.
    rewrite bind_lib, Hload, bind_emit, bind_lib.
    destruct (cw_saveOptimized w pdfBuffer) as [optimized | m];
      [| eexists; reflexivity].
    rewrite bind_emit.
    destruct (preset_eqb (opt_preset options) Lossless) eqn:Heq.
    { destruct (opt_preset options); [contradiction Hpreset; reflexivity | |];
        discriminate Heq. }
    rewrite bind_emit, bind_lib.
    destruct (cw_openForRendering w pdfBuffer) as [[] | m]; [| eexists; reflexivity].
    rewrite bind_run.
    destruct (Z.to_nat numPages) as [| r] eqn:Hr; [lia |].
    match goal with
    | |- context [pageLoop ?a ?b ?c ?d ?e (S r) ?f ?g] =>
        destruct (pageLoop_without_document a b c d e r f g Hdoc) as [d' [reason Hloop]]
    end.
    rewrite Hloop. exists reason. reflexivity. }
  split; [| exact Himage].
  split.
  - intros [result Hres].
    destruct (preset_eqb (opt_preset options) Lossless) eqn:Heq.
    + split; [destruct (opt_preset options); [reflexivity | |]; discriminate Heq |].
      revert Hres. unfold compressPDF. rewrite bind_emit. unfold compressPDF_try.
      rewrite bind_lib, Hload, bind_emit, bind_lib.
      destruct (cw_saveOptimized w pdfBuffer) as [optimized | m];
        [intros _; exists optimized; reflexivity | intros H; discriminate H].
    + destruct Himage as [reason Hrej].
      * intros H. rewrite H in Heq. discriminate Heq.
      * rewrite Hrej in Hres. discriminate Hres.
  - intros [Hpreset [optimized Hsave]].
    unfold compressPDF. rewrite bind_emit. unfold compressPDF_try.
    rewrite bind_lib, Hload, bind_emit, bind_lib, Hsave, bind_emit, Hpreset.
    cbn [preset_eqb]. rewrite bind_emit. cbv [ret]. eexists. reflexivity.
Qed.

(** X28: the image settings get coarser, never finer, as the file gets
    larger, and 'max' is strictly coarser than 'balanced' at every size:
    fewer dots per inch and a lower JPEG quality.  The quality never
    exceeds the preset's own, and the resolution is always below the cap of
    2.5 on the scale, which therefore never applies. *)
Theorem larger_files_and_max_get_coarser_images :
  forall size size' preset,
    preset <> Lossless ->
    size <= size' ->
    TARGET_DPI (imageSettings size' preset) <= TARGET_DPI (imageSettings size preset) /\
    (imageQuality (imageSettings size' preset) <= imageQuality (imageSettings size preset))%Q /\
    MAX_DIMENSION (imageSettings size' preset) <= MAX_DIMENSION (imageSettings size preset) /\
    TARGET_DPI (imageSettings size Max) < TARGET_DPI (imageSettings size Balanced) /\
    (imageQuality (imageSettings size Max) < imageQuality (imageSettings size Balanced))%Q /\
    (0 < imageQuality (imageSettings size preset) <= getCompressionQuality preset)%Q /\
    (inject_Z (TARGET_DPI (imageSettings size preset)) / inject_Z 72 < 25 # 10)%Q.
Proof.
  intros size size' preset Hpreset Hle.
  unfold imageSettings, MAX_DIMENSION.
  destruct (50 * 1024 * 1024 <? size) eqn:H1;
    destruct (20 * 1024 * 1024 <? size) eqn:H2;
    destruct (10 * 1024 * 1024 <? size) eqn:H3;
    destruct (50 * 1024 * 1024 <? size') eqn:H4;
    destruct (20 * 1024 * 1024 <? size') eqn:H5;
    destruct (10 * 1024 * 1024 <? size') eqn:H6;
    repeat match goal with
           | H : (_ <? _) = true |- _ => apply Z.ltb_lt in H
           | H : (_ <? _) = false |- _ => apply Z.ltb_ge in H
           end;
    try lia;
    clear H1 H2 H3 H4 H5 H6 Hle;
    (destruct preset; [contradiction Hpreset; reflexivity | |]);
    cbn; conjs; try lia; try (unfold Qle, Qlt; cbn; lia).
Qed.

Lemma MAX_DIMENSION_pos : forall settings, 0 < MAX_DIMENSION settings.
Proof.
  intros s. unfold MAX_DIMENSION.
  destruct (isVeryLargeFile s); [lia |]. destruct (isLargeFile s); lia.
Qed.

Lemma inject_pos : forall z, 0 < z -> (0 < inject_Z z)%Q.
Proof. intros z H. change 0%Q with (inject_Z 0). rewrite <- Zlt_Qlt. exact H. Qed.

Lemma quotient_times :
  forall m c, 0 < c -> (inject_Z m / inject_Z c * inject_Z c == inject_Z m)%Q.
Proof.
  intros m c Hc. rewrite Qmult_comm. apply Qmult_div_r.
  intros H. unfold Qeq in H. cbn in H. lia.
Qed.

Lemma quotient_pos :
  forall m c, 0 < m -> 0 < c -> (0 < inject_Z m / inject_Z c)%Q.
Proof.
  intros m c Hm Hc. unfold Qdiv. apply Qmult_lt_0_compat.
  - apply inject_pos. exact Hm.
  - apply Qinv_lt_0_compat. apply inject_pos. exact Hc.
Qed.

Lemma quotient_below_one :
  forall m c, 0 < m -> m < c -> (inject_Z m / inject_Z c <= 1)%Q.
Proof.
  intros m c Hm Hc. apply Qle_shift_div_r; [apply inject_pos; lia |].
  rewrite Qmult_1_l. rewrite <- Zle_Qle. lia.
Qed.

Lemma scaled_bound :
  forall l m c,
    0 < c -> (l <= inject_Z m / inject_Z c)%Q -> (l * inject_Z c <= inject_Z m)%Q.
Proof.
  intros l m c Hc Hl. rewrite <- (quotient_times m c Hc).
  apply Qmult_le_compat_r; [exact Hl |]. apply Qlt_le_weak. apply inject_pos. exact Hc.
Qed.

(** The factor by which an oversized canvas is scaled down. *)
Lemma limitScale_spec :
  forall limit w h,
    0 < limit -> 0 <= w -> 0 <= h -> limit < w \/ limit < h ->
    exists l,
      js_min (js_div limit w) (js_div limit h) = Fin l /\
      (0 < l)%Q /\ (l <= 1)%Q /\
      (0 < w -> (l * inject_Z w <= inject_Z limit)%Q) /\
      (0 < h -> (l * inject_Z h <= inject_Z limit)%Q).
Proof.
  intros m w h Hm Hw Hh Hover. unfold js_div.
  assert (Hm0 : (m =? 0) = false) by (apply Z.eqb_neq; lia).
  assert (Hmp : (0 <? m) = true) by (apply Z.ltb_lt; lia).
  rewrite Hm0, Hmp.
  destruct (w =? 0) eqn:Hw0; destruct (h =? 0) eqn:Hh0;
    repeat match goal with
           | H : (_ =? _) = true |- _ => apply Z.eqb_eq in H
           | H : (_ =? _) = false |- _ => apply Z.eqb_neq in H
           end.
  - lia.
  - exists (inject_Z m / inject_Z h)%Q. cbn [js_min].
    conjs; try reflexivity.
    + apply quotient_pos; lia.
    + apply quotient_below_one; lia.
    + lia.
    + intros _. apply scaled_bound; [lia | apply Qle_refl].
  - exists (inject_Z m / inject_Z w)%Q. cbn [js_min].
    conjs; try reflexivity.
    + apply quotient_pos; lia.
    + apply quotient_below_one; lia.
    + intros _. apply scaled_bound; [lia | apply Qle_refl].
    + lia.
  - exists (js_minQ (inject_Z m / inject_Z w) (inject_Z m / inject_Z h)). cbn [js_min].
    conjs; try reflexivity.
    + destruct (js_minQ_cases (inject_Z m / inject_Z w) (inject_Z m / inject_Z h)) as [H | H];
        rewrite H; apply quotient_pos; lia.
    + destruct Hover as [Hover | Hover].
      * eapply Qle_trans; [apply js_minQ_le_l | apply quotient_below_one; lia].
      * eapply Qle_trans; [apply js_minQ_le_r | apply quotient_below_one; lia].
    + intros _. apply scaled_bound; [lia | apply js_minQ_le_l].
    + intros _. apply scaled_bound; [lia | apply js_minQ_le_r].
Qed.

Lemma floor_nonneg : forall x, (0 <= x)%Q -> 0 <= Qfloor x.
Proof. intros x H. change 0 with (Qfloor (inject_Z 0)). apply Qfloor_resp_le. exact H. Qed.

(** Scaling by the limiting factor brings the floor within the limit. *)
Lemma floor_scaled :
  forall x l limit,
    (0 <= x)%Q -> (0 < l)%Q -> (l <= 1)%Q -> 0 < limit ->
    (0 < Qfloor x -> (l * inject_Z (Qfloor x) <= inject_Z limit)%Q) ->
    (limit < Qfloor x \/ Qfloor x <= limit) ->
    0 <= Qfloor (x * l) <= limit.
Proof.
  intros x l m Hx Hl Hl1 Hm Hbound _. split.
  - apply floor_nonneg. apply Qmult_le_0_compat; [exact Hx | apply Qlt_le_weak; exact Hl].
  - destruct (Z_lt_le_dec m (Qfloor x)) as [Hover | Hfits].
    + assert (Hc : 0 < Qfloor x) by lia.
      specialize (Hbound Hc).
      pose proof (Qlt_floor x) as Hup.
      assert (Hc1 : (inject_Z m + 1 <= inject_Z (Qfloor x))%Q).
      { change 1%Q with (inject_Z 1). rewrite <- inject_Z_plus, <- Zle_Qle. lia. }
      rewrite inject_Z_plus in Hup. change (inject_Z 1) with 1%Q in Hup.
      set (c := inject_Z (Qfloor x)) in *. set (mq := inject_Z m) in *.
      assert (Hlt : (x * l < mq + 1)%Q) by nra.
      assert (Hfl : (inject_Z (Qfloor (x * l)) < inject_Z (m + 1))%Q).
      { eapply Qle_lt_trans; [apply Qfloor_le |].
        rewrite inject_Z_plus. exact Hlt. }
      rewrite <- Zlt_Qlt in Hfl. lia.
    + apply (Z.le_trans _ (Qfloor x)); [| exact Hfits].
      apply Qfloor_resp_le. nra.
Qed.

(** X29: the canvas a page is rendered to never exceeds the limit of its
    size class (1536, 2560 or 4096 pixels) in either direction, whatever
    the page's dimensions: when the first computation exceeds it, the
    second one, with the scale reduced, does not.  The scale stays
    positive and at most 2.5. *)
Theorem canvas_never_exceeds_the_limit :
  forall settings width height,
    0 < TARGET_DPI settings ->
    (0 <= width)%Q -> (0 <= height)%Q ->
    0 <= canvasWidth (canvasFor settings width height) <= MAX_DIMENSION settings /\
    0 <= canvasHeight (canvasFor settings width height) <= MAX_DIMENSION settings /\
    (0 < canvasScale (canvasFor settings width height) <= 25 # 10)%Q.
Proof.
  intros settings width height Hdpi Hwidth Hheight.
  unfold canvasFor.
  pose proof (MAX_DIMENSION_pos settings) as Hlimit.
  set (limit := MAX_DIMENSION settings) in *.
  set (scale := js_minQ (inject_Z (TARGET_DPI settings) / inject_Z 72) (25 # 10)).
  assert (Hscale : (0 < scale)%Q).
  { subst scale.
    destruct (js_minQ_cases (inject_Z (TARGET_DPI settings) / inject_Z 72) (25 # 10)) as [H | H];
      rewrite H; [apply quotient_pos; lia | reflexivity]. }
  assert (Hcap : (scale <= 25 # 10)%Q) by apply js_minQ_le_r.
  assert (Hw : (0 <= width * scale)%Q)
    by (apply Qmult_le_0_compat; [exact Hwidth | apply Qlt_le_weak; exact Hscale]).
  assert (Hh : (0 <= height * scale)%Q)
    by (apply Qmult_le_0_compat; [exact Hheight | apply Qlt_le_weak; exact Hscale]).
  pose proof (floor_nonneg _ Hw) as Hcw. pose proof (floor_nonneg _ Hh) as Hch.
  destruct ((limit <? Qfloor (width * scale)) || (limit <? Qfloor (height * scale)))%bool
    eqn:Hover.
  - apply orb_true_iff in Hover. rewrite !Z.ltb_lt in Hover.
    destruct (limitScale_spec limit _ _ Hlimit Hcw Hch Hover)
      as [l [Hmin [Hl [Hl1 [Hlw Hlh]]]]].
    rewrite Hmin. cbn [canvasWidth canvasHeight canvasScale].
    rewrite !Qmult_assoc.
    conjs.
    + apply (floor_scaled (width * scale) l limit); try assumption. lia.
    + apply (floor_scaled (width * scale) l limit); try assumption. lia.
    + apply (floor_scaled (height * scale) l limit); try assumption. lia.
    + apply (floor_scaled (height * scale) l limit); try assumption. lia.
    + nra.
    + nra.
  - apply orb_false_iff in Hover. rewrite !Z.ltb_ge in Hover.
    cbn [canvasWidth canvasHeight canvasScale]. conjs; try lia; assumption.
Qed.

(* ===================================================================== *)
(** * The compression worker *)
(* ===================================================================== *)

(** Where there is no [window] the worker answers every task with the
    loader's error. *)
Lemma handleCompressChunk_without_window :
  forall ww referenceError message,
    ww_scope ww = NoWindow referenceError ->
    handleCompressChunk ww message
    = PostsError ("Failed to load WASM: " ++ referenceError).
Proof.
  intros ww msg message Hscope. unfold handleCompressChunk. rewrite Hscope. reflexivity.
Qed.

Lemma loader_prefix_hides_nothing (b pat : string) :
  In pat ["invalid pdf"; "not a valid pdf"; "out of memory"; "memory"; "heap"]%string ->
  includes ("failed to load wasm: " ++ b) pat = includes b pat.
Proof.
  intros [<- | [<- | [<- | [<- | [<- | []]]]]]; reflexivity.
Qed.

(** The loader's error is an engine failure for the classifier, unless the
    message it wraps already speaks of an invalid PDF or of memory. *)
Lemma loader_error_class :
  forall msg,
    classifyError (Error msg) <> INVALID_PDF ->
    classifyError (Error msg) <> OUT_OF_MEMORY ->
    classifyError (Error ("Failed to load WASM: " ++ msg)) = WASM_LOAD_FAILED.
Proof.
  intros msg Hpdf Hmemory. unfold classifyError in *. cbn [error_message] in *.
  cbv zeta in *. rewrite toLowerCase_app.
  change (toLowerCase "Failed to load WASM: ") with "failed to load wasm: ".
  rewrite !loader_prefix_hides_nothing by (cbn; tauto).
  destruct (includes (toLowerCase msg) "invalid pdf"); [contradiction Hpdf; reflexivity |].
  destruct (includes (toLowerCase msg) "not a valid pdf");
    [contradiction Hpdf; reflexivity |].
  cbn [orb] in *.
  destruct (includes (toLowerCase msg) "out of memory");
    [contradiction Hmemory; reflexivity |].
  destruct (includes (toLowerCase msg) "memory"); [contradiction Hmemory; reflexivity |].
  destruct (includes (toLowerCase msg) "heap"); [contradiction Hmemory; reflexivity |].
  cbn [orb].
  rewrite (includes_app_l "wasm" "failed to load wasm: " (toLowerCase msg) eq_refl).
  reflexivity.
Qed.

(** A chunk loop that gets through at least one chunk had an answer from a
    worker. *)
Lemma chunkLoop_resolved_had_answer env pdfBuffer options totalPages chunkSize :
  forall remaining i compressedChunks chunkStats (s s' : PassState) result,
    chunkLoop env pdfBuffer options totalPages chunkSize (S remaining) i
              compressedChunks chunkStats s = (s', Resolved result) ->
    exists m reply, env_compressWorker env m = PostsChunkComplete reply.
Proof.
  intros remaining i cc cs s s' result Hloop.
  cbn [chunkLoop] in Hloop. cbv zeta in Hloop.
  apply bind_resolved_inv in Hloop. destruct Hloop as (t1 & [] & _ & Hloop).
  apply bind_resolved_inv in Hloop. destruct Hloop as (t2 & chunkPdf & _ & Hloop).
  apply bind_resolved_inv in Hloop. destruct Hloop as (t3 & [] & _ & Hloop).
  apply bind_resolved_inv in Hloop. destruct Hloop as (t4 & [compressed after] & Hchunk & _).
  unfold compressChunk in Hchunk. cbv zeta in Hchunk.
  apply bind_resolved_inv in Hchunk. destruct Hchunk as (t5 & [] & _ & Hchunk).
  destruct (env_compressWorker env _) eqn:Hworker; unfold ret, throw in Hchunk;
    inversion Hchunk. eauto.
Qed.

(** A pass over a document with at least one page is rejected when no
    worker ever posts [chunk-complete]. *)
Lemma pass_needs_an_answer env pdfBuffer options acts out totalPages :
  compressWithPreset env pdfBuffer options = (acts, out) ->
  env_pageCount env pdfBuffer = LibOk totalPages ->
  0 < totalPages ->
  0 < resolveChunkSize env options totalPages (byteLength pdfBuffer) ->
  (forall m reply, env_compressWorker env m <> PostsChunkComplete reply) ->
  exists e, out = Rejected e.
Proof.
  intros Hpass Hcount Hpages Hsize Hworker.
  unfold compressWithPreset in Hpass.
  destruct (compressWithPreset_body _ _ _ _) as [s' o] eqn:Hbody.
  inversion Hpass; subst acts out. clear Hpass.
  assert (Hrejects :
            triple (fun _ => True) (compressWithPreset_body env pdfBuffer options)
                   (fun _ o => exists e, o = Rejected e)).
  { unfold compressWithPreset_body.
    apply settles_then; [apply settles_track | intros _ | eauto].
    apply settles_then; [apply settles_perform | intros _ | eauto].
    unfold countPages. rewrite Hcount.
    assert (Hskip : forall (k : Z -> Pass PassResult) Q0,
               triple (fun _ => True) (k totalPages) Q0 ->
               triple (fun _ => True) (bind (await (Resolved totalPages)) k) Q0).
    { intros k Q0 H s1 s2 o1 Hs Hrun. exact (H s1 s2 o1 Hs Hrun). }
    apply Hskip. clear Hskip. cbv zeta.
    apply settles_then; [apply settles_track | intros _ | eauto].
    apply settles_then; [apply settles_track | intros _ | eauto].
    apply settles_then; [apply settles_metadataIfPreserved | intros metadata | eauto].
    apply settles_then; [apply settles_track | intros _ | eauto].
    pose proof (ceilDiv_pos totalPages _ Hsize Hpages) as Hchunks.
    destruct (Z.to_nat (ceilDiv totalPages
                          (resolveChunkSize env options totalPages (byteLength pdfBuffer))))
      as [| remaining] eqn:Hn; [lia |].
    eapply triple_bind with (R := fun _ o1 => exists e, o1 = Rejected e).
    - intros s1 s2 o1 _ Hloop. destruct o1 as [result | e |].
      + exfalso. destruct (chunkLoop_resolved_had_answer _ _ _ _ _ _ _ _ _ _ _ _ Hloop)
          as (m & reply & Hreply).
        exact (Hworker _ _ Hreply).
      + eauto.
      + exfalso. exact (settles_chunkLoop _ _ _ _ _ _ _ _ _ _ _ _ I Hloop eq_refl).
    - intros a s1 s2 o1 [e He]. discriminate He.
    - intros s1 e _. exists e. reflexivity.
    - intros s1 [e He]. discriminate He. }
  exact (Hrejects _ _ _ I Hbody).
Qed.

(** X30: the repository's compression worker, run as a dedicated worker,
    where there is no [window].  Its loader throws at its first statement,
    so every task is answered with 'Failed to load WASM: ' and the engine's
    message, and [compressChunk] is rejected with that or, when the answer
    comes too late, with the timer's error.  The loader's error counts as
    an engine failure, after which the degradation handler never retries,
    unless the engine's message itself speaks of an invalid PDF or of
    memory.  No chunk is ever compressed: for a document with at least one
    page and a positive chunk size [compress] returns the original bytes
    with the fallback warning when degradation is enabled, and is rejected
    with a plain [Error] when it is disabled. *)
Theorem dedicated_worker_never_compresses :
  forall env ww referenceError pdfBuffer options preset totalPages log out,
    (forall m, env_compressWorker env m = compressionWorker ww m) ->
    ww_scope ww = NoWindow referenceError ->
    parsePreset (presetOrDefault (in_preset options)) = Some preset ->
    env_loadWASM env (in_wasmUrl options) = WasmLoaded ->
    isValidPDF pdfBuffer = true ->
    env_pageCount env pdfBuffer = LibOk totalPages ->
    0 < totalPages ->
    0 < resolveChunkSize env (fullOptions options preset) totalPages (byteLength pdfBuffer) ->
    compress env (AnArrayBuffer pdfBuffer) options = (log, out) ->
    (forall m,
        handleCompressChunk ww m = PostsError ("Failed to load WASM: " ++ referenceError)) /\
    (forall chunkPdf chunkOptions chunkIndex s,
        snd (compressChunk env chunkPdf chunkOptions chunkIndex s)
        = Rejected
            (Error (if ww_inTime ww
                    then "Failed to load WASM: " ++ referenceError
                    else "Chunk " ++ show_Z chunkIndex ++ " compression timed out after " ++
                         show_Z (or_default_Z (opt_timeout chunkOptions) 300000) ++ "ms"))) /\
    (classifyError (Error referenceError) <> INVALID_PDF ->
     classifyError (Error referenceError) <> OUT_OF_MEMORY ->
     classifyError (Error ("Failed to load WASM: " ++ referenceError)) = WASM_LOAD_FAILED /\
     forall p degrade callback,
       shouldRetry
         (snd (handleErrorWithGracefulDegradation
                 (Error ("Failed to load WASM: " ++ referenceError)) p degrade callback))
       = false) /\
    (forall p acts result,
        compressWithPreset env pdfBuffer (withPreset (fullOptions options preset) p)
        <> (acts, Resolved result)) /\
    (if not_false (in_gracefulDegradation options)
     then out = Resolved (originalPdfResult env pdfBuffer (fullOptions options preset))
     else exists msg, out = Rejected (Error msg)).
Proof.
  intros env ww referenceError pdfBuffer options preset totalPages log out
         Hworker Hscope Hpreset Hload Hvalid Hcount Hpages Hsize Hrun.
  assert (Hanswer : forall m,
             handleCompressChunk ww m
             = PostsError ("Failed to load WASM: " ++ referenceError)).
  { intros m. apply handleCompressChunk_without_window. exact Hscope. }
  assert (Hnever : forall m reply, env_compressWorker env m <> PostsChunkComplete reply).
  { intros m reply. rewrite Hworker. unfold compressionWorker. rewrite Hanswer.
    destruct (ww_inTime ww); discriminate. }
  assert (Hrejected : forall p acts o,
             compressWithPreset env pdfBuffer (withPreset (fullOptions options preset) p)
             = (acts, o) -> exists e, o = Rejected e).
  { intros p acts o Hpass.
    exact (pass_needs_an_answer _ _ _ _ _ _ Hpass Hcount Hpages Hsize Hnever). }
  conjs.
  - exact Hanswer.
  - intros chunkPdf chunkOptions chunkIndex s.
    unfold compressChunk, bind, perform. rewrite Hworker. unfold compressionWorker.
    rewrite Hanswer. destruct (ww_inTime ww); reflexivity.
  - intros Hpdf Hmemory. split; [apply loader_error_class; assumption |].
    intros p degrade callback. apply handler_refuses_nonrecoverable.
    rewrite loader_error_class by assumption. reflexivity.
  - intros p acts result Hpass. destruct (Hrejected _ _ _ Hpass) as [e He]. discriminate He.
  - destruct (compress_ran _ _ _ _ _ _ Hpreset Hload Hvalid Hrun)
      as (steps & untried & _ & _ & _ & _ & Hend).
    destruct Hend as (earlier & p & acts & _ & Hend).
    destruct out as [r | e |].
    + destruct Hend as [(result & Hpass & _) | (e & _ & Hdegrade & ->)].
      * destruct (Hrejected _ _ _ Hpass) as [e He]. discriminate He.
      * cbn [opt_gracefulDegradation fullOptions] in Hdegrade.
        destruct (in_gracefulDegradation options) as [[|] |]; try discriminate; reflexivity.
    + destruct Hend as (Hpass & Hoff).
      cbn [opt_gracefulDegradation fullOptions] in Hoff.
      destruct (rejected_pass_throws_plain _ _ _ _ _ Hpass) as [msg ->].
      destruct (in_gracefulDegradation options) as [[|] |]; try discriminate.
      cbn [not_false]. exists msg. reflexivity.
    + destruct (Hrejected _ _ _ Hend) as [e He]. discriminate He.
Qed.

(* ===================================================================== *)
(** * The chunk plan of a pass *)
(* ===================================================================== *)




Section PlanOfAPass.

Variable env : Env.
Variable pdfBuffer : ArrayBuffer.
Variable options : CompressionOptions.
Variable totalPages chunkSize : Z.










Hypothesis pages_counted : env_pageCount env pdfBuffer = LibOk totalPages.
Hypothesis size_resolved :
  chunkSize = resolveChunkSize env options totalPages (byteLength pdfBuffer).


End PlanOfAPass.




(* ===================================================================== *)
(** * The theorems above, on concrete jobs *)
(* ===================================================================== *)

Lemma attempts_follow_the_chain_witness :
  (exists untried,
      getPresetFallbackChain Max
      = attemptedPresets
          (fst (compress (Scenario.world 3 Scenario.pickyWorker)
                         (AnArrayBuffer Scenario.samplePdf)
                         (Scenario.job "max" false None None))) ++ untried) /\
  NoDup (attemptedPresets
           (fst (compress (Scenario.world 3 Scenario.pickyWorker)
                          (AnArrayBuffer Scenario.samplePdf)
                          (Scenario.job "max" false None None)))) /\
  (forall p,
      In p (removelast
              (attemptedPresets
                 (fst (compress (Scenario.world 3 Scenario.pickyWorker)
                                (AnArrayBuffer Scenario.samplePdf)
                                (Scenario.job "max" false None None))))) ->
      exists acts e,
        compressWithPreset (Scenario.world 3 Scenario.pickyWorker) Scenario.samplePdf
                           (withPreset (Scenario.fullJob Max false None None) p)
        = (acts, Rejected e)).
Proof.
  apply (attempts_follow_the_chain
           (Scenario.world 3 Scenario.pickyWorker) Scenario.samplePdf
           (Scenario.job "max" false None None) Max
           (fst (compress (Scenario.world 3 Scenario.pickyWorker)
                          (AnArrayBuffer Scenario.samplePdf)
                          (Scenario.job "max" false None None)))
           (snd (compress (Scenario.world 3 Scenario.pickyWorker)
                          (AnArrayBuffer Scenario.samplePdf)
                          (Scenario.job "max" false None None)))).
  - reflexivity.
  - vm_compute. reflexivity.
Defined.

Lemma degradation_never_rejects_witness :
  (exists result,
      snd (compress (Scenario.world 3 Scenario.placeholderWorker)
                    (AnArrayBuffer Scenario.samplePdf)
                    (Scenario.job "max" true None None)) = Resolved result) \/
  snd (compress (Scenario.world 3 Scenario.placeholderWorker)
                (AnArrayBuffer Scenario.samplePdf)
                (Scenario.job "max" true None None)) = Pending.
Proof.
  apply (degradation_never_rejects
           (Scenario.world 3 Scenario.placeholderWorker) Scenario.samplePdf
           (Scenario.job "max" true None None) Max
           (fst (compress (Scenario.world 3 Scenario.placeholderWorker)
                          (AnArrayBuffer Scenario.samplePdf)
                          (Scenario.job "max" true None None)))).
  - reflexivity.
  - reflexivity.
  - reflexivity.
  - reflexivity.
  - vm_compute. reflexivity.
Defined.

Lemma warning_tells_what_was_returned_witness :
  exists earlier used acts,
    attemptedPresets
      (fst (compress (Scenario.world 3 Scenario.pickyWorker)
                     (AnArrayBuffer Scenario.samplePdf)
                     (Scenario.job "max" false None None))) = earlier ++ [used] /\
    match
      warning (Example.resultOf (Scenario.world 3 Scenario.pickyWorker)
                 (snd (compress (Scenario.world 3 Scenario.pickyWorker)
                                (AnArrayBuffer Scenario.samplePdf)
                                (Scenario.job "max" false None None))))
    with
    | None =>
        earlier = [] /\ used = Max /\
        exists result,
          compressWithPreset (Scenario.world 3 Scenario.pickyWorker) Scenario.samplePdf
                             (fullOptions (Scenario.job "max" false None None) Max)
          = (acts, Resolved result) /\
          Example.resultOf (Scenario.world 3 Scenario.pickyWorker)
            (snd (compress (Scenario.world 3 Scenario.pickyWorker)
                           (AnArrayBuffer Scenario.samplePdf)
                           (Scenario.job "max" false None None)))
          = passResult (Scenario.world 3 Scenario.pickyWorker)
                       (fullOptions (Scenario.job "max" false None None) Max) Max result
    | Some w =>
        (w = ("Original preset '" ++ preset_name Max ++ "' failed, used '" ++
              preset_name used ++ "' instead.")%string /\
         used <> Max /\
         exists result,
           compressWithPreset (Scenario.world 3 Scenario.pickyWorker) Scenario.samplePdf
             (withPreset (fullOptions (Scenario.job "max" false None None) Max) used)
           = (acts, Resolved result) /\
           Example.resultOf (Scenario.world 3 Scenario.pickyWorker)
             (snd (compress (Scenario.world 3 Scenario.pickyWorker)
                            (AnArrayBuffer Scenario.samplePdf)
                            (Scenario.job "max" false None None)))
           = passResult (Scenario.world 3 Scenario.pickyWorker)
                        (fullOptions (Scenario.job "max" false None None) Max) used result) \/
        (w = "Compression failed. Returning original PDF." /\
         Example.resultOf (Scenario.world 3 Scenario.pickyWorker)
           (snd (compress (Scenario.world 3 Scenario.pickyWorker)
                          (AnArrayBuffer Scenario.samplePdf)
                          (Scenario.job "max" false None None)))
         = originalPdfResult (Scenario.world 3 Scenario.pickyWorker) Scenario.samplePdf
                             (fullOptions (Scenario.job "max" false None None) Max) /\
         exists e,
           compressWithPreset (Scenario.world 3 Scenario.pickyWorker) Scenario.samplePdf
             (withPreset (fullOptions (Scenario.job "max" false None None) Max) used)
           = (acts, Rejected e))
    end.
Proof.
  apply (warning_tells_what_was_returned
           (Scenario.world 3 Scenario.pickyWorker) Scenario.samplePdf
           (Scenario.job "max" false None None) Max
           (fst (compress (Scenario.world 3 Scenario.pickyWorker)
                          (AnArrayBuffer Scenario.samplePdf)
                          (Scenario.job "max" false None None)))
           (Example.resultOf (Scenario.world 3 Scenario.pickyWorker)
              (snd (compress (Scenario.world 3 Scenario.pickyWorker)
                             (AnArrayBuffer Scenario.samplePdf)
                             (Scenario.job "max" false None None))))).
  - reflexivity.
  - vm_compute. reflexivity.
Defined.

Lemma returned_statistics_are_consistent_witness :
  compressedSize
    (stats (Example.resultOf (Scenario.world 3 Scenario.halvingWorker)
              (snd (compress (Scenario.world 3 Scenario.halvingWorker)
                             (AnArrayBuffer Scenario.samplePdf)
                             (Scenario.job "balanced" true (Some 2) None)))))
  = byteLength
      (pdf (Example.resultOf (Scenario.world 3 Scenario.halvingWorker)
              (snd (compress (Scenario.world 3 Scenario.halvingWorker)
                             (AnArrayBuffer Scenario.samplePdf)
                             (Scenario.job "balanced" true (Some 2) None))))) /\
  bytesSaved
    (stats (Example.resultOf (Scenario.world 3 Scenario.halvingWorker)
              (snd (compress (Scenario.world 3 Scenario.halvingWorker)
                             (AnArrayBuffer Scenario.samplePdf)
                             (Scenario.job "balanced" true (Some 2) None)))))
  = originalSize
      (stats (Example.resultOf (Scenario.world 3 Scenario.halvingWorker)
                (snd (compress (Scenario.world 3 Scenario.halvingWorker)
                               (AnArrayBuffer Scenario.samplePdf)
                               (Scenario.job "balanced" true (Some 2) None)))))
    - compressedSize
        (stats (Example.resultOf (Scenario.world 3 Scenario.halvingWorker)
                  (snd (compress (Scenario.world 3 Scenario.halvingWorker)
                                 (AnArrayBuffer Scenario.samplePdf)
                                 (Scenario.job "balanced" true (Some 2) None))))) /\
  processingTime
    (stats (Example.resultOf (Scenario.world 3 Scenario.halvingWorker)
              (snd (compress (Scenario.world 3 Scenario.halvingWorker)
                             (AnArrayBuffer Scenario.samplePdf)
                             (Scenario.job "balanced" true (Some 2) None)))))
  = env_endTime (Scenario.world 3 Scenario.halvingWorker)
    - env_startTime (Scenario.world 3 Scenario.halvingWorker).
Proof.
  apply (returned_statistics_are_consistent
           (Scenario.world 3 Scenario.halvingWorker) (AnArrayBuffer Scenario.samplePdf)
           (Scenario.job "balanced" true (Some 2) None)
           (fst (compress (Scenario.world 3 Scenario.halvingWorker)
                          (AnArrayBuffer Scenario.samplePdf)
                          (Scenario.job "balanced" true (Some 2) None)))).
  vm_compute. reflexivity.
Defined.

Lemma rejections_of_compress_witness :
  in_gracefulDegradation (Scenario.job "balanced" false None (Some false)) = Some false /\
  exists pdfBuffer preset acts,
    AnArrayBuffer Scenario.samplePdf = AnArrayBuffer pdfBuffer /\
    parsePreset (presetOrDefault
                   (in_preset (Scenario.job "balanced" false None (Some false))))
    = Some preset /\
    attemptedPresets
      (fst (compress Scenario.unreadable (AnArrayBuffer Scenario.samplePdf)
                     (Scenario.job "balanced" false None (Some false)))) = [preset] /\
    compressWithPreset Scenario.unreadable pdfBuffer
                       (fullOptions (Scenario.job "balanced" false None (Some false)) preset)
    = (acts, Rejected (Error "Failed to count pages: No PDF header found")).
Proof.
  apply (rejections_of_compress
           Scenario.unreadable (AnArrayBuffer Scenario.samplePdf)
           (Scenario.job "balanced" false None (Some false))
           (fst (compress Scenario.unreadable (AnArrayBuffer Scenario.samplePdf)
                          (Scenario.job "balanced" false None (Some false))))
           (Error "Failed to count pages: No PDF header found")).
  vm_compute. reflexivity.
Defined.

Lemma compress_stays_pending_for_two_reasons_witness :
  (env_loadWASM (Example.silentMerge 2) (in_wasmUrl (Scenario.job "balanced" false (Some 1) None))
   = WasmNeverLoads /\
   attemptedPresets
     (fst (compress (Example.silentMerge 2) (AnArrayBuffer Scenario.samplePdf)
                    (Scenario.job "balanced" false (Some 1) None))) = []) \/
  (env_loadWASM (Example.silentMerge 2) (in_wasmUrl (Scenario.job "balanced" false (Some 1) None))
   = WasmLoaded /\
   in_mergeStrategy (Scenario.job "balanced" false (Some 1) None) <> Some StrategyMain /\
   exists earlier p acts m transferList,
     attemptedPresets
       (fst (compress (Example.silentMerge 2) (AnArrayBuffer Scenario.samplePdf)
                      (Scenario.job "balanced" false (Some 1) None))) = earlier ++ [p] /\
     In (Attempt p acts)
        (fst (compress (Example.silentMerge 2) (AnArrayBuffer Scenario.samplePdf)
                       (Scenario.job "balanced" false (Some 1) None))) /\
     In (PostMergeChunks m transferList) acts /\
     mw_terminal (env_mergeWorker (Example.silentMerge 2) m) = MergeStaysSilent).
Proof.
  apply (compress_stays_pending_for_two_reasons
           (Example.silentMerge 2) (AnArrayBuffer Scenario.samplePdf)
           (Scenario.job "balanced" false (Some 1) None)).
  vm_compute. reflexivity.
Defined.

Lemma shipped_worker_scripts_never_compress_witness :
  snd (compress (Example.shipped 3) (AnArrayBuffer Scenario.samplePdf)
                (Scenario.job "max" true None None))
  = Resolved (originalPdfResult (Example.shipped 3) Scenario.samplePdf
                                (Scenario.fullJob Max true None None)).
Proof.
  apply (shipped_worker_scripts_never_compress
           (Example.shipped 3) Scenario.samplePdf (Scenario.job "max" true None None) Max
           (fst (compress (Example.shipped 3) (AnArrayBuffer Scenario.samplePdf)
                          (Scenario.job "max" true None None)))).
  - intros m. reflexivity.
  - intros m. reflexivity.
  - reflexivity.
  - reflexivity.
  - reflexivity.
  - discriminate.
  - vm_compute. reflexivity.
Defined.

Lemma chunk_tasks_follow_the_attempt_witness :
  Forall (fun m =>
            ccm_preset m = Balanced /\
            ccm_options m
            = {| wo_targetDPI := in_targetDPI (Scenario.job "balanced" false (Some 1) None);
                 wo_jpegQuality := in_jpegQuality (Scenario.job "balanced" false (Some 1) None);
                 wo_preserveMetadata :=
                   in_preserveMetadata (Scenario.job "balanced" false (Some 1) None);
                 wo_enableRasterization :=
                   in_enableRasterization (Scenario.job "balanced" false (Some 1) None) |})
         (postedChunks
            (fst (compressWithPreset (Scenario.world 3 Scenario.halvingWorker)
                                     Scenario.samplePdf
                                     (Scenario.fullJob Balanced false (Some 1) None)))) /\
  map ccm_chunkIndex
      (postedChunks
         (fst (compressWithPreset (Scenario.world 3 Scenario.halvingWorker)
                                  Scenario.samplePdf
                                  (Scenario.fullJob Balanced false (Some 1) None))))
  = indicesBelow
      (List.length
         (postedChunks
            (fst (compressWithPreset (Scenario.world 3 Scenario.halvingWorker)
                                     Scenario.samplePdf
                                     (Scenario.fullJob Balanced false (Some 1) None))))).
Proof.
  apply (chunk_tasks_follow_the_attempt
           (Scenario.world 3 Scenario.halvingWorker) Scenario.samplePdf
           (Scenario.job "balanced" false (Some 1) None) Balanced
           (fst (compress (Scenario.world 3 Scenario.halvingWorker)
                          (AnArrayBuffer Scenario.samplePdf)
                          (Scenario.job "balanced" false (Some 1) None)))
           (snd (compress (Scenario.world 3 Scenario.halvingWorker)
                          (AnArrayBuffer Scenario.samplePdf)
                          (Scenario.job "balanced" false (Some 1) None)))).
  - reflexivity.
  - vm_compute. reflexivity.
  - vm_compute. right. left. reflexivity.
Defined.

Lemma metadata_is_read_only_on_request_witness :
  In CallExtractMetadata
     (fst (compressWithPreset (Scenario.world 3 Scenario.halvingWorker) Scenario.samplePdf
             (fullOptions (Example.keepingMetadata "balanced" (Some 2)) Balanced))) <->
  in_preserveMetadata (Example.keepingMetadata "balanced" (Some 2)) = Some true /\
  exists totalPages,
    env_pageCount (Scenario.world 3 Scenario.halvingWorker) Scenario.samplePdf
    = LibOk totalPages.
Proof.
  apply (metadata_is_read_only_on_request
           (Scenario.world 3 Scenario.halvingWorker) Scenario.samplePdf
           (Example.keepingMetadata "balanced" (Some 2)) Balanced
           (fst (compress (Scenario.world 3 Scenario.halvingWorker)
                          (AnArrayBuffer Scenario.samplePdf)
                          (Example.keepingMetadata "balanced" (Some 2))))
           (snd (compress (Scenario.world 3 Scenario.halvingWorker)
                          (AnArrayBuffer Scenario.samplePdf)
                          (Example.keepingMetadata "balanced" (Some 2))))
           Balanced).
  - reflexivity.
  - vm_compute. reflexivity.
  - vm_compute. right. left. reflexivity.
Defined.

Lemma merge_strategy_does_not_change_the_outcome_witness :
  snd (compress (Scenario.world 3 Scenario.halvingWorker) (AnArrayBuffer Scenario.samplePdf)
                (setMergeStrategy (Scenario.job "balanced" true (Some 1) None) None))
  = snd (compress (Scenario.world 3 Scenario.halvingWorker) (AnArrayBuffer Scenario.samplePdf)
                  (setMergeStrategy (Scenario.job "balanced" true (Some 1) None)
                                    (Some StrategyMain))).
Proof.
  apply (merge_strategy_does_not_change_the_outcome
           (Scenario.world 3 Scenario.halvingWorker) (AnArrayBuffer Scenario.samplePdf)
           (Scenario.job "balanced" true (Some 1) None) None).
  intros m. reflexivity.
Defined.


Lemma silent_worker_times_out_recoverably_witness :
  exists s' e,
    compressChunk (Example.silentChunks 3) (Buf [37; 80; 68; 70])
                  (Scenario.fullJob Balanced false None None) 2 Example.freshPass
    = (s', Rejected e) /\
    classifyError e = TIMEOUT /\
    isRecoverableError (classifyError e) = true /\
    forall preset callback,
      nextPreset (snd (handleErrorWithGracefulDegradation e preset true callback))
      = getFallbackPreset preset.
Proof.
  apply (silent_worker_times_out_recoverably
           (Example.silentChunks 3) (Buf [37; 80; 68; 70])
           (Scenario.fullJob Balanced false None None) 2 Example.freshPass).
  reflexivity.
Defined.

Lemma worker_crash_is_at_least_a_worker_error_witness :
  exists s' e,
    compressChunk (Example.crashing 3) (Buf [37; 80; 68; 70])
                  (Scenario.fullJob Balanced false None None) 0 Example.freshPass
    = (s', Rejected e) /\
    e = Error ("Worker error: " ++ "Script error.")%string /\
    In (classifyError e) [INVALID_PDF; OUT_OF_MEMORY; WASM_LOAD_FAILED; WORKER_ERROR].
Proof.
  apply (worker_crash_is_at_least_a_worker_error
           (Example.crashing 3) (Buf [37; 80; 68; 70])
           (Scenario.fullJob Balanced false None None) 0 Example.freshPass "Script error.").
  reflexivity.
Defined.

Lemma announced_preset_is_next_in_chain_witness :
  isRecoverableError (classifyError (Error "Worker not implemented yet")) = true /\
  exists before next after,
    getPresetFallbackChain Max = before ++ Balanced :: next :: after /\
    nextPreset
      (snd (handleErrorWithGracefulDegradation
              (Error "Worker not implemented yet") Balanced true true)) = Some next /\
    fst (handleErrorWithGracefulDegradation
           (Error "Worker not implemented yet") Balanced true true)
    = if true
      then [ {| phase := ErrorRecovery; progress := 0%Q;
                currentChunk := None; totalChunks := None;
                estimatedTimeRemaining := None;
                message :=
                  Some (preset_name Balanced ++ " compression failed (" ++
                        errorType_name (classifyError (Error "Worker not implemented yet")) ++
                        "). Trying " ++ preset_name next ++ " preset...")%string |} ]
      else [].
Proof.
  apply (announced_preset_is_next_in_chain
           (Error "Worker not implemented yet") Balanced true Max
           (fst (handleErrorWithGracefulDegradation
                   (Error "Worker not implemented yet") Balanced true true))
           (snd (handleErrorWithGracefulDegradation
                   (Error "Worker not implemented yet") Balanced true true))).
  - vm_compute. right. left. reflexivity.
  - vm_compute. reflexivity.
  - vm_compute. reflexivity.
Defined.

Lemma estimate_between_fastest_and_slowest_witness :
  50 * (pt_totalChunks Example.midway - pt_completedChunks Example.midway) <= 120
  <= 70 * (pt_totalChunks Example.midway - pt_completedChunks Example.midway).
Proof.
  apply (estimate_between_fastest_and_slowest Example.midway 50 70 120).
  - repeat constructor; cbn; lia.
  - vm_compute. reflexivity.
Defined.

Lemma automatic_chunk_size_witness :
  resolveChunkSize (Scenario.world 25 Scenario.halvingWorker)
                   (Scenario.fullJob Balanced false None None) 25 8
  = (if (env_isMobile (Scenario.world 25 Scenario.halvingWorker)
         || (5 * 1024 * 1024 * 25 <? 8) || (500 <? 25))%bool
     then 5 else 10) /\
  0 < ceilDiv 25 (resolveChunkSize (Scenario.world 25 Scenario.halvingWorker)
                                   (Scenario.fullJob Balanced false None None) 25 8)
  <= 25 /\
  Forall (fun r => 0 < rangeSize r <= 10)
         (chunkPlan 25 (resolveChunkSize (Scenario.world 25 Scenario.halvingWorker)
                                         (Scenario.fullJob Balanced false None None) 25 8)).
Proof.
  apply (automatic_chunk_size
           (Scenario.world 25 Scenario.halvingWorker)
           (Scenario.fullJob Balanced false None None) 25 8).
  - lia.
  - left. reflexivity.
Defined.

Lemma no_callback_no_events_witness :
  emittedEvents
    (fst (compress (Scenario.world 3 Scenario.pickyWorker) (AnArrayBuffer Scenario.samplePdf)
                   (Scenario.job "max" false (Some 2) None))) = [].
Proof.
  apply (no_callback_no_events
           (Scenario.world 3 Scenario.pickyWorker) (AnArrayBuffer Scenario.samplePdf)
           (Scenario.job "max" false (Some 2) None)).
  reflexivity.
Defined.

Lemma phases_of_an_attempt_are_in_order_witness :
  exists a b c,
    map phase
        (actionEvents
           (fst (compressWithPreset (Scenario.world 3 Scenario.halvingWorker)
                                    Scenario.samplePdf
                                    (Scenario.fullJob Balanced true (Some 2) None))))
    = repeat Chunking a ++ repeat Compressing b ++ repeat Merging c.
Proof.
  apply (phases_of_an_attempt_are_in_order
           (Scenario.world 3 Scenario.halvingWorker) Scenario.samplePdf
           (Scenario.job "balanced" true (Some 2) None) Balanced
           (fst (compress (Scenario.world 3 Scenario.halvingWorker)
                          (AnArrayBuffer Scenario.samplePdf)
                          (Scenario.job "balanced" true (Some 2) None)))
           (snd (compress (Scenario.world 3 Scenario.halvingWorker)
                          (AnArrayBuffer Scenario.samplePdf)
                          (Scenario.job "balanced" true (Some 2) None)))
           Balanced).
  - reflexivity.
  - vm_compute. reflexivity.
  - vm_compute. right. right. left. reflexivity.
Defined.

Lemma completion_event_means_the_pass_resolved_witness :
  ((exists ev,
       In ev (actionEvents
                (fst (compressWithPreset (Scenario.world 3 Scenario.halvingWorker)
                                         Scenario.samplePdf
                                         (Scenario.fullJob Balanced true (Some 2) None)))) /\
       isCompletion ev) <->
   (exists result,
       compressWithPreset (Scenario.world 3 Scenario.halvingWorker) Scenario.samplePdf
                          (withPreset
                             (fullOptions (Scenario.job "balanced" true (Some 2) None) Balanced)
                             Balanced)
       = (fst (compressWithPreset (Scenario.world 3 Scenario.halvingWorker)
                                  Scenario.samplePdf
                                  (Scenario.fullJob Balanced true (Some 2) None)),
          Resolved result))) /\
  (forall ev,
      In ev (actionEvents
               (fst (compressWithPreset (Scenario.world 3 Scenario.halvingWorker)
                                        Scenario.samplePdf
                                        (Scenario.fullJob Balanced true (Some 2) None)))) ->
      isCompletion ev ->
      exists earlier,
        actionEvents
          (fst (compressWithPreset (Scenario.world 3 Scenario.halvingWorker)
                                   Scenario.samplePdf
                                   (Scenario.fullJob Balanced true (Some 2) None)))
        = earlier ++ [ev]).
Proof.
  apply (completion_event_means_the_pass_resolved
           (Scenario.world 3 Scenario.halvingWorker) Scenario.samplePdf
           (Scenario.job "balanced" true (Some 2) None) Balanced
           (fst (compress (Scenario.world 3 Scenario.halvingWorker)
                          (AnArrayBuffer Scenario.samplePdf)
                          (Scenario.job "balanced" true (Some 2) None)))
           (snd (compress (Scenario.world 3 Scenario.halvingWorker)
                          (AnArrayBuffer Scenario.samplePdf)
                          (Scenario.job "balanced" true (Some 2) None)))
           Balanced).
  - reflexivity.
  - reflexivity.
  - vm_compute. reflexivity.
  - vm_compute. right. right. left. reflexivity.
Defined.

Lemma compressor_returns_the_smallest_candidate_witness :
  compressPDF (Example.browser 2 4) Scenario.samplePdf Example.balancedJob
  = (fst Example.balancedRun, Resolved Example.rendered) /\
  originalSize (stats Example.rendered) = byteLength Scenario.samplePdf /\
  bytesSaved (stats Example.rendered)
  = byteLength Scenario.samplePdf - compressedSize (stats Example.rendered).
Proof.
  assert (H : compressPDF (Example.browser 2 4) Scenario.samplePdf Example.balancedJob
              = (fst Example.balancedRun, Resolved Example.rendered))
    by (vm_compute; reflexivity).
  split; [exact H |].
  destruct (compressor_returns_the_smallest_candidate _ _ _ _ _ H) as [Hsize [Hsaved _]].
  split; [exact Hsize | exact Hsaved].
Defined.

Lemma compressor_progress_reaches_100_only_on_success_witness :
  (exists rest,
      expectedValues (Example.browser 2 4) Scenario.samplePdf Example.balancedJob
      = valuesOf (fst Example.balancedRun) ++ rest /\
      ((exists result, snd Example.balancedRun = Resolved result) -> rest = [])) /\
  (forall numPages,
      cw_load (Example.browser 2 4) Scenario.samplePdf = LibOk numPages ->
      Forall (fun v => (45 <= v <= 90)%Q) (pageValues numPages)) /\
  ascending (valuesOf (fst Example.balancedRun)) /\
  Forall (fun ev => phase ev = Compressing /\ (0 <= progress ev <= 100)%Q)
         (fst Example.balancedRun) /\
  ((exists result, snd Example.balancedRun = Resolved result) <->
   In 100%Q (valuesOf (fst Example.balancedRun))) /\
  (In 100%Q (valuesOf (fst Example.balancedRun)) ->
   last (valuesOf (fst Example.balancedRun)) 0%Q = 100%Q) /\
  ((forall result, snd Example.balancedRun <> Resolved result) ->
   Forall (fun ev => (progress ev <= 95)%Q) (fst Example.balancedRun)).
Proof.
  apply (compressor_progress_reaches_100_only_on_success
           (Example.browser 2 4) Scenario.samplePdf Example.balancedJob).
  - reflexivity.
  - vm_compute. reflexivity.
Defined.

Lemma without_a_document_only_lossless_resolves_witness :
  ((exists result,
       snd (compressPDF (Example.headless 2) Scenario.samplePdf Example.balancedJob)
       = Resolved result) <->
   (opt_preset Example.balancedJob = Lossless /\
    exists optimized,
      cw_saveOptimized (Example.headless 2) Scenario.samplePdf = LibOk optimized)) /\
  (opt_preset Example.balancedJob <> Lossless ->
   exists reason,
     snd (compressPDF (Example.headless 2) Scenario.samplePdf Example.balancedJob)
     = Rejected (Error ("PDF compression failed: " ++ reason)%string)).
Proof.
  apply (without_a_document_only_lossless_resolves
           (Example.headless 2) Scenario.samplePdf Example.balancedJob 2).
  - reflexivity.
  - reflexivity.
  - lia.
Defined.

Lemma larger_files_and_max_get_coarser_images_witness :
  TARGET_DPI (imageSettings 62914560 Max) <= TARGET_DPI (imageSettings 1048576 Max) /\
  (imageQuality (imageSettings 62914560 Max) <= imageQuality (imageSettings 1048576 Max))%Q /\
  MAX_DIMENSION (imageSettings 62914560 Max) <= MAX_DIMENSION (imageSettings 1048576 Max) /\
  TARGET_DPI (imageSettings 1048576 Max) < TARGET_DPI (imageSettings 1048576 Balanced) /\
  (imageQuality (imageSettings 1048576 Max)
   < imageQuality (imageSettings 1048576 Balanced))%Q /\
  (0 < imageQuality (imageSettings 1048576 Max) <= getCompressionQuality Max)%Q /\
  (inject_Z (TARGET_DPI (imageSettings 1048576 Max)) / inject_Z 72 < 25 # 10)%Q.
Proof.
  apply (larger_files_and_max_get_coarser_images 1048576 62914560 Max).
  - discriminate.
  - lia.
Defined.

Lemma canvas_never_exceeds_the_limit_witness :
  0 <= canvasWidth (canvasFor (imageSettings 1048576 Balanced) (3000 # 1) (4000 # 1))
    <= MAX_DIMENSION (imageSettings 1048576 Balanced) /\
  0 <= canvasHeight (canvasFor (imageSettings 1048576 Balanced) (3000 # 1) (4000 # 1))
    <= MAX_DIMENSION (imageSettings 1048576 Balanced) /\
  (0 < canvasScale (canvasFor (imageSettings 1048576 Balanced) (3000 # 1) (4000 # 1))
   <= 25 # 10)%Q.
Proof.
  apply (canvas_never_exceeds_the_limit (imageSettings 1048576 Balanced) (3000 # 1) (4000 # 1)).
  - vm_compute. reflexivity.
  - vm_compute. discriminate.
  - vm_compute. discriminate.
Defined.

Lemma dedicated_worker_never_compresses_witness :
  (forall m,
      handleCompressChunk Example.dedicated m
      = PostsError ("Failed to load WASM: " ++ "window is not defined")) /\
  (forall chunkPdf chunkOptions chunkIndex s,
      snd (compressChunk Example.workerJob chunkPdf chunkOptions chunkIndex s)
      = Rejected
          (Error (if ww_inTime Example.dedicated
                  then "Failed to load WASM: " ++ "window is not defined"
                  else "Chunk " ++ show_Z chunkIndex ++ " compression timed out after " ++
                       show_Z (or_default_Z (opt_timeout chunkOptions) 300000) ++ "ms"))) /\
  (classifyError (Error "window is not defined") <> INVALID_PDF ->
   classifyError (Error "window is not defined") <> OUT_OF_MEMORY ->
   classifyError (Error ("Failed to load WASM: " ++ "window is not defined"))
   = WASM_LOAD_FAILED /\
   forall p degrade callback,
     shouldRetry
       (snd (handleErrorWithGracefulDegradation
               (Error ("Failed to load WASM: " ++ "window is not defined"))
               p degrade callback))
     = false) /\
  (forall p acts result,
      compressWithPreset Example.workerJob Scenario.samplePdf
        (withPreset (fullOptions (Scenario.job "max" true None None) Max) p)
      <> (acts, Resolved result)) /\
  (if not_false (in_gracefulDegradation (Scenario.job "max" true None None))
   then snd (compress Example.workerJob (AnArrayBuffer Scenario.samplePdf)
                      (Scenario.job "max" true None None))
        = Resolved (originalPdfResult Example.workerJob Scenario.samplePdf
                      (fullOptions (Scenario.job "max" true None None) Max))
   else exists msg,
       snd (compress Example.workerJob (AnArrayBuffer Scenario.samplePdf)
                     (Scenario.job "max" true None None))
       = Rejected (Error msg)).
Proof.
  apply (dedicated_worker_never_compresses
           Example.workerJob Example.dedicated "window is not defined"
           Scenario.samplePdf (Scenario.job "max" true None None) Max 3
           (fst (compress Example.workerJob (AnArrayBuffer Scenario.samplePdf)
                          (Scenario.job "max" true None None)))).
  - intros m. reflexivity.
  - reflexivity.
  - reflexivity.
  - reflexivity.
  - reflexivity.
  - reflexivity.
  - lia.
  - vm_compute. reflexivity.
  - vm_compute. reflexivity.
Defined.


